(* ===== verification/_CoqProject ===== *)
-Q . S2P
Prelude.v
Interfaces.v
RefModels.v
Trace.v
Wire.v
Compact.v
TimerTable.v
Transport.v
Cancellations.v
ServerInFlight.v
ClientInFlight.v
ClientDispatch.v
ClientSpec.v
ClientRefine.v
ClientFrame.v
ClientCalls.v
ClientSafety.v
ClientProps.v
ClientDeadlines.v
ClientAccounts.v
ClientTermination.v
ServerChannel.v
ServerSpec.v
ServerRefine.v
ServerRequests.v
ServerSystem.v
Limits.v
ServerFrame.v
ServerTermination.v
ServerProps.v
Throttling.v
ServerWatch.v
ServerDeadlines.v
ChannelsPerKey.v
Hooks.v
Stubs.v
Plugins.v
Codegen.v
MacroTests.v
Incoming.v
SpawnIncoming.v
ExampleServer.v
Peers.v
Sequential.v
Subscriber.v
SerdeTransport.v
EndToEnd.v
EndToEndAborts.v
Integration.v
PubSub.v
Registry.v
Examples.v
SerdeTests.v
ServerTests.v
ClientTests.v
