(* ===== verification/Prelude.v ===== *)
(** * tarpc: a verification development (root file and prelude)

    tarpc is an RPC framework.  A service is a trait, from which a macro makes the types of
    its requests and responses, a client and a dispatch function.  A client is a handle that
    queues calls and a task, the request dispatch, that owns a transport: it writes requests
    and cancellations, reads responses, and expires deadlines.  A server is a channel over a
    transport, which starts, cancels and expires requests, and a stream of request handlers
    over that channel, which run the service function and queue its responses to be written.
    Transports, limits, hooks and stubs compose with these.

    The development translates this code into Rocq functions and proves what makes it
    correct.  A method that takes [&mut self] is a function in the state monad [M]; a poll
    returns [Poll]; a failure is a [Result]; a panic is a value of [Exec].  Code that is not
    in the repository is a class of operations, an argument of the definitions, with a class
    of laws that its documentation promises; only theorems assume laws.  Of the queues no law
    says that a [poll_recv] that gives nothing found nothing: tokio allows it to fail
    spuriously, and [exhausted] is all that is concluded.  Of the timers one law says more
    than the documentation does, [DelayQueuePrompt]: a timer fires when it is polled a fixed
    resolution after its due time.  Only the theorems on overdue requests assume it
    ([ClientDeadlines]; [ServerDeadlines], but for cancellations).

    ** Files, and the code they model (paths under src/tarpc/src unless they say otherwise)

    The ground:
    - [Prelude] (this file): [Poll], [Result], [Exec], the monad [M], its weakest
      preconditions ([wp], [wlp], [terminates], [keeps], [fits]) with the rules and tactics that
      prove them, and lemmas on lists and options.
    - [Interfaces]: tokio's [mpsc] and [oneshot], tokio-util's [DelayQueue], futures'
      [AbortHandle], opentelemetry's contexts: operations and laws.  [RefModels] has an instance
      of each, which the witnesses and the replayed tests run.
    - [Trace] (trace.rs), [Wire] (lib.rs, context.rs, util.rs, util/serde.rs): trace contexts,
      messages, contexts, deadlines and error kinds on the wire, errors and their casts.
    - [Compact] (util.rs): the compaction of hash maps, with its floats.
    - [TimerTable]: the invariants shared by the two tables of requests in flight.
    - [Transport] (transport.rs, transport/channel.rs): the trait as a class, the unbounded
      in-memory transport, recording transports, the failing transport of the client's tests.
    - [Cancellations] (cancellations.rs).

    The client:
    - [ClientInFlight] (client/in_flight_requests.rs): the table of requests in flight.
    - [ClientDispatch] (client.rs, [RequestDispatch]): the dispatch, method by method.
    - [ClientCalls] (client.rs, [Channel], [ResponseGuard]): calls as state machines polled
      against the dispatch, dropping them, handles; the system of a client as a step relation.
    - [ClientSpec], [ClientRefine]: an abstract client and that a poll of the dispatch is a
      sequence of its events.  [ClientFrame]: what a poll leaves alone.  [ClientSafety]: the
      invariant of reachable systems.  [ClientAccounts]: what became of each request written.
      [ClientProps], [ClientDeadlines], [ClientTermination]: the theorems.

    The server:
    - [ServerInFlight] (server/in_flight_requests.rs): the table, with the abort states shared
      with the handlers.
    - [ServerChannel] (server.rs, [Channel], [BaseChannel]): the trait as a class and its
      standard instance.
    - [ServerRequests] (server.rs, [Requests], [InFlightRequest]): reading and writing through a
      channel, and [execute] as a state machine.  Proved against [ChannelLaws], what a channel
      promises; [ServerRefine] discharges it for [BaseChannel], [Limits] and [Incoming] for the
      decorators.
    - [ServerSpec], [ServerRefine]: an abstract channel, and the refinement.  [ServerSystem]: a
      server with its handlers as a step relation.  [ServerWatch]: what a channel promises
      about the handlers of the requests it tracks: [ChannelWatch], kept by [BaseChannel] and
      [MaxRequests], and [ChannelSettles], kept by [BaseChannel] (by [MaxRequests] only while
      its transport can be written to).  [ServerFrame], [ServerTermination], [ServerProps],
      [ServerDeadlines]: the theorems.
    - [Limits] and [Throttling] (server/limits/requests_per_channel.rs), [ChannelsPerKey]
      (server/limits/channels_per_key.rs), [Incoming] (server/incoming.rs), [Hooks] (server.rs and
      server/request_hook/).

    Around them:
    - [Stubs] (client/stub/).
    - [Plugins] (src/plugins/src/lib.rs: the macro's checks and names), [Codegen] (the rest of
      it: every item the macro emits, as a syntax tree, when the compiler takes these names,
      and what the emitted client and dispatch do), [MacroTests] (its tests, replayed).
    - [SpawnIncoming] (server/incoming.rs, [spawn_incoming]): many connections, the tasks of each
      run in any order, and what is left when one ends.  [ExampleServer]
      (src/example-service/src/server.rs): the main loop of the example server, with its limit
      per IP address; [buffer_unordered] enters by its contract.
    - [Peers] (transport/channel.rs, the bounded channel; both in-memory transports deliver in
      order), [SerdeTransport] (serde_transport.rs).
    - [EndToEnd]: a client and a server over the in-memory transport.  [EndToEndAborts]: what
      becomes of the handlers of calls given up.  [Integration]: the same network run by a
      scheduler, and the test of transport/channel.rs.
    - [PubSub], [Subscriber] and [Registry], [Sequential] (src/tarpc/examples/pubsub.rs and
      registry.rs: the publisher and the subscriber's end; the handshake and the runner).
      [Examples]: the tracing and compression examples and the greeting services.
    - [ServerTests], [ClientTests], [SerdeTests]: the unit tests of client, server, tables, limits
      and serde transport, with the test doubles of server/testing.rs, a reserved slot of the
      request queue and sockets joined in memory, as programs on the model that are evaluated.
      The tests of stubs, deadlines, errors and compaction are in the files of their code.

    ** What the theorems show

    - End to end: a call returns what the service answered to that call's own request
      ([EndToEnd.end_to_end]), and in the replayed test it does return
      ([Integration.call_completes], one schedule only); once the cancellation of a dropped call
      is no longer on its way, nobody works for the call, unless its deadline has passed and
      the server's timer is set ([EndToEndAborts.dropped_call_stops_work]).
    - Client: a call's result is justified by what the server sent for it; the messages
      written follow the protocol (no id twice, a cancellation at most once and after its
      request); an abandoned request is cancelled; no request is forgotten; a dispatch that
      ends has answered every call (unless the server closed its half); the number in flight
      is bounded; a poll of the dispatch refines the abstract client, does not panic, and
      returns; when it is pending nothing is overdue, so a call is answered soon after its
      deadline whatever the server does.
    - Server: at most one response per request received; each response is the outcome of the
      service on a request with that id; a poll of a channel refines the abstract channel;
      when [Requests] over a [BaseChannel] has nothing to yield, nothing is overdue and its
      queues have been received from; a handler that still runs for a canceled or overdue
      request is aborted; polls return; handlers end once; behind [MaxRequests] every request
      is handed out within the limit or told [WouldBlock], though its waiting can keep
      deadlines from being noticed ([ServerDeadlines.throttled_channel_stalls]).  All this holds of
      each of many connections, and when one ends its handlers are aborted.  A server that
      executes requests one after another answers as well, but can stall for ever.
    - Tables: any sequence of operations refines a map of due times; deadlines are enforced.
    - Channels per key: dropping a channel is two steps, the reference count and the notice.
      The limit holds when no channel of a key arrives between the first and the processing of
      the notice; an execution breaks it without that.  The limit per tracker always holds.
    - Far deadlines: a deadline beyond the timer's range panics the server that reads it, and
      a duration beyond the clock's range panics the receiver.  The other theorems say where
      they assume that deadlines are within the range ([far], [near], [timely]); [wp] does not
      count this panic against the code.
    - Data: round trips of deadlines, error kinds and trace ids; delivery in order by the
      in-memory transports; hooks, stubs; compaction keeps room for the entries.
    - Macro: which traits it takes, when it panics, when what it emits obeys the listed rules on
      names, and that a call of a generated client runs that method of the service.  Names are
      ASCII.
    - Examples: which subscribers a publication reaches, as long as addresses are not reused
      before they are collected, what its tasks can panic on, and how a subscriber brings the
      server down; the negotiation of a service; retries over a failing service; transparent
      compression; the connections of the example server, which a reset one can panic.

    ** Bounds

    A Rust loop is a [Fixpoint] on a bound of rounds, and comes to [OutOfFuel] when it is used
    up.  Safety theorems hold for every bound.  Termination theorems compute a bound that is
    enough from what is queued, in flight and readable ([ClientTermination],
    [ServerTermination]), for transports of which a flush makes room and finitely many items
    can be read without waiting.  Time is in nanoseconds ([Z]); identifiers are kept at their
    width, request ids wrap around at 2^64.

    ** Not modelled

    Spans and log events (and the arithmetic done only for them); waking of tasks, and the
    scheduler: a poll can happen at any time, which covers every schedule; accessors that only
    return a field; syn's parsing of tokens, and typing by the compiler other than of names;
    sockets, TLS, command-line flags and the set-up of tracing in the example programs; the
    integration tests under src/tarpc/tests, and the two tests of [TrackedChannel]'s stream and
    sink. *)

From stdpp Require Export base gmap list strings fin_maps.
From Stdlib Require Export ZArith Lia.

(** ** Rust data: [Poll], [Result] and the outcome of running Rust code *)

(** [std::task::Poll]. *)
Inductive Poll (A : Type) : Type :=
| Ready (a : A)
| Pending.
Arguments Ready {A} a.
Arguments Pending {A}.

(** [std::result::Result]. *)
Inductive Result (A E : Type) : Type :=
| Ok (a : A)
| Err (e : E).
Arguments Ok {A E} a.
Arguments Err {A E} e.

(** Why code panics.  By their documentation, tokio's timer does so for a timeout beyond
    its range, and the addition of a duration to an instant when the sum cannot be
    represented; the deadline of a request can be that far away.  Any other panic would
    be a broken assumption of tarpc. *)
Inductive Panic : Type :=
| Unexpected
| FarDeadline.

(** What running a piece of Rust code can come to: a value, a panic, or (for
    loops that the model runs with fuel) not finished yet. *)
Inductive Exec (A : Type) : Type :=
| Done (a : A)
| Panicked (p : Panic)
| OutOfFuel.
Arguments Done {A} a.
Arguments Panicked {A} p.
Arguments OutOfFuel {A}.

Definition poll_map {A B} (f : A → B) (p : Poll A) : Poll B :=
  match p with Ready a => Ready (f a) | Pending => Pending end.

Definition is_pending {A} (p : Poll A) : bool :=
  match p with Pending => true | Ready _ => false end.

Definition result_map {A B E} (f : A → B) (r : Result A E) : Result B E :=
  match r with Ok a => Ok (f a) | Err e => Err e end.

Definition result_map_err {A E F} (f : E → F) (r : Result A E) : Result A F :=
  match r with Ok a => Ok a | Err e => Err (f e) end.

Definition is_ok {A E} (r : Result A E) : bool :=
  match r with Ok _ => true | Err _ => false end.

(** [Option::expect] and [Result::expect]. *)
Definition expect {A} (o : option A) : Exec A :=
  match o with Some a => Done a | None => Panicked Unexpected end.

Definition expect_ok {A E} (r : Result A E) : Exec A :=
  match r with Ok a => Done a | Err _ => Panicked Unexpected end.

Global Instance exec_ret : MRet Exec := @Done.
Global Instance exec_bind : MBind Exec := λ A B f m,
  match m with
  | Done a => f a
  | Panicked p => Panicked p
  | OutOfFuel => OutOfFuel
  end.

(** ** A state monad for methods that take [&mut self]

    [M S A] is the type of a method on state [S] returning an [A]: it may panic,
    and a loop run with too little fuel is [OutOfFuel]. *)

Definition M (S A : Type) : Type := S → Exec (A * S).

Global Instance M_ret {S} : MRet (M S) := λ A a s, Done (a, s).
Global Instance M_bind {S} : MBind (M S) := λ A B f m s,
  match m s with
  | Done (a, s') => f a s'
  | Panicked p => Panicked p
  | OutOfFuel => OutOfFuel
  end.

Definition get {S} : M S S := λ s, Done (s, s).
Definition put {S} (s' : S) : M S unit := λ _, Done (tt, s').
Definition modify {S} (f : S → S) : M S unit := λ s, Done (tt, f s).
Definition panic {S A} : M S A := λ _, Panicked Unexpected.
Definition no_fuel {S A} : M S A := λ _, OutOfFuel.
Definition lift_exec {S A} (e : Exec A) : M S A := λ s,
  match e with
  | Done a => Done (a, s)
  | Panicked p => Panicked p
  | OutOfFuel => OutOfFuel
  end.

Declare Scope rust_scope.
Delimit Scope rust_scope with rust.

(** [ready!(e)]: return [Pending] at once when [e] is pending. *)
Notation "'ready!' x ← e ; k" :=
  (e ≫= λ p, match p with Pending => mret Pending | Ready x => k end)
  (at level 20, x pattern, e at level 100, k at level 200,
   only parsing) : rust_scope.

(** [ready!(e?)] where [e] polls a [Result] and the enclosing function returns
    [Poll<Option<Result<_, _>>>]. *)
Notation "'ready?' x ← e ; k" :=
  (e ≫= λ p, match p with
             | Pending => mret Pending
             | Ready (Err err) => mret (Ready (Some (Err err)))
             | Ready (Ok x) => k
             end)
  (at level 20, x pattern, e at level 100, k at level 200,
   only parsing) : rust_scope.

Open Scope rust_scope.

(** Weakest precondition: [m] does not panic from [s], unless the timer refuses a
    deadline, and if it finishes its result and final state satisfy [Q]. *)
Definition wp {S A} (m : M S A) (Q : A → S → Prop) (s : S) : Prop :=
  match m s with
  | Done (a, s') => Q a s'
  | Panicked Unexpected => False
  | Panicked FarDeadline => True
  | OutOfFuel => True
  end.


(** Weakest liberal precondition: if [m] finishes, its result and final state
    satisfy [Q]. *)
Definition wlp {S A} (m : M S A) (Q : A → S → Prop) (s : S) : Prop :=
  ∀ a s', m s = Done (a, s') → Q a s'.

(** [m] does not run out of fuel from [s]. *)
Definition terminates {S A} (m : M S A) (s : S) : Prop := m s ≠ OutOfFuel.

(** Both: [m] does not run out of fuel, and if it does not panic either its result and
    final state satisfy [Q]. *)
Definition total {S A} (m : M S A) (Q : A → S → Prop) (s : S) : Prop :=
  match m s with
  | Done (a, s') => Q a s'
  | Panicked _ => True
  | OutOfFuel => False
  end.

(** ** Machine integers *)

Definition u32_modulus : Z := (2 ^ 32)%Z.
Definition u64_modulus : Z := (2 ^ 64)%Z.
Definition u128_modulus : Z := (2 ^ 128)%Z.

(** [AtomicUsize::fetch_add(1)] on a 64-bit target: the old value, and the new
    one with wrap-around. *)
Definition fetch_add_one (n : Z) : Z * Z := (n, ((n + 1) mod u64_modulus)%Z).

(** ** Instants and durations (nanoseconds) *)

(** [Instant::duration_since] saturates at zero. *)
Definition duration_since (later earlier : Z) : Z := Z.max 0 (later - earlier)%Z.

(** ** Generic lemmas *)

Section generic.
Context {A B : Type}.

Lemma exec_bind_done (m : Exec A) (f : A → Exec B) b :
  (m ≫= f) = Done b ↔ ∃ a, m = Done a ∧ f a = Done b.
Proof. split; [destruct m; [eauto|done|done] | by intros (a & -> & ?)]. Qed.

Lemma expect_done (o : option A) a : expect o = Done a ↔ o = Some a.
Proof. destruct o; simpl; naive_solver. Qed.

Lemma list_cons_or_nil (l : list A) : l = [] ∨ ∃ x l', l = x :: l'.
Proof. destruct l; eauto. Qed.
End generic.

Lemma pair3_eta {A B C} (p : A * B * C) : p = (p.1.1, p.1.2, p.2).
Proof. by destruct p as [[??]?]. Qed.

(** An invariant of a step relation holds of every state reached from one it holds of. *)
Lemma rtc_preserves {A} (R : A → A → Prop) (P : A → Prop) x y :
  (∀ a b, R a b → P a → P b) → rtc R x y → P x → P y.
Proof. intros HR. induction 1; eauto. Qed.

Section wp_rules.
Context {S A B : Type}.
Implicit Types (s : S).

Lemma wp_ret (a : A) (Q : A → S → Prop) s : Q a s → wp (mret a) Q s.
Proof. done. Qed.

Lemma wp_bind (m : M S A) (f : A → M S B) Q s :
  wp m (λ a s', wp (f a) Q s') s → wp (m ≫= f) Q s.
Proof. intros H. cbv [wp mbind M_bind] in *. by destruct (m s) as [[a s1]|[]|]. Qed.

Lemma wp_mono (m : M S A) (P Q : A → S → Prop) s :
  wp m P s → (∀ a s', P a s' → Q a s') → wp m Q s.
Proof. unfold wp. destruct (m s) as [[a s']|[]|]; eauto. Qed.

Lemma wp_done (m : M S A) (Q : A → S → Prop) s a s' :
  wp m Q s → m s = Done (a, s') → Q a s'.
Proof. unfold wp. intros H Hm. by rewrite Hm in H. Qed.

Lemma wp_and (m : M S A) (P Q : A → S → Prop) s :
  wp m P s → wp m Q s → wp m (λ a s', P a s' ∧ Q a s') s.
Proof. unfold wp. destruct (m s) as [[a s']|[]|]; done. Qed.

Lemma wp_get (Q : S → S → Prop) s : Q s s → wp get Q s.
Proof. done. Qed.

Lemma wp_put s' (Q : unit → S → Prop) s : Q tt s' → wp (put s') Q s.
Proof. done. Qed.

Lemma wp_modify f (Q : unit → S → Prop) s : Q tt (f s) → wp (modify f) Q s.
Proof. done. Qed.

Lemma wp_lift (e : Exec A) a (Q : A → S → Prop) s : e = Done a → Q a s → wp (lift_exec e) Q s.
Proof. by intros ->. Qed.

Lemma M_bind_done (m : M S A) (f : A → M S B) s b s2 :
  (m ≫= f) s = Done (b, s2) ↔ ∃ a s1, m s = Done (a, s1) ∧ f a s1 = Done (b, s2).
Proof.
  cbv [mbind M_bind]. destruct (m s) as [[a s1]| |]; naive_solver.
Qed.

Lemma terminates_bind (m : M S A) (f : A → M S B) s :
  terminates m s → (∀ a s', m s = Done (a, s') → terminates (f a) s') → terminates (m ≫= f) s.
Proof.
  unfold terminates. intros Hm Hf. cbv [mbind M_bind]. destruct (m s) as [[a s']|[]|] eqn:E; [by eapply Hf|done..].
Qed.

Lemma terminates_bind_wlp (m : M S A) (f : A → M S B) Q s :
  terminates m s → wlp m Q s → (∀ a s', Q a s' → terminates (f a) s') → terminates (m ≫= f) s.
Proof. intros Hm Hw Hf. apply terminates_bind; [done|]. intros a s' E. by apply Hf, Hw. Qed.

Lemma terminates_done (m : M S A) x s : m s = Done x → terminates m s.
Proof. unfold terminates. by intros ->. Qed.

Lemma wlp_ret (a : A) (Q : A → S → Prop) s : Q a s → wlp (mret a) Q s.
Proof. by intros ??? [= -> ->]. Qed.

Lemma wlp_bind (m : M S A) (f : A → M S B) Q s :
  wlp m (λ a s', wlp (f a) Q s') s → wlp (m ≫= f) Q s.
Proof. intros Hm b s2 (a & s1 & H1 & H2)%M_bind_done. by eapply Hm. Qed.

Lemma wlp_mono (m : M S A) (P Q : A → S → Prop) s :
  wlp m P s → (∀ a s', P a s' → Q a s') → wlp m Q s.
Proof. unfold wlp. eauto. Qed.

Lemma wlp_true (m : M S A) s : wlp m (λ _ _, True) s.
Proof. done. Qed.

Lemma wlp_get (Q : S → S → Prop) s : Q s s → wlp get Q s.
Proof. by intros ??? [= <- <-]. Qed.

Lemma wlp_modify f (Q : unit → S → Prop) s : Q tt (f s) → wlp (modify f) Q s.
Proof. by intros ??? [= <- <-]. Qed.

Lemma wlp_wp (m : M S A) (Q : A → S → Prop) s : wp m Q s → wlp m Q s.
Proof. intros Hm a s' E. by eapply wp_done. Qed.

Lemma wp_wlp (m : M S A) (P Q : A → S → Prop) s :
  wp m P s → wlp m Q s → wp m (λ a s', P a s' ∧ Q a s') s.
Proof. unfold wp, wlp. destruct (m s) as [[a s']|[]|]; eauto. Qed.

Lemma total_intro (m : M S A) (Q : A → S → Prop) s : terminates m s → wlp m Q s → total m Q s.
Proof. unfold total, wlp, terminates. destruct (m s) as [[a s']|[]|]; eauto. Qed.

Lemma total_wp (m : M S A) (Q : A → S → Prop) s : terminates m s → wp m Q s → total m Q s.
Proof. intros Ht Hw. by apply total_intro, wlp_wp. Qed.

Lemma total_terminates (m : M S A) (Q : A → S → Prop) s : total m Q s → terminates m s.
Proof. unfold total, terminates. by destruct (m s) as [[a s']|[]|]. Qed.

Lemma total_wlp (m : M S A) (Q : A → S → Prop) s : total m Q s → wlp m Q s.
Proof. unfold total, wlp. intros Ht a s' E. by rewrite E in Ht. Qed.

Lemma total_ret (a : A) (Q : A → S → Prop) s : Q a s → total (mret a) Q s.
Proof. done. Qed.

Lemma total_bind (m : M S A) (f : A → M S B) Q s :
  total m (λ a s', total (f a) Q s') s → total (m ≫= f) Q s.
Proof. intros Hm. cbv [total mbind M_bind] in *. by destruct (m s) as [[a s1]|[]|]. Qed.

Lemma total_mono (m : M S A) (P Q : A → S → Prop) s :
  total m P s → (∀ a s', P a s' → Q a s') → total m Q s.
Proof. unfold total. destruct (m s) as [[a s']|[]|]; eauto. Qed.

Lemma total_and_wp (m : M S A) (P Q : A → S → Prop) s :
  total m P s → wp m Q s → total m (λ a s', P a s' ∧ Q a s') s.
Proof. unfold total, wp. destruct (m s) as [[a s']|[]|]; done. Qed.
End wp_rules.

(** ** What a method does to the state, whatever it answers

    [keeps R m]: a run of [m] relates the state before and after by the preorder [R]. *)
Definition keeps {S A} (R : relation S) (m : M S A) : Prop := ∀ s, wlp m (λ _ s', R s s') s.

Section keeps.
Context {S : Type} (R : relation S) `{!PreOrder R}.

Lemma keeps_bind {A B} (m : M S A) (f : A → M S B) : keeps R m → (∀ a, keeps R (f a)) → keeps R (m ≫= f).
Proof.
  intros Hm Hf s. apply wlp_bind. eapply wlp_mono; [apply Hm|]. intros a s1 H1.
  eapply wlp_mono; [apply Hf|]. intros b s2 H2. etrans; [exact H1|exact H2].
Qed.
Lemma keeps_ret {A} (a : A) : keeps R (mret a).
Proof. intros s. apply wlp_ret. reflexivity. Qed.
Lemma keeps_get : keeps R get.
Proof. intros s. apply wlp_get. reflexivity. Qed.
Lemma keeps_modify f : (∀ s, R s (f s)) → keeps R (modify f).
Proof. intros Hf s. by apply wlp_modify. Qed.
Lemma keeps_no_fuel {A} : keeps R (no_fuel (A:=A)).
Proof. by intros s a s'. Qed.
Lemma keeps_lift {A} (e : Exec A) : keeps R (lift_exec e).
Proof. intros s a s'. unfold lift_exec. destruct e; [|done..]. intros [= <- <-]. reflexivity. Qed.
Lemma keeps_weaken {A} (R' : relation S) (m : M S A) : (∀ s s', R' s s' → R s s') → keeps R' m → keeps R m.
Proof. intros HR Hm s. eapply wlp_mono; [apply Hm|]. eauto. Qed.
End keeps.

(** [fits I m Q]: from states in [I], [m] does not make the timer refuse a deadline,
    ends in [I], and its answer satisfies [Q]. *)
Definition fits {S A} (I : S → Prop) (m : M S A) (Q : A → Prop) : Prop := ∀ s, I s →
  match m s with
  | Done (a, s') => I s' ∧ Q a
  | Panicked FarDeadline => False
  | Panicked Unexpected | OutOfFuel => True
  end.

Section fits.
Context {S : Type} (I : S → Prop).

Lemma fits_bind_post {A B} (m : M S A) (f : A → M S B) P Q :
  fits I m P → (∀ a, P a → fits I (f a) Q) → fits I (m ≫= f) Q.
Proof.
  intros Hm Hf s Hs. specialize (Hm s Hs). cbv [mbind M_bind]. destruct (m s) as [[a s1]|[]|]; [|done..].
  destruct Hm. by apply Hf.
Qed.
Lemma fits_bind {A B} (m : M S A) (f : A → M S B) Q :
  fits I m (λ _, True) → (∀ a, fits I (f a) Q) → fits I (m ≫= f) Q.
Proof. intros Hm Hf. by eapply fits_bind_post. Qed.
Lemma fits_ret {A} (a : A) (Q : A → Prop) : Q a → fits I (mret a) Q.
Proof. by intros HQ s Hs. Qed.
Lemma fits_get : fits I get (λ _, True).
Proof. by intros s Hs. Qed.
Lemma fits_modify f : (∀ s, I s → I (f s)) → fits I (modify f) (λ _, True).
Proof. intros Hf s Hs. split; [by apply Hf|done]. Qed.
Lemma fits_no_fuel {A} (Q : A → Prop) : fits I no_fuel Q.
Proof. by intros s Hs. Qed.
Lemma fits_expect {A E} (r : Result A E) : fits I (lift_exec (expect_ok r)) (λ _, True).
Proof. intros s Hs. by destruct r. Qed.
Lemma fits_weaken {A} (m : M S A) (P Q : A → Prop) : (∀ a, P a → Q a) → fits I m P → fits I m Q.
Proof. intros HQ Hm s Hs. specialize (Hm s Hs). destruct (m s) as [[a s1]|[]|]; naive_solver. Qed.
Lemma fits_true {A} (m : M S A) (P : A → Prop) : fits I m P → fits I m (λ _, True).
Proof. by apply fits_weaken. Qed.
End fits.

Lemma duration_since_nonneg l e : (0 ≤ duration_since l e)%Z.
Proof. unfold duration_since. lia. Qed.

(** A deadline that is still ahead is recovered exactly from the time left. *)
Lemma duration_since_future l e :
  (e ≤ l)%Z → (e + duration_since l e = l)%Z.
Proof. unfold duration_since. lia. Qed.

Lemma duration_since_max l e :
  (e + duration_since l e = Z.max e l)%Z.
Proof. unfold duration_since. lia. Qed.

Section gmap_facts.
Context `{Countable K} {V : Type}.
Implicit Types m : gmap K V.

Lemma gmap_size_delete_Some m i x :
  m !! i = Some x → size m = S (size (delete i m)).
Proof.
  intros Hi. rewrite <- (insert_delete_id m i x Hi) at 1.
  apply map_size_insert_None, lookup_delete_eq.
Qed.

Lemma gmap_size_delete_le m i : size (delete i m) ≤ size m.
Proof.
  destruct (m !! i) eqn:E.
  - apply gmap_size_delete_Some in E. lia.
  - rewrite delete_id; done.
Qed.

Lemma gmap_size_insert_le m i x : size (<[i:=x]> m) ≤ S (size m).
Proof.
  destruct (m !! i) eqn:E.
  - rewrite map_size_insert_Some by eauto. lia.
  - rewrite map_size_insert_None by done. lia.
Qed.
End gmap_facts.

(** ** Automation *)

(** Facts about the state of the third-party objects, and the invariants'
    preservation lemmas, are resolved through [tarpc]. *)
Create HintDb tarpc discriminated.
#[export] Hint Constants Opaque : tarpc.
#[export] Hint Resolve keeps_no_fuel fits_get fits_no_fuel fits_expect : tarpc.
#[export] Hint Resolve duration_since_nonneg gmap_size_delete_le
  gmap_size_insert_le : tarpc.

(** Follows the code of a method: a sequence keeps a relation, or fits, if its parts do. *)
Ltac keeps :=
  repeat match goal with
  | |- ∀ _, keeps _ _ => intros ?
  | |- keeps _ (_ ≫= _) => apply keeps_bind; [apply _| |intros ?]
  | |- keeps _ (let '(_, _) := ?x in _) => destruct x
  | |- keeps _ (match ?x with _ => _ end) => destruct x
  | |- keeps _ (mret _) => apply keeps_ret, _
  | |- keeps _ get => apply keeps_get, _
  | |- keeps _ (lift_exec _) => apply keeps_lift, _
  | |- keeps _ _ => solve [eauto with tarpc]
  end.
Ltac fits :=
  repeat match goal with
  | |- ∀ _, fits _ _ _ => intros ?
  | |- fits _ (_ ≫= _) _ => apply fits_bind; [|intros ?]
  | |- fits _ (let '(_, _) := ?x in _) _ => destruct x
  | |- fits _ (match ?x with _ => _ end) _ => destruct x
  | |- fits _ (mret _) _ => apply fits_ret; exact I
  | |- fits _ _ _ => solve [eauto with tarpc]
  end.

(** Invert every [_ ≫= _ = Done _] of the context, step by step. *)
Ltac exec_inv :=
  repeat match goal with
  | H : (_ ≫= _) = Done _ |- _ =>
      apply exec_bind_done in H; destruct H as (? & ? & H)
  | H : expect _ = Done _ |- _ => apply expect_done in H
  | H : Done _ = Done _ |- _ => injection H as H
  | H : Panicked _ = Done _ |- _ => discriminate H
  | H : OutOfFuel = Done _ |- _ => discriminate H
  end; simplify_eq/=.

(** Case split on the innermost [match] of a hypothesis or of the goal. *)
Ltac split_match :=
  match goal with
  | |- context [match ?x with _ => _ end] =>
      lazymatch x with
      | context [match _ with _ => _ end] => fail
      | _ => destruct x eqn:?
      end
  | H : context [match ?x with _ => _ end] |- _ =>
      lazymatch x with
      | context [match _ with _ => _ end] => fail
      | _ => destruct x eqn:?
      end
  end; simplify_eq/=.

Ltac crunch := repeat (exec_inv || split_match).
