(* ===== verification/Interfaces.v ===== *)
(** * Interfaces to the code that is not part of the repository

    tarpc is written against tokio's channels ([mpsc], [oneshot]), tokio-util's
    [DelayQueue] and futures' [AbortHandle].  Their code is not under src/, so
    each is a class of operations, which the model's definitions take as an
    argument, and a class of laws stating what their documentation promises,
    which the theorems take as a hypothesis ([DelayQueuePrompt], kept apart, says
    more, of how late timers fire).  The two ends of a channel are two
    views of one shared object; the model keeps that object and applies the
    operations of both ends to it.  [RefModels] gives an instance of each. *)
From S2P Require Import Prelude.

(** ** tokio::sync::mpsc *)

(** What can be known of a channel: the messages sent and not yet received (in
    order), how many senders are alive, and whether the receiver closed it. *)
Record MpscView (A : Type) : Type := MkMpscView {
  mv_queue : list A;
  mv_senders : nat;
  mv_closed : bool;
}.
Arguments MkMpscView {A} _ _ _.
Arguments mv_queue {A} _.
Arguments mv_senders {A} _.
Arguments mv_closed {A} _.

Definition mv_set_queue {A} (q : list A) (v : MpscView A) : MpscView A :=
  MkMpscView q (mv_senders v) (mv_closed v).

Class Mpsc : Type := {
  mpsc : Type → Type;
  (** [mpsc::channel(buffer)] and [mpsc::unbounded_channel()]. *)
  mpsc_channel : ∀ {A}, Z → Exec (mpsc A);
  mpsc_unbounded_channel : ∀ {A}, mpsc A;
  (** One poll of the future [Sender::send(x)]. *)
  mpsc_poll_send : ∀ {A}, mpsc A → A → Poll (Result unit A) * mpsc A;
  (** [UnboundedSender::send(x)]. *)
  mpsc_unbounded_send : ∀ {A}, mpsc A → A → Result unit A * mpsc A;
  (** [Receiver::poll_recv]. *)
  mpsc_poll_recv : ∀ {A}, mpsc A → Poll (option A) * mpsc A;
  (** [Receiver::close]; dropping the receiver has the same effect on senders. *)
  mpsc_close : ∀ {A}, mpsc A → mpsc A;
  (** [Sender::clone] and dropping a sender. *)
  mpsc_clone_sender : ∀ {A}, mpsc A → mpsc A;
  mpsc_drop_sender : ∀ {A}, mpsc A → mpsc A;
  (** [UnboundedSender::is_closed]. *)
  mpsc_is_closed : ∀ {A}, mpsc A → bool;
}.

(** The documented outcomes of [poll_recv]: the oldest message; the end of the
    stream, only when nothing is queued and the channel is closed or has no
    sender left; or pending, possibly spuriously. *)
Definition recv_allowed {A} (v : MpscView A) (r : Poll (option A)) (v' : MpscView A) : Prop :=
  match r with
  | Ready (Some x) => ∃ q, mv_queue v = x :: q ∧ v' = mv_set_queue q v
  | Ready None => mv_queue v = [] ∧ (mv_senders v = 0 ∨ mv_closed v = true) ∧ v' = v
  | Pending => v' = v
  end.

Definition send_allowed {A} (x : A) (v : MpscView A) (r : Poll (Result unit A)) (v' : MpscView A) : Prop :=
  match r with
  | Ready (Ok _) => v' = mv_set_queue (mv_queue v ++ [x]) v
  | Ready (Err y) => y = x ∧ mv_closed v = true ∧ v' = v
  | Pending => v' = v
  end.

Class MpscLaws `{Mpsc} : Type := {
  mpsc_view : ∀ {A}, mpsc A → MpscView A;
  law_channel : ∀ A cap, (0 < cap)%Z →
    ∃ c : mpsc A, mpsc_channel cap = Done c ∧ mpsc_view c = MkMpscView [] 1 false;
  law_channel_zero : ∀ A, mpsc_channel (A:=A) 0 = Panicked Unexpected;
  law_unbounded_channel : ∀ A,
    mpsc_view (mpsc_unbounded_channel (A:=A)) = MkMpscView [] 1 false;
  law_poll_send : ∀ A (c : mpsc A) x r c',
    mpsc_poll_send c x = (r, c') → send_allowed x (mpsc_view c) r (mpsc_view c');
  law_unbounded_send_open : ∀ A (c : mpsc A) x, mv_closed (mpsc_view c) = false →
    ∃ c', mpsc_unbounded_send c x = (Ok tt, c') ∧
      mpsc_view c' = mv_set_queue (mv_queue (mpsc_view c) ++ [x]) (mpsc_view c);
  law_unbounded_send_closed : ∀ A (c : mpsc A) x, mv_closed (mpsc_view c) = true →
    ∃ c', mpsc_unbounded_send c x = (Err x, c') ∧ mpsc_view c' = mpsc_view c;
  law_poll_recv : ∀ A (c : mpsc A) r c',
    mpsc_poll_recv c = (r, c') → recv_allowed (mpsc_view c) r (mpsc_view c');
  law_close : ∀ A (c : mpsc A),
    mpsc_view (mpsc_close c) =
      MkMpscView (mv_queue (mpsc_view c)) (mv_senders (mpsc_view c)) true;
  law_clone_sender : ∀ A (c : mpsc A),
    mpsc_view (mpsc_clone_sender c) =
      MkMpscView (mv_queue (mpsc_view c)) (S (mv_senders (mpsc_view c))) (mv_closed (mpsc_view c));
  law_drop_sender : ∀ A (c : mpsc A),
    mpsc_view (mpsc_drop_sender c) =
      MkMpscView (mv_queue (mpsc_view c)) (pred (mv_senders (mpsc_view c))) (mv_closed (mpsc_view c));
  law_is_closed : ∀ A (c : mpsc A), mpsc_is_closed c = mv_closed (mpsc_view c);
}.

(** A poll of a stream or a queue that yields nothing, now or ever. *)
Definition yields_nothing {A} (r : Poll (option A)) : Prop := r = Pending ∨ r = Ready None.

Lemma yields_nothing_some {A} (x : A) : ¬ yields_nothing (Ready (Some x)).
Proof. by intros [?|?]. Qed.

(** A channel that was received from for as long as it gave something: nothing is
    queued, or the last [poll_recv] was pending.  (The two differ when [poll_recv]
    fails spuriously, as tokio allows.) *)
Definition exhausted `{!Mpsc, !MpscLaws} {A} (c : mpsc A) : Prop :=
  mv_queue (mpsc_view c) = [] ∨ ∃ c0, mpsc_poll_recv c0 = (Pending, c).

Lemma recv_nothing `{!Mpsc, !MpscLaws} {A} (c : mpsc A) r c' :
  mpsc_poll_recv c = (r, c') → yields_nothing r → exhausted c'.
Proof.
  intros Hp Hr. pose proof (law_poll_recv _ _ _ _ Hp) as Hv. destruct Hr as [->| ->]; simpl in Hv.
  - right. by exists c.
  - left. by destruct Hv as (? & _ & ->).
Qed.

(** ** tokio::sync::oneshot *)

(** The value in transit, whether the receiver is closed (or dropped), and
    whether the sender is gone (used or dropped). *)
Record OneshotView (A : Type) : Type := MkOneshotView {
  ov_value : option A;
  ov_rx_closed : bool;
  ov_tx_gone : bool;
}.
Arguments MkOneshotView {A} _ _ _.
Arguments ov_value {A} _.
Arguments ov_rx_closed {A} _.
Arguments ov_tx_gone {A} _.

Class Oneshot : Type := {
  oneshot : Type → Type;
  oneshot_channel : ∀ {A}, oneshot A;
  (** [Sender::send(x)]: consumes the sender. *)
  oneshot_send : ∀ {A}, oneshot A → A → Result unit A * oneshot A;
  (** [Sender::is_closed]. *)
  oneshot_is_closed : ∀ {A}, oneshot A → bool;
  (** Dropping the sender without sending. *)
  oneshot_drop_sender : ∀ {A}, oneshot A → oneshot A;
  (** [Receiver::close]. *)
  oneshot_close : ∀ {A}, oneshot A → oneshot A;
  (** One poll of the receiver; [Err tt] is [RecvError]. *)
  oneshot_poll : ∀ {A}, oneshot A → Poll (Result A unit) * oneshot A;
}.

Definition oneshot_poll_allowed {A} (v : OneshotView A) (r : Poll (Result A unit)) (v' : OneshotView A) : Prop :=
  match r with
  | Ready (Ok x) => ov_value v = Some x ∧
      v' = MkOneshotView None (ov_rx_closed v) (ov_tx_gone v)
  | Ready (Err _) => ov_value v = None ∧ (ov_tx_gone v = true ∨ ov_rx_closed v = true) ∧ v' = v
  | Pending => v' = v
  end.

Class OneshotLaws `{Oneshot} : Type := {
  oneshot_view : ∀ {A}, oneshot A → OneshotView A;
  law_oneshot_channel : ∀ A,
    oneshot_view (oneshot_channel (A:=A)) = MkOneshotView None false false;
  law_oneshot_send : ∀ A (o : oneshot A) x,
    oneshot_view (snd (oneshot_send o x)) =
      MkOneshotView (if ov_rx_closed (oneshot_view o) then ov_value (oneshot_view o) else Some x)
        (ov_rx_closed (oneshot_view o)) true;
  law_oneshot_is_closed : ∀ A (o : oneshot A),
    oneshot_is_closed o = ov_rx_closed (oneshot_view o);
  law_oneshot_drop_sender : ∀ A (o : oneshot A),
    oneshot_view (oneshot_drop_sender o) =
      MkOneshotView (ov_value (oneshot_view o)) (ov_rx_closed (oneshot_view o)) true;
  law_oneshot_close : ∀ A (o : oneshot A),
    oneshot_view (oneshot_close o) =
      MkOneshotView (ov_value (oneshot_view o)) true (ov_tx_gone (oneshot_view o));
  law_oneshot_poll : ∀ A (o : oneshot A) r o',
    oneshot_poll o = (r, o') → oneshot_poll_allowed (oneshot_view o) r (oneshot_view o');
}.

(** ** tokio_util::time::DelayQueue<u64> *)

Class DelayQueue : Type := {
  delay_queue : Type;
  dq_key : Type;
  dq_key_eq_dec :: EqDecision dq_key;
  dq_key_countable :: Countable dq_key;
  (** [DelayQueue::default()]. *)
  dq_new : delay_queue;
  (** [insert(value, timeout)] at time [now]; panics when the timeout is greater than
      the timer supports. *)
  dq_insert : delay_queue → Z → Z → Z → Exec (dq_key * delay_queue);
  (** [remove(key)]: panics when the key is not in the queue. *)
  dq_remove : delay_queue → dq_key → Exec delay_queue;
  (** [poll_expired] at time [now]. *)
  dq_poll_expired : delay_queue → Z → Poll (option Z) * delay_queue;
  dq_is_empty : delay_queue → bool;
  dq_clear : delay_queue → delay_queue;
}.

Class DelayQueueLaws `{DelayQueue} : Type := {
  (** The entries: a key's value and the instant it is due. *)
  dq_view : delay_queue → gmap dq_key (Z * Z);
  law_dq_new : dq_view dq_new = ∅;
  (** The longest timeout supported. *)
  dq_max_timeout : Z;
  law_dq_max_timeout : (0 ≤ dq_max_timeout)%Z;
  law_dq_insert : ∀ q now x timeout, (timeout ≤ dq_max_timeout)%Z →
    ∃ k q', dq_insert q now x timeout = Done (k, q') ∧
      dq_view q !! k = None ∧ dq_view q' = <[k := (x, now + timeout)%Z]> (dq_view q);
  law_dq_insert_far : ∀ q now x timeout, (dq_max_timeout < timeout)%Z →
    dq_insert q now x timeout = Panicked FarDeadline;
  law_dq_remove : ∀ q k, is_Some (dq_view q !! k) →
    ∃ q', dq_remove q k = Done q' ∧ dq_view q' = delete k (dq_view q);
  law_dq_remove_absent : ∀ q k, dq_view q !! k = None → dq_remove q k = Panicked Unexpected;
  law_dq_is_empty : ∀ q, dq_is_empty q = bool_decide (dq_view q = ∅);
  law_dq_clear : ∀ q, dq_view (dq_clear q) = ∅;
  (** An entry is yielded, and removed, only once it is due. *)
  law_dq_expired_some : ∀ q now x q',
    dq_poll_expired q now = (Ready (Some x), q') →
    ∃ k due, dq_view q !! k = Some (x, due) ∧ (due ≤ now)%Z ∧ dq_view q' = delete k (dq_view q);
  law_dq_expired_none : ∀ q now q',
    dq_poll_expired q now = (Ready None, q') → dq_view q = ∅ ∧ dq_view q' = ∅;
  law_dq_expired_pending : ∀ q now q',
    dq_poll_expired q now = (Pending, q') → dq_view q' = dq_view q;
}.

(** Timers fire within a resolution: [poll_expired] is documented to be pending only
    while no value is available, and delays to be rounded up to the next millisecond,
    so an entry overdue by that much is not left pending.  It is an assumption about
    the timer's timeliness of its own; the theorems that rest on it say so. *)
Class DelayQueuePrompt `{DelayQueueLaws} : Type := {
  dq_resolution : Z;
  law_dq_prompt : ∀ q now q' k x due,
    dq_poll_expired q now = (Pending, q') →
    dq_view q !! k = Some (x, due) → (now < due + dq_resolution)%Z;
}.

(** ** futures::future::AbortHandle *)

(** The state shared by an [AbortHandle] and its [AbortRegistration]. *)
Class Abort : Type := {
  abort_inner : Type;
  (** [AbortHandle::new_pair()]. *)
  abort_new : abort_inner;
  (** [AbortHandle::abort()]. *)
  abort_abort : abort_inner → abort_inner;
  (** What [Abortable] checks before it polls its future. *)
  abort_is_aborted : abort_inner → bool;
}.

Class AbortLaws `{Abort} : Prop := {
  law_abort_new : abort_is_aborted abort_new = false;
  law_abort_abort : ∀ i, abort_is_aborted (abort_abort i) = true;
}.

(** ** opentelemetry::trace: identifiers, flags and span contexts *)

Class Otel : Type := {
  otel_trace_id : Type;
  otel_trace_id_from_bytes : list Z → otel_trace_id;
  otel_trace_id_to_bytes : otel_trace_id → list Z;
  otel_span_id : Type;
  otel_span_id_from_bytes : list Z → otel_span_id;
  otel_span_id_to_bytes : otel_span_id → list Z;
  otel_trace_flags : Type;
  otel_flags_SAMPLED : otel_trace_flags;
  otel_flags_default : otel_trace_flags;
  (** [SpanContext::new(trace_id, span_id, flags, is_remote, state)] with the
      default trace state, and the accessors the code uses. *)
  otel_span_context : Type;
  otel_span_context_new : otel_trace_id → otel_span_id → otel_trace_flags → bool → otel_span_context;
  otel_sc_trace_id : otel_span_context → otel_trace_id;
  otel_sc_span_id : otel_span_context → otel_span_id;
  otel_sc_is_sampled : otel_span_context → bool;
}.

Class OtelLaws `{Otel} : Prop := {
  law_otel_trace_id : ∀ bs, length bs = 16 → otel_trace_id_to_bytes (otel_trace_id_from_bytes bs) = bs;
  law_otel_span_id : ∀ bs, length bs = 8 → otel_span_id_to_bytes (otel_span_id_from_bytes bs) = bs;
  law_otel_sc_trace_id : ∀ t s f r, otel_sc_trace_id (otel_span_context_new t s f r) = t;
  law_otel_sc_span_id : ∀ t s f r, otel_sc_span_id (otel_span_context_new t s f r) = s;
  law_otel_sc_sampled : ∀ t s r,
    otel_sc_is_sampled (otel_span_context_new t s otel_flags_SAMPLED r) = true;
  law_otel_sc_unsampled : ∀ t s r,
    otel_sc_is_sampled (otel_span_context_new t s otel_flags_default r) = false;
}.
