(* ===== verification/RefModels.v ===== *)
(** * Reference instances of the interfaces

    The simplest objects that satisfy the laws of [Interfaces].  They make the
    definitions of the development executable, and show that the hypotheses of
    its theorems can be met. *)
From S2P Require Import Prelude Interfaces.

(** ** mpsc: the view itself, with the capacity of a bounded channel *)

Record RefMpsc (A : Type) : Type := MkRefMpsc {
  rm_view : MpscView A;
  rm_capacity : option Z;
}.
Arguments MkRefMpsc {A} _ _.
Arguments rm_view {A} _.
Arguments rm_capacity {A} _.

Definition rm_with {A} (c : RefMpsc A) (v : MpscView A) : RefMpsc A :=
  MkRefMpsc v (rm_capacity c).

Definition rm_full {A} (c : RefMpsc A) : bool :=
  match rm_capacity c with
  | None => false
  | Some cap => bool_decide (cap ≤ Z.of_nat (length (mv_queue (rm_view c))))%Z
  end.

Definition rm_push {A} (c : RefMpsc A) (x : A) : RefMpsc A :=
  rm_with c (mv_set_queue (mv_queue (rm_view c) ++ [x]) (rm_view c)).

Definition rm_poll_send {A} (c : RefMpsc A) (x : A) : Poll (Result unit A) * RefMpsc A :=
  if mv_closed (rm_view c) then (Ready (Err x), c)
  else if rm_full c then (Pending, c) else (Ready (Ok tt), rm_push c x).

Definition rm_poll_recv {A} (c : RefMpsc A) : Poll (option A) * RefMpsc A :=
  match mv_queue (rm_view c) with
  | x :: q => (Ready (Some x), rm_with c (mv_set_queue q (rm_view c)))
  | [] =>
      if mv_closed (rm_view c) || bool_decide (mv_senders (rm_view c) = 0)
      then (Ready None, c) else (Pending, c)
  end.

#[export] Instance ref_mpsc : Mpsc := {|
  mpsc := RefMpsc;
  mpsc_channel A cap :=
    if bool_decide (cap ≤ 0)%Z then Panicked Unexpected
    else Done (MkRefMpsc (MkMpscView [] 1 false) (Some cap));
  mpsc_unbounded_channel A := MkRefMpsc (MkMpscView [] 1 false) None;
  mpsc_poll_send := @rm_poll_send;
  mpsc_unbounded_send A c x :=
    if mv_closed (rm_view c) then (Err x, c) else (Ok tt, rm_push c x);
  mpsc_poll_recv := @rm_poll_recv;
  mpsc_close A c :=
    rm_with c (MkMpscView (mv_queue (rm_view c)) (mv_senders (rm_view c)) true);
  mpsc_clone_sender A c :=
    rm_with c (MkMpscView (mv_queue (rm_view c)) (S (mv_senders (rm_view c))) (mv_closed (rm_view c)));
  mpsc_drop_sender A c :=
    rm_with c (MkMpscView (mv_queue (rm_view c)) (pred (mv_senders (rm_view c))) (mv_closed (rm_view c)));
  mpsc_is_closed A c := mv_closed (rm_view c);
|}.

#[export] Program Instance ref_mpsc_laws : MpscLaws := {|
  mpsc_view := @rm_view;
|}.
Next Obligation.
  intros A cap Hcap. simpl. rewrite bool_decide_eq_false_2 by lia. eauto.
Qed.
Next Obligation. done. Qed.
Next Obligation. done. Qed.
Next Obligation.
  intros A c x r c'. simpl. unfold rm_poll_send.
  destruct (mv_closed (rm_view c)) eqn:?; [|destruct (rm_full c)];
    intros; simplify_eq/=; done.
Qed.
Next Obligation. intros A c x Hc. simpl in *. rewrite Hc. eauto. Qed.
Next Obligation. intros A c x Hc. simpl in *. rewrite Hc. eauto. Qed.
Next Obligation.
  intros A c r c'. simpl. unfold rm_poll_recv.
  destruct (mv_queue (rm_view c)) eqn:Hq; [destruct (_ || _) eqn:Hd|];
    intros; simplify_eq/=; try done.
  - apply orb_true_iff in Hd as [?|?%bool_decide_eq_true]; eauto.
  - eauto.
Qed.
Next Obligation. done. Qed.
Next Obligation. done. Qed.
Next Obligation. done. Qed.
Next Obligation. done. Qed.

(** This channel never fails spuriously: once exhausted, it is empty. *)
Lemma ref_exhausted {A} (c : mpsc A) : exhausted c → mv_queue (mpsc_view c) = [].
Proof.
  intros [?|[c0 Hp]]; [done|]. revert Hp. simpl. unfold rm_poll_recv.
  destruct (mv_queue (rm_view c0)) eqn:Hq; [|done]. destruct (_ || _); [done|]. by intros [= <-].
Qed.

(** ** oneshot *)

Definition ro_send {A} (o : OneshotView A) (x : A) : Result unit A * OneshotView A :=
  if ov_rx_closed o then (Err x, MkOneshotView (ov_value o) true true)
  else (Ok tt, MkOneshotView (Some x) false true).

Definition ro_poll {A} (o : OneshotView A) : Poll (Result A unit) * OneshotView A :=
  match ov_value o with
  | Some x => (Ready (Ok x), MkOneshotView None (ov_rx_closed o) (ov_tx_gone o))
  | None => if ov_tx_gone o || ov_rx_closed o then (Ready (Err tt), o) else (Pending, o)
  end.

#[export] Instance ref_oneshot : Oneshot := {|
  oneshot := OneshotView;
  oneshot_channel A := MkOneshotView None false false;
  oneshot_send := @ro_send;
  oneshot_is_closed A o := ov_rx_closed o;
  oneshot_drop_sender A o := MkOneshotView (ov_value o) (ov_rx_closed o) true;
  oneshot_close A o := MkOneshotView (ov_value o) true (ov_tx_gone o);
  oneshot_poll := @ro_poll;
|}.

#[export] Program Instance ref_oneshot_laws : OneshotLaws := {|
  oneshot_view A o := o;
|}.
Next Obligation. done. Qed.
Next Obligation. intros A o x. simpl. unfold ro_send. by destruct (ov_rx_closed o). Qed.
Next Obligation. done. Qed.
Next Obligation. done. Qed.
Next Obligation. done. Qed.
Next Obligation.
  intros A o r o'. simpl. unfold ro_poll.
  destruct (ov_value o) eqn:?; [|destruct (_ || _) eqn:Hd];
    intros; simplify_eq/=; try done.
  apply orb_true_iff in Hd. eauto.
Qed.

(** ** DelayQueue: a map of entries, scanned for the earliest one *)

Fixpoint earliest (l : list (nat * (Z * Z))) : option (nat * (Z * Z)) :=
  match l with
  | [] => None
  | e :: l' =>
      match earliest l' with
      | Some e' => if bool_decide (e.2.2 ≤ e'.2.2)%Z then Some e else Some e'
      | None => Some e
      end
  end.

Lemma earliest_elem l e : earliest l = Some e → e ∈ l.
Proof.
  revert e. induction l as [|a l IH]; intros e; simpl; [done|].
  destruct (earliest l) as [e'|] eqn:E; [case_bool_decide|];
    intros; simplify_eq; try (by left). right. by apply IH.
Qed.

Lemma earliest_none l : earliest l = None → l = [].
Proof.
  destruct l as [|a l]; simpl; [done|].
  destruct (earliest l); [case_bool_decide|]; done.
Qed.

Lemma earliest_min l e e' : earliest l = Some e → e' ∈ l → (e.2.2 ≤ e'.2.2)%Z.
Proof.
  revert e. induction l as [|a l IH]; intros e; simpl; [done|].
  destruct (earliest l) as [e0|] eqn:E.
  - case_bool_decide; intros He; simplify_eq; rewrite elem_of_cons; intros [->|Hin].
    + done.
    + specialize (IH _ eq_refl Hin). lia.
    + lia.
    + by apply IH.
  - apply earliest_none in E as ->. intros ?; simplify_eq. set_solver.
Qed.

Definition rd_poll_expired (q : gmap nat (Z * Z)) (now : Z) : Poll (option Z) * gmap nat (Z * Z) :=
  match earliest (map_to_list q) with
  | None => (Ready None, q)
  | Some (k, (x, due)) =>
      if bool_decide (due ≤ now)%Z then (Ready (Some x), delete k q) else (Pending, q)
  end.

(** tokio's timer wheel has six levels of 64 slots of a millisecond: two years. *)
Definition rd_max_timeout : Z := ((2 ^ 36 - 1) * 1000000)%Z.

#[export] Instance ref_delay_queue : DelayQueue := {|
  delay_queue := gmap nat (Z * Z);
  dq_key := nat;
  dq_new := ∅;
  dq_insert q now x timeout :=
    if bool_decide (rd_max_timeout < timeout)%Z then Panicked FarDeadline
    else let k := fresh (dom q) in Done (k, <[k := (x, (now + timeout)%Z)]> q);
  dq_remove q k := match q !! k with Some _ => Done (delete k q) | None => Panicked Unexpected end;
  dq_poll_expired := rd_poll_expired;
  dq_is_empty q := bool_decide (q = ∅);
  dq_clear q := ∅;
|}.

#[export] Program Instance ref_delay_queue_laws : DelayQueueLaws := {|
  dq_view q := q;
  dq_max_timeout := rd_max_timeout;
|}.
Next Obligation. done. Qed.
Next Obligation. done. Qed.
Next Obligation.
  intros q now x timeout Hle. simpl. rewrite bool_decide_false by lia. do 2 eexists. split; [done|]. split; [|done].
  apply not_elem_of_dom, is_fresh.
Qed.
Next Obligation. intros q now x timeout Hlt. simpl. by rewrite bool_decide_true. Qed.
Next Obligation. intros q k [e He]. simpl in *. rewrite He. eauto. Qed.
Next Obligation. intros q k He. simpl in *. by rewrite He. Qed.
Next Obligation. done. Qed.
Next Obligation. done. Qed.
Next Obligation.
  intros q now x q'. simpl. unfold rd_poll_expired.
  destruct (earliest _) as [[k [y due]]|] eqn:E; [|done].
  case_bool_decide; intros; simplify_eq.
  apply earliest_elem, elem_of_map_to_list in E. eauto.
Qed.
Next Obligation.
  intros q now q'. simpl. unfold rd_poll_expired.
  destruct (earliest _) as [[k [y due]]|] eqn:E; [by case_bool_decide|].
  intros; simplify_eq. by apply earliest_none, map_to_list_empty_iff in E.
Qed.
Next Obligation.
  intros q now q'. simpl. unfold rd_poll_expired.
  destruct (earliest _) as [[k [y due]]|] eqn:E; [case_bool_decide|]; naive_solver.
Qed.

#[export] Program Instance ref_delay_queue_prompt : DelayQueuePrompt := {|
  dq_resolution := 0;
|}.
Next Obligation.
  intros q now q' k x due. simpl. unfold rd_poll_expired.
  destruct (earliest _) as [[k' [y due']]|] eqn:E; [case_bool_decide|]; intros Hp Hk; simplify_eq.
  apply elem_of_map_to_list in Hk. pose proof (earliest_min _ _ _ E Hk). simpl in *. lia.
Qed.

(** ** AbortHandle *)

#[export] Instance ref_abort : Abort := {|
  abort_inner := bool;
  abort_new := false;
  abort_abort _ := true;
  abort_is_aborted b := b;
|}.

#[export] Instance ref_abort_laws : AbortLaws.
Proof. split; done. Qed.

(** ** opentelemetry *)

#[export] Instance ref_otel : Otel := {|
  otel_trace_id := list Z;
  otel_trace_id_from_bytes bs := bs;
  otel_trace_id_to_bytes t := t;
  otel_span_id := list Z;
  otel_span_id_from_bytes bs := bs;
  otel_span_id_to_bytes s := s;
  otel_trace_flags := bool;
  otel_flags_SAMPLED := true;
  otel_flags_default := false;
  otel_span_context := list Z * list Z * bool;
  otel_span_context_new t s f _ := (t, s, f);
  otel_sc_trace_id c := c.1.1;
  otel_sc_span_id c := c.1.2;
  otel_sc_is_sampled c := c.2;
|}.

#[export] Instance ref_otel_laws : OtelLaws.
Proof. split; done. Qed.
