(* ===== verification/Trace.v ===== *)
(** * Trace contexts (tarpc/src/trace.rs)

    Trace and span identifiers, the sampling decision, their conversions to and
    from opentelemetry's types, and the byte encoding of a trace id.
    Identifiers are kept at their width: a [TraceId] is a [Z] below 2^128 and a
    [SpanId] a [Z] below 2^64. *)
From S2P Require Import Prelude Interfaces.

Local Open Scope Z_scope.

(** ** Fixed-width integers as bytes ([to_le_bytes] and friends of std) *)

Fixpoint to_le_bytes (n : nat) (x : Z) : list Z :=
  match n with
  | O => []
  | S n' => x mod 256 :: to_le_bytes n' (x / 256)
  end.

Fixpoint from_le_bytes (bs : list Z) : Z :=
  match bs with
  | [] => 0
  | b :: bs' => b + 256 * from_le_bytes bs'
  end.

Definition to_be_bytes (n : nat) (x : Z) : list Z := reverse (to_le_bytes n x).
Definition from_be_bytes (bs : list Z) : Z := from_le_bytes (reverse bs).

Definition is_byte (b : Z) : Prop := 0 ≤ b < 256.

Lemma to_le_bytes_length n x : length (to_le_bytes n x) = n.
Proof. revert x. induction n; intros x; simpl; auto. Qed.

Lemma to_le_bytes_bytes n x : Forall is_byte (to_le_bytes n x).
Proof.
  revert x. induction n; intros x; simpl; constructor; auto.
  unfold is_byte. apply Z.mod_pos_bound. lia.
Qed.

Lemma pow256_S n : 256 ^ Z.of_nat (S n) = 256 * 256 ^ Z.of_nat n.
Proof. rewrite Nat2Z.inj_succ, Z.pow_succ_r by lia. lia. Qed.

Lemma from_to_le_bytes n x :
  0 ≤ x < 256 ^ Z.of_nat n → from_le_bytes (to_le_bytes n x) = x.
Proof.
  revert x. induction n as [|n IH]; intros x Hx; simpl; [simpl in Hx; lia|].
  rewrite pow256_S in Hx. rewrite IH.
  - pose proof (Z.div_mod x 256). lia.
  - split; [apply Z.div_pos; lia|]. apply Z.div_lt_upper_bound; lia.
Qed.

Lemma to_from_le_bytes bs :
  Forall is_byte bs → to_le_bytes (length bs) (from_le_bytes bs) = bs.
Proof.
  induction 1 as [|b bs Hb Hbs IH]; simpl; [done|]. unfold is_byte in Hb.
  rewrite (Z.mul_comm 256), Z_mod_plus_full, Z.mod_small by lia.
  rewrite Z_div_plus_full, Z.div_small by lia. by rewrite Z.add_0_l, IH.
Qed.

Lemma from_le_bytes_bound bs :
  Forall is_byte bs → 0 ≤ from_le_bytes bs < 256 ^ Z.of_nat (length bs).
Proof.
  induction 1 as [|b bs Hb Hbs IH]; simpl length; simpl from_le_bytes; [simpl; lia|].
  rewrite pow256_S. unfold is_byte in Hb. lia.
Qed.

Lemma from_to_be_bytes n x :
  0 ≤ x < 256 ^ Z.of_nat n → from_be_bytes (to_be_bytes n x) = x.
Proof.
  intros. unfold from_be_bytes, to_be_bytes. rewrite reverse_involutive.
  by apply from_to_le_bytes.
Qed.

Lemma to_from_be_bytes bs :
  Forall is_byte bs → to_be_bytes (length bs) (from_be_bytes bs) = bs.
Proof.
  intros Hbs. unfold from_be_bytes, to_be_bytes.
  rewrite <- (length_reverse bs), to_from_le_bytes by by apply Forall_reverse.
  apply reverse_involutive.
Qed.

(** ** The types *)

Record TraceId := MkTraceId { trace_id_u128 : Z }.
Record SpanId := MkSpanId { span_id_u64 : Z }.

Inductive SamplingDecision := Sampled | Unsampled.

(** [trace::Context]. *)
Record TraceContext := MkTraceContext {
  trace_id : TraceId;
  span_id : SpanId;
  sampling_decision : SamplingDecision;
}.

#[export] Instance TraceId_eq_dec : EqDecision TraceId.
Proof. solve_decision. Defined.
#[export] Instance SpanId_eq_dec : EqDecision SpanId.
Proof. solve_decision. Defined.
#[export] Instance SamplingDecision_eq_dec : EqDecision SamplingDecision.
Proof. solve_decision. Defined.
#[export] Instance TraceContext_eq_dec : EqDecision TraceContext.
Proof. solve_decision. Defined.

(** [SamplingDecision::default()] and the derived [Context::default()]. *)
Definition sampling_decision_default : SamplingDecision := Unsampled.
Definition trace_context_default : TraceContext :=
  MkTraceContext (MkTraceId 0) (MkSpanId 0) sampling_decision_default.

Definition trace_id_wf (t : TraceId) : Prop := 0 ≤ trace_id_u128 t < u128_modulus.
Definition span_id_wf (s : SpanId) : Prop := 0 ≤ span_id_u64 s < u64_modulus.
Definition trace_context_wf (c : TraceContext) : Prop :=
  trace_id_wf (trace_id c) ∧ span_id_wf (span_id c).

(** [TraceId::random] and [SpanId::random]: [gen_u128] and [gen_u64] stand for
    the generator's [gen::<NonZeroU128>()] and [gen::<NonZeroU64>()]. *)
Definition trace_id_random {Rng} (gen_u128 : Rng → Z * Rng) (rng : Rng) : TraceId * Rng :=
  let '(n, rng') := gen_u128 rng in (MkTraceId n, rng').
Definition span_id_random {Rng} (gen_u64 : Rng → Z * Rng) (rng : Rng) : SpanId * Rng :=
  let '(n, rng') := gen_u64 rng in (MkSpanId n, rng').

Definition trace_id_is_none (t : TraceId) : bool := trace_id_u128 t =? 0.
Definition span_id_is_none (s : SpanId) : bool := span_id_u64 s =? 0.

(** [Context::new_child]. *)
Definition new_child {Rng} (gen_u64 : Rng → Z * Rng) (c : TraceContext) (rng : Rng) : TraceContext * Rng :=
  let '(s, rng') := span_id_random gen_u64 rng in
  (MkTraceContext (trace_id c) s (sampling_decision c), rng').

(** ** Conversions *)

Definition u128_from_trace_id (t : TraceId) : Z := trace_id_u128 t.
Definition trace_id_from_u128 (n : Z) : TraceId := MkTraceId n.
Definition u64_from_span_id (s : SpanId) : Z := span_id_u64 s.
Definition span_id_from_u64 (n : Z) : SpanId := MkSpanId n.

Section otel.
Context `{!Otel}.

Definition trace_id_from_otel (t : otel_trace_id) : TraceId :=
  trace_id_from_u128 (from_be_bytes (otel_trace_id_to_bytes t)).
Definition trace_id_to_otel (t : TraceId) : otel_trace_id :=
  otel_trace_id_from_bytes (to_be_bytes 16 (u128_from_trace_id t)).
Definition span_id_from_otel (s : otel_span_id) : SpanId :=
  span_id_from_u64 (from_be_bytes (otel_span_id_to_bytes s)).
Definition span_id_to_otel (s : SpanId) : otel_span_id :=
  otel_span_id_from_bytes (to_be_bytes 8 (u64_from_span_id s)).

Definition trace_flags_from_decision (d : SamplingDecision) : otel_trace_flags :=
  match d with
  | Sampled => otel_flags_SAMPLED
  | Unsampled => otel_flags_default
  end.

Definition sampling_decision_from_otel (c : otel_span_context) : SamplingDecision :=
  if otel_sc_is_sampled c then Sampled else Unsampled.

(** [From<SpanRef> for Context]. *)
Definition trace_context_from_span_ref (c : otel_span_context) : TraceContext :=
  MkTraceContext (trace_id_from_otel (otel_sc_trace_id c))
    (span_id_from_otel (otel_sc_span_id c)) (sampling_decision_from_otel c).

(** [TryFrom<&Span> for Context]: the span's opentelemetry context has an
    active span ([Some]) or not; the error is [NoActiveSpan]. *)
Definition trace_context_try_from (active : option otel_span_context) : Result TraceContext unit :=
  match active with
  | Some c => Ok (trace_context_from_span_ref c)
  | None => Err tt
  end.
End otel.

(** [u128_serde]: a trace id is serialized as its 16 little-endian bytes. *)
Definition u128_serialize (u : Z) : list Z := to_le_bytes 16 u.
Definition u128_deserialize (bs : list Z) : Z := from_le_bytes bs.

(** [Display for TraceId] and [SpanId]: ["{:02x}"]. *)
Definition hex_digit (d : Z) : Ascii.ascii :=
  Ascii.ascii_of_nat (Z.to_nat (if d <? 10 then 48 + d else 87 + d)).

Fixpoint hex_digits (fuel : nat) (x : Z) (acc : string) : string :=
  match fuel with
  | O => acc
  | S fuel' =>
      let acc' := String (hex_digit (x mod 16)) acc in
      if x / 16 =? 0 then acc' else hex_digits fuel' (x / 16) acc'
  end.

Definition fmt_02x (width : nat) (x : Z) : string :=
  let s := hex_digits width x EmptyString in
  if (String.length s <? 2)%nat then String (hex_digit 0) s else s.

Definition trace_id_fmt (t : TraceId) : string := fmt_02x 32 (trace_id_u128 t).
Definition span_id_fmt (s : SpanId) : string := fmt_02x 16 (span_id_u64 s).

(** ** Lemmas *)

Section otel_lemmas.
Context `{!Otel, !OtelLaws}.

Lemma trace_id_otel_id t : trace_id_wf t → trace_id_from_otel (trace_id_to_otel t) = t.
Proof.
  intros Ht. unfold trace_id_from_otel, trace_id_to_otel.
  rewrite law_otel_trace_id by (unfold to_be_bytes; by rewrite length_reverse, to_le_bytes_length).
  rewrite from_to_be_bytes; [by destruct t|]. apply Ht.
Qed.

Lemma span_id_otel_id s : span_id_wf s → span_id_from_otel (span_id_to_otel s) = s.
Proof.
  intros Hs. unfold span_id_from_otel, span_id_to_otel.
  rewrite law_otel_span_id by (unfold to_be_bytes; by rewrite length_reverse, to_le_bytes_length).
  rewrite from_to_be_bytes; [by destruct s|]. apply Hs.
Qed.

Lemma sampling_decision_otel_id t s d r :
  sampling_decision_from_otel (otel_span_context_new t s (trace_flags_from_decision d) r) = d.
Proof.
  unfold sampling_decision_from_otel. destruct d; simpl.
  - by rewrite law_otel_sc_sampled.
  - by rewrite law_otel_sc_unsampled.
Qed.
End otel_lemmas.

Lemma new_child_inherits {Rng} gen c (rng : Rng) :
  trace_id (new_child gen c rng).1 = trace_id c ∧
  sampling_decision (new_child gen c rng).1 = sampling_decision c.
Proof. unfold new_child, span_id_random. by destruct (gen rng). Qed.

(** The context of a child span is as wide as its types: it keeps the trace id and the
    sampling decision of its parent, its span id is not the one that stands for none, and
    its trace id travels as sixteen bytes from which it is read back. *)
Lemma child_context_typed {Rng} (gen_u64 : Rng → Z * Rng) (c : TraceContext) (rng : Rng) :
  trace_context_wf c → (∀ r, 0 < (gen_u64 r).1 < u64_modulus) →
  let child := (new_child gen_u64 c rng).1 in
  trace_context_wf child ∧ trace_id child = trace_id c ∧ sampling_decision child = sampling_decision c ∧
  span_id_is_none (span_id child) = false ∧
  length (u128_serialize (u128_from_trace_id (trace_id child))) = 16%nat ∧
  Forall is_byte (u128_serialize (u128_from_trace_id (trace_id child))) ∧
  trace_id_from_u128 (u128_deserialize (u128_serialize (u128_from_trace_id (trace_id child)))) = trace_id child.
Proof.
  intros [Ht Hs] Hgen. unfold new_child, span_id_random. specialize (Hgen rng). destruct (gen_u64 rng) as [n rng']. cbn [fst] in *.
  unfold span_id_is_none, u128_serialize, u128_deserialize, u128_from_trace_id. cbn [trace_id span_id span_id_u64].
  rewrite to_le_bytes_length, from_to_le_bytes by exact Ht.
  split_and!; [split; [done|unfold span_id_wf; simpl; lia]|done|done|by apply Z.eqb_neq; lia|done|
    apply to_le_bytes_bytes|by destruct (trace_id c)].
Qed.

Lemma child_context_typed_witness :
  let child := (new_child (λ n : Z, (7, n)) trace_context_default 0).1 in
  trace_context_wf child ∧ trace_id child = MkTraceId 0 ∧ sampling_decision child = Unsampled ∧
  span_id_is_none (span_id child) = false ∧
  length (u128_serialize (u128_from_trace_id (trace_id child))) = 16%nat ∧
  Forall is_byte (u128_serialize (u128_from_trace_id (trace_id child))) ∧
  trace_id_from_u128 (u128_deserialize (u128_serialize (u128_from_trace_id (trace_id child)))) = trace_id child.
Proof.
  apply (child_context_typed (λ n : Z, (7, n)) trace_context_default 0).
  - split; by vm_compute.
  - intros r. by vm_compute.
Defined.
