(* ===== verification/Wire.v ===== *)
(** * Messages, errors and the request context

    The types exchanged between client and server (tarpc/src/lib.rs), the request
    context with its deadline (tarpc/src/context.rs), and how they are put on the
    wire (tarpc/src/util.rs, tarpc/src/util/serde.rs). *)
From S2P Require Import Prelude Interfaces RefModels Trace.
From Stdlib Require Import Eqdep_dec.

Local Open Scope Z_scope.

(** ** context.rs *)

(** [context::Context]: the deadline is an [Instant]. *)
Record Context := MkContext {
  deadline : Z;
  trace_context : TraceContext;
}.

#[export] Instance Context_eq_dec : EqDecision Context.
Proof. solve_decision. Defined.

Definition nanos_per_sec : Z := 1000000000.

Definition ten_seconds_from_now (now : Z) : Z := now + 10 * nanos_per_sec.

(** [Deadline::default()]. *)
Definition deadline_default (now : Z) : Z := ten_seconds_from_now now.

(** The last instant of a 64-bit Unix: the seconds are an [i64]. *)
Definition instant_max : Z := (2 ^ 63 - 1) * nanos_per_sec + 999999999.

(** [Instant + Duration] panics on overflow. *)
Definition instant_add (now d : Z) : Exec Z :=
  if bool_decide (now + d ≤ instant_max) then Done (now + d) else Panicked FarDeadline.

(** [absolute_to_relative_time]: a deadline travels as the time left. *)
Definition serialize_deadline (deadline now : Z) : Z := duration_since deadline now.
Definition deserialize_deadline (left now : Z) : Exec Z := instant_add now left.

Definition context_trace_id (c : Context) : TraceId := Trace.trace_id (trace_context c).

Section otel_context.
Context `{!Otel}.

(** What the code stores in an [opentelemetry::Context]: the span context and
    a [Deadline] value. *)
Record OtelContext := MkOtelContext {
  oc_span : option otel_span_context;
  oc_deadline : option Z;
}.

(** [Context::current()], given the current span's opentelemetry context. *)
Definition context_current (cx : OtelContext) (now : Z) : Context :=
  MkContext
    match oc_deadline cx with Some d => d | None => deadline_default now end
    match trace_context_try_from (oc_span cx) with
    | Ok c => c
    | Err _ => trace_context_default
    end.

(** [SpanExt::set_context]: the context given to [set_parent]. *)
Definition set_context (c : Context) : OtelContext :=
  MkOtelContext
    (Some (otel_span_context_new
      (trace_id_to_otel (Trace.trace_id (trace_context c)))
      (span_id_to_otel (Trace.span_id (trace_context c)))
      (trace_flags_from_decision (Trace.sampling_decision (trace_context c))) true))
    (Some (deadline c)).
End otel_context.

(** ** util.rs *)

(** [TimeUntil for Instant]. *)
Definition time_until (deadline now : Z) : Z := duration_since deadline now.

(** ** lib.rs: requests and responses *)

(** [io::ErrorKind]: the kinds tarpc's encoding names, and the rest of the
    non-exhaustive enum. *)
Inductive ErrorKind :=
| NotFound | PermissionDenied | ConnectionRefused | ConnectionReset
| ConnectionAborted | NotConnected | AddrInUse | AddrNotAvailable | BrokenPipe
| AlreadyExists | WouldBlock | InvalidInput | InvalidData | TimedOut | WriteZero
| Interrupted | Other | UnexpectedEof
| UnlistedKind (n : nat).

#[export] Instance ErrorKind_eq_dec : EqDecision ErrorKind.
Proof. solve_decision. Defined.

Record ServerError := MkServerError {
  kind : ErrorKind;
  detail : string;
}.

#[export] Instance ServerError_eq_dec : EqDecision ServerError.
Proof. solve_decision. Defined.

(** [ServerError::new]. *)
Definition server_error_new (k : ErrorKind) (d : string) : ServerError := MkServerError k d.

Record Request (T : Type) := MkRequest {
  context : Context;
  id : Z;
  message : T;
}.
Arguments MkRequest {T} _ _ _.
Arguments context {T} _.
Arguments id {T} _.
Arguments message {T} _.

(** [Request::deadline]. *)
Definition request_deadline {T} (r : Request T) : Z := deadline (context r).

Inductive ClientMessage (T : Type) :=
| ClientRequest (r : Request T)
| ClientCancel (trace_context : TraceContext) (request_id : Z).
Arguments ClientRequest {T} _.
Arguments ClientCancel {T} _ _.

Record Response (T : Type) := MkResponse {
  request_id : Z;
  response_message : Result T ServerError;
}.
Arguments MkResponse {T} _ _.
Arguments request_id {T} _.
Arguments response_message {T} _.

(** [RequestName]. *)
Class RequestName (Req : Type) := name : Req → string.

#[export] Instance request_name_string : RequestName string := λ _, "string"%string.
#[export] Instance request_name_char : RequestName Ascii.ascii := λ _, "char"%string.
#[export] Instance request_name_unit : RequestName unit := λ _, "unit"%string.

(** An [Arc] or a [Box] of a request is named as the request; an integer by its type. *)
Definition request_name_boxed {Req} `{RequestName Req} : RequestName Req := λ self, name self.
Inductive IntType := I32 | U32 | I64 | U64.
Definition request_name_int (t : IntType) : RequestName Z := λ _,
  match t with I32 => "i32" | U32 => "u32" | I64 => "i64" | U64 => "u64" end%string.

(** ** lib.rs: [ChannelError] and its type-erased forms *)

Module ChannelError.
Inductive t (E : Type) : Type :=
| Read (e : E)
| Ready (e : E)
| Write (e : E)
| Flush (e : E)
| Close (e : E).
Arguments Read {E} e.
Arguments Ready {E} e.
Arguments Write {E} e.
Arguments Flush {E} e.
Arguments Close {E} e.

Definition source {E} (c : t E) : E :=
  match c with Read e | Ready e | Write e | Flush e | Close e => e end.

(** [Clone for ChannelError]: the source is shared ([Arc::clone]). *)
Definition clone {E} (c : t E) : t E :=
  match c with
  | Read e => Read e
  | Ready e => Ready e
  | Write e => Write e
  | Flush e => Flush e
  | Close e => Close e
  end.
End ChannelError.

Section erased.
(** The types that can be erased to [dyn Any]: a code for each type (its
    [TypeId]) and its values. *)
Context {TypeId : Type} `{!EqDecision TypeId} (interp : TypeId → Type).

(** A [dyn Any] (or [dyn Error]) value: a type and a value of it. *)
Definition DynAny : Type := {ty : TypeId & interp ty}.

Definition upcast_error {ty} (c : ChannelError.t (interp ty)) : ChannelError.t DynAny :=
  match c with
  | ChannelError.Read e => ChannelError.Read (existT ty e)
  | ChannelError.Ready e => ChannelError.Ready (existT ty e)
  | ChannelError.Write e => ChannelError.Write (existT ty e)
  | ChannelError.Flush e => ChannelError.Flush (existT ty e)
  | ChannelError.Close e => ChannelError.Close (existT ty e)
  end.

Definition upcast_any {ty} (c : ChannelError.t (interp ty)) : ChannelError.t DynAny :=
  match c with
  | ChannelError.Read e => ChannelError.Read (existT ty e)
  | ChannelError.Ready e => ChannelError.Ready (existT ty e)
  | ChannelError.Write e => ChannelError.Write (existT ty e)
  | ChannelError.Flush e => ChannelError.Flush (existT ty e)
  | ChannelError.Close e => ChannelError.Close (existT ty e)
  end.

(** [Arc<dyn Any>::downcast::<E>()]: the value when its type is [E], and the
    erased value otherwise. *)
Definition any_downcast (ty : TypeId) (d : DynAny) : Result (interp ty) DynAny :=
  match d with
  | existT ty' v =>
      match decide (ty' = ty) with
      | left eq => Ok (eq_rect ty' interp v ty eq)
      | right _ => Err (existT ty' v)
      end
  end.

Definition downcast (ty : TypeId) (c : ChannelError.t DynAny)
    : Result (ChannelError.t (interp ty)) (ChannelError.t DynAny) :=
  match c with
  | ChannelError.Read e => result_map_err ChannelError.Read (result_map ChannelError.Read (any_downcast ty e))
  | ChannelError.Ready e => result_map_err ChannelError.Ready (result_map ChannelError.Ready (any_downcast ty e))
  | ChannelError.Write e => result_map_err ChannelError.Write (result_map ChannelError.Write (any_downcast ty e))
  | ChannelError.Flush e => result_map_err ChannelError.Flush (result_map ChannelError.Flush (any_downcast ty e))
  | ChannelError.Close e => result_map_err ChannelError.Close (result_map ChannelError.Close (any_downcast ty e))
  end.

Lemma any_downcast_self ty (v : interp ty) : any_downcast ty (existT ty v) = Ok v.
Proof.
  unfold any_downcast. destruct (decide (ty = ty)) as [e|]; [|done].
  rewrite (UIP_dec (decide_rel (=)) e eq_refl). done.
Qed.

Lemma any_downcast_other ty ty' (v : interp ty') :
  ty' ≠ ty → any_downcast ty (existT ty' v) = Err (existT ty' v).
Proof. intros. unfold any_downcast. by destruct (decide (ty' = ty)). Qed.

Lemma downcast_upcast ty (c : ChannelError.t (interp ty)) : downcast ty (upcast_any c) = Ok c.
Proof. destruct c; cbn [downcast upcast_any]; by rewrite any_downcast_self. Qed.

Lemma downcast_other ty ty' (c : ChannelError.t (interp ty')) :
  ty' ≠ ty → downcast ty (upcast_any c) = Err (upcast_any c).
Proof. intros. destruct c; cbn [downcast upcast_any]; by rewrite any_downcast_other. Qed.
End erased.

(** The tests of the casts: an error of each kind, with a string or an [E] inside. *)
Section cast_tests.
Definition test_type (b : bool) : Type := if b then string else unit.

Definition each_error {A} (e : A) : list (ChannelError.t A) :=
  [ChannelError.Read e; ChannelError.Ready e; ChannelError.Write e; ChannelError.Flush e; ChannelError.Close e].

Definition same_kind {A B} (c : ChannelError.t A) (d : ChannelError.t B) : bool :=
  match c, d with
  | ChannelError.Read _, ChannelError.Read _ | ChannelError.Ready _, ChannelError.Ready _
  | ChannelError.Write _, ChannelError.Write _ | ChannelError.Flush _, ChannelError.Flush _
  | ChannelError.Close _, ChannelError.Close _ => true
  | _, _ => false
  end.

Definition test_channel_any_casts : bool :=
  forallb (λ c : ChannelError.t (test_type true),
    let any := upcast_any test_type c in
    same_kind c any && match downcast test_type true any with Ok d => same_kind c d | Err _ => false end)
    (each_error (""%string : test_type true)).

Definition test_channel_error_upcast : bool :=
  forallb (λ c : ChannelError.t (test_type false), same_kind c (upcast_error test_type c)) (each_error (tt : test_type false)).

Example cast_tests_pass : test_channel_any_casts = true ∧ test_channel_error_upcast = true.
Proof. by vm_compute. Qed.
End cast_tests.

(** ** util/serde.rs: an [io::ErrorKind] as a [u32] *)

Definition serialize_io_error_kind_as_u32 (k : ErrorKind) : Z :=
  match k with
  | NotFound => 0
  | PermissionDenied => 1
  | ConnectionRefused => 2
  | ConnectionReset => 3
  | ConnectionAborted => 4
  | NotConnected => 5
  | AddrInUse => 6
  | AddrNotAvailable => 7
  | BrokenPipe => 8
  | AlreadyExists => 9
  | WouldBlock => 10
  | InvalidInput => 11
  | InvalidData => 12
  | TimedOut => 13
  | WriteZero => 14
  | Interrupted => 15
  | Other => 16
  | UnexpectedEof => 17
  | UnlistedKind _ => 16
  end.

Definition deserialize_io_error_kind_from_u32 (n : Z) : ErrorKind :=
  match n with
  | 0 => NotFound
  | 1 => PermissionDenied
  | 2 => ConnectionRefused
  | 3 => ConnectionReset
  | 4 => ConnectionAborted
  | 5 => NotConnected
  | 6 => AddrInUse
  | 7 => AddrNotAvailable
  | 8 => BrokenPipe
  | 9 => AlreadyExists
  | 10 => WouldBlock
  | 11 => InvalidInput
  | 12 => InvalidData
  | 13 => TimedOut
  | 14 => WriteZero
  | 15 => Interrupted
  | 16 => Other
  | 17 => UnexpectedEof
  | _ => Other
  end.

Definition is_listed (k : ErrorKind) : bool :=
  match k with UnlistedKind _ => false | _ => true end.

(** ** Properties *)

(** An error kind sent over the wire arrives unchanged if the encoding names it,
    and as [Other] if it does not (a kind added to the standard library since); and
    every number off the wire decodes to some kind the encoding names. *)
Theorem error_kind_roundtrip k n :
  deserialize_io_error_kind_from_u32 (serialize_io_error_kind_as_u32 k) = (if is_listed k then k else Other) ∧
  0 ≤ serialize_io_error_kind_as_u32 k < u32_modulus ∧
  is_listed (deserialize_io_error_kind_from_u32 n) = true.
Proof.
  split; [by destruct k|]. split; [by destruct k|].
  unfold deserialize_io_error_kind_from_u32. by repeat case_match.
Qed.

(** A deadline travels as the time left.  Sent at [sent_at] and received at
    [received_at], it moves by exactly the time the message took, and a deadline that
    had already passed arrives as the instant of sending, moved likewise; a deadline
    that moves beyond the last instant that can be represented panics the receiver. *)
Theorem deadline_roundtrip d sent_at received_at :
  let arrives := Z.max d sent_at + (received_at - sent_at) in
  deserialize_deadline (serialize_deadline d sent_at) received_at =
    if bool_decide (arrives ≤ instant_max) then Done arrives else Panicked FarDeadline.
Proof.
  unfold deserialize_deadline, serialize_deadline, instant_add, duration_since.
  replace (received_at + Z.max 0 (d - sent_at)) with (Z.max d sent_at + (received_at - sent_at)) by lia. done.
Qed.

(** C33: what arrives as a time left need not have been sent by a tarpc client.  Any number
    of seconds that fits 64 bits is a [Duration]; half of them make the receiver panic
    whatever its clock shows, and every accepted one is a deadline that is not before the
    clock. *)
Theorem wire_deadline_bounds secs nanos now :
  0 ≤ now → 0 ≤ secs < u64_modulus → 0 ≤ nanos < nanos_per_sec →
  let left := secs * nanos_per_sec + nanos in
  (2 ^ 63 ≤ secs → deserialize_deadline left now = Panicked FarDeadline) ∧
  ∀ d, deserialize_deadline left now = Done d → now ≤ d ≤ instant_max ∧ serialize_deadline d now = left.
Proof.
  intros Hnow Hs Hn left. unfold deserialize_deadline, instant_add, serialize_deadline, duration_since. split.
  - intros Hbig. rewrite bool_decide_false; [done|]. unfold left, instant_max, nanos_per_sec in *. lia.
  - intros d. case_bool_decide; intros; simplify_eq. unfold left, nanos_per_sec in *. lia.
Qed.

Lemma wire_deadline_bounds_witness :
  deserialize_deadline (2 ^ 63 * nanos_per_sec + 0) 5 = Panicked FarDeadline.
Proof. apply (wire_deadline_bounds (2 ^ 63) 0 5); by vm_compute. Defined.

(** *** The tests of context.rs

    The encoding of a duration is bincode's; the clock is read where the code reads it. *)
Section deadline_tests.
Context {Bytes : Type} (encode : Z → Bytes) (decode : Bytes → option Z).
Context (Hcodec : ∀ d, decode (encode d) = Some d).

(** [serialized_at]: when the deadline is serialized. *)
Definition test_serialize (now serialized_at : Z) : Exec bool :=
  deadline ← instant_add now (10 * nanos_per_sec);
  let serialized_deadline := encode (serialize_deadline deadline serialized_at) in
  deserialized_deadline ← expect (decode serialized_deadline);
  Done (bool_decide (9 * nanos_per_sec < deserialized_deadline)).

(** [deserialized_at]: when it is deserialized; [checked_at]: when it is compared. *)
Definition test_deserialize (deserialized_at checked_at : Z) : Exec bool :=
  let deadline := 10 * nanos_per_sec in
  let serialized_deadline := encode deadline in
  d ← expect (decode serialized_deadline);
  deserialized_deadline ← deserialize_deadline d deserialized_at;
  bound ← instant_add checked_at (9 * nanos_per_sec);
  Done (bool_decide (bound < deserialized_deadline)).

(** How flaky they are (the code asks): both pass exactly when less than a second goes by
    between the two readings of the clock. *)
Lemma deadline_tests_pass_iff t1 t2 :
  t1 ≤ t2 → t2 + 10 * nanos_per_sec ≤ instant_max →
  (test_serialize t1 t2 = Done true ↔ t2 - t1 < nanos_per_sec) ∧
  (test_deserialize t1 t2 = Done true ↔ t2 - t1 < nanos_per_sec).
Proof.
  intros Hle Hmax. unfold test_serialize, test_deserialize, deserialize_deadline, instant_add, serialize_deadline, duration_since.
  unfold nanos_per_sec in *. split.
  - rewrite bool_decide_eq_true_2 by lia. simpl. rewrite Hcodec. simpl.
    case_bool_decide; (split; [done || lia|done || (intros; lia)]).
  - rewrite Hcodec. simpl. do 2 (rewrite bool_decide_eq_true_2 by lia; simpl).
    case_bool_decide; (split; [done || lia|done || (intros; lia)]).
Qed.
End deadline_tests.

(** An error stored as [dyn Any] comes back as itself when asked for at its own
    type, and is handed back untouched at any other. *)
Theorem channel_error_casts {TypeId : Type} `{!EqDecision TypeId} (interp : TypeId → Type) ty ty'
    (c : ChannelError.t (interp ty)) :
  ty' ≠ ty →
  downcast interp ty (upcast_any interp c) = Ok c ∧
  downcast interp ty' (upcast_any interp c) = Err (upcast_any interp c) ∧
  ChannelError.source (upcast_error interp c) = existT ty (ChannelError.source c).
Proof.
  intros Hne. split_and!; [apply downcast_upcast|by apply downcast_other, not_eq_sym|by destruct c].
Qed.

Lemma channel_error_casts_witness :
  let c := ChannelError.Flush 3%nat in
  downcast (λ b : bool, if b then nat else unit) true (upcast_any (λ b : bool, if b then nat else unit) (ty:=true) c) = Ok c.
Proof.
  intros c. refine (proj1 (channel_error_casts (λ b : bool, if b then nat else unit) true false c _)). discriminate.
Defined.

(** A request's context survives being attached to a span and read back from it:
    deadline, trace id, span id and sampling decision are all recovered. *)
Theorem context_roundtrip `{!Otel, !OtelLaws} c now :
  trace_context_wf (trace_context c) → context_current (set_context c) now = c.
Proof.
  intros Hwf. destruct c as [d [ti si sd]]. destruct Hwf as [Ht Hs]. unfold context_current, set_context. simpl in *.
  unfold trace_context_from_span_ref, sampling_decision_from_otel.
  rewrite law_otel_sc_trace_id, law_otel_sc_span_id, trace_id_otel_id, span_id_otel_id by done.
  do 2 f_equal. destruct sd; simpl; [by rewrite law_otel_sc_sampled|by rewrite law_otel_sc_unsampled].
Qed.

Lemma context_roundtrip_witness :
  let c := MkContext 5 (MkTraceContext (MkTraceId 258) (MkSpanId 7) Sampled) in
  context_current (set_context c) 100 = c.
Proof.
  intros c. refine (context_roundtrip c 100 _). split; split; vm_compute; congruence.
Defined.
