(* ===== verification/Compact.v ===== *)
(** * Compaction of the tables (tarpc/src/util.rs: [Compact] for [HashMap])

    The tables of requests and of channels give memory back when they are mostly empty.
    Compaction computes a capacity in [f64] and shrinks the map to it.  The floats are
    IEEE binary64 numbers, with their rounding; the map is its entries and the number of
    its buckets, sized as the standard library sizes them. *)
From S2P Require Import Prelude.
From Stdlib Require Import SpecFloat.
From stdpp Require Import strings.

Module Compact.
Local Open Scope Z_scope.

(** ** [f64] *)

Abbreviation f64 := spec_float.
Definition f64_of (m e : Z) : f64 := binary_normalize 53 1024 m e false.
Definition f64_lt (x y : f64) : bool := SFltb x y.
Definition is_nan (x : f64) : bool := match x with S754_nan => true | _ => false end.

(** [f64::MIN_POSITIVE], [f64::clamp], [f64::max], [n as f64], [x as usize]. *)
Definition MIN_POSITIVE : f64 := f64_of 1 (-1022).
Definition clamp (x lo hi : f64) : f64 := if f64_lt x lo then lo else if f64_lt hi x then hi else x.
Definition f64_max (x y : f64) : f64 := if is_nan x then y else if is_nan y then x else if f64_lt x y then y else x.
Definition usize_as_f64 (n : Z) : f64 := f64_of n 0.
Definition usize_max : Z := u64_modulus - 1.
Definition f64_as_usize (x : f64) : Z :=
  match x with
  | S754_finite false m e => Z.min usize_max (Z.shiftl (Zpos m) e)
  | S754_infinity false => usize_max
  | _ => 0
  end.

(** ** [HashMap]: its size and its capacity *)

Record Map := MkMap { len : Z; buckets : Z }.

(** A table of fewer than eight buckets is full with one left, any other at seven eighths;
    the number of buckets for a capacity is a power of two, unless it overflows. *)
Definition bucket_capacity (b : Z) : Z := if b <=? 8 then b - 1 else b / 8 * 7.
Definition capacity (m : Map) : Z := bucket_capacity (buckets m).
Definition next_power_of_two (n : Z) : Z := 2 ^ Z.log2_up n.
Definition capacity_to_buckets (cap : Z) : option Z :=
  if cap <? 4 then Some 4
  else if cap <? 8 then Some 8
  else if cap * 8 <? u64_modulus then Some (next_power_of_two (cap * 8 / 7)) else None.

Definition with_capacity (cap : Z) : option Map := MkMap 0 <$> capacity_to_buckets cap.

(** [HashMap::shrink_to]. *)
Definition shrink_to (min_capacity : Z) (m : Map) : Map :=
  let min_size := Z.max (len m) min_capacity in
  if min_size =? 0 then MkMap (len m) 1
  else match capacity_to_buckets min_size with
       | Some min_buckets => if min_buckets <? buckets m then MkMap (len m) min_buckets else m
       | None => m
       end.

(** ** [Compact::compact] *)

Definition compact (usage_ratio_threshold : f64) (self : Map) : Map :=
  let usage_ratio_threshold := clamp usage_ratio_threshold MIN_POSITIVE (f64_of 1 0) in
  let cap := f64_max (f64_of 1000 0) (SFdiv 53 1024 (usize_as_f64 (len self)) usage_ratio_threshold) in
  shrink_to (f64_as_usize cap) self.

Definition test_compact : option (list Z) :=
  map ← with_capacity 2048;
  let c0 := capacity map in
  let map := MkMap 896 (buckets map) in
  let m1 := compact (f64_of (-1) 0) map in
  let m2 := compact (f64_of 1 (-2)) m1 in
  let m3 := compact (f64_of 1 (-1)) m2 in
  let m4 := compact (f64_of 1 0) m3 in
  let m5 := compact (f64_of 2 0) m4 in
  Some (c0 :: List.map capacity [m1; m2; m3; m4; m5]).

Example test_compact_passes : test_compact = Some [3584; 3584; 3584; 1792; 1792; 1792].
Proof. vm_compute. reflexivity. Qed.

(** ** Properties *)

Lemma bucket_capacity_mono b b' : 1 ≤ b ≤ b' → bucket_capacity b ≤ bucket_capacity b'.
Proof.
  intros Hb. unfold bucket_capacity. destruct (Z.leb_spec b 8), (Z.leb_spec b' 8); [lia| |lia|].
  - assert (1 ≤ b' / 8) by (apply Z.div_le_lower_bound; lia). lia.
  - assert (b / 8 ≤ b' / 8) by (apply Z.div_le_mono; lia). lia.
Qed.

Lemma next_power_of_two_spec n : 9 ≤ n → n ≤ next_power_of_two n ∧ ∃ k, next_power_of_two n = 8 * k ∧ 2 ≤ k.
Proof.
  intros Hn. unfold next_power_of_two. destruct (Z.log2_up_spec n) as [_ Hu]; [lia|]. split; [done|].
  assert (Hl : 4 ≤ Z.log2_up n).
  { apply (Z.le_trans _ (Z.log2_up 9)); [by vm_compute|]. apply Z.log2_up_le_mono. lia. }
  exists (2 ^ (Z.log2_up n - 3)). split.
  - change 8 with (2 ^ 3). rewrite <- Z.pow_add_r by lia. f_equal. lia.
  - apply (Z.le_trans _ (2 ^ 1)); [done|]. apply Z.pow_le_mono_r; lia.
Qed.

Lemma capacity_to_buckets_holds cap b : 0 < cap → capacity_to_buckets cap = Some b → 1 ≤ b ∧ cap ≤ bucket_capacity b.
Proof.
  intros Hc. unfold capacity_to_buckets.
  destruct (Z.ltb_spec cap 4); [intros [= <-]; unfold bucket_capacity; simpl; lia|].
  destruct (Z.ltb_spec cap 8); [intros [= <-]; unfold bucket_capacity; simpl; lia|].
  destruct (_ <? _); [|done]. intros [= <-].
  assert (Hd : 9 ≤ cap * 8 / 7) by (apply Z.div_le_lower_bound; lia).
  destruct (next_power_of_two_spec _ Hd) as (Hle & k & Hk & Hk2). rewrite Hk in *.
  pose proof (Z.mul_succ_div_gt (cap * 8) 7). split; [lia|]. unfold bucket_capacity.
  destruct (Z.leb_spec (8 * k) 8); [lia|]. replace (8 * k) with (k * 8) by lia. rewrite Z.div_mul by lia. lia.
Qed.

Lemma shrink_to_len c m : len (shrink_to c m) = len m.
Proof. unfold shrink_to. destruct (_ =? 0); [done|]. destruct (capacity_to_buckets _); [|done]. by destruct (_ <? _). Qed.

Lemma shrink_to_idem c m : shrink_to c (shrink_to c m) = shrink_to c m.
Proof.
  unfold shrink_to at 1. rewrite shrink_to_len. unfold shrink_to.
  destruct (Z.eqb_spec (Z.max (len m) c) 0) as [E|]; [done|]. destruct (capacity_to_buckets _) as [b|]; [|done].
  destruct (b <? buckets m) eqn:Hlt; simpl; [by rewrite Z.ltb_irrefl|by rewrite Hlt].
Qed.

Lemma shrink_to_capacity c m :
  0 ≤ len m ≤ capacity m → 1 ≤ buckets m → len m ≤ capacity (shrink_to c m) ≤ capacity m.
Proof.
  intros [Hl Hc] Hb. unfold shrink_to. destruct (Z.eqb_spec (Z.max (len m) c) 0).
  { unfold capacity at 1 2. simpl. unfold bucket_capacity at 1. simpl. split; [lia|]. by apply bucket_capacity_mono. }
  destruct (capacity_to_buckets _) as [b|] eqn:Hcb; [|done]. destruct (Z.ltb_spec b (buckets m)); [|done].
  apply capacity_to_buckets_holds in Hcb as [Hb1 Hcb]; [|lia]. unfold capacity. simpl. split; [lia|].
  apply bucket_capacity_mono. lia.
Qed.

(** Compaction keeps the entries and room for them, never adds capacity, and compacting
    again with the same threshold changes nothing: whatever the threshold, a negative one
    and NaN included. *)
Theorem compact_keeps_room threshold m :
  0 ≤ len m ≤ capacity m → 1 ≤ buckets m →
  let m' := compact threshold m in
  len m' = len m ∧ len m' ≤ capacity m' ≤ capacity m ∧ compact threshold m' = m'.
Proof.
  intros Hc Hb m'. unfold m', compact. rewrite shrink_to_len.
  split_and!; [done|by apply shrink_to_capacity..|apply shrink_to_idem].
Qed.
End Compact.
