(* ===== verification/TimerTable.v ===== *)
(** * Tables of requests with deadline timers

    Client and server keep the same kind of table: a map from request ids to
    request data, where the data holds the key of the request's timer in a
    [DelayQueue], and the location of a shared object (an abort state or a oneshot)
    that belongs to this request alone.  The facts both need are proved here once. *)
From S2P Require Import Prelude Interfaces.

Section timers.
Context `{!DelayQueue, !DelayQueueLaws} {D : Type} (key : D → dq_key).
Implicit Types (m : gmap Z D) (q : delay_queue).

Lemma dq_insert_done q now i timeout k q' :
  dq_insert q now i timeout = Done (k, q') →
  dq_view q !! k = None ∧ dq_view q' = <[k := (i, now + timeout)%Z]> (dq_view q) ∧ (timeout ≤ dq_max_timeout)%Z.
Proof.
  intros Hi. destruct (Z.le_gt_cases timeout dq_max_timeout).
  - edestruct (law_dq_insert q now i timeout) as (k0 & q0 & E & ? & ?); [done|]. rewrite Hi in E. by simplify_eq.
  - by rewrite law_dq_insert_far in Hi.
Qed.

(** A timer is made, or the timer panics because the timeout is too long for it. *)
Lemma dq_insert_cases q now i timeout :
  (∃ k q', dq_insert q now i timeout = Done (k, q') ∧ (timeout ≤ dq_max_timeout)%Z) ∨
  (dq_insert q now i timeout = Panicked FarDeadline ∧ (dq_max_timeout < timeout)%Z).
Proof.
  destruct (Z.le_gt_cases timeout dq_max_timeout).
  - edestruct (law_dq_insert q now i timeout) as (k0 & q0 & E & _); [done|]. eauto.
  - rewrite law_dq_insert_far by done. auto.
Qed.

(** A deadline beyond the timer's range. *)
Definition far (now d : Z) : Prop := (dq_max_timeout < duration_since d now)%Z.

(** Requests and timers correspond one to one. *)
Record timers_ok m q : Prop := {
  tk_timer : ∀ i rd, m !! i = Some rd → ∃ due, dq_view q !! key rd = Some (i, due);
  tk_request : ∀ k i due, dq_view q !! k = Some (i, due) →
    ∃ rd, m !! i = Some rd ∧ key rd = k;
}.

(** The instant request [i] is due, when it is in the table. *)
Definition due_in m q (i : Z) : option Z :=
  rd ← m !! i; snd <$> dq_view q !! key rd.

(** Every request of the table with the instant it is due. *)
Definition due_map m q : gmap Z Z :=
  map_imap (λ _ rd, snd <$> dq_view q !! key rd) m.

Lemma due_map_lookup m q i : due_map m q !! i = due_in m q i.
Proof. unfold due_map, due_in. rewrite map_lookup_imap. by destruct (m !! i). Qed.

Lemma due_map_empty q : due_map ∅ q = ∅.
Proof. apply map_imap_empty. Qed.

Lemma due_map_ext m q q' : dq_view q' = dq_view q → due_map m q' = due_map m q.
Proof. unfold due_map. by intros ->. Qed.

Lemma timers_ok_new : timers_ok ∅ dq_new.
Proof. split; intros *; rewrite ?law_dq_new, ?lookup_empty; done. Qed.

Lemma timers_ok_clear q : timers_ok ∅ (dq_clear q).
Proof. split; intros *; rewrite ?law_dq_clear, ?lookup_empty; done. Qed.

Lemma timers_ok_key_inj m q i j rd rd' :
  timers_ok m q → m !! i = Some rd → m !! j = Some rd' → key rd = key rd' → i = j.
Proof.
  intros Hok Hi Hj Hk.
  destruct (tk_timer _ _ Hok _ _ Hi) as [d Hd].
  destruct (tk_timer _ _ Hok _ _ Hj) as [d' Hd']. rewrite <- Hk in Hd'. congruence.
Qed.

(** The queue may change internally, as long as its entries stay. *)
Lemma timers_ok_view m q q' : timers_ok m q → dq_view q' = dq_view q → timers_ok m q'.
Proof. intros [??] Hq. split; rewrite ?Hq; eauto. Qed.

Lemma timers_ok_delete m q q' i rd :
  timers_ok m q → m !! i = Some rd → dq_view q' = delete (key rd) (dq_view q) →
  timers_ok (delete i m) q'.
Proof.
  intros Hok Hi Hq. split.
  - intros j rd' [Hne Hj]%lookup_delete_Some.
    destruct (tk_timer _ _ Hok _ _ Hj) as [d Hd]. exists d.
    rewrite Hq, lookup_delete_ne; [done|]. intros Hk. apply Hne. by eapply timers_ok_key_inj.
  - intros k j due. rewrite Hq. intros [Hne Hk]%lookup_delete_Some.
    destruct (tk_request _ _ Hok _ _ _ Hk) as (rd' & Hj & Hk').
    exists rd'. split; [|done]. rewrite lookup_delete_ne; [done|]. intros ->. congruence.
Qed.

Lemma timers_ok_insert m q i now timeout k q' rd :
  timers_ok m q → m !! i = None → dq_insert q now i timeout = Done (k, q') → key rd = k →
  timers_ok (<[i := rd]> m) q'.
Proof.
  intros Hok Hi Hdq <-. apply dq_insert_done in Hdq as (Hk & Hq & _). split.
  - intros j rd'. rewrite lookup_insert_Some. intros [[<- <-]|[Hne Hj]].
    + rewrite Hq, lookup_insert_eq. eauto.
    + destruct (tk_timer _ _ Hok _ _ Hj) as [d' Hd']. exists d'.
      rewrite Hq, lookup_insert_ne; [done|]. intros Heq. rewrite Heq in Hk. congruence.
  - intros k' j due. rewrite Hq, lookup_insert_Some. intros [[<- ?]|[Hne Hk']]; simplify_eq.
    + eexists. by rewrite lookup_insert_eq.
    + destruct (tk_request _ _ Hok _ _ _ Hk') as (rd' & Hj & Hkd). exists rd'.
      rewrite lookup_insert_ne; [done|]. intros ->. congruence.
Qed.

(** The timer of a request in the table can be removed without a panic. *)
Lemma timers_ok_remove m q i rd :
  timers_ok m q → m !! i = Some rd →
  ∃ q', dq_remove q (key rd) = Done q' ∧ dq_view q' = delete (key rd) (dq_view q).
Proof.
  intros Hok Hi. destruct (tk_timer _ _ Hok _ _ Hi) as [due Hd]. apply law_dq_remove. eauto.
Qed.

(** An expired timer names a request of the table that is due. *)
Lemma timers_ok_expired m q now i q' :
  timers_ok m q → dq_poll_expired q now = (Ready (Some i), q') →
  ∃ rd due, m !! i = Some rd ∧ due_in m q i = Some due ∧ (due ≤ now)%Z ∧
    dq_view q' = delete (key rd) (dq_view q) ∧ timers_ok (delete i m) q'.
Proof.
  intros Hok Hp. apply law_dq_expired_some in Hp as (k & due & Hk & Hdue & Hq).
  destruct (tk_request _ _ Hok _ _ _ Hk) as (rd & Hi & <-). exists rd, due.
  split_and!; [done|..|done|done|by eapply timers_ok_delete].
  unfold due_in. by rewrite Hi; simpl; rewrite Hk.
Qed.

Lemma due_in_is_Some m q i : timers_ok m q → is_Some (due_in m q i) ↔ is_Some (m !! i).
Proof.
  intros Hok. unfold due_in. destruct (m !! i) as [rd|] eqn:Hi; simpl; [|done].
  destruct (tk_timer _ _ Hok _ _ Hi) as [due ->]. simpl. split; eauto.
Qed.

Lemma due_map_None m q i : timers_ok m q → due_map m q !! i = None ↔ m !! i = None.
Proof. intros Hok. by rewrite !eq_None_not_Some, due_map_lookup, (due_in_is_Some _ _ _ Hok). Qed.

Lemma due_map_delete m q q' i rd :
  timers_ok m q → m !! i = Some rd → dq_view q' = delete (key rd) (dq_view q) →
  due_map (delete i m) q' = delete i (due_map m q).
Proof.
  intros Hok Hi Hq. apply map_eq. intros j.
  rewrite due_map_lookup, lookup_delete. unfold due_in. rewrite lookup_delete.
  case_decide as Hij; [done|]. rewrite due_map_lookup. unfold due_in.
  destruct (m !! j) as [rd'|] eqn:Hj; simpl; [|done].
  rewrite Hq, lookup_delete_ne; [done|]. intros Hk. apply Hij. by eapply timers_ok_key_inj.
Qed.

Lemma due_map_insert m q i now timeout k q' rd :
  timers_ok m q → m !! i = None → dq_insert q now i timeout = Done (k, q') → key rd = k →
  due_map (<[i := rd]> m) q' = <[i := (now + timeout)%Z]> (due_map m q).
Proof.
  intros Hok Hi Hdq <-. apply dq_insert_done in Hdq as (Hk & Hq & _).
  apply map_eq. intros j. rewrite due_map_lookup, lookup_insert. unfold due_in.
  rewrite lookup_insert. case_decide as Hij; simpl.
  - by rewrite Hq, lookup_insert_eq.
  - rewrite due_map_lookup. unfold due_in. destruct (m !! j) as [rd'|] eqn:Hj; simpl; [|done].
    destruct (tk_timer _ _ Hok _ _ Hj) as [due Hd].
    rewrite Hq, lookup_insert_ne; [done|]. intros Heq. rewrite Heq in Hk. congruence.
Qed.

(** No request in the table, no timer in the queue, and conversely. *)
Lemma timers_ok_empty m q : timers_ok m q → m = ∅ ↔ dq_view q = ∅.
Proof.
  intros Hok. split; intros He; apply map_empty; intros x; apply eq_None_not_Some.
  - intros [[i due] Hx]. destruct (tk_request _ _ Hok _ _ _ Hx) as (rd & Hi & _).
    by rewrite He, lookup_empty in Hi.
  - intros [rd Hx]. destruct (tk_timer _ _ Hok _ _ Hx) as [due Hd].
    by rewrite He, lookup_empty in Hd.
Qed.

Lemma due_map_empty_iff m q : timers_ok m q → due_map m q = ∅ ↔ m = ∅.
Proof.
  intros Hok. split; [|by intros ->; apply due_map_empty].
  intros He. apply map_empty. intros i. apply (due_map_None _ q); [done|].
  by rewrite He, lookup_empty.
Qed.

(** With timers that fire promptly, pending means nobody is overdue. *)
Lemma timers_ok_prompt `{!DelayQueuePrompt} m q now q' i due :
  dq_poll_expired q now = (Pending, q') → due_in m q i = Some due →
  (now < due + dq_resolution)%Z.
Proof.
  unfold due_in. intros Hp Hd. destruct (m !! i) as [rd|]; [|done]. simpl in Hd.
  destruct (dq_view q !! key rd) as [[x d]|] eqn:Hk; simplify_eq/=. by eapply law_dq_prompt.
Qed.
End timers.

(** ** Locations owned by one request each *)

Section owners.
Context {D V : Type} (loc : D → nat) (live : V → Prop).
Implicit Types (m : gmap Z D) (st : gmap nat V).

(** Every request owns a location of the store, its object is live, and no two
    requests share one. *)
Record owners_ok m st : Prop := {
  ow_live : ∀ i rd, m !! i = Some rd → ∃ v, st !! loc rd = Some v ∧ live v;
  ow_inj : ∀ i j rd rd', m !! i = Some rd → m !! j = Some rd' → loc rd = loc rd' → i = j;
}.

Lemma owners_ok_empty st : owners_ok ∅ st.
Proof. split; intros *; by rewrite lookup_empty. Qed.

Lemma owners_ok_delete m st i : owners_ok m st → owners_ok (delete i m) st.
Proof.
  intros [Hl Hi]. split.
  - intros j rd [_ ?]%lookup_delete_Some. eauto.
  - intros j j' rd rd' [_ ?]%lookup_delete_Some [_ ?]%lookup_delete_Some. eauto.
Qed.

(** Changing an object nobody in the table owns. *)
Lemma owners_ok_alter m st l f :
  owners_ok m st → (∀ i rd, m !! i = Some rd → l ≠ loc rd) → owners_ok m (alter f l st).
Proof.
  intros [Hl Hi] Hne. split; [|eauto]. intros i rd Hrd.
  rewrite lookup_alter_ne; eauto.
Qed.

(** Changing an object the table may own, but keeping it live. *)
Lemma owners_ok_alter_live m st l f :
  owners_ok m st → (∀ v, live v → live (f v)) → owners_ok m (alter f l st).
Proof.
  intros [Hl Hi] Hf. split; [|eauto]. intros i rd Hrd.
  destruct (Hl _ _ Hrd) as (v & Hv & Hlv). destruct (decide (l = loc rd)) as [->|].
  - rewrite lookup_alter_eq, Hv. simpl. eauto.
  - rewrite lookup_alter_ne; eauto.
Qed.

(** The owner of a location leaves, and its object is used up. *)
Lemma owners_ok_delete_alter m st i rd f :
  owners_ok m st → m !! i = Some rd → owners_ok (delete i m) (alter f (loc rd) st).
Proof.
  intros Hok Hi. apply owners_ok_alter; [by apply owners_ok_delete|].
  intros j rd' [Hne Hj]%lookup_delete_Some Heq. apply Hne. by eapply (ow_inj _ _ Hok).
Qed.

Lemma owners_ok_insert m st i rd v :
  owners_ok m st → m !! i = None → st !! loc rd = Some v → live v →
  (∀ j rd', m !! j = Some rd' → loc rd' ≠ loc rd) → owners_ok (<[i := rd]> m) st.
Proof.
  intros [Hl Hinj] Hi Hv Hlive Hne. split.
  - intros j rd'. rewrite lookup_insert_Some. intros [[<- <-]|[_ Hj]]; eauto.
  - intros j j' rd1 rd2. rewrite !lookup_insert_Some.
    intros [[<- <-]|[? Hj]] [[<- <-]|[? Hj']] Heq; [done|..].
    + by destruct (Hne _ _ Hj').
    + by destruct (Hne _ _ Hj).
    + eauto.
Qed.

(** A new object at a fresh location. *)
Lemma owners_ok_alloc m st l v :
  owners_ok m st → st !! l = None → owners_ok m (<[l := v]> st).
Proof.
  intros [Hl Hinj] Hn. split; [|eauto]. intros i rd Hi.
  destruct (Hl _ _ Hi) as (v' & Hv & ?). exists v'. split; [|done].
  rewrite lookup_insert_ne; [done|]. congruence.
Qed.

Lemma owners_ok_fresh m st l i rd :
  owners_ok m st → st !! l = None → m !! i = Some rd → loc rd ≠ l.
Proof. intros [Hl _] Hn Hi <-. destruct (Hl _ _ Hi) as (? & ? & _). congruence. Qed.
End owners.

#[export] Hint Resolve timers_ok_new timers_ok_clear timers_ok_view timers_ok_delete
  owners_ok_empty owners_ok_delete owners_ok_delete_alter : tarpc.
