(* ===== verification/Transport.v ===== *)
(** * Transports (tarpc/src/transport.rs, tarpc/src/transport/channel.rs)

    A transport is a sink and a stream of fallible items.  Client and server are
    written against the trait only, so it is a class here; nothing is assumed of a
    transport unless a theorem says so.  The in-memory transport of
    transport/channel.rs, transports that record what passes through them or are
    fused, and the failing transport of client.rs's tests are instances. *)
From S2P Require Import Prelude Interfaces.

(** ** The trait *)

Class Transport (SinkItem Item Error : Type) : Type := {
  transport : Type;
  t_poll_next : transport → Poll (option (Result Item Error)) * transport;
  t_poll_ready : transport → Poll (Result unit Error) * transport;
  t_start_send : SinkItem → transport → Result unit Error * transport;
  t_poll_flush : transport → Poll (Result unit Error) * transport;
  t_poll_close : transport → Poll (Result unit Error) * transport;
}.
Arguments transport {_ _ _} _.

(** ** Observing a transport

    [sent] and [received] are the items a transport has accepted and yielded so
    far, and [ended] tells whether its stream has ended.  They are only used to state
    theorems; [logged] adds them to any transport. *)
Class TransportLog {SinkItem Item Error} (T : Transport SinkItem Item Error) : Type := {
  sent : transport T → list SinkItem;
  received : transport T → list Item;
  ended : transport T → bool;
  log_poll_next : ∀ t r t', t_poll_next t = (r, t') →
    sent t' = sent t ∧
    received t' = received t ++ match r with Ready (Some (Ok x)) => [x] | _ => [] end ∧
    ended t' = match r with Ready None => true | _ => ended t end;
  log_poll_ready : ∀ t r t', t_poll_ready t = (r, t') →
    sent t' = sent t ∧ received t' = received t ∧ ended t' = ended t;
  log_start_send : ∀ x t r t', t_start_send x t = (r, t') →
    sent t' = sent t ++ (if is_ok r then [x] else []) ∧ received t' = received t ∧ ended t' = ended t;
  log_poll_flush : ∀ t r t', t_poll_flush t = (r, t') →
    sent t' = sent t ∧ received t' = received t ∧ ended t' = ended t;
  log_poll_close : ∀ t r t', t_poll_close t = (r, t') →
    sent t' = sent t ∧ received t' = received t ∧ ended t' = ended t;
}.

(** Transports whose loops end: a completed flush makes room, and a bounded number
    of items can be read without waiting.  Only termination theorems assume it. *)
Class TransportProgress {SinkItem Item Error} (T : Transport SinkItem Item Error) : Type := {
  unread : transport T → nat;
  flushed : transport T → bool;
  progress_poll_next : ∀ t r t', t_poll_next t = (r, t') →
    match r with Ready (Some (Ok _)) => unread t' < unread t | _ => unread t' ≤ unread t end;
  progress_poll_ready : ∀ t r t', t_poll_ready t = (r, t') →
    unread t' ≤ unread t ∧ (flushed t = true → r ≠ Pending);
  progress_start_send : ∀ x t r t', t_start_send x t = (r, t') → unread t' ≤ unread t;
  progress_poll_flush : ∀ t r t', t_poll_flush t = (r, t') →
    unread t' ≤ unread t ∧ (r = Ready (Ok tt) → flushed t' = true);
  progress_poll_close : ∀ t r t', t_poll_close t = (r, t') → unread t' ≤ unread t;
}.

(** One operation on a transport, and any number of them. *)
Inductive t_step {SinkItem Item Error} {T : Transport SinkItem Item Error} (t : transport T) : transport T → Prop :=
| t_step_next r t' : t_poll_next t = (r, t') → t_step t t'
| t_step_ready r t' : t_poll_ready t = (r, t') → t_step t t'
| t_step_send x r t' : t_start_send x t = (r, t') → t_step t t'
| t_step_flush r t' : t_poll_flush t = (r, t') → t_step t t'
| t_step_close r t' : t_poll_close t = (r, t') → t_step t t'.

Definition t_steps {SinkItem Item Error} {T : Transport SinkItem Item Error} : relation (transport T) := rtc t_step.

(** Whatever can be read from a transport, without the other side acting, is [ok]. *)
Definition yields_only {SinkItem Item Error} {T : Transport SinkItem Item Error} (ok : Item → Prop) (t : transport T) : Prop :=
  ∀ t1 x t2, t_steps t t1 → t_poll_next t1 = (Ready (Some (Ok x)), t2) → ok x.

Lemma yields_only_steps {SinkItem Item Error} {T : Transport SinkItem Item Error} (ok : Item → Prop) (t t' : transport T) :
  t_steps t t' → yields_only ok t → yields_only ok t'.
Proof. intros Hs Hok t1 x t2 H1. apply (Hok t1). unfold t_steps in *. by etrans. Qed.

Lemma progress_steps {SinkItem Item Error} {T : Transport SinkItem Item Error} `{!TransportProgress T} (t t' : transport T) :
  t_steps t t' → unread t' ≤ unread t.
Proof.
  induction 1 as [|t tm t' H1 _ IH]; [done|]. etrans; [exact IH|]. clear IH. destruct H1 as [r t1 E|r t1 E|x r t1 E|r t1 E|r t1 E].
  - apply progress_poll_next in E. destruct r as [[[]|]|]; lia.
  - by apply progress_poll_ready in E as [? _].
  - by apply progress_start_send in E.
  - by apply progress_poll_flush in E as [? _].
  - by apply progress_poll_close in E.
Qed.

Record Logged {SinkItem Item Error} (T : Transport SinkItem Item Error) : Type := MkLogged {
  lg_inner : transport T;
  lg_sent : list SinkItem;
  lg_received : list Item;
  lg_ended : bool;
}.
Arguments MkLogged {_ _ _ _} _ _ _ _.
Arguments lg_inner {_ _ _ _} _.
Arguments lg_sent {_ _ _ _} _.
Arguments lg_received {_ _ _ _} _.
Arguments lg_ended {_ _ _ _} _.

Section logged.
Context {SinkItem Item Error : Type} (T : Transport SinkItem Item Error).

Definition lg_pass {A} (f : transport T → A * transport T) (l : Logged T) : A * Logged T :=
  let '(r, t) := f (lg_inner l) in (r, MkLogged t (lg_sent l) (lg_received l) (lg_ended l)).

Definition logged : Transport SinkItem Item Error := {|
  transport := Logged T;
  t_poll_next l :=
    let '(r, t) := t_poll_next (lg_inner l) in
    (r, MkLogged t (lg_sent l)
          (lg_received l ++ match r with Ready (Some (Ok x)) => [x] | _ => [] end)
          match r with Ready None => true | _ => lg_ended l end);
  t_poll_ready := lg_pass t_poll_ready;
  t_start_send x l :=
    let '(r, t) := t_start_send x (lg_inner l) in
    (r, MkLogged t (lg_sent l ++ if is_ok r then [x] else []) (lg_received l) (lg_ended l));
  t_poll_flush := lg_pass t_poll_flush;
  t_poll_close := lg_pass t_poll_close;
|}.

#[export] Program Instance logged_log : TransportLog logged := {|
  sent := lg_sent;
  received := lg_received;
  ended := lg_ended;
|}.
Next Obligation. intros t r t'. simpl. destruct (t_poll_next _). by intros; simplify_eq/=. Qed.
Next Obligation. intros t r t'. simpl. unfold lg_pass. destruct (t_poll_ready _). by intros; simplify_eq/=. Qed.
Next Obligation. intros x t r t'. simpl. destruct (t_start_send _ _). by intros; simplify_eq/=. Qed.
Next Obligation. intros t r t'. simpl. unfold lg_pass. destruct (t_poll_flush _). by intros; simplify_eq/=. Qed.
Next Obligation. intros t r t'. simpl. unfold lg_pass. destruct (t_poll_close _). by intros; simplify_eq/=. Qed.

#[export] Program Instance logged_progress `{!TransportProgress T} : TransportProgress logged := {|
  unread l := unread (lg_inner l);
  flushed l := flushed (lg_inner l);
|}.
Next Obligation.
  intros ? t r t'. simpl. destruct (t_poll_next _) eqn:E. intros; simplify_eq/=. by apply progress_poll_next in E.
Qed.
Next Obligation.
  intros ? t r t'. simpl. unfold lg_pass. destruct (t_poll_ready _) eqn:E. intros; simplify_eq/=.
  by apply progress_poll_ready in E.
Qed.
Next Obligation.
  intros ? x t r t'. simpl. destruct (t_start_send _ _) eqn:E. intros; simplify_eq/=. by apply progress_start_send in E.
Qed.
Next Obligation.
  intros ? t r t'. simpl. unfold lg_pass. destruct (t_poll_flush _) eqn:E. intros; simplify_eq/=.
  by apply progress_poll_flush in E.
Qed.
Next Obligation.
  intros ? t r t'. simpl. unfold lg_pass. destruct (t_poll_close _) eqn:E. intros; simplify_eq/=.
  by apply progress_poll_close in E.
Qed.

(** A step of the recorded transport is a step of the transport inside. *)
Lemma logged_steps (l l' : Logged T) : t_steps (T:=logged) l l' → t_steps (lg_inner l) (lg_inner l').
Proof.
  induction 1 as [|l lm l' Hs _ IH]; [apply rtc_refl|]. eapply rtc_l; [|exact IH]. clear IH.
  destruct Hs as [r l1 E|r l1 E|x r l1 E|r l1 E|r l1 E]; simpl in E; unfold lg_pass in E.
  - destruct (t_poll_next _) eqn:Ht. simplify_eq/=. by eapply t_step_next.
  - destruct (t_poll_ready _) eqn:Ht. simplify_eq/=. by eapply t_step_ready.
  - destruct (t_start_send _ _) eqn:Ht. simplify_eq/=. by eapply t_step_send.
  - destruct (t_poll_flush _) eqn:Ht. simplify_eq/=. by eapply t_step_flush.
  - destruct (t_poll_close _) eqn:Ht. simplify_eq/=. by eapply t_step_close.
Qed.

Lemma logged_yields_only (ok : Item → Prop) (l : Logged T) :
  yields_only ok (lg_inner l) → yields_only (T:=logged) ok l.
Proof.
  intros Hok l1 x l2 Hs%logged_steps E. simpl in E. destruct (t_poll_next _) eqn:Ht. simplify_eq/=. by eapply Hok.
Qed.

(** Recording does not change what the transport does. *)
Lemma logged_same l : (t_poll_next (Transport:=logged) l).1 = (t_poll_next (lg_inner l)).1.
Proof. simpl. by destruct (t_poll_next _). Qed.
End logged.

(** ** Fused transports

    Client and server hold their transport in a [Fuse]: once its stream has ended it is
    not polled for items again.  The theorems on client and server hold of every
    transport, and so of a fused one, which records what the transport inside records
    and makes progress when it does. *)

Record Fused {SinkItem Item Error} (T : Transport SinkItem Item Error) : Type := MkFused {
  fu_inner : transport T;
  fu_done : bool;
}.
Arguments MkFused {_ _ _ _} _ _.
Arguments fu_inner {_ _ _ _} _.
Arguments fu_done {_ _ _ _} _.

Section fused.
Context {SinkItem Item Error : Type} (T : Transport SinkItem Item Error).

Definition fu_pass {A} (f : transport T → A * transport T) (l : Fused T) : A * Fused T :=
  let '(r, t) := f (fu_inner l) in (r, MkFused t (fu_done l)).

Definition fused : Transport SinkItem Item Error := {|
  transport := Fused T;
  t_poll_next l :=
    if fu_done l then (Ready None, l)
    else let '(r, t) := t_poll_next (fu_inner l) in
         (r, MkFused t match r with Ready None => true | _ => false end);
  t_poll_ready := fu_pass t_poll_ready;
  t_start_send x := fu_pass (t_start_send x);
  t_poll_flush := fu_pass t_poll_flush;
  t_poll_close := fu_pass t_poll_close;
|}.

(** [StreamExt::fuse]. *)
Definition fuse (t : transport T) : transport fused := MkFused t false.

#[export] Program Instance fused_log `{!TransportLog T} : TransportLog fused := {|
  sent l := sent (fu_inner l);
  received l := received (fu_inner l);
  ended l := fu_done l || ended (fu_inner l);
|}.
Next Obligation.
  intros ? [t d] r l'. simpl. destruct d; [intros [= <- <-]; simpl; by rewrite app_nil_r|].
  destruct (t_poll_next t) as [r1 t1] eqn:E. intros; simplify_eq/=. apply log_poll_next in E as (-> & -> & ->).
  by destruct r as [[]|].
Qed.
Next Obligation. intros ? [t d] r l'. simpl. unfold fu_pass. simpl. destruct (t_poll_ready t) eqn:E. intros; simplify_eq/=. by apply log_poll_ready in E as (-> & -> & ->). Qed.
Next Obligation. intros ? x [t d] r l'. simpl. unfold fu_pass. simpl. destruct (t_start_send x t) eqn:E. intros; simplify_eq/=. by apply log_start_send in E as (-> & -> & ->). Qed.
Next Obligation. intros ? [t d] r l'. simpl. unfold fu_pass. simpl. destruct (t_poll_flush t) eqn:E. intros; simplify_eq/=. by apply log_poll_flush in E as (-> & -> & ->). Qed.
Next Obligation. intros ? [t d] r l'. simpl. unfold fu_pass. simpl. destruct (t_poll_close t) eqn:E. intros; simplify_eq/=. by apply log_poll_close in E as (-> & -> & ->). Qed.

#[export] Program Instance fused_progress `{!TransportProgress T} : TransportProgress fused := {|
  unread l := unread (fu_inner l);
  flushed l := flushed (fu_inner l);
|}.
Next Obligation.
  intros ? [t d] r l'. simpl. destruct d; [by intros [= <- <-]|]. destruct (t_poll_next t) eqn:E. intros; simplify_eq/=.
  by apply progress_poll_next in E.
Qed.
Next Obligation. intros ? [t d] r l'. simpl. unfold fu_pass. simpl. destruct (t_poll_ready t) eqn:E. intros; simplify_eq/=. by apply progress_poll_ready in E. Qed.
Next Obligation. intros ? x [t d] r l'. simpl. unfold fu_pass. simpl. destruct (t_start_send x t) eqn:E. intros; simplify_eq/=. by apply progress_start_send in E. Qed.
Next Obligation. intros ? [t d] r l'. simpl. unfold fu_pass. simpl. destruct (t_poll_flush t) eqn:E. intros; simplify_eq/=. by apply progress_poll_flush in E. Qed.
Next Obligation. intros ? [t d] r l'. simpl. unfold fu_pass. simpl. destruct (t_poll_close t) eqn:E. intros; simplify_eq/=. by apply progress_poll_close in E. Qed.

(** Once the stream of a fused transport has ended it stays so, whatever the transport
    inside would yield. *)
Theorem fused_stays_ended (l l1 l2 : transport fused) :
  t_poll_next l = (Ready None, l1) → t_steps l1 l2 → t_poll_next l2 = (Ready None, l2).
Proof.
  intros He Hs. assert (Hd : fu_done l1 = true).
  { simpl in He. destruct (fu_done l) eqn:Hl; [by injection He as <-|]. destruct (t_poll_next (fu_inner l)). by simplify_eq/=. }
  enough (fu_done l2 = true) as H2 by (simpl; by rewrite H2).
  revert Hd. clear He. induction Hs as [|l1 lm l2 Hstep _ IH]; [done|]. intros Hd. apply IH.
  destruct Hstep as [r l' E|r l' E|x r l' E|r l' E|r l' E]; simpl in E; unfold fu_pass in E; rewrite ?Hd in E.
  - by injection E as _ <-.
  - destruct (t_poll_ready _). by simplify_eq/=.
  - destruct (t_start_send _ _). by simplify_eq/=.
  - destruct (t_poll_flush _). by simplify_eq/=.
  - destruct (t_poll_close _). by simplify_eq/=.
Qed.
End fused.

(** ** transport/channel.rs: in-memory transports *)

Module MemChannel.

Definition CLOSED_MESSAGE : string :=
  "the channel is closed and cannot accept new items for sending".

(** The boxed source of an error is its message. *)
Inductive ChannelError : Type :=
| Ready_ (source : string)
| Send_ (source : string)
| Receive_ (source : string).

Section unbounded.
Context `{!Mpsc}.

(** One peer: the object it receives from and the object it sends to, each shared
    with the other peer. *)
Record UnboundedChannel (Item SinkItem : Type) : Type := MkUnboundedChannel {
  rx : mpsc Item;
  tx : mpsc SinkItem;
}.
Arguments MkUnboundedChannel {Item SinkItem} _ _.
Arguments rx {Item SinkItem} _.
Arguments tx {Item SinkItem} _.

(** [unbounded()]: the two peers are mirror images. *)
Definition unbounded {SinkItem Item} : UnboundedChannel SinkItem Item * UnboundedChannel Item SinkItem :=
  let c1 := mpsc_unbounded_channel in
  let c2 := mpsc_unbounded_channel in
  (MkUnboundedChannel c2 c1, MkUnboundedChannel c1 c2).

(** What the other peer holds: the same two objects. *)
Definition peer {Item SinkItem} (c : UnboundedChannel Item SinkItem) : UnboundedChannel SinkItem Item :=
  MkUnboundedChannel (tx c) (rx c).

Context {Item SinkItem : Type}.

Definition poll_next (c : UnboundedChannel Item SinkItem)
    : Poll (option (Result Item ChannelError)) * UnboundedChannel Item SinkItem :=
  let '(r, q) := mpsc_poll_recv (rx c) in
  (poll_map (option_map Ok) r, MkUnboundedChannel q (tx c)).

Definition poll_ready (c : UnboundedChannel Item SinkItem)
    : Poll (Result unit ChannelError) * UnboundedChannel Item SinkItem :=
  (Ready (if mpsc_is_closed (tx c) then Err (Ready_ CLOSED_MESSAGE) else Ok tt), c).

Definition start_send (item : SinkItem) (c : UnboundedChannel Item SinkItem)
    : Result unit ChannelError * UnboundedChannel Item SinkItem :=
  let '(r, q) := mpsc_unbounded_send (tx c) item in
  (result_map_err (λ _, Send_ CLOSED_MESSAGE) r, MkUnboundedChannel (rx c) q).

Definition poll_flush (c : UnboundedChannel Item SinkItem)
    : Poll (Result unit ChannelError) * UnboundedChannel Item SinkItem := (Ready (Ok tt), c).

Definition poll_close (c : UnboundedChannel Item SinkItem)
    : Poll (Result unit ChannelError) * UnboundedChannel Item SinkItem := (Ready (Ok tt), c).

#[export] Instance unbounded_transport : Transport SinkItem Item ChannelError := {|
  transport := UnboundedChannel Item SinkItem;
  t_poll_next := poll_next;
  t_poll_ready := poll_ready;
  t_start_send := start_send;
  t_poll_flush := poll_flush;
  t_poll_close := poll_close;
|}.

(** A poll of an in-memory channel never waits to write, and what can be read is
    what is queued. *)
#[export] Program Instance unbounded_progress `{!MpscLaws} : TransportProgress unbounded_transport := {|
  unread c := length (mv_queue (mpsc_view (rx c)));
  flushed _ := true;
|}.
Next Obligation.
  intros ? t r t'. simpl. unfold poll_next. destruct (mpsc_poll_recv _) as [p q] eqn:E.
  apply law_poll_recv in E. intros; simplify_eq/=. destruct p as [[x|]|]; simpl in *.
  - destruct E as (q' & -> & ->). simpl. lia.
  - by destruct E as (_ & _ & ->).
  - by rewrite E.
Qed.
Next Obligation. intros ? t r t'. simpl. unfold poll_ready. by intros; simplify_eq/=. Qed.
Next Obligation.
  intros ? x t r t'. simpl. unfold start_send. destruct (mpsc_unbounded_send _ _). by intros; simplify_eq/=.
Qed.
Next Obligation. intros ? t r t'. simpl. unfold poll_flush. by intros; simplify_eq/=. Qed.
Next Obligation. intros ? t r t'. simpl. unfold poll_close. by intros; simplify_eq/=. Qed.
(** A peer reads what is queued for it. *)
Lemma unbounded_yields_only `{!MpscLaws} (ok : Item → Prop) (c : UnboundedChannel Item SinkItem) :
  Forall ok (mv_queue (mpsc_view (rx c))) → yields_only (T:=unbounded_transport) ok c.
Proof.
  intros Hc c1 x c2 Hs E.
  assert (Hq : Forall ok (mv_queue (mpsc_view (rx c1)))).
  { clear E. induction Hs as [|c cm c1 Hs _ IH]; [done|]. apply IH. clear IH.
    destruct Hs as [r c' E|r c' E|y r c' E|r c' E|r c' E]; simpl in E;
      unfold poll_next, poll_ready, start_send, poll_flush, poll_close in E; try by simplify_eq/=.
    - destruct (mpsc_poll_recv _) as [p q] eqn:Hp. apply law_poll_recv in Hp. simplify_eq/=.
      destruct p as [[y|]|]; simpl in Hp; [|by destruct Hp as (_ & _ & ->)|by rewrite Hp].
      destruct Hp as (q' & Hq & ->). rewrite Hq in Hc. by apply Forall_cons in Hc as [_ ?].
    - destruct (mpsc_unbounded_send _ _). by simplify_eq/=. }
  simpl in E. unfold poll_next in E. destruct (mpsc_poll_recv _) as [p q] eqn:Hp. apply law_poll_recv in Hp. simplify_eq/=.
  destruct p as [[y|]|]; simplify_eq/=. destruct Hp as (q' & Hq' & _). rewrite Hq' in Hq. by apply Forall_cons in Hq as [? _].
Qed.
End unbounded.

Arguments MkUnboundedChannel {_ Item SinkItem} _ _.
Arguments rx {_ Item SinkItem} _.
Arguments tx {_ Item SinkItem} _.
End MemChannel.

(** ** client.rs, tests: a transport that fails at one operation *)

Module AlwaysError.
Inductive TransportError := Read_ | ReadyE | Write_ | Flush_ | Close_.

#[export] Instance TransportError_eq_dec : EqDecision TransportError.
Proof. solve_decision. Defined.

Definition poll_ready (e : TransportError) : Poll (Result unit TransportError) * TransportError :=
  (match e with
   | ReadyE => Ready (Err e)
   | Flush_ => Pending
   | _ => Ready (Ok tt)
   end, e).

Definition start_send {S} (_ : S) (e : TransportError) : Result unit TransportError * TransportError :=
  (if bool_decide (e = Write_) then Err e else Ok tt, e).

Definition poll_flush (e : TransportError) : Poll (Result unit TransportError) * TransportError :=
  (if bool_decide (e = Flush_) then Ready (Err e) else Ready (Ok tt), e).

Definition poll_close (e : TransportError) : Poll (Result unit TransportError) * TransportError :=
  (if bool_decide (e = Close_) then Ready (Err e) else Ready (Ok tt), e).

Definition poll_next {I} (e : TransportError) : Poll (option (Result I TransportError)) * TransportError :=
  (if bool_decide (e = Read_) then Ready (Some (Err e)) else Pending, e).

Definition always_error {S I} : Transport S I TransportError := {|
  transport := TransportError;
  t_poll_next := poll_next;
  t_poll_ready := poll_ready;
  t_start_send := start_send;
  t_poll_flush := poll_flush;
  t_poll_close := poll_close;
|}.
End AlwaysError.
