(* ===== verification/Cancellations.v ===== *)
(** * Cancellation channel (tarpc/src/cancellations.rs)

    An unbounded channel of request ids.  [RequestCancellation] is its sending end
    and [CanceledRequests] its receiving end; the model keeps the one object both
    ends share. *)
From S2P Require Import Prelude Interfaces.

Module Cancellations.
Section model.
Context `{!Mpsc}.

(** [cancellations()]: the object shared by the two ends. *)
Definition cancellations : mpsc Z := mpsc_unbounded_channel.

(** [RequestCancellation::cancel]: the outcome of the send is ignored. *)
Definition cancel (request_id : Z) (c : mpsc Z) : mpsc Z := snd (mpsc_unbounded_send c request_id).

(** [CanceledRequests::poll_recv], and [Stream::poll_next], which calls it. *)
Definition poll_recv (c : mpsc Z) : Poll (option Z) * mpsc Z := mpsc_poll_recv c.
Definition poll_next (c : mpsc Z) : Poll (option Z) * mpsc Z := poll_recv c.
End model.

Section laws.
Context `{!Mpsc, !MpscLaws}.

(** A cancellation is queued behind the earlier ones, unless the receiver is gone. *)
Lemma cancel_view i c :
  mpsc_view (cancel i c) =
    if mv_closed (mpsc_view c) then mpsc_view c
    else mv_set_queue (mv_queue (mpsc_view c) ++ [i]) (mpsc_view c).
Proof.
  unfold cancel. destruct (mv_closed (mpsc_view c)) eqn:Hc.
  - by destruct (law_unbounded_send_closed _ c i Hc) as (c1 & -> & Hv).
  - by destruct (law_unbounded_send_open _ c i Hc) as (c1 & -> & Hv).
Qed.

Lemma cancellations_view : mpsc_view cancellations = MkMpscView [] 1 false.
Proof. apply law_unbounded_channel. Qed.

Lemma poll_next_view c r c' :
  poll_next c = (r, c') → recv_allowed (mpsc_view c) r (mpsc_view c').
Proof. apply law_poll_recv. Qed.
End laws.
End Cancellations.
