(* ===== verification/ServerInFlight.v ===== *)
(** * The server's in-flight requests (tarpc/src/server/in_flight_requests.rs)

    The table of requests whose handlers are running, each with a timer for its
    deadline and a handle to abort its handler.  Abort states are shared with the
    handlers, so they live in a store: a handle is a location of it.
    [HashMap::compact] only changes a map's capacity, which [gmap] does not have. *)
From S2P Require Import Prelude Interfaces RefModels Wire TimerTable.

Module SIF.

(** ** Model *)

Section model.
Context `{!DelayQueue, !Abort} {Span : Type}.

(** The abort states shared by handles and registrations. *)
Abbreviation Aborts := (gmap nat abort_inner).

Record RequestData := MkRequestData {
  abort_handle : nat;
  deadline_key : dq_key;
  span : Span;
}.

Record InFlightRequests := MkInFlightRequests {
  request_data : gmap Z RequestData;
  deadlines : delay_queue;
}.

Definition default : InFlightRequests := MkInFlightRequests ∅ dq_new.

Definition len (s : InFlightRequests) : nat := size (request_data s).

(** [AbortHandle::abort] on a shared state. *)
Definition abort (h : nat) (ab : Aborts) : Aborts := alter abort_abort h ab.

(** Whether an [Abortable] future registered at [h] would stop. *)
Definition is_aborted (ab : Aborts) (h : nat) : bool :=
  match ab !! h with Some i => abort_is_aborted i | None => false end.

(** [start_request]: the abort registration of a new request, or
    [AlreadyExistsError]. *)
Definition start_request (s : InFlightRequests) (ab : Aborts) (now request_id deadline : Z) (sp : Span)
    : Exec (Result nat unit * InFlightRequests * Aborts) :=
  match request_data s !! request_id with
  | None =>
      let timeout := time_until deadline now in
      let abort_registration := fresh (dom ab) in
      '(deadline_key, dl) ← dq_insert (deadlines s) now request_id timeout;
      Done (Ok abort_registration,
            MkInFlightRequests
              (<[request_id := MkRequestData abort_registration deadline_key sp]> (request_data s)) dl,
            <[abort_registration := abort_new]> ab)
  | Some _ => Done (Err tt, s, ab)
  end.

Definition cancel_request (s : InFlightRequests) (ab : Aborts) (request_id : Z)
    : Exec (bool * InFlightRequests * Aborts) :=
  match request_data s !! request_id with
  | Some rd =>
      let ab' := abort (abort_handle rd) ab in
      dl ← dq_remove (deadlines s) (deadline_key rd);
      Done (true, MkInFlightRequests (delete request_id (request_data s)) dl, ab')
  | None => Done (false, s, ab)
  end.

Definition remove_request (s : InFlightRequests) (request_id : Z)
    : Exec (option Span * InFlightRequests) :=
  match request_data s !! request_id with
  | Some rd =>
      dl ← dq_remove (deadlines s) (deadline_key rd);
      Done (Some (span rd), MkInFlightRequests (delete request_id (request_data s)) dl)
  | None => Done (None, s)
  end.

Definition poll_expired (s : InFlightRequests) (ab : Aborts) (now : Z)
    : Poll (option Z) * InFlightRequests * Aborts :=
  if dq_is_empty (deadlines s) then (Ready None, s, ab)
  else
    match dq_poll_expired (deadlines s) now with
    | (Pending, dl) => (Pending, MkInFlightRequests (request_data s) dl, ab)
    | (Ready None, dl) => (Ready None, MkInFlightRequests (request_data s) dl, ab)
    | (Ready (Some request_id), dl) =>
        match request_data s !! request_id with
        | Some rd =>
            (Ready (Some request_id),
             MkInFlightRequests (delete request_id (request_data s)) dl,
             abort (abort_handle rd) ab)
        | None => (Ready (Some request_id), MkInFlightRequests (request_data s) dl, ab)
        end
    end.

(** [Drop for InFlightRequests]. *)
Definition drop (s : InFlightRequests) (ab : Aborts) : Aborts :=
  map_fold (λ _ rd ab, abort (abort_handle rd) ab) ab (request_data s).
End model.

(** ** Invariant

    Requests and timers correspond one to one; no two requests share an abort
    state; the handler of a request in flight has not been aborted. *)

Section invariant.
Context `{!DelayQueue, !DelayQueueLaws, !Abort, !AbortLaws} {Span : Type}.
Implicit Types (s : InFlightRequests (Span:=Span)) (ab : gmap nat abort_inner).

Definition live (i : abort_inner) : Prop := abort_is_aborted i = false.

Record inv s ab : Prop := {
  inv_timers : timers_ok deadline_key (request_data s) (deadlines s);
  inv_owners : owners_ok abort_handle live (request_data s) ab;
}.

(** The instant request [i] is due, when it is in flight. *)
Definition due_at s (i : Z) : option Z := due_in deadline_key (request_data s) (deadlines s) i.

(** The abstraction function: each request in flight with its due time. *)
Definition abs s : gmap Z Z := due_map deadline_key (request_data s) (deadlines s).

Lemma is_aborted_abort h ab : is_Some (ab !! h) → is_aborted (abort h ab) h = true.
Proof.
  intros [x Hx]. unfold is_aborted, abort. rewrite lookup_alter_eq, Hx. simpl.
  apply law_abort_abort.
Qed.

Lemma is_aborted_abort_ne h h' ab : h ≠ h' → is_aborted (abort h ab) h' = is_aborted ab h'.
Proof. intros. unfold is_aborted, abort. by rewrite lookup_alter_ne. Qed.

Lemma abort_is_Some h h' ab : is_Some (abort h ab !! h') ↔ is_Some (ab !! h').
Proof. unfold abort. by rewrite lookup_alter_is_Some. Qed.

Lemma inv_default : inv default ∅.
Proof. split; simpl; eauto with tarpc. Qed.

Lemma inv_handle s ab i rd : inv s ab → request_data s !! i = Some rd →
  is_Some (ab !! abort_handle rd) ∧ is_aborted ab (abort_handle rd) = false.
Proof.
  intros Hinv Hi. destruct (ow_live _ _ _ _ (inv_owners _ _ Hinv) _ _ Hi) as (v & Hv & Hlive).
  unfold is_aborted. rewrite Hv. eauto.
Qed.

(** Removing a request with its timer, its handler aborted or not. *)
Lemma inv_delete s ab i rd dl :
  inv s ab → request_data s !! i = Some rd →
  dq_view dl = delete (deadline_key rd) (dq_view (deadlines s)) →
  inv (MkInFlightRequests (delete i (request_data s)) dl) ab ∧
  inv (MkInFlightRequests (delete i (request_data s)) dl) (abort (abort_handle rd) ab).
Proof. intros [Ht Ho] Hi Hdl. unfold abort. split; split; simpl; eauto with tarpc. Qed.

Lemma inv_deadlines s ab dl :
  inv s ab → dq_view dl = dq_view (deadlines s) →
  inv (MkInFlightRequests (request_data s) dl) ab.
Proof. intros [Ht Ho] Hdl. split; simpl; eauto with tarpc. Qed.

(** Starting a request answers, or panics for a deadline beyond the timer's range. *)
Lemma start_request_cases s ab now i d sp :
  (∃ r s' ab', start_request s ab now i d sp = Done (r, s', ab') ∧
     (r = Err tt → is_Some (request_data s !! i) ∧ s' = s ∧ ab' = ab)) ∨
  (start_request s ab now i d sp = Panicked FarDeadline ∧ request_data s !! i = None ∧ far now d).
Proof.
  unfold start_request, far, time_until. destruct (request_data s !! i) eqn:Hi; [left; do 3 eexists; split; [done|by eauto]|].
  destruct (dq_insert_cases (deadlines s) now i (duration_since d now)) as [(k & q & -> & _)|[-> ?]]; simpl; [left|by right].
  do 3 eexists. by split.
Qed.

Lemma start_request_inv s ab now i d sp r s' ab' :
  inv s ab → start_request s ab now i d sp = Done (r, s', ab') → inv s' ab'.
Proof.
  intros [Ht Ho]. unfold start_request. destruct (request_data s !! i) eqn:Hi; [by intros; simplify_eq|].
  destruct (dq_insert _ _ _ _) as [[k dl]| |] eqn:Hdq; [|done..]. simpl. intros; simplify_eq.
  assert (Hh : ab !! fresh (dom ab) = None) by apply not_elem_of_dom, is_fresh.
  split; simpl; [by eapply timers_ok_insert|].
  eapply owners_ok_insert; [by apply owners_ok_alloc|done|apply lookup_insert_eq|apply law_abort_new|].
  intros j rd Hj. by eapply owners_ok_fresh.
Qed.

Lemma cancel_request_spec s ab i :
  inv s ab →
  match request_data s !! i with
  | Some rd => ∃ s', cancel_request s ab i = Done (true, s', abort (abort_handle rd) ab) ∧
      request_data s' = delete i (request_data s) ∧
      abs s' = delete i (abs s) ∧ inv s' (abort (abort_handle rd) ab)
  | None => cancel_request s ab i = Done (false, s, ab)
  end.
Proof.
  intros Hinv. unfold cancel_request. destruct (request_data s !! i) as [rd|] eqn:Hi; [|done].
  destruct (timers_ok_remove _ _ _ _ _ (inv_timers _ _ Hinv) Hi) as (dl & -> & Hdl). simpl.
  eexists; split_and!; [done|done|by eapply due_map_delete; first apply Hinv|by eapply inv_delete].
Qed.

Lemma remove_request_spec s ab i :
  inv s ab →
  match request_data s !! i with
  | Some rd => ∃ s', remove_request s i = Done (Some (span rd), s') ∧
      request_data s' = delete i (request_data s) ∧
      abs s' = delete i (abs s) ∧ inv s' ab
  | None => remove_request s i = Done (None, s)
  end.
Proof.
  intros Hinv. unfold remove_request. destruct (request_data s !! i) as [rd|] eqn:Hi; [|done].
  destruct (timers_ok_remove _ _ _ _ _ (inv_timers _ _ Hinv) Hi) as (dl & -> & Hdl). simpl.
  eexists; split_and!; [done|done|by eapply due_map_delete; first apply Hinv|by eapply inv_delete].
Qed.

(** What one call of [poll_expired] does: nothing, or it drops and aborts one
    request that is due. *)
Lemma poll_expired_spec s ab now r s' ab' :
  inv s ab → poll_expired s ab now = (r, s', ab') →
  inv s' ab' ∧
  match r with
  | Ready (Some i) => ∃ rd due, request_data s !! i = Some rd ∧ due_at s i = Some due ∧
      (due ≤ now)%Z ∧ request_data s' = delete i (request_data s) ∧
      abs s' = delete i (abs s) ∧ ab' = abort (abort_handle rd) ab
  | Ready None => request_data s = ∅ ∧ s' = s ∧ ab' = ab
  | Pending => request_data s ≠ ∅ ∧ request_data s' = request_data s ∧ abs s' = abs s ∧ ab' = ab
  end.
Proof.
  intros Hinv. unfold poll_expired. rewrite law_dq_is_empty.
  pose proof (timers_ok_empty _ _ _ (inv_timers _ _ Hinv)) as He.
  case_bool_decide as Hd; [by intros; simplify_eq; rewrite He|].
  destruct (dq_poll_expired _ _) as [[[i|]|] dl] eqn:Hp.
  - destruct (timers_ok_expired _ _ _ _ _ _ (inv_timers _ _ Hinv) Hp)
      as (rd & due & Hi & Hdue & Hle & Hdl & Hok). rewrite Hi.
    intros; simplify_eq. split; [by eapply inv_delete|]. exists rd, due.
    split_and!; try done. eapply due_map_delete; [apply Hinv|done|done].
  - apply law_dq_expired_none in Hp as [? _]. done.
  - apply law_dq_expired_pending in Hp. intros; simplify_eq.
    split; [by apply inv_deadlines|]. rewrite He. split_and!; [done..|by apply due_map_ext|done].
Qed.
End invariant.

(** ** Operations, and what they promise

    [spec_step] is the component's contract: the state is the set of requests in
    flight with the instant each is due. *)

Section contract.
Context `{!DelayQueue, !Abort} {Span : Type}.

Inductive Op :=
| OpStart (now request_id deadline : Z) (sp : Span)
| OpCancel (request_id : Z)
| OpRemove (request_id : Z)
| OpExpire (now : Z).

Inductive Out :=
| OutStart (r : Result nat unit)
| OutCancel (found : bool)
| OutRemove (sp : option Span)
| OutExpire (r : Poll (option Z)).

Definition State : Type := InFlightRequests (Span:=Span) * gmap nat abort_inner.

Definition run_op (o : Op) (st : State) : Exec (Out * State) :=
  let '(s, ab) := st in
  match o with
  | OpStart now i d sp =>
      '(r, s', ab') ← start_request s ab now i d sp; Done (OutStart r, (s', ab'))
  | OpCancel i =>
      '(b, s', ab') ← cancel_request s ab i; Done (OutCancel b, (s', ab'))
  | OpRemove i =>
      '(sp, s') ← remove_request s i; Done (OutRemove sp, (s', ab))
  | OpExpire now =>
      let '(r, s', ab') := poll_expired s ab now in Done (OutExpire r, (s', ab'))
  end.

Fixpoint run_ops (os : list Op) (st : State) : Exec (list Out * State) :=
  match os with
  | [] => Done ([], st)
  | o :: os' =>
      '(r, st') ← run_op o st;
      '(rs, st'') ← run_ops os' st';
      Done (r :: rs, st'')
  end.

Inductive spec_step (m : gmap Z Z) : Op → Out → gmap Z Z → Prop :=
| spec_start_new now i d sp h : m !! i = None →
    spec_step m (OpStart now i d sp) (OutStart (Ok h)) (<[i := Z.max now d]> m)
| spec_start_duplicate now i d sp : is_Some (m !! i) →
    spec_step m (OpStart now i d sp) (OutStart (Err tt)) m
| spec_cancel i :
    spec_step m (OpCancel i) (OutCancel (bool_decide (is_Some (m !! i)))) (delete i m)
| spec_remove i sp : (is_Some sp ↔ is_Some (m !! i)) →
    spec_step m (OpRemove i) (OutRemove sp) (delete i m)
| spec_expire i due now : m !! i = Some due → (due ≤ now)%Z →
    spec_step m (OpExpire now) (OutExpire (Ready (Some i))) (delete i m)
| spec_expire_none now : m = ∅ →
    spec_step m (OpExpire now) (OutExpire (Ready None)) m
| spec_expire_pending now : m ≠ ∅ →
    spec_step m (OpExpire now) (OutExpire Pending) m.

Inductive spec_steps : gmap Z Z → list Op → list Out → gmap Z Z → Prop :=
| spec_steps_nil m : spec_steps m [] [] m
| spec_steps_cons m o r m' os rs m'' :
    spec_step m o r m' → spec_steps m' os rs m'' → spec_steps m (o :: os) (r :: rs) m''.
End contract.

Section refinement.
Context `{!DelayQueue, !DelayQueueLaws, !Abort, !AbortLaws} {Span : Type}.
Implicit Types (s : InFlightRequests (Span:=Span)) (ab : gmap nat abort_inner).

Lemma abs_is_Some s ab i : inv s ab → is_Some (abs s !! i) ↔ is_Some (request_data s !! i).
Proof. intros Hinv. unfold abs. rewrite due_map_lookup. apply due_in_is_Some, Hinv. Qed.

Lemma abs_None s ab i : inv s ab → abs s !! i = None ↔ request_data s !! i = None.
Proof. intros Hinv. apply due_map_None, Hinv. Qed.

Lemma abs_start s ab now i d sp h s' ab' :
  inv s ab → start_request s ab now i d sp = Done (Ok h, s', ab') →
  abs s !! i = None ∧ abs s' = <[i := Z.max now d]> (abs s).
Proof.
  intros Hinv. unfold start_request. destruct (request_data s !! i) eqn:Hi; [done|].
  destruct (dq_insert _ _ _ _) as [[k dl]| |] eqn:Hdq; [|done..]. simpl. intros; simplify_eq.
  split; [by apply (abs_None _ _ _ Hinv)|]. unfold abs. simpl.
  erewrite due_map_insert; [|apply Hinv|done|done|done].
  unfold time_until. by rewrite duration_since_max.
Qed.

(** One operation runs to completion, keeps the invariant and does what the
    contract allows. *)
Definition refines (o : Op) s ab : Prop :=
  ∃ r s' ab', run_op o (s, ab) = Done (r, (s', ab')) ∧ inv s' ab' ∧
    spec_step (abs s) o r (abs s').

(** An operation the timer may refuse. *)
Definition far_op (o : Op (Span:=Span)) : Prop :=
  match o with OpStart now _ d _ => far now d | _ => False end.

Lemma start_refines now i d sp s ab :
  inv s ab → refines (OpStart now i d sp) s ab ∨
    (run_op (OpStart now i d sp) (s, ab) = Panicked FarDeadline ∧ far now d).
Proof.
  intros Hinv. unfold refines. simpl.
  destruct (start_request_cases s ab now i d sp) as [(r & s' & ab' & Hs & Hr)|(-> & _ & Hf)]; [left|by right].
  exists (OutStart r), s', ab'. rewrite Hs. split_and!; [done|by eapply start_request_inv|].
  destruct r as [h|[]].
  - destruct (abs_start _ _ _ _ _ _ _ _ _ Hinv Hs) as [Hi ->]. by constructor.
  - destruct Hr as (Hi & -> & ->); [done|]. constructor. by rewrite abs_is_Some.
Qed.

Lemma cancel_refines i s ab : inv s ab → refines (OpCancel i) s ab.
Proof.
  intros Hinv. unfold refines. simpl. pose proof (cancel_request_spec s ab i Hinv) as Hc.
  pose proof (abs_is_Some _ _ i Hinv) as Hd. pose proof (spec_cancel (Span:=Span) (abs s) i) as Hs.
  destruct (request_data s !! i) as [rd|] eqn:Hi.
  - destruct Hc as (s' & -> & _ & Habs & Hinv'). simpl. do 3 eexists. split; [done|].
    split; [done|]. rewrite Habs. by rewrite bool_decide_eq_true_2 in Hs by (apply Hd; eauto).
  - rewrite Hc. simpl. do 3 eexists. split; [done|]. split; [done|].
    rewrite delete_id in Hs by by apply (abs_None _ _ _ Hinv).
    by rewrite bool_decide_eq_false_2 in Hs by (rewrite Hd; by intros []).
Qed.

Lemma remove_refines i s ab : inv s ab → refines (OpRemove i) s ab.
Proof.
  intros Hinv. unfold refines. simpl. pose proof (remove_request_spec s ab i Hinv) as Hc.
  pose proof (abs_is_Some _ _ i Hinv) as Hd.
  destruct (request_data s !! i) as [rd|] eqn:Hi.
  - destruct Hc as (s' & -> & _ & Habs & Hinv'). simpl. do 3 eexists. split; [done|].
    split; [done|]. rewrite Habs. constructor. split; intros _; [apply Hd|]; eauto.
  - rewrite Hc. simpl. do 3 eexists. split; [done|]. split; [done|].
    pose proof (spec_remove (Span:=Span) (abs s) i None) as Hs.
    rewrite delete_id in Hs by by apply (abs_None _ _ _ Hinv). apply Hs. by rewrite Hd.
Qed.

Lemma expire_refines now s ab : inv s ab → refines (OpExpire now) s ab.
Proof.
  intros Hinv. unfold refines. simpl. destruct (poll_expired s ab now) as [[r s'] ab'] eqn:Hp.
  apply poll_expired_spec in Hp as [Hinv' Hr]; [|done].
  exists (OutExpire r), s', ab'. split_and!; [done..|].
  pose proof (due_map_empty_iff _ _ _ (inv_timers _ _ Hinv)) as He. fold (abs s) in He.
  destruct r as [[i|]|].
  - destruct Hr as (rd & due & Hi & Hdue & Hle & _ & -> & _).
    apply spec_expire with due; [|done]. unfold abs. by rewrite due_map_lookup.
  - destruct Hr as (Hs & -> & _). constructor. by apply He.
  - destruct Hr as (Hne & _ & -> & _). constructor. by rewrite He.
Qed.

Lemma run_op_refines o s ab :
  inv s ab → refines o s ab ∨ (run_op o (s, ab) = Panicked FarDeadline ∧ far_op o).
Proof.
  destruct o; auto using start_refines, cancel_refines, remove_refines, expire_refines.
Qed.

Lemma run_ops_refines os s ab :
  inv s ab →
  (∃ rs s' ab', run_ops os (s, ab) = Done (rs, (s', ab')) ∧ inv s' ab' ∧ spec_steps (abs s) os rs (abs s')) ∨
  (run_ops os (s, ab) = Panicked FarDeadline ∧ Exists far_op os).
Proof.
  revert s ab. induction os as [|o os IH]; intros s ab Hinv; cbn [run_ops].
  - left. exists [], s, ab. split_and!; [done..|constructor].
  - destruct (run_op_refines o s ab Hinv) as [(r & s1 & ab1 & -> & Hinv1 & Hstep)|[-> ?]]; simpl; [|right; by eauto].
    destruct (IH s1 ab1 Hinv1) as [(rs & s2 & ab2 & -> & Hinv2 & Hsteps)|[-> ?]]; simpl; [left|right; by eauto].
    exists (r :: rs), s2, ab2. split_and!; [done..|by econstructor].
Qed.

Lemma abs_default : abs (default (Span:=Span)) = ∅.
Proof. apply due_map_empty. Qed.

(** Dropping the table aborts every handler it still knows, and no other. *)
Definition knows s (h : nat) : Prop := map_Exists (λ _ rd, abort_handle rd = h) (request_data s).

Lemma abort_all_spec (m : gmap Z (RequestData (Span:=Span))) ab :
  let ab' := map_fold (λ _ rd ab, abort (abort_handle rd) ab) ab m in
  (∀ h, is_Some (ab' !! h) ↔ is_Some (ab !! h)) ∧
  ∀ h, is_Some (ab !! h) →
    is_aborted ab' h = true ↔ is_aborted ab h = true ∨ map_Exists (λ _ rd, abort_handle rd = h) m.
Proof.
  simpl. apply (map_fold_weak_ind (λ ab' m,
    (∀ h, is_Some (ab' !! h) ↔ is_Some (ab !! h)) ∧
    ∀ h, is_Some (ab !! h) →
      is_aborted ab' h = true ↔ is_aborted ab h = true ∨ map_Exists (λ _ rd, abort_handle rd = h) m)).
  - split; [done|]. intros h _. split; [by left|]. intros [?|(i & rd & Hi & _)]; [done|].
    by rewrite lookup_empty in Hi.
  - intros i rd m0 ab0 Hi [IHs IHa]. split.
    + intros h. by rewrite abort_is_Some.
    + intros h Hh. rewrite map_Exists_insert by done.
      destruct (decide (abort_handle rd = h)) as [<-|Hne].
      * rewrite is_aborted_abort by by apply IHs. tauto.
      * rewrite is_aborted_abort_ne by done. rewrite IHa by done. tauto.
Qed.
End refinement.

(** ** Properties *)

Section properties.
Context `{!DelayQueue, !DelayQueueLaws, !Abort, !AbortLaws} {Span : Type}.
Implicit Types (s : InFlightRequests (Span:=Span)) (ab : gmap nat abort_inner).

(** C24: any sequence of [start_request], [cancel_request], [remove_request] and
    [poll_expired] calls on a fresh table whose deadlines the timer supports runs
    without a panic (in particular
    [DelayQueue::remove] is never called with a dead key), keeps requests and
    timers in one-to-one correspondence, and each call behaves as the contract
    [spec_step] says: a duplicate id is refused and changes nothing, a request is
    due at its deadline (at once if the deadline has passed), and only requests
    that are due expire. *)
Theorem server_in_flight_refines (os : list (Op (Span:=Span))) :
  Forall (λ o, ¬ far_op o) os →
  ∃ rs s' ab', run_ops os (default, ∅) = Done (rs, (s', ab')) ∧ inv s' ab' ∧
    spec_steps ∅ os rs (abs s').
Proof.
  intros Hf. destruct (run_ops_refines os default ∅ inv_default) as [(rs & s' & ab' & ? & ? & Hs)|[_ He]].
  - rewrite abs_default in Hs. by exists rs, s', ab'.
  - apply Exists_exists in He as (o & Ho & Hfar). rewrite Forall_forall in Hf. by destruct (Hf o).
Qed.

(** The ways [start_request] can end.  A request whose id is in flight is refused and
    nothing changes, whatever its deadline; for a new one the table panics exactly when
    its time left exceeds the longest timeout tokio's timer supports; otherwise it is
    added, with a new abort state, and the requests in flight are not touched. *)
Theorem start_request_outcomes s ab now i d sp :
  match request_data s !! i with
  | Some _ => start_request s ab now i d sp = Done (Err tt, s, ab)
  | None =>
      (far now d → start_request s ab now i d sp = Panicked FarDeadline) ∧
      (¬ far now d → ∃ h k s' ab', start_request s ab now i d sp = Done (Ok h, s', ab') ∧
         ab !! h = None ∧ ab' = <[h := abort_new]> ab ∧
         request_data s' = <[i := MkRequestData h k sp]> (request_data s))
  end.
Proof.
  unfold start_request, far, time_until. destruct (request_data s !! i) eqn:Hi; [done|]. split; intros Hf.
  - by rewrite law_dq_insert_far.
  - destruct (dq_insert_cases (deadlines s) now i (duration_since d now)) as [(k & q & -> & _)|[_ ?]]; [simpl|lia].
    do 4 eexists. split_and!; [done| |done|done]. apply not_elem_of_dom, is_fresh.
Qed.

(** Cancelling a request in flight aborts the handler of that request, leaves
    the abort state of every other handler as it was, and removes the request with
    its timer; removing a request (to send its response) aborts nobody. *)
Theorem cancel_aborts_only_target s ab i rd :
  inv s ab → request_data s !! i = Some rd →
  (∃ s' ab', cancel_request s ab i = Done (true, s', ab') ∧
    is_aborted ab (abort_handle rd) = false ∧ is_aborted ab' (abort_handle rd) = true ∧
    (∀ h, h ≠ abort_handle rd → is_aborted ab' h = is_aborted ab h) ∧
    request_data s' = delete i (request_data s) ∧ len s = S (len s')) ∧
  (∃ s', remove_request s i = Done (Some (span rd), s') ∧ inv s' ab ∧
    request_data s' = delete i (request_data s)).
Proof.
  intros Hinv Hi. pose proof (cancel_request_spec s ab i Hinv) as Hc.
  pose proof (remove_request_spec s ab i Hinv) as Hr. rewrite Hi in Hc, Hr.
  destruct Hc as (s1 & Hc & Hd1 & _ & _). destruct Hr as (s2 & Hr & Hd2 & _ & Hinv2). split.
  - exists s1, (abort (abort_handle rd) ab). split_and!; [done|..].
    + by apply (inv_handle _ _ i _ Hinv).
    + by apply is_aborted_abort, (inv_handle s ab i).
    + intros h Hh. by apply is_aborted_abort_ne, not_eq_sym.
    + done.
    + unfold len. rewrite Hd1. by eapply gmap_size_delete_Some.
  - eauto.
Qed.

(** Polling expirations until none is left: what the channel's read loop does. *)
Fixpoint expire_all (fuel : nat) s ab (now : Z) : InFlightRequests * gmap nat abort_inner :=
  match fuel with
  | O => (s, ab)
  | S fuel' =>
      match poll_expired s ab now with
      | (Ready (Some _), s', ab') => expire_all fuel' s' ab' now
      | (_, s', ab') => (s', ab')
      end
  end.

Lemma poll_pending_prompt `{!DelayQueuePrompt} s ab now s' ab' j d :
  poll_expired s ab now = (Pending, s', ab') → due_at s j = Some d →
  (now < d + dq_resolution)%Z.
Proof.
  unfold poll_expired. destruct (dq_is_empty _); [done|].
  destruct (dq_poll_expired (deadlines s) now) as [[[i|]|] dl] eqn:Hdq; intros Hp Hj; simplify_eq.
  - by destruct (request_data s !! i).
  - by eapply timers_ok_prompt.
Qed.

(** Due times of the requests that remain are unchanged by a removal. *)
Lemma due_at_delete s s' i j d :
  abs s' = delete i (abs s) → due_at s' j = Some d → due_at s j = Some d.
Proof.
  unfold due_at. rewrite <- !due_map_lookup. fold (abs s) (abs s'). intros ->.
  by intros [_ ?]%lookup_delete_Some.
Qed.

Lemma is_aborted_abort_mono s ab i rd h :
  inv s ab → request_data s !! i = Some rd →
  is_aborted ab h = true → is_aborted (abort (abort_handle rd) ab) h = true.
Proof.
  intros Hinv Hi Hh. destruct (decide (abort_handle rd = h)) as [<-|].
  - by apply is_aborted_abort, (inv_handle s ab i).
  - by rewrite is_aborted_abort_ne.
Qed.

(** The state after the expirations: only requests that are not overdue remain,
    every request that left was due and its handler is aborted. *)
Definition expired_from s ab now s' ab' (slack : Z) : Prop :=
  inv s' ab' ∧
  (∀ i due, due_at s' i = Some due → due_at s i = Some due ∧ (now < due + slack)%Z) ∧
  (∀ i rd, request_data s !! i = Some rd → request_data s' !! i = None →
     is_aborted ab' (abort_handle rd) = true ∧ ∃ due, due_at s i = Some due ∧ (due ≤ now)%Z) ∧
  (∀ h, is_aborted ab h = true → is_aborted ab' h = true).

Lemma expired_from_step s ab now i rd due s1 s' ab' slack :
  inv s ab → request_data s !! i = Some rd → due_at s i = Some due → (due ≤ now)%Z →
  request_data s1 = delete i (request_data s) → abs s1 = delete i (abs s) →
  expired_from s1 (abort (abort_handle rd) ab) now s' ab' slack →
  expired_from s ab now s' ab' slack.
Proof.
  intros Hinv Hi Hdue Hle Hrd Habs (Hinv' & Hleft & Hgone & Hmono). split_and!; [done|..].
  - intros j d Hj. apply Hleft in Hj as [Hj Hd]. eauto using due_at_delete.
  - intros j rd' Hj Hj'. destruct (decide (i = j)) as [<-|Hne].
    + simplify_eq. split; [|eauto]. by apply Hmono, is_aborted_abort, (inv_handle s ab i).
    + destruct (Hgone j rd') as [Ha (d & Hd & ?)]; [by rewrite Hrd, lookup_delete_ne|done|].
      split; [done|]. exists d. eauto using due_at_delete.
  - intros h Hh. apply Hmono. by eapply is_aborted_abort_mono.
Qed.

(** Deadlines are enforced.  Polling expirations until none is ready (at most
    one poll more than there are requests in flight) leaves in flight no request
    that is overdue by the timer's resolution, and the requests it removed are ones
    whose deadline had passed, each with its handler aborted. *)
Theorem expire_all_enforces_deadlines `{!DelayQueuePrompt} fuel s ab now s' ab' :
  inv s ab → len s < fuel → expire_all fuel s ab now = (s', ab') →
  expired_from s ab now s' ab' dq_resolution.
Proof.
  revert s ab. induction fuel as [|fuel IH]; intros s ab Hinv Hlen; [lia|]. cbn [expire_all].
  destruct (poll_expired s ab now) as [[r s1] ab1] eqn:Hp. pose proof Hp as Hp'.
  apply poll_expired_spec in Hp as [Hinv1 Hr]; [|done]. destruct r as [[i|]|]; intros He.
  - destruct Hr as (rd & due & Hi & Hdue & Hle & Hrd & Habs & ->).
    eapply expired_from_step; [done..|]. apply IH; [done| |done].
    unfold len in *. rewrite Hrd. pose proof (gmap_size_delete_Some _ _ _ Hi). lia.
  - destruct Hr as (Hs & -> & ->). simplify_eq. split_and!; [done|..|done].
    + intros j d. unfold due_at, due_in. by rewrite Hs, lookup_empty.
    + intros j rd. by rewrite Hs, lookup_empty.
  - destruct Hr as (_ & Hs & Habs & ->). simplify_eq. split_and!; [done|..|done].
    + intros j d Hj. assert (due_at s j = Some d).
      { unfold due_at in *. by rewrite <- due_map_lookup in *; fold (abs s) (abs s') in *; rewrite <- Habs. }
      split; [done|]. by eapply poll_pending_prompt.
    + intros j rd Hj Hj'. congruence.
Qed.

(** When the table is dropped, the handlers of exactly the requests still in
    flight are aborted. *)
Theorem drop_aborts_in_flight s ab h :
  inv s ab → is_Some (ab !! h) →
  is_aborted (drop s ab) h = true ↔ is_aborted ab h = true ∨ knows s h.
Proof. intros _ Hh. by apply (abort_all_spec (request_data s) ab). Qed.
End properties.

(** ** Witnesses: the properties at concrete tables, with the reference instances *)

Definition demo_ops : list (Op (Span:=unit)) :=
  [OpStart 0 7 10 (); OpStart 0 7 90 (); OpStart 5 8 100 (); OpExpire 20; OpRemove 9; OpCancel 8].

Definition demo_state : State (Span:=unit) :=
  match run_ops (take 3 demo_ops) (default, ∅) with
  | Done (_, st) => st
  | _ => (default, ∅)
  end.

Lemma demo_inv : inv demo_state.1 demo_state.2.
Proof.
  assert (Hok : match run_ops (take 3 demo_ops) (default (Span:=unit), ∅) with Done _ => True | _ => False end) by (vm_compute; exact I).
  unfold demo_state. destruct (run_ops_refines (take 3 demo_ops) (default (Span:=unit)) ∅ inv_default)
    as [(rs & s' & ab' & Hr & Hinv & _)|[Hr _]]; rewrite Hr in Hok |- *; [exact Hinv|destruct Hok].
Qed.

Lemma demo_ops_near : Forall (λ o, ¬ far_op o) demo_ops.
Proof. repeat constructor; intros H; vm_compute in H; congruence. Qed.

Lemma server_in_flight_refines_witness :
  ∃ rs s' ab', run_ops demo_ops (default, ∅) = Done (rs, (s', ab')) ∧ inv s' ab' ∧
    spec_steps ∅ demo_ops rs (abs s').
Proof. exact (server_in_flight_refines demo_ops demo_ops_near). Defined.

Lemma cancel_aborts_only_target_witness :
  ∃ rd, request_data demo_state.1 !! 8%Z = Some rd ∧
    ∃ s' ab', cancel_request demo_state.1 demo_state.2 8 = Done (true, s', ab') ∧
      is_aborted ab' (abort_handle rd) = true.
Proof.
  assert (Hi : is_Some (request_data demo_state.1 !! 8%Z)) by (apply (bool_decide_unpack _); vm_compute; exact I).
  destruct Hi as [rd Hi]. exists rd. split; [exact Hi|].
  destruct (cancel_aborts_only_target demo_state.1 demo_state.2 8 rd demo_inv Hi) as [(s' & ab' & H1 & _ & H2 & _) _].
  exists s', ab'. split; [exact H1|exact H2].
Defined.

Lemma expire_all_enforces_deadlines_witness :
  expired_from demo_state.1 demo_state.2 50
    (expire_all 3 demo_state.1 demo_state.2 50).1 (expire_all 3 demo_state.1 demo_state.2 50).2 dq_resolution.
Proof.
  apply (expire_all_enforces_deadlines 3); [exact demo_inv|vm_compute; lia|].
  by destruct (expire_all 3 _ _ _).
Defined.

Lemma drop_aborts_in_flight_witness :
  is_aborted (drop demo_state.1 demo_state.2) 0 = true ↔
  is_aborted demo_state.2 0 = true ∨ knows demo_state.1 0.
Proof.
  apply drop_aborts_in_flight; [exact demo_inv|vm_compute; eexists; reflexivity].
Defined.

End SIF.
