(* ===== verification/ClientInFlight.v ===== *)
(** * The client's in-flight requests (tarpc/src/client/in_flight_requests.rs)

    The table of requests written to the wire that wait for their response, each
    with a deadline timer and the sending half of the oneshot its caller awaits.
    Oneshots are shared with the callers, so they live in a store: a sender is a
    location of it.  Dropping a sender is written out, since its receiver sees it. *)
From S2P Require Import Prelude Interfaces RefModels Wire TimerTable.

Module CIF.

(** ** Model *)

Section model.
Context `{!DelayQueue, !Oneshot} {Span Res : Type}.

Abbreviation Store := (gmap nat (oneshot Res)).

(** [Sender::send], [Sender::is_closed] and dropping a sender, in the store. *)
Definition store_send (l : nat) (r : Res) (st : Store) : Store :=
  alter (λ o, snd (oneshot_send o r)) l st.
Definition store_drop_sender (l : nat) (st : Store) : Store := alter oneshot_drop_sender l st.
Definition store_is_closed (l : nat) (st : Store) : bool :=
  match st !! l with Some o => oneshot_is_closed o | None => true end.

Record RequestData := MkRequestData {
  ctx : Context;
  span : Span;
  response_completion : nat;
  deadline_key : dq_key;
}.

Record InFlightRequests := MkInFlightRequests {
  request_data : gmap Z RequestData;
  deadlines : delay_queue;
}.

Definition default : InFlightRequests := MkInFlightRequests ∅ dq_new.

Definition len (s : InFlightRequests) : nat := size (request_data s).
Definition is_empty (s : InFlightRequests) : bool := bool_decide (request_data s = ∅).

(** [insert_request]; when the id is taken the sender is dropped. *)
Definition insert_request (s : InFlightRequests) (st : Store) (now request_id : Z) (c : Context)
    (sp : Span) (completion : nat) : Exec (Result unit unit * InFlightRequests * Store) :=
  match request_data s !! request_id with
  | None =>
      let timeout := time_until (deadline c) now in
      '(deadline_key, dl) ← dq_insert (deadlines s) now request_id timeout;
      Done (Ok tt,
            MkInFlightRequests
              (<[request_id := MkRequestData c sp completion deadline_key]> (request_data s)) dl,
            st)
  | Some _ => Done (Err tt, s, store_drop_sender completion st)
  end.

Definition complete_request (s : InFlightRequests) (st : Store) (request_id : Z) (result : Res)
    : Exec (option Span * InFlightRequests * Store) :=
  match request_data s !! request_id with
  | Some rd =>
      dl ← dq_remove (deadlines s) (deadline_key rd);
      Done (Some (span rd), MkInFlightRequests (delete request_id (request_data s)) dl,
            store_send (response_completion rd) result st)
  | None => Done (None, s, st)
  end.

(** [complete_all_requests]: the iterator it returns, run to its end. *)
Definition complete_all_requests (s : InFlightRequests) (st : Store) (result : Res)
    : list Span * InFlightRequests * Store :=
  let drained := map_to_list (request_data s) in
  (map (λ e, span e.2) drained,
   MkInFlightRequests ∅ (dq_clear (deadlines s)),
   foldl (λ st e, store_send (response_completion e.2) result st) st drained).

(** [cancel_request]: the request data, and with it the sender, is dropped. *)
Definition cancel_request (s : InFlightRequests) (st : Store) (request_id : Z)
    : Exec (option (Context * Span) * InFlightRequests * Store) :=
  match request_data s !! request_id with
  | Some rd =>
      dl ← dq_remove (deadlines s) (deadline_key rd);
      Done (Some (ctx rd, span rd), MkInFlightRequests (delete request_id (request_data s)) dl,
            store_drop_sender (response_completion rd) st)
  | None => Done (None, s, st)
  end.

Definition poll_expired (s : InFlightRequests) (st : Store) (now : Z) (expired_error : Res)
    : Poll (option Z) * InFlightRequests * Store :=
  match dq_poll_expired (deadlines s) now with
  | (Pending, dl) => (Pending, MkInFlightRequests (request_data s) dl, st)
  | (Ready None, dl) => (Ready None, MkInFlightRequests (request_data s) dl, st)
  | (Ready (Some request_id), dl) =>
      match request_data s !! request_id with
      | Some rd =>
          (Ready (Some request_id), MkInFlightRequests (delete request_id (request_data s)) dl,
           store_send (response_completion rd) expired_error st)
      | None => (Ready (Some request_id), MkInFlightRequests (request_data s) dl, st)
      end
  end.
End model.

(** ** Invariant

    Requests and timers correspond one to one; each request owns a oneshot whose
    sender has not been used. *)

Section invariant.
Context `{!DelayQueue, !DelayQueueLaws, !Oneshot, !OneshotLaws} {Span Res : Type}.
Implicit Types (s : InFlightRequests (Span:=Span)) (st : gmap nat (oneshot Res)).

(** Nothing was sent and the sender is still held. *)
Definition unused (o : oneshot Res) : Prop :=
  ov_tx_gone (oneshot_view o) = false ∧ ov_value (oneshot_view o) = None.

Record cinv s st : Prop := {
  cinv_timers : timers_ok deadline_key (request_data s) (deadlines s);
  cinv_owners : owners_ok response_completion unused (request_data s) st;
}.

(** What a receiver would see at a location. *)
Definition value_at st (l : nat) : option Res := o ← st !! l; ov_value (oneshot_view o).

Definition due_at s (i : Z) : option Z := due_in deadline_key (request_data s) (deadlines s) i.
Definition abs s : gmap Z Z := due_map deadline_key (request_data s) (deadlines s).

Lemma store_send_value l r st :
  is_Some (st !! l) → store_is_closed l st = false → value_at (store_send l r st) l = Some r.
Proof.
  intros [o Ho]. unfold store_is_closed, value_at, store_send. rewrite Ho, lookup_alter_eq, Ho. simpl.
  rewrite law_oneshot_is_closed, law_oneshot_send. by intros ->.
Qed.

Lemma store_send_closed l r st :
  store_is_closed l st = true → value_at (store_send l r st) l = value_at st l.
Proof.
  unfold store_is_closed, value_at, store_send. rewrite lookup_alter_eq.
  destruct (st !! l) as [o|]; simpl; [|done].
  rewrite law_oneshot_is_closed, law_oneshot_send. by intros ->.
Qed.

Lemma store_send_ne l l' r st : l ≠ l' → store_send l r st !! l' = st !! l'.
Proof. apply lookup_alter_ne. Qed.

Lemma store_drop_sender_ne l l' st : l ≠ l' → store_drop_sender l st !! l' = st !! l'.
Proof. apply lookup_alter_ne. Qed.

Lemma store_send_is_closed l l' r st : store_is_closed l' (store_send l r st) = store_is_closed l' st.
Proof.
  unfold store_is_closed, store_send. destruct (decide (l = l')) as [<-|].
  - rewrite lookup_alter_eq. destruct (st !! l); simpl; [|done].
    by rewrite !law_oneshot_is_closed, law_oneshot_send.
  - by rewrite lookup_alter_ne.
Qed.

Lemma store_drop_sender_is_closed l l' st :
  store_is_closed l' (store_drop_sender l st) = store_is_closed l' st.
Proof.
  unfold store_is_closed, store_drop_sender. destruct (decide (l = l')) as [<-|].
  - rewrite lookup_alter_eq. destruct (st !! l); simpl; [|done].
    by rewrite !law_oneshot_is_closed, law_oneshot_drop_sender.
  - by rewrite lookup_alter_ne.
Qed.

Lemma store_drop_sender_value l l' st : value_at (store_drop_sender l st) l' = value_at st l'.
Proof.
  unfold value_at, store_drop_sender. destruct (decide (l = l')) as [<-|].
  - rewrite lookup_alter_eq. destruct (st !! l); simpl; [|done]. by rewrite law_oneshot_drop_sender.
  - by rewrite lookup_alter_ne.
Qed.

Lemma cinv_default st : cinv default st.
Proof. split; simpl; eauto with tarpc. Qed.

(** A request leaves with its timer, and its sender is used or dropped. *)
Lemma cinv_delete s st i rd dl f :
  cinv s st → request_data s !! i = Some rd →
  dq_view dl = delete (deadline_key rd) (dq_view (deadlines s)) →
  cinv (MkInFlightRequests (delete i (request_data s)) dl) (alter f (response_completion rd) st).
Proof. intros [Ht Ho] Hi Hdl. split; simpl; eauto with tarpc. Qed.

Lemma cinv_deadlines s st dl :
  cinv s st → dq_view dl = dq_view (deadlines s) →
  cinv (MkInFlightRequests (request_data s) dl) st.
Proof. intros [Ht Ho] Hdl. split; simpl; eauto with tarpc. Qed.

Lemma insert_request_spec s st now i c sp l o :
  cinv s st → st !! l = Some o → unused o →
  (∀ j rd, request_data s !! j = Some rd → response_completion rd ≠ l) →
  match request_data s !! i with
  | None =>
      (∃ k s', insert_request s st now i c sp l = Done (Ok tt, s', st) ∧
         request_data s' = <[i := MkRequestData c sp l k]> (request_data s) ∧
         abs s' = <[i := Z.max now (deadline c)]> (abs s) ∧ cinv s' st) ∨
      (insert_request s st now i c sp l = Panicked FarDeadline ∧ far now (deadline c))
  | Some _ => insert_request s st now i c sp l = Done (Err tt, s, store_drop_sender l st)
  end.
Proof.
  intros [Ht Ho] Hl Hun Hne. unfold insert_request, far.
  destruct (request_data s !! i) eqn:Hi; [done|]. change (time_until (deadline c) now) with (duration_since (deadline c) now).
  destruct (dq_insert_cases (deadlines s) now i (duration_since (deadline c) now)) as [(k & dl & Hdq & _)|[-> ?]]; [left|by right].
  rewrite Hdq. simpl. exists k. eexists. split_and!; [done|done|..].
  - unfold abs. simpl. erewrite due_map_insert; [|done..].
    by rewrite duration_since_max.
  - split; simpl; [by eapply timers_ok_insert|by eapply owners_ok_insert].
Qed.

Lemma complete_request_spec s st i r :
  cinv s st →
  match request_data s !! i with
  | Some rd => ∃ s', complete_request s st i r =
        Done (Some (span rd), s', store_send (response_completion rd) r st) ∧
      request_data s' = delete i (request_data s) ∧ abs s' = delete i (abs s) ∧
      cinv s' (store_send (response_completion rd) r st)
  | None => complete_request s st i r = Done (None, s, st)
  end.
Proof.
  intros Hinv. unfold complete_request. destruct (request_data s !! i) as [rd|] eqn:Hi; [|done].
  destruct (timers_ok_remove _ _ _ _ _ (cinv_timers _ _ Hinv) Hi) as (dl & -> & Hdl). simpl.
  eexists; split_and!; [done|done|by eapply due_map_delete; first apply Hinv|by apply cinv_delete].
Qed.

Lemma cancel_request_spec' s st i :
  cinv s st →
  match request_data s !! i with
  | Some rd => ∃ s', cancel_request s st i =
        Done (Some (ctx rd, span rd), s', store_drop_sender (response_completion rd) st) ∧
      request_data s' = delete i (request_data s) ∧ abs s' = delete i (abs s) ∧
      cinv s' (store_drop_sender (response_completion rd) st)
  | None => cancel_request s st i = Done (None, s, st)
  end.
Proof.
  intros Hinv. unfold cancel_request. destruct (request_data s !! i) as [rd|] eqn:Hi; [|done].
  destruct (timers_ok_remove _ _ _ _ _ (cinv_timers _ _ Hinv) Hi) as (dl & -> & Hdl). simpl.
  eexists; split_and!; [done|done|by eapply due_map_delete; first apply Hinv|by apply cinv_delete].
Qed.

Lemma poll_expired_spec' s st now e r s' st' :
  cinv s st → poll_expired s st now e = (r, s', st') →
  cinv s' st' ∧
  match r with
  | Ready (Some i) => ∃ rd due, request_data s !! i = Some rd ∧ due_at s i = Some due ∧
      (due ≤ now)%Z ∧ request_data s' = delete i (request_data s) ∧
      abs s' = delete i (abs s) ∧ st' = store_send (response_completion rd) e st
  | _ => request_data s' = request_data s ∧ abs s' = abs s ∧ st' = st
  end.
Proof.
  intros Hinv. unfold poll_expired. destruct (dq_poll_expired _ _) as [[[i|]|] dl] eqn:Hp.
  - destruct (timers_ok_expired _ _ _ _ _ _ (cinv_timers _ _ Hinv) Hp)
      as (rd & due & Hi & Hdue & Hle & Hdl & Hok). rewrite Hi.
    intros; simplify_eq. split; [by apply cinv_delete|]. exists rd, due.
    split_and!; try done. eapply due_map_delete; [apply Hinv|done|done].
  - apply law_dq_expired_none in Hp as [Hv Hv']. intros; simplify_eq.
    assert (dq_view dl = dq_view (deadlines s)) by congruence.
    split; [by apply cinv_deadlines|]. split_and!; [done|by apply due_map_ext|done].
  - apply law_dq_expired_pending in Hp. intros; simplify_eq.
    split; [by apply cinv_deadlines|]. split_and!; [done|by apply due_map_ext|done].
Qed.

(** Sending the same result to several senders, each once. *)
Lemma send_all_lookup (ds : list (Z * RequestData (Span:=Span))) (r : Res) st l :
  NoDup (map (λ e, response_completion e.2) ds) →
  foldl (λ st e, store_send (response_completion e.2) r st) st ds !! l =
    if decide (l ∈ map (λ e, response_completion e.2) ds)
    then (λ o, snd (oneshot_send o r)) <$> st !! l else st !! l.
Proof.
  revert st. induction ds as [|[i rd] ds IH]; intros st; cbn [map foldl snd].
  { intros _. by rewrite decide_False by apply not_elem_of_nil. }
  intros [Hnin Hnd]%NoDup_cons. rewrite IH by done.
  destruct (decide (response_completion rd = l)) as [<-|Hne].
  - rewrite (decide_False (P := _ ∈ map _ ds)) by done. rewrite decide_True by set_solver.
    apply lookup_alter_eq.
  - rewrite store_send_ne by done. repeat case_decide; set_solver.
Qed.

Lemma completions_NoDup s st :
  cinv s st → NoDup (map (λ e, response_completion e.2) (map_to_list (request_data s))).
Proof.
  intros Hinv. apply NoDup_fmap_2_strong; [|apply NoDup_map_to_list].
  intros [i rd] [j rd'] Hi%elem_of_map_to_list Hj%elem_of_map_to_list Heq.
  assert (i = j) as <- by by eapply (ow_inj _ _ _ _ (cinv_owners _ _ Hinv)). congruence.
Qed.

Lemma complete_all_lookup s st r l :
  cinv s st →
  (complete_all_requests s st r).2 !! l =
    if bool_decide (map_Exists (λ _ rd, response_completion rd = l) (request_data s))
    then (λ o, snd (oneshot_send o r)) <$> st !! l else st !! l.
Proof.
  intros Hinv. unfold complete_all_requests. simpl.
  rewrite send_all_lookup by by eapply completions_NoDup.
  assert (Hiff : l ∈ map (λ e, response_completion e.2) (map_to_list (request_data s)) ↔
                 map_Exists (λ _ rd, response_completion rd = l) (request_data s)).
  { rewrite list_elem_of_fmap. split.
    - intros ([i rd] & -> & Hi%elem_of_map_to_list). by exists i, rd.
    - intros (i & rd & Hi & <-). exists (i, rd). by rewrite elem_of_map_to_list. }
  case_decide; case_bool_decide; tauto.
Qed.

Lemma complete_all_inv s st r :
  cinv (complete_all_requests s st r).1.2 (complete_all_requests s st r).2.
Proof. split; simpl; eauto with tarpc. Qed.
End invariant.

(** ** Properties *)

Section properties.
Context `{!DelayQueue, !DelayQueueLaws, !Oneshot, !OneshotLaws} {Span Res : Type}.
Implicit Types (s : InFlightRequests (Span:=Span)) (st : gmap nat (oneshot Res)).

(** Completing a request in flight does not panic, hands the result to the one
    caller that waits for this request (unless that caller has gone), touches no other
    caller's oneshot, and takes the request and its timer out of the table, so that a
    second response with the same id is ignored. *)
Theorem complete_request_delivers s st i rd (r r' : Res) :
  cinv s st → request_data s !! i = Some rd →
  ∃ s' st', complete_request s st i r = Done (Some (span rd), s', st') ∧
    value_at st (response_completion rd) = None ∧
    (store_is_closed (response_completion rd) st = false →
       value_at st' (response_completion rd) = Some r) ∧
    (∀ l, l ≠ response_completion rd → st' !! l = st !! l) ∧
    request_data s' = delete i (request_data s) ∧ cinv s' st' ∧
    complete_request s' st' i r' = Done (None, s', st').
Proof.
  intros Hinv Hi. pose proof (complete_request_spec s st i r Hinv) as Hc. rewrite Hi in Hc.
  destruct Hc as (s' & Hc & Hrd & _ & Hinv').
  destruct (ow_live _ _ _ _ (cinv_owners _ _ Hinv) _ _ Hi) as (o & Ho & _ & Hval).
  exists s', (store_send (response_completion rd) r st). split_and!; [done|..|done|done|].
  - unfold value_at. by rewrite Ho.
  - apply store_send_value. eauto.
  - intros l Hl. by apply store_send_ne, not_eq_sym.
  - unfold complete_request. by rewrite Hrd, lookup_delete_eq.
Qed.

(** When the dispatch shuts down, [complete_all_requests] empties the table and
    its timers, gives the error to every caller in flight that is still listening,
    and leaves every other oneshot alone. *)
Theorem complete_all_completes_everyone s st (r : Res) sps s' st' :
  cinv s st → complete_all_requests s st r = (sps, s', st') →
  request_data s' = ∅ ∧ cinv s' st' ∧ length sps = len s ∧
  (∀ i rd, request_data s !! i = Some rd → store_is_closed (response_completion rd) st = false →
     value_at st' (response_completion rd) = Some r) ∧
  (∀ l, (∀ i rd, request_data s !! i = Some rd → response_completion rd ≠ l) → st' !! l = st !! l).
Proof.
  intros Hinv Hc. pose proof (λ l, complete_all_lookup s st r l Hinv) as Hl.
  pose proof (complete_all_inv s st r) as Hinv'. rewrite Hc in Hl, Hinv'. simpl in *.
  unfold complete_all_requests in Hc. simplify_eq. split_and!; [done|done|..].
  - rewrite length_map. apply length_map_to_list.
  - intros i rd Hi Hopen. unfold value_at. rewrite Hl, bool_decide_eq_true_2 by by exists i, rd.
    destruct (ow_live _ _ _ _ (cinv_owners _ _ Hinv) _ _ Hi) as (o & Ho & _).
    unfold store_is_closed in Hopen. rewrite Ho in *. simpl.
    by rewrite law_oneshot_send, <- law_oneshot_is_closed, Hopen.
  - intros l Hne. rewrite Hl, bool_decide_eq_false_2; [done|]. intros (i & rd & Hi & ?). by eapply Hne.
Qed.

(** [poll_expired] completes a request only when its deadline has passed, gives
    its caller the deadline error, and otherwise changes neither the requests nor any
    oneshot. *)
Theorem poll_expired_only_overdue s st now (e : Res) r s' st' :
  cinv s st → poll_expired s st now e = (r, s', st') →
  cinv s' st' ∧
  match r with
  | Ready (Some i) => ∃ rd due, request_data s !! i = Some rd ∧ due_at s i = Some due ∧ (due ≤ now)%Z ∧
      request_data s' = delete i (request_data s) ∧
      (store_is_closed (response_completion rd) st = false →
         value_at st' (response_completion rd) = Some e) ∧
      (∀ l, l ≠ response_completion rd → st' !! l = st !! l)
  | _ => request_data s' = request_data s ∧ st' = st
  end.
Proof.
  intros Hinv Hp. apply poll_expired_spec' in Hp as [Hinv' Hr]; [|done]. split; [done|].
  destruct r as [[i|]|]; [|by destruct Hr as (? & _ & ?)..].
  destruct Hr as (rd & due & Hi & Hdue & Hle & Hrd & _ & ->). exists rd, due.
  split_and!; [done..| |].
  - apply store_send_value. destruct (ow_live _ _ _ _ (cinv_owners _ _ Hinv) _ _ Hi) as (o & Ho & _). eauto.
  - intros l Hl. by apply store_send_ne, not_eq_sym.
Qed.
End properties.

(** ** Witnesses *)

Definition demo_ctx : Context := MkContext 10 Trace.trace_context_default.

Definition demo_store : gmap nat (oneshot Z) := {[0 := oneshot_channel; 1 := oneshot_channel]}.

Definition demo_insert (s : InFlightRequests (Span:=unit)) (i : Z) (l : nat) : InFlightRequests (Span:=unit) :=
  match insert_request s demo_store 0 i demo_ctx () l with Done (_, s', _) => s' | _ => s end.
Definition demo_table : InFlightRequests (Span:=unit) := demo_insert (demo_insert default 7 0) 8 1.

Lemma demo_cinv : cinv demo_table demo_store.
Proof.
  pose proof (insert_request_spec (default (Span:=unit)) demo_store 0 7 demo_ctx () 0 oneshot_channel) as H1.
  destruct H1 as [(k & s1 & H1 & Hd1 & _ & Hinv1)|[_ Hf]]; [apply cinv_default|reflexivity|done|done| |by vm_compute in Hf].
  pose proof (insert_request_spec s1 demo_store 0 8 demo_ctx () 1 oneshot_channel Hinv1) as H2.
  rewrite Hd1 in H2. destruct H2 as [(k2 & s2 & H2 & _ & _ & Hinv2)|[_ Hf]]; [reflexivity|done| | |by vm_compute in Hf].
  { intros j rd. simpl. rewrite lookup_insert_Some. by intros [[_ <-]|[_ ?]]. }
  unfold demo_table, demo_insert. by rewrite H1, H2.
Qed.

Lemma complete_request_delivers_witness :
  ∃ rd, request_data demo_table !! 7%Z = Some rd ∧
    ∃ s' st', complete_request demo_table demo_store 7 99%Z = Done (Some (span rd), s', st') ∧
      value_at st' (response_completion rd) = Some 99%Z.
Proof.
  assert (Hl : response_completion <$> request_data demo_table !! 7%Z = Some 0) by (vm_compute; reflexivity).
  destruct (request_data demo_table !! 7%Z) as [rd|] eqn:Hi; [|discriminate Hl]. injection Hl as Hl.
  exists rd. split; [reflexivity|].
  destruct (complete_request_delivers demo_table demo_store 7 rd 99%Z 0%Z demo_cinv Hi) as (s' & st' & H1 & _ & H2 & _).
  exists s', st'. split; [exact H1|]. apply H2. rewrite Hl. reflexivity.
Defined.

Lemma complete_all_completes_everyone_witness :
  request_data (complete_all_requests demo_table demo_store 5%Z).1.2 = ∅.
Proof.
  exact (proj1 (complete_all_completes_everyone demo_table demo_store 5%Z _ _ _ demo_cinv (pair3_eta _))).
Defined.

Lemma poll_expired_only_overdue_witness :
  cinv (poll_expired demo_table demo_store 30 5%Z).1.2 (poll_expired demo_table demo_store 30 5%Z).2.
Proof.
  exact (proj1 (poll_expired_only_overdue demo_table demo_store 30 5%Z _ _ _ demo_cinv (pair3_eta _))).
Defined.

End CIF.
