(* ===== verification/ClientDispatch.v ===== *)
(** * The client's request dispatch (tarpc/src/client.rs)

    [RequestDispatch] is the task that owns the transport: it writes queued requests
    and cancellations, reads responses, expires deadlines, and shuts down.  Its
    methods are translated one by one in the state monad over [World]: the dispatch
    and the oneshots it shares with the callers.  The channels between callers and
    dispatch are shared too; the world holds the one object both ends use.

    [now] is the instant at which the poll runs.  Every [loop] and [while] runs at most [bound]
    iterations; [ClientTermination] shows which bound is always enough. *)
From S2P Require Import Prelude Interfaces Wire Transport Cancellations ClientInFlight.

Module RpcError.
Inductive t (Dyn : Type) : Type :=
| Shutdown
| Send (source : Dyn)
| Channel (source : ChannelError.t Dyn)
| DeadlineExceeded
| Server (source : ServerError).
Arguments Shutdown {Dyn}.
Arguments Send {Dyn} _.
Arguments Channel {Dyn} _.
Arguments DeadlineExceeded {Dyn}.
Arguments Server {Dyn} _.
End RpcError.

Module Client.

(** [Config], with its default. *)
Record Config := MkConfig {
  max_in_flight_requests : Z;
  pending_request_buffer : Z;
}.

Definition config_default : Config := MkConfig 1000 100.

(** ** Model *)

Section model.
Context `{!DelayQueue, !Oneshot, !Mpsc}.
(** Error types that can be erased to [dyn Error] or [dyn Any]; [errty] is the
    transport's. *)
Context {TypeId : Type} `{!EqDecision TypeId} {interp : TypeId → Type} {errty : TypeId}.
Context {Span Req Resp : Type}.

Abbreviation E := (interp errty).
Abbreviation Dyn := (DynAny interp).
Abbreviation RpcResult := (Result Resp (RpcError.t Dyn)).

Context {T : Transport (ClientMessage Req) (Response Resp) E}.

Record DispatchRequest := MkDispatchRequest {
  dr_ctx : Context;
  dr_span : Span;
  dr_request_id : Z;
  dr_request : Req;
  (** The sender of the caller's oneshot: its location in the store. *)
  dr_response_completion : nat;
}.

(** [transport] is a [Fuse<C>]: [T] stands for [fused] of the transport given. *)
Record RequestDispatch := MkRequestDispatch {
  rd_transport : transport T;
  pending_requests : mpsc DispatchRequest;
  canceled_requests : mpsc Z;
  in_flight_requests : CIF.InFlightRequests (Span:=Span);
  config : Config;
  terminal_error : option (ChannelError.t Dyn);
}.

Record World := MkWorld {
  dispatch : RequestDispatch;
  oneshots : gmap nat (oneshot RpcResult);
}.

Definition set_transport (t : transport T) (w : World) : World :=
  let d := dispatch w in
  MkWorld (MkRequestDispatch t (pending_requests d) (canceled_requests d)
             (in_flight_requests d) (config d) (terminal_error d)) (oneshots w).
Definition set_pending (p : mpsc DispatchRequest) (w : World) : World :=
  let d := dispatch w in
  MkWorld (MkRequestDispatch (rd_transport d) p (canceled_requests d)
             (in_flight_requests d) (config d) (terminal_error d)) (oneshots w).
Definition set_canceled (c : mpsc Z) (w : World) : World :=
  let d := dispatch w in
  MkWorld (MkRequestDispatch (rd_transport d) (pending_requests d) c
             (in_flight_requests d) (config d) (terminal_error d)) (oneshots w).
Definition set_in_flight (i : CIF.InFlightRequests) (w : World) : World :=
  let d := dispatch w in
  MkWorld (MkRequestDispatch (rd_transport d) (pending_requests d) (canceled_requests d)
             i (config d) (terminal_error d)) (oneshots w).
Definition set_terminal_error (e : option (ChannelError.t Dyn)) (w : World) : World :=
  let d := dispatch w in
  MkWorld (MkRequestDispatch (rd_transport d) (pending_requests d) (canceled_requests d)
             (in_flight_requests d) (config d) e) (oneshots w).
Definition set_oneshots (st : gmap nat (oneshot RpcResult)) (w : World) : World :=
  MkWorld (dispatch w) st.

(** Running an operation of one of the dispatch's parts. *)
Definition on_transport {A} (f : transport T → A * transport T) : M World A := λ w,
  let '(a, t) := f (rd_transport (dispatch w)) in Done (a, set_transport t w).
Definition on_pending {A} (f : mpsc DispatchRequest → A * mpsc DispatchRequest) : M World A := λ w,
  let '(a, p) := f (pending_requests (dispatch w)) in Done (a, set_pending p w).
Definition on_canceled {A} (f : mpsc Z → A * mpsc Z) : M World A := λ w,
  let '(a, c) := f (canceled_requests (dispatch w)) in Done (a, set_canceled c w).
Definition on_in_flight {A}
    (f : CIF.InFlightRequests → gmap nat (oneshot RpcResult) →
         Exec (A * CIF.InFlightRequests * gmap nat (oneshot RpcResult))) : M World A := λ w,
  match f (in_flight_requests (dispatch w)) (oneshots w) with
  | Done (a, i, st) => Done (a, set_oneshots st (set_in_flight i w))
  | Panicked p => Panicked p
  | OutOfFuel => OutOfFuel
  end.
Definition on_oneshots (f : gmap nat (oneshot RpcResult) → gmap nat (oneshot RpcResult)) : M World unit :=
  modify (λ w, set_oneshots (f (oneshots w)) w).

(** [new]: a channel buffer of zero panics. *)
Definition new (config : Config) (t : transport T) : Exec (World * Z) :=
  pending ← mpsc_channel (pending_request_buffer config);
  Done (MkWorld (MkRequestDispatch t pending Cancellations.cancellations CIF.default config None) ∅,
        0%Z).

Definition poll_ready : M World (Poll (Result unit (ChannelError.t E))) :=
  p ← on_transport t_poll_ready; mret (poll_map (result_map_err ChannelError.Ready) p).

Definition start_send (message : ClientMessage Req) : M World (Result unit E) :=
  on_transport (t_start_send message).

Definition poll_flush : M World (Poll (Result unit (ChannelError.t E))) :=
  p ← on_transport t_poll_flush; mret (poll_map (result_map_err ChannelError.Flush) p).

Definition poll_close : M World (Poll (Result unit (ChannelError.t E))) :=
  p ← on_transport t_poll_close; mret (poll_map (result_map_err ChannelError.Close) p).

(** [complete]: whether the response's request was in flight. *)
Definition complete (response : Response Resp) : M World bool :=
  o ← on_in_flight (λ i st, CIF.complete_request i st (request_id response)
                       (result_map_err RpcError.Server (response_message response)));
  mret match o with Some _ => true | None => false end.

Definition pump_read : M World (Poll (option (Result unit (ChannelError.t E)))) :=
  p ← on_transport t_poll_next;
  match p with
  | Ready (Some (Ok response)) => _ ← complete response; mret (Ready (Some (Ok tt)))
  | Ready (Some (Err e)) => mret (Ready (Some (Err (ChannelError.Read e))))
  | Ready None => mret (Ready None)
  | Pending => mret Pending
  end.

Context (bound : nat) (now : Z).

Fixpoint ensure_writeable_loop (n : nat) : M World (Poll (option (Result unit (ChannelError.t E)))) :=
  match n with
  | 0 => no_fuel
  | S n =>
      p ← poll_ready;
      match p with
      | Ready (Err e) => mret (Ready (Some (Err e)))
      | Ready (Ok _) => mret (Ready (Some (Ok tt)))
      | Pending => ready? _ ← poll_flush; ensure_writeable_loop n
      end
  end.
Definition ensure_writeable := ensure_writeable_loop bound.

(** The loop of [poll_next_request]: requests whose caller has gone are dropped. *)
Fixpoint next_request_loop (n : nat)
    : M World (Poll (option (Result DispatchRequest (ChannelError.t E)))) :=
  match n with
  | 0 => no_fuel
  | S n =>
      ready! o ← on_pending mpsc_poll_recv;
      match o with
      | Some request =>
          w ← get;
          if CIF.store_is_closed (dr_response_completion request) (oneshots w)
          then _ ← on_oneshots (CIF.store_drop_sender (dr_response_completion request));
               next_request_loop n
          else mret (Ready (Some (Ok request)))
      | None => mret (Ready None)
      end
  end.

Definition poll_next_request : M World (Poll (option (Result DispatchRequest (ChannelError.t E)))) :=
  w ← get;
  if bool_decide (max_in_flight_requests (config (dispatch w)) ≤
                  Z.of_nat (CIF.len (in_flight_requests (dispatch w))))%Z
  then mret Pending
  else
    p ← ensure_writeable;
    match p with
    | Pending => mret Pending
    | Ready (Some (Err e)) => mret (Ready (Some (Err e)))
    | Ready _ => next_request_loop bound
    end.

(** The loop of [poll_next_cancellation]: ids that are not in flight are ignored. *)
Fixpoint next_cancellation_loop (n : nat)
    : M World (Poll (option (Result (Context * Span * Z) (ChannelError.t E)))) :=
  match n with
  | 0 => no_fuel
  | S n =>
      ready! o ← on_canceled Cancellations.poll_next;
      match o with
      | Some request_id =>
          r ← on_in_flight (λ i st, CIF.cancel_request i st request_id);
          match r with
          | Some (ctx, span) => mret (Ready (Some (Ok (ctx, span, request_id))))
          | None => next_cancellation_loop n
          end
      | None => mret (Ready None)
      end
  end.

Definition poll_next_cancellation
    : M World (Poll (option (Result (Context * Span * Z) (ChannelError.t E)))) :=
  p ← ensure_writeable;
  match p with
  | Pending => mret Pending
  | Ready (Some (Err e)) => mret (Ready (Some (Err e)))
  | Ready _ => next_cancellation_loop bound
  end.

Definition poll_write_request : M World (Poll (option (Result unit (ChannelError.t E)))) :=
  p ← poll_next_request;
  match p with
  | Pending => mret Pending
  | Ready (Some (Err e)) => mret (Ready (Some (Err e)))
  | Ready None => mret (Ready None)
  | Ready (Some (Ok (MkDispatchRequest ctx span request_id request response_completion))) =>
      let message := ClientRequest (MkRequest (MkContext (deadline ctx) (trace_context ctx)) request_id request) in
      inserted ← on_in_flight (λ i st, CIF.insert_request i st now request_id ctx span response_completion);
      _ ← lift_exec (expect_ok inserted);
      r ← start_send message;
      match r with
      | Ok _ => mret (Ready (Some (Ok tt)))
      | Err e =>
          _ ← on_in_flight (λ i st, CIF.complete_request i st request_id (Err (RpcError.Send (existT errty e))));
          mret (Ready (Some (Ok tt)))
      end
  end.

Definition poll_write_cancel : M World (Poll (option (Result unit (ChannelError.t E)))) :=
  p ← poll_next_cancellation;
  match p with
  | Pending => mret Pending
  | Ready (Some (Err e)) => mret (Ready (Some (Err e)))
  | Ready None => mret (Ready None)
  | Ready (Some (Ok (ctx, span, request_id))) =>
      r ← start_send (ClientCancel (trace_context ctx) request_id);
      match r with
      | Ok _ => mret (Ready (Some (Ok tt)))
      | Err e => mret (Ready (Some (Err (ChannelError.Write e))))
      end
  end.

Inductive ReceiverStatus := StatusPending | StatusClosed.

(** The end of [pump_write], when there was nothing to write or to expire. *)
Definition close_or_flush (pending_requests_status canceled_requests_status : ReceiverStatus)
    : M World (Poll (option (Result unit (ChannelError.t E)))) :=
  match pending_requests_status, canceled_requests_status with
  | StatusClosed, StatusClosed => ready? _ ← poll_close; mret (Ready None)
  | _, _ => ready? _ ← poll_flush; mret Pending
  end.

Definition pump_write : M World (Poll (option (Result unit (ChannelError.t E)))) :=
  p ← poll_write_request;
  match p with
  | Ready (Some r) => mret (Ready (Some r))
  | Ready None | Pending =>
      let pending_requests_status := if is_pending p then StatusPending else StatusClosed in
      c ← poll_write_cancel;
      match c with
      | Ready (Some r) => mret (Ready (Some r))
      | Ready None | Pending =>
          let canceled_requests_status := if is_pending c then StatusPending else StatusClosed in
          x ← on_in_flight (λ i st,
                Done (CIF.poll_expired i st now (Err RpcError.DeadlineExceeded)));
          match x with
          | Ready (Some _) => mret (Ready (Some (Ok tt)))
          | _ => close_or_flush pending_requests_status canceled_requests_status
          end
      end
  end.

(** The loop that answers the requests still queued when the dispatch shuts down. *)
Fixpoint drain_loop (e : ChannelError.t Dyn) (n : nat) : M World (Poll unit) :=
  match n with
  | 0 => no_fuel
  | S n =>
      ready! o ← on_pending mpsc_poll_recv;
      match o with
      | Some request =>
          let l := dr_response_completion request in
          _ ← on_oneshots (λ st,
                if CIF.store_is_closed l st then CIF.store_drop_sender l st
                else CIF.store_send l (Err (RpcError.Channel (ChannelError.clone e))) st);
          drain_loop e n
      | None => mret (Ready tt)
      end
  end.

Definition shut_down_with_terminal_error (e : ChannelError.t Dyn) : M World (Poll unit) :=
  _ ← on_pending (λ p, (tt, mpsc_close p));
  _ ← on_in_flight (λ i st,
        Done (CIF.complete_all_requests i st (Err (RpcError.Channel (ChannelError.clone e)))));
  drain_loop e bound.

Fixpoint run_loop (n : nat) : M World (Poll (Result unit (ChannelError.t E))) :=
  match n with
  | 0 => no_fuel
  | S n =>
      read ← pump_read;
      match read with
      | Ready (Some (Err e)) => mret (Ready (Err e))
      | _ =>
          write ← pump_write;
          match read, write with
          | _, Ready (Some (Err e)) => mret (Ready (Err e))
          | Ready None, _ => mret (Ready (Ok tt))
          | _, Ready None =>
              w ← get;
              if CIF.is_empty (in_flight_requests (dispatch w)) then mret (Ready (Ok tt))
              else match read with
                   | Ready (Some _) => run_loop n
                   | _ => mret Pending
                   end
          | Ready (Some _), _ | _, Ready (Some _) => run_loop n
          | _, _ => mret Pending
          end
      end
  end.
Definition run := run_loop bound.

(** [Future::poll]: run until an error; then, with the error stored, shut down. *)
Fixpoint poll_loop (n : nat) : M World (Poll (Result unit (ChannelError.t E))) :=
  match n with
  | 0 => no_fuel
  | S n =>
      w ← get;
      match terminal_error (dispatch w) with
      | Some stored =>
          e ← lift_exec (expect_ok (downcast interp errty (ChannelError.clone stored)));
          ready! _ ← shut_down_with_terminal_error (upcast_error interp (ChannelError.clone e));
          mret (Ready (Err e))
      | None =>
          ready! result ← run;
          match result with
          | Ok _ => mret (Ready (Ok tt))
          | Err e => _ ← modify (set_terminal_error (Some (upcast_any interp e))); poll_loop n
          end
      end
  end.
Definition poll := poll_loop 2.
End model.

Arguments RequestDispatch {_ _ _ _ _} Span {_ _} T.
Arguments World {_ _ _ _ _ _} Span {_ _} T.
End Client.
