(* ===== verification/ClientSpec.v ===== *)
(** * What the client's dispatch promises

    An abstract view of the dispatch: the two queues, the requests awaiting a
    response with their deadlines, the callers' oneshots, and what went over the
    wire.  [dstep] lists everything the dispatch may do to it, one event at a time;
    [ClientRefine] shows that the code does nothing else.  [ainv] is the invariant
    every step keeps: each request has its own id and its own unanswered oneshot. *)
From S2P Require Import Prelude Interfaces RefModels Wire ClientInFlight ClientDispatch.

Module Spec.
Export Client.

(** A request awaiting its response. *)
Record Waiting (Span : Type) := MkWaiting { w_ctx : Context; w_span : Span; w_loc : nat }.
Arguments MkWaiting {Span} _ _ _.
Arguments w_ctx {Span} _.
Arguments w_span {Span} _.
Arguments w_loc {Span} _.

Section spec.
Context `{!Oneshot} {Dyn Span Req Resp : Type}.

Abbreviation Res := (Result Resp (RpcError.t Dyn)).
Abbreviation Dr := (DispatchRequest (Span:=Span) (Req:=Req)).

Record AState := MkAState {
  a_pending : MpscView Dr;
  a_canceled : MpscView Z;
  a_waiting : gmap Z (Waiting Span);
  a_due : gmap Z Z;
  a_store : gmap nat (oneshot Res);
  a_sent : list (ClientMessage Req);
  a_received : list (Response Resp);
  a_ended : bool;
  a_error : option (ChannelError.t Dyn);
}.

Definition pop_pending (q : list Dr) (a : AState) : AState :=
  MkAState (mv_set_queue q (a_pending a)) (a_canceled a) (a_waiting a) (a_due a) (a_store a)
    (a_sent a) (a_received a) (a_ended a) (a_error a).
Definition close_pending (a : AState) : AState :=
  MkAState (MkMpscView (mv_queue (a_pending a)) (mv_senders (a_pending a)) true) (a_canceled a)
    (a_waiting a) (a_due a) (a_store a) (a_sent a) (a_received a) (a_ended a) (a_error a).
Definition pop_canceled (q : list Z) (a : AState) : AState :=
  MkAState (a_pending a) (mv_set_queue q (a_canceled a)) (a_waiting a) (a_due a) (a_store a)
    (a_sent a) (a_received a) (a_ended a) (a_error a).
Definition track (i : Z) (w : Waiting Span) (due : Z) (a : AState) : AState :=
  MkAState (a_pending a) (a_canceled a) (<[i := w]> (a_waiting a)) (<[i := due]> (a_due a)) (a_store a)
    (a_sent a) (a_received a) (a_ended a) (a_error a).
Definition untrack (i : Z) (a : AState) : AState :=
  MkAState (a_pending a) (a_canceled a) (delete i (a_waiting a)) (delete i (a_due a)) (a_store a)
    (a_sent a) (a_received a) (a_ended a) (a_error a).
Definition untrack_all (a : AState) : AState :=
  MkAState (a_pending a) (a_canceled a) ∅ ∅ (a_store a) (a_sent a) (a_received a) (a_ended a) (a_error a).
Definition with_store (f : gmap nat (oneshot Res) → gmap nat (oneshot Res)) (a : AState) : AState :=
  MkAState (a_pending a) (a_canceled a) (a_waiting a) (a_due a) (f (a_store a))
    (a_sent a) (a_received a) (a_ended a) (a_error a).
Definition log_sent (m : ClientMessage Req) (a : AState) : AState :=
  MkAState (a_pending a) (a_canceled a) (a_waiting a) (a_due a) (a_store a)
    (a_sent a ++ [m]) (a_received a) (a_ended a) (a_error a).
Definition log_received (r : Response Resp) (a : AState) : AState :=
  MkAState (a_pending a) (a_canceled a) (a_waiting a) (a_due a) (a_store a)
    (a_sent a) (a_received a ++ [r]) (a_ended a) (a_error a).
Definition set_ended (a : AState) : AState :=
  MkAState (a_pending a) (a_canceled a) (a_waiting a) (a_due a) (a_store a)
    (a_sent a) (a_received a) true (a_error a).
Definition set_error (e : ChannelError.t Dyn) (a : AState) : AState :=
  MkAState (a_pending a) (a_canceled a) (a_waiting a) (a_due a) (a_store a)
    (a_sent a) (a_received a) (a_ended a) (Some e).

Definition request_message (dr : Dr) : ClientMessage Req :=
  ClientRequest (MkRequest (dr_ctx dr) (dr_request_id dr) (dr_request dr)).

(** The outcome a response carries to the caller. *)
Definition response_outcome (r : Response Resp) : Res :=
  result_map_err RpcError.Server (response_message r).

Definition send_channel_error (e : ChannelError.t Dyn) (l : nat) (st : gmap nat (oneshot Res)) :=
  if CIF.store_is_closed l st then CIF.store_drop_sender l st
  else CIF.store_send l (Err (RpcError.Channel e)) st.

(** The events of the dispatch, polled at [now] with at most [max] requests in flight. *)
Inductive dstep (max now : Z) (a : AState) : AState → Prop :=
| d_skip dr q :
    a_error a = None →
    mv_queue (a_pending a) = dr :: q → CIF.store_is_closed (dr_response_completion dr) (a_store a) = true →
    dstep max now a (with_store (CIF.store_drop_sender (dr_response_completion dr)) (pop_pending q a))
| d_send dr q :
    a_error a = None →
    mv_queue (a_pending a) = dr :: q → CIF.store_is_closed (dr_response_completion dr) (a_store a) = false →
    (Z.of_nat (size (a_waiting a)) < max)%Z → a_waiting a !! dr_request_id dr = None →
    dstep max now a
      (log_sent (request_message dr)
        (track (dr_request_id dr) (MkWaiting (dr_ctx dr) (dr_span dr) (dr_response_completion dr))
               (Z.max now (deadline (dr_ctx dr))) (pop_pending q a)))
| d_send_failed dr q e :
    a_error a = None →
    mv_queue (a_pending a) = dr :: q → CIF.store_is_closed (dr_response_completion dr) (a_store a) = false →
    dstep max now a
      (with_store (CIF.store_send (dr_response_completion dr) (Err (RpcError.Send e))) (pop_pending q a))
| d_cancel_ignored i q :
    a_error a = None →
    mv_queue (a_canceled a) = i :: q → a_waiting a !! i = None →
    dstep max now a (pop_canceled q a)
| d_cancel i q w :
    a_error a = None →
    mv_queue (a_canceled a) = i :: q → a_waiting a !! i = Some w →
    dstep max now a
      (log_sent (ClientCancel (trace_context (w_ctx w)) i)
        (with_store (CIF.store_drop_sender (w_loc w)) (untrack i (pop_canceled q a))))
| d_cancel_failed i q w :
    a_error a = None →
    mv_queue (a_canceled a) = i :: q → a_waiting a !! i = Some w →
    dstep max now a (with_store (CIF.store_drop_sender (w_loc w)) (untrack i (pop_canceled q a)))
| d_expire i w due :
    a_error a = None →
    a_waiting a !! i = Some w → a_due a !! i = Some due → (due ≤ now)%Z →
    dstep max now a (with_store (CIF.store_send (w_loc w) (Err RpcError.DeadlineExceeded)) (untrack i a))
| d_response r w :
    a_error a = None →
    a_waiting a !! request_id r = Some w →
    dstep max now a
      (with_store (CIF.store_send (w_loc w) (response_outcome r)) (untrack (request_id r) (log_received r a)))
| d_response_ignored r :
    a_error a = None →
    a_waiting a !! request_id r = None →
    dstep max now a (log_received r a)
| d_end :
    a_error a = None →
    dstep max now a (set_ended a)
| d_fail e :
    a_error a = None →
    dstep max now a (set_error e a)
| d_shutdown e (ws : list (Z * Waiting Span)) :
    a_error a = Some e → ws ≡ₚ map_to_list (a_waiting a) →
    dstep max now a
      (with_store (λ st, foldl (λ st iw, CIF.store_send (w_loc iw.2) (Err (RpcError.Channel e)) st) st ws)
        (untrack_all (close_pending a)))
| d_drain e dr q :
    a_error a = Some e → mv_closed (a_pending a) = true → a_waiting a = ∅ →
    mv_queue (a_pending a) = dr :: q →
    dstep max now a (with_store (send_channel_error e (dr_response_completion dr)) (pop_pending q a)).

Definition dsteps (max now : Z) : AState → AState → Prop := rtc (dstep max now).
End spec.

Arguments AState {_} Dyn Span Req Resp.

(** ** The invariant *)

(** A oneshot of the store, nothing sent on it and its sender not dropped. *)
Definition unused_at `{!Oneshot, !OneshotLaws} {Res} (st : gmap nat (oneshot Res)) (l : nat) : Prop :=
  ∃ o, st !! l = Some o ∧ CIF.unused o.

(** Requests (id and oneshot) that each have an id and an unused oneshot of their own. *)
Record owned `{!Oneshot, !OneshotLaws} {Res} (os : list (Z * nat)) (st : gmap nat (oneshot Res)) : Prop := {
  owned_ids : NoDup os.*1;
  owned_locs : NoDup os.*2;
  owned_unused : Forall (unused_at st) os.*2;
}.

Section owned.
Context `{!Oneshot, !OneshotLaws} {Res : Type}.
Implicit Types (os : list (Z * nat)) (st : gmap nat (oneshot Res)).

Lemma unused_at_alter st f l l' : l ≠ l' → unused_at st l → unused_at (alter f l' st) l.
Proof. intros Hne (o & Ho & Hu). exists o. by rewrite lookup_alter_ne. Qed.

#[export] Instance owned_proper : Proper ((≡ₚ) ==> eq ==> iff) (owned (Res:=Res)).
Proof.
  intros os os' Hos st ? <-.
  split; intros [H1 H2 H3]; split; by (rewrite <- Hos || rewrite Hos).
Qed.

Lemma owned_nil st : owned [] st.
Proof. split; constructor. Qed.

Lemma owned_remove i l os st f : owned ((i, l) :: os) st → owned os (alter f l st).
Proof.
  intros [[_ H1]%NoDup_cons [Hl H2]%NoDup_cons [_ H3]%Forall_cons]. split; [done..|].
  rewrite Forall_forall in H3 |- *. intros l' Hl'. apply unused_at_alter; [|by apply H3].
  intros ->. by apply Hl.
Qed.

Lemma owned_tail i l os st : owned ((i, l) :: os) st → owned os st.
Proof. intros [[_ H1]%NoDup_cons [Hl H2]%NoDup_cons [_ H3]%Forall_cons]. by split. Qed.

Lemma owned_head i l os st : owned ((i, l) :: os) st → unused_at st l.
Proof. intros [_ _ [? _]%Forall_cons]. done. Qed.

Lemma owned_head_ne i l j l' os st :
  owned ((i, l) :: os) st → (j, l') ∈ os → i ≠ j ∧ l ≠ l'.
Proof.
  intros [[Hi _]%NoDup_cons [Hl _]%NoDup_cons _] Hin. split; intros <-.
  - apply Hi. by apply (list_elem_of_fmap_2 fst _ (i, l')).
  - apply Hl. by apply (list_elem_of_fmap_2 snd _ (j, l)).
Qed.

Lemma owned_cons i l os st :
  owned os st → i ∉ os.*1 → l ∉ os.*2 → unused_at st l → owned ((i, l) :: os) st.
Proof. intros [H1 H2 H3] ???. split; simpl; by constructor. Qed.

Lemma owned_store os st st' :
  owned os st → (∀ l, l ∈ os.*2 → unused_at st l → unused_at st' l) → owned os st'.
Proof.
  intros [H1 H2 H3] Hst. split; [done..|]. rewrite Forall_forall in H3 |- *. eauto.
Qed.

Lemma owned_elem os st i l : owned os st → (i, l) ∈ os → unused_at st l.
Proof.
  intros [_ _ H3] Hin. rewrite Forall_forall in H3. apply H3. by apply (list_elem_of_fmap_2 snd _ (i, l)).
Qed.

Lemma owned_inj os st i j l l' :
  owned os st → (i, l) ∈ os → (j, l') ∈ os → (i = j ↔ l = l').
Proof.
  intros [H1 H2 _] [n Hn]%list_elem_of_lookup [m Hm]%list_elem_of_lookup. split; intros <-.
  - assert (n = m) by (eapply NoDup_lookup; [exact H1|rewrite list_lookup_fmap, Hn|rewrite list_lookup_fmap, Hm]; done).
    congruence.
  - assert (n = m) by (eapply NoDup_lookup; [exact H2|rewrite list_lookup_fmap, Hn|rewrite list_lookup_fmap, Hm]; done).
    congruence.
Qed.

Lemma owned_suffix os os' st : owned (os ++ os') st → owned os st ∧ owned os' st.
Proof.
  intros [H1 H2 H3]. rewrite !fmap_app in *. apply Forall_app in H3 as [??].
  apply NoDup_app in H1 as (?&?&?), H2 as (?&?&?). by split; split.
Qed.
End owned.

Section ainv.
Context `{!Oneshot, !OneshotLaws} {Dyn Span Req Resp : Type}.
Implicit Types a : AState Dyn Span Req Resp.

Definition pending_owned a : list (Z * nat) :=
  map (λ dr, (dr_request_id dr, dr_response_completion dr)) (mv_queue (a_pending a)).
Definition waiting_owned a : list (Z * nat) := map (λ iw, (iw.1, w_loc iw.2)) (map_to_list (a_waiting a)).

(** Requests queued or in flight: those that must still be answered. *)
Definition outstanding a : list (Z * nat) := pending_owned a ++ waiting_owned a.

Record ainv (max : Z) a : Prop := {
  ainv_owned : owned (outstanding a) (a_store a);
  ainv_due : dom (a_due a) = dom (a_waiting a);
  ainv_max : (Z.of_nat (size (a_waiting a)) ≤ max)%Z;
}.

Lemma waiting_owned_elem a i w : a_waiting a !! i = Some w → (i, w_loc w) ∈ waiting_owned a.
Proof.
  intros Hi. apply list_elem_of_fmap. exists (i, w). by rewrite elem_of_map_to_list.
Qed.

Lemma waiting_owned_inv a i l :
  (i, l) ∈ waiting_owned a → ∃ w, a_waiting a !! i = Some w ∧ w_loc w = l.
Proof.
  intros ([j w] & [= -> ->] & Hj%elem_of_map_to_list)%list_elem_of_fmap. eauto.
Qed.

Lemma outstanding_pop a dr q :
  mv_queue (a_pending a) = dr :: q →
  outstanding a =
    (dr_request_id dr, dr_response_completion dr) :: outstanding (pop_pending q a).
Proof. intros Hq. unfold outstanding, pending_owned. by rewrite Hq. Qed.

Lemma outstanding_untrack a i w :
  a_waiting a !! i = Some w → outstanding a ≡ₚ (i, w_loc w) :: outstanding (untrack i a).
Proof.
  intros Hi. unfold outstanding, waiting_owned. simpl. rewrite Permutation_middle. apply Permutation_app; [done|].
  by rewrite <- (map_to_list_delete _ i w) by done.
Qed.

Lemma outstanding_track a i w due :
  a_waiting a !! i = None → outstanding (track i w due a) ≡ₚ (i, w_loc w) :: outstanding a.
Proof.
  intros Hi. unfold outstanding, waiting_owned. simpl. rewrite Permutation_middle. apply Permutation_app; [done|].
  by rewrite map_to_list_insert by done.
Qed.

Lemma ainv_pop max a dr q f :
  ainv max a → mv_queue (a_pending a) = dr :: q →
  ainv max (with_store (alter f (dr_response_completion dr)) (pop_pending q a)).
Proof.
  intros [Ho Hd Hm] Hq. split; simpl; [|done..].
  rewrite (outstanding_pop _ _ _ Hq) in Ho. by eapply owned_remove.
Qed.

Lemma ainv_untrack max a i w f :
  ainv max a → a_waiting a !! i = Some w →
  ainv max (with_store (alter f (w_loc w)) (untrack i a)).
Proof.
  intros [Ho Hd Hm] Hi. split; simpl.
  - rewrite (outstanding_untrack _ _ _ Hi) in Ho. by eapply owned_remove.
  - by rewrite !dom_delete_L, Hd.
  - pose proof (gmap_size_delete_le (a_waiting a) i). lia.
Qed.

(** Steps that touch neither the pending requests nor those in flight. *)
Lemma ainv_frame max a a' :
  ainv max a → a_pending a' = a_pending a → a_waiting a' = a_waiting a → a_due a' = a_due a →
  a_store a' = a_store a → ainv max a'.
Proof.
  intros [Ho Hd Hm] E1 E2 E3 E4. split; unfold outstanding, pending_owned, waiting_owned; by rewrite ?E1, ?E2, ?E3, ?E4.
Qed.

Lemma ainv_track max a dr q due :
  ainv max a → mv_queue (a_pending a) = dr :: q → a_waiting a !! dr_request_id dr = None →
  (Z.of_nat (size (a_waiting a)) < max)%Z →
  ainv max (track (dr_request_id dr) (MkWaiting (dr_ctx dr) (dr_span dr) (dr_response_completion dr))
              due (pop_pending q a)).
Proof.
  intros [Ho Hd Hm] Hq Hi Hlt. split; simpl.
  - by rewrite outstanding_track, <- outstanding_pop.
  - by rewrite !dom_insert_L, Hd.
  - rewrite map_size_insert_None by done. lia.
Qed.

Lemma owned_send_all os os' (st : gmap nat (oneshot (Result Resp (RpcError.t Dyn)))) r :
  owned (os ++ os') st →
  owned os (foldl (λ st p, CIF.store_send p.2 r st) st os').
Proof.
  revert st. induction os' as [|[i l] os' IH]; intros st; simpl; [by rewrite app_nil_r|].
  rewrite <- Permutation_middle. intros Hos. apply IH. by eapply owned_remove.
Qed.

Lemma foldl_send_map (st : gmap nat (oneshot (Result Resp (RpcError.t Dyn)))) r (ws : list (Z * Waiting Span)) :
  foldl (λ st iw, CIF.store_send (w_loc iw.2) r st) st ws =
  foldl (λ st p, CIF.store_send p.2 r st) st (map (λ iw, (iw.1, w_loc iw.2)) ws).
Proof. revert st. induction ws; intros; simpl; auto. Qed.

Lemma ainv_untrack_frame max a a' i w f :
  ainv max a → a_waiting a !! i = Some w → a_pending a' = a_pending a →
  a_waiting a' = delete i (a_waiting a) → a_due a' = delete i (a_due a) →
  a_store a' = alter f (w_loc w) (a_store a) → ainv max a'.
Proof. intros Hinv Hi ????. eapply ainv_frame; [by eapply (ainv_untrack _ _ _ _ f)|done..]. Qed.

Lemma ainv_shutdown max a (r : Result Resp (RpcError.t Dyn)) ws :
  ainv max a → ws ≡ₚ map_to_list (a_waiting a) →
  ainv max (with_store (λ st, foldl (λ st iw, CIF.store_send (w_loc iw.2) r st) st ws)
              (untrack_all (close_pending a))).
Proof.
  intros [Ho Hd Hm] Hws. split; simpl; [|done|rewrite map_size_empty; lia].
  unfold outstanding, waiting_owned, pending_owned in *. simpl.
  rewrite map_to_list_empty, app_nil_r, foldl_send_map. apply owned_send_all. by rewrite Hws.
Qed.

Lemma dstep_ainv max now a a' : ainv max a → dstep max now a a' → ainv max a'.
Proof.
  intros Hinv Hs; destruct Hs.
  - by eapply ainv_pop.
  - eapply ainv_frame; [by eapply ainv_track|done..].
  - by eapply ainv_pop.
  - by eapply ainv_frame.
  - by eapply ainv_untrack_frame.
  - by eapply ainv_untrack_frame.
  - by eapply ainv_untrack.
  - by eapply ainv_untrack_frame.
  - by eapply ainv_frame.
  - by eapply ainv_frame.
  - by eapply ainv_frame.
  - by apply ainv_shutdown.
  - unfold send_channel_error, with_store. simpl.
    destruct (CIF.store_is_closed _ _); by eapply ainv_pop.
Qed.

(** The work left: every event but a response, the end of the stream or a failure
    makes it smaller, and none makes it larger. *)
Definition work a : nat :=
  2 * length (mv_queue (a_pending a)) + length (mv_queue (a_canceled a)) + size (a_waiting a).

Lemma dstep_work max now a a' : dstep max now a a' → work a' ≤ work a.
Proof.
  destruct 1; unfold work; simpl;
    repeat match goal with E : mv_queue _ = _ |- _ => rewrite E; clear E end; simpl;
    rewrite ?map_size_empty; try lia;
    try (rewrite map_size_insert_None by done; lia);
    match goal with |- context [size (delete ?i ?m)] => pose proof (gmap_size_delete_le m i); lia end.
Qed.

Lemma dsteps_work max now a a' : dsteps max now a a' → work a' ≤ work a.
Proof. induction 1 as [|??? Hs]; [done|]. apply dstep_work in Hs. lia. Qed.

Lemma dsteps_ainv max now a a' : ainv max a → dsteps max now a a' → ainv max a'.
Proof. intros Hinv. induction 1; eauto using dstep_ainv. Qed.
End ainv.
End Spec.
