(* ===== verification/ClientRefine.v ===== *)
(** * The client's dispatch keeps its promise

    Every method of [RequestDispatch] is a sequence of the events of [ClientSpec]
    and does not panic, provided the requests handed to it have distinct ids. *)
From S2P Require Import Prelude Interfaces RefModels Wire TimerTable Transport Cancellations ClientInFlight ClientDispatch ClientSpec.

Module Refine.
Export Client Spec.

Section refine.
Context `{!DelayQueue, !DelayQueueLaws, !Oneshot, !OneshotLaws, !Mpsc, !MpscLaws}.
Context {TypeId : Type} `{!EqDecision TypeId} {interp : TypeId → Type} {errty : TypeId}.
Context {Span Req Resp : Type}.
Context {T : Transport (ClientMessage Req) (Response Resp) (interp errty)} `{!TransportLog T}.
Implicit Types w : World Span T.

Abbreviation AS := (AState (DynAny interp) Span Req Resp).

Definition strip (rd : CIF.RequestData (Span:=Span)) : Waiting Span :=
  MkWaiting (CIF.ctx rd) (CIF.span rd) (CIF.response_completion rd).

Definition abs w : AS :=
  let d := dispatch w in
  MkAState (mpsc_view (pending_requests d)) (mpsc_view (canceled_requests d))
    (strip <$> CIF.request_data (in_flight_requests d)) (CIF.abs (in_flight_requests d)) (oneshots w)
    (sent (rd_transport d)) (received (rd_transport d)) (ended (rd_transport d)) (terminal_error d).

Definition max_of w : Z := max_in_flight_requests (config (dispatch w)).
Definition timers w : Prop :=
  timers_ok CIF.deadline_key (CIF.request_data (in_flight_requests (dispatch w)))
    (CIF.deadlines (in_flight_requests (dispatch w))).

(** The error kept for callers was stored by [poll]: it erases an error of the transport. *)
Definition error_ok w : Prop :=
  match terminal_error (dispatch w) with
  | None => True
  | Some e => ∃ e0 : ChannelError.t (interp errty), e = upcast_any interp e0
  end.

Record dinv w : Prop := {
  dinv_timers : timers w;
  dinv_ainv : ainv (max_of w) (abs w);
  dinv_error : error_ok w;
}.

(** Only the transport moved, and nothing passed through it. *)
Definition quiet w w' : Prop :=
  ∃ t, w' = set_transport t w ∧ sent t = sent (rd_transport (dispatch w)) ∧
       received t = received (rd_transport (dispatch w)) ∧ ended t = ended (rd_transport (dispatch w)).

#[export] Instance quiet_preorder : PreOrder quiet.
Proof.
  split.
  - intros w. exists (rd_transport (dispatch w)). by destruct w as [[] ?].
  - intros w1 w2 w3 (t & -> & ? & ? & ?) (t' & -> & ? & ? & ?). exists t'. simpl in *. split_and!; [done|congruence..].
Qed.

Lemma quiet_abs w w' : quiet w w' → abs w' = abs w.
Proof. intros (t & -> & E1 & E2 & E3). unfold abs. simpl. by rewrite E1, E2, E3. Qed.

Lemma quiet_fields w w' :
  quiet w w' → in_flight_requests (dispatch w') = in_flight_requests (dispatch w) ∧
    config (dispatch w') = config (dispatch w) ∧ oneshots w' = oneshots w ∧
    terminal_error (dispatch w') = terminal_error (dispatch w).
Proof. by intros (t & -> & _). Qed.

(** [w'] is reached from [w] by events of the dispatch, in good order. *)
Record ok (now : Z) w w' : Prop := {
  ok_timers : timers w';
  ok_steps : dsteps (max_of w) now (abs w) (abs w');
  ok_config : config (dispatch w') = config (dispatch w);
  ok_error : terminal_error (dispatch w') = terminal_error (dispatch w);
}.

Lemma ok_refl now w : timers w → ok now w w.
Proof. by split; [|apply rtc_refl|..]. Qed.

Lemma ok_trans now w1 w2 w3 : ok now w1 w2 → ok now w2 w3 → ok now w1 w3.
Proof.
  intros [T1 S1 C1 E1] [T2 S2 C2 E2]. unfold max_of in *. split; [done| |congruence..].
  etrans; [done|]. unfold max_of. by rewrite <- C1.
Qed.

Lemma ok_quiet now w w' : timers w → quiet w w' → ok now w w'.
Proof.
  intros Ht Hq. destruct (quiet_fields _ _ Hq) as (Ei & Ec & _ & Ee). split; [|..|done|done].
  - unfold timers. by rewrite Ei.
  - rewrite (quiet_abs _ _ Hq). apply rtc_refl.
Qed.

Lemma ok_step now w w' a' :
  timers w' → config (dispatch w') = config (dispatch w) →
  terminal_error (dispatch w') = terminal_error (dispatch w) →
  dstep (max_of w) now (abs w) a' → abs w' = a' → ok now w w'.
Proof. intros ???? <-. by split; [|apply rtc_once|..]. Qed.

Lemma ok_work now w w' : ok now w w' → work (abs w') ≤ work (abs w).
Proof. intros Hok. eapply dsteps_work, Hok. Qed.

Lemma ok_ainv now w w' : ainv (max_of w) (abs w) → ok now w w' → ainv (max_of w') (abs w').
Proof.
  intros Hi [_ Hs Hc _]. unfold max_of at 1. rewrite Hc. by eapply dsteps_ainv.
Qed.

Lemma abs_waiting w i rd :
  CIF.request_data (in_flight_requests (dispatch w)) !! i = Some rd →
  a_waiting (abs w) !! i = Some (strip rd).
Proof. intros Hi. simpl. by rewrite lookup_fmap, Hi. Qed.

Lemma abs_waiting_None w i :
  CIF.request_data (in_flight_requests (dispatch w)) !! i = None → a_waiting (abs w) !! i = None.
Proof. intros Hi. simpl. by rewrite lookup_fmap, Hi. Qed.

Lemma abs_outstanding w i rd :
  CIF.request_data (in_flight_requests (dispatch w)) !! i = Some rd →
  (i, CIF.response_completion rd) ∈ outstanding (abs w).
Proof. intros Hi%abs_waiting%waiting_owned_elem. apply elem_of_app. by right. Qed.

Lemma ainv_cinv w :
  timers w → ainv (max_of w) (abs w) → CIF.cinv (in_flight_requests (dispatch w)) (oneshots w).
Proof.
  intros Ht [Ho _ _]. split; [done|]. split.
  - intros i rd Hi. by eapply (owned_elem _ _ i), abs_outstanding.
  - intros i j rd rd' Hi Hj. by eapply owned_inj; [|apply abs_outstanding..].
Qed.

(** ** Running the parts *)

Lemma wp_on_transport {A} (f : transport T → A * transport T) Q w :
  (∀ a t, f (rd_transport (dispatch w)) = (a, t) → Q a (set_transport t w)) → wp (on_transport f) Q w.
Proof. intros Hq. unfold wp, on_transport. destruct (f _) as [a t] eqn:Hf. by apply Hq. Qed.

Lemma wp_on_pending {A} (f : mpsc _ → A * mpsc _) Q w :
  (∀ a p, f (pending_requests (dispatch w)) = (a, p) → Q a (set_pending p w)) → wp (on_pending f) Q w.
Proof. intros Hq. unfold wp, on_pending. destruct (f _) as [a t] eqn:Hf. by apply Hq. Qed.

Lemma wp_on_canceled {A} (f : mpsc Z → A * mpsc Z) Q w :
  (∀ a c, f (canceled_requests (dispatch w)) = (a, c) → Q a (set_canceled c w)) → wp (on_canceled f) Q w.
Proof. intros Hq. unfold wp, on_canceled. destruct (f _) as [a t] eqn:Hf. by apply Hq. Qed.

Lemma wp_on_in_flight {A} f (a : A) i st Q w :
  f (in_flight_requests (dispatch w)) (oneshots w) = Done (a, i, st) →
  Q a (set_oneshots st (set_in_flight i w)) → wp (on_in_flight f) Q w.
Proof. intros Hf Hq. unfold wp, on_in_flight. by rewrite Hf. Qed.

Lemma wp_in_flight_far {A} f Q w :
  f (in_flight_requests (dispatch w)) (oneshots w) = Panicked FarDeadline → wp (on_in_flight (A:=A) f) Q w.
Proof. intros Hf. unfold wp, on_in_flight. by rewrite Hf. Qed.

Lemma wp_on_oneshots f Q w : Q tt (set_oneshots (f (oneshots w)) w) → wp (on_oneshots f) Q w.
Proof. done. Qed.

Lemma quiet_transport w t :
  sent t = sent (rd_transport (dispatch w)) → received t = received (rd_transport (dispatch w)) →
  ended t = ended (rd_transport (dispatch w)) → quiet w (set_transport t w).
Proof. intros. by exists t. Qed.

Lemma wp_poll_ready w : wp poll_ready (λ r w', quiet w w') w.
Proof.
  apply wp_bind, wp_on_transport. intros r t (?&?&?)%log_poll_ready. apply wp_ret. by apply quiet_transport.
Qed.

Lemma wp_poll_flush w : wp poll_flush (λ r w', quiet w w') w.
Proof.
  apply wp_bind, wp_on_transport. intros r t (?&?&?)%log_poll_flush. apply wp_ret. by apply quiet_transport.
Qed.

Lemma wp_poll_close w : wp poll_close (λ r w', quiet w w') w.
Proof.
  apply wp_bind, wp_on_transport. intros r t (?&?&?)%log_poll_close. apply wp_ret. by apply quiet_transport.
Qed.

Lemma wp_ensure_writeable n w : wp (ensure_writeable_loop n) (λ r w', quiet w w' ∧ r ≠ Ready None) w.
Proof.
  revert w. induction n as [|n IH]; intros w; [done|]. cbn [ensure_writeable_loop].
  apply wp_bind. eapply wp_mono; [apply wp_poll_ready|]. intros [[[]|e]|] w1 Hq1; [by apply wp_ret..|].
  apply wp_bind. eapply wp_mono; [apply wp_poll_flush|]. intros [[[]|e]|] w2 Hq2.
  - eapply wp_mono; [apply IH|]. intros r w3 [Hq3 ?]. split; [|done]. by do 2 (etrans; [done|]).
  - apply wp_ret. split; [by etrans|done].
  - apply wp_ret. split; [by etrans|done].
Qed.

(** What the methods need of the world they run in, and leave behind. *)
Record ready_world w : Prop := {
  rw_timers : timers w;
  rw_ainv : ainv (max_of w) (abs w);
  rw_error : terminal_error (dispatch w) = None;
}.

Lemma ready_ok now w w' : ready_world w → ok now w w' → ready_world w'.
Proof.
  intros [Ht Hi He] Hok. split; [by apply Hok|by eapply ok_ainv|].
  by rewrite (ok_error _ _ _ Hok).
Qed.

Lemma pop_abs p q w :
  mpsc_view p = mv_set_queue q (mpsc_view (pending_requests (dispatch w))) →
  abs (set_pending p w) = pop_pending q (abs w).
Proof. intros Hp. unfold abs, pop_pending. simpl. by rewrite Hp. Qed.

Lemma set_pending_abs p w :
  mpsc_view p = mpsc_view (pending_requests (dispatch w)) → abs (set_pending p w) = abs w.
Proof. intros Hp. unfold abs. simpl. by rewrite Hp. Qed.

Lemma ok_same now w w' :
  timers w → in_flight_requests (dispatch w') = in_flight_requests (dispatch w) →
  config (dispatch w') = config (dispatch w) → abs w' = abs w → ok now w w'.
Proof.
  intros Ht Ei Ec Ea. split; [unfold timers; by rewrite Ei|rewrite Ea; apply rtc_refl|done|].
  exact (f_equal a_error Ea).
Qed.

(** The request [dr] has just been taken off the queue of [w0]. *)
Definition holding (dr : DispatchRequest (Span:=Span) (Req:=Req)) w0 w' : Prop :=
  ∃ p q, w' = set_pending p w0 ∧ mv_queue (mpsc_view (pending_requests (dispatch w0))) = dr :: q ∧
    mpsc_view p = mv_set_queue q (mpsc_view (pending_requests (dispatch w0))) ∧
    CIF.store_is_closed (dr_response_completion dr) (oneshots w0) = false.

Lemma wp_next_request_loop now n w :
  ready_world w →
  wp (next_request_loop n) (λ r w',
    match r with
    | Ready (Some (Ok dr)) => ∃ w0, ok now w w0 ∧ holding dr w0 w' ∧
        in_flight_requests (dispatch w0) = in_flight_requests (dispatch w)
    | Ready (Some (Err _)) => False
    | _ => ok now w w'
    end) w.
Proof.
  revert w. induction n as [|n IH]; intros w Hw; [done|]. cbn [next_request_loop].
  apply wp_bind, wp_on_pending. intros r p Hp%law_poll_recv.
  destruct r as [[dr|]|]; simpl in Hp.
  - destruct Hp as (q & Hq & Hp). apply wp_bind, wp_get. simpl.
    destruct (CIF.store_is_closed _ _) eqn:Hcl.
    + apply wp_bind, wp_on_oneshots. simpl.
      set (w1 := set_oneshots _ _).
      assert (Hok : ok now w w1).
      { eapply ok_step; [exact (rw_timers _ Hw)|done|done|by eapply d_skip; [apply Hw|..]|].
        by rewrite <- (pop_abs _ _ _ Hp). }
      eapply wp_mono; [by apply IH, (ready_ok now w)|].
      intros r w2 Hr. destruct r as [[[dr'|]|]|]; try done.
      * destruct Hr as (w0 & ? & ? & Hi). exists w0. split; [by eapply ok_trans|done].
      * by eapply ok_trans.
      * by eapply ok_trans.
    + apply wp_ret. exists w. split; [apply ok_refl, Hw|]. split; [|done]. by exists p, q.
  - apply wp_ret. apply ok_same; [apply Hw|done|done|]. by apply set_pending_abs, Hp.
  - apply wp_ret. apply ok_same; [apply Hw|done|done|]. by apply set_pending_abs, Hp.
Qed.

Lemma wp_poll_next_request bound now w :
  ready_world w →
  wp (poll_next_request bound) (λ r w',
    match r with
    | Ready (Some (Ok dr)) => ∃ w0, ok now w w0 ∧ holding dr w0 w' ∧
        (Z.of_nat (size (a_waiting (abs w0))) < max_of w0)%Z
    | _ => ok now w w'
    end) w.
Proof.
  intros Hw. apply wp_bind, wp_get. case_bool_decide as Hlen; [by apply wp_ret, ok_refl, Hw|].
  apply wp_bind. eapply wp_mono; [apply wp_ensure_writeable|]. intros r w1 [Hq Hr].
  pose proof (ok_quiet now _ _ (rw_timers _ Hw) Hq) as Hok.
  destruct r as [[[[]|e]|]|]; [|done|done|done].
  eapply wp_mono; [apply (wp_next_request_loop now), (ready_ok now w), Hok; done|].
  intros r w2 Hr2. destruct r as [[[dr|]|]|]; [|done|by eapply ok_trans..].
  destruct Hr2 as (w0 & Hok2 & Hh & Hi). pose proof (ok_trans _ _ _ _ Hok Hok2) as Hok3. exists w0.
  split_and!; [done|done|]. destruct (quiet_fields _ _ Hq) as (Ei & _).
  simpl. rewrite map_size_fmap, Hi, Ei. unfold max_of. rewrite (ok_config _ _ _ Hok3). unfold CIF.len in Hlen. lia.
Qed.

Lemma holding_fresh dr w0 w' :
  ready_world w0 → holding dr w0 w' →
  CIF.request_data (in_flight_requests (dispatch w0)) !! dr_request_id dr = None ∧
  unused_at (oneshots w0) (dr_response_completion dr) ∧
  ∀ j rd, CIF.request_data (in_flight_requests (dispatch w0)) !! j = Some rd →
    CIF.response_completion rd ≠ dr_response_completion dr.
Proof.
  intros [_ [Ho _ _] _] (p & q & -> & Hq & _). rewrite (outstanding_pop (abs w0) dr q Hq) in Ho.
  assert (Hin : ∀ j rd, CIF.request_data (in_flight_requests (dispatch w0)) !! j = Some rd →
    (j, CIF.response_completion rd) ∈ outstanding (pop_pending q (abs w0))).
  { intros j rd Hj%abs_waiting. apply elem_of_app. right. by apply (waiting_owned_elem (pop_pending q (abs w0)) j (strip rd)). }
  split_and!.
  - destruct (_ !! _) as [rd|] eqn:Hi; [|done]. by apply Hin, (owned_head_ne _ _ _ _ _ _ Ho) in Hi as [? _].
  - by eapply owned_head.
  - intros j rd Hj%Hin. by apply (owned_head_ne _ _ _ _ _ _ Ho) in Hj as [_ ?%not_eq_sym].
Qed.

Lemma wp_poll_write_request bound now w :
  ready_world w →
  wp (poll_write_request bound now) (λ r w',
    ok now w w' ∧ (r = Ready (Some (Ok tt)) → work (abs w') < work (abs w))) w.
Proof.
  intros Hw. apply wp_bind. eapply wp_mono; [by apply (wp_poll_next_request bound now)|].
  intros [[[[c sp i req l]|e]|]|] w1; [|by intros; apply wp_ret..].
  intros (w0 & Hok & Hh & Hmax). pose proof (ready_ok _ _ _ Hw Hok) as Hw0.
  destruct (holding_fresh _ _ _ Hw0 Hh) as (Hi & (o & Ho & Hun) & Hne). simpl in *.
  destruct Hh as (p & q & -> & Hq & Hp & Hcl). simpl in *.
  assert (Hwork : work (pop_pending q (abs w0)) + 2 ≤ work (abs w)).
  { apply ok_work in Hok. unfold work in Hok |- *. simpl in *. rewrite Hq in Hok. simpl in Hok. lia. }
  pose proof (CIF.insert_request_spec _ (oneshots w0) now i c sp l o
    (ainv_cinv _ (rw_timers _ Hw0) (rw_ainv _ Hw0)) Ho Hun Hne) as Hins. rewrite Hi in Hins.
  destruct Hins as [(k & s' & Hins & Hrd & Habs & Hinv')|[Hins _]]; [|by apply wp_bind, wp_in_flight_far].
  eapply wp_bind, wp_on_in_flight; [exact Hins|]. simpl.
  eapply wp_bind, wp_lift; [done|].
  eapply wp_bind, wp_on_transport. simpl. intros r t Hsend.
  apply log_start_send in Hsend as (Hsent & Hrecv & Hend).
  destruct r as [[]|e]; simpl in *.
  - apply wp_ret.
    assert (Ha : abs (set_transport t (set_oneshots (oneshots w0) (set_in_flight s' (set_pending p w0)))) =
      log_sent (request_message (MkDispatchRequest c sp i req l))
        (track i (MkWaiting c sp l) (Z.max now (deadline c)) (pop_pending q (abs w0)))).
    { unfold abs. simpl. rewrite Hrd, Habs, Hp, Hsent, Hrecv, Hend. simpl. by rewrite fmap_insert; destruct c. }
    split; [eapply ok_trans; [done|]|].
    + eapply ok_step; [apply Hinv'|done|done|eapply (d_send _ _ _ (MkDispatchRequest c sp i req l)); [apply Hw0|done|done|done|]|done].
      by apply abs_waiting_None.
    + intros _. rewrite Ha. unfold work in *. simpl in *.
      rewrite map_size_insert_None by by rewrite lookup_fmap, Hi. lia.
  - pose proof (CIF.complete_request_spec _ _ i (Err (RpcError.Send (existT errty e))) Hinv') as Hc.
    rewrite Hrd, lookup_insert_eq in Hc. destruct Hc as (s2 & Hc & Hrd2 & Habs2 & Hinv2).
    eapply wp_bind, wp_on_in_flight; [exact Hc|]. apply wp_ret. set (w2 := set_oneshots _ _).
    assert (Ha : abs w2 = with_store (CIF.store_send l (Err (RpcError.Send (existT errty e)))) (pop_pending q (abs w0))).
    { unfold w2, abs. simpl. rewrite Hrd2, Habs2, Habs, Hp, Hsent, Hrecv, Hend, app_nil_r. simpl.
      rewrite !delete_insert_id; [done| |done]. by apply due_map_None; [apply Hw0|]. }
    split; [eapply ok_trans; [done|]|].
    + eapply ok_step; [apply Hinv2|done|done|eapply (d_send_failed _ _ _ (MkDispatchRequest c sp i req l)); [apply Hw0|done|done]|done].
    + intros _. rewrite Ha. unfold work in *. simpl in *. lia.
Qed.

Lemma pop_canceled_abs c q w :
  mpsc_view c = mv_set_queue q (mpsc_view (canceled_requests (dispatch w))) →
  abs (set_canceled c w) = pop_canceled q (abs w).
Proof. intros Hc. unfold abs, pop_canceled. simpl. by rewrite Hc. Qed.

Lemma set_canceled_abs c w :
  mpsc_view c = mpsc_view (canceled_requests (dispatch w)) → abs (set_canceled c w) = abs w.
Proof. intros Hc. unfold abs. simpl. by rewrite Hc. Qed.

(** Request [i] has just been taken off the cancellations and out of flight. *)
Definition canceling (i : Z) (c : Context) w0 w' : Prop :=
  ∃ q wt, mv_queue (a_canceled (abs w0)) = i :: q ∧ a_waiting (abs w0) !! i = Some wt ∧ w_ctx wt = c ∧
    timers w' ∧ config (dispatch w') = config (dispatch w0) ∧
    terminal_error (dispatch w') = terminal_error (dispatch w0) ∧
    abs w' = with_store (CIF.store_drop_sender (w_loc wt)) (untrack i (pop_canceled q (abs w0))).

Lemma wp_next_cancellation_loop now n w :
  ready_world w →
  wp (next_cancellation_loop n) (λ r w',
    match r with
    | Ready (Some (Ok (c, _, i))) => ∃ w0, ok now w w0 ∧ canceling i c w0 w'
    | Ready (Some (Err _)) => False
    | _ => ok now w w'
    end) w.
Proof.
  revert w. induction n as [|n IH]; intros w Hw; [done|]. cbn [next_cancellation_loop].
  apply wp_bind, wp_on_canceled. intros r c Hc%Cancellations.poll_next_view.
  destruct r as [[i|]|]; simpl in Hc; cycle 1.
  { apply wp_ret. apply ok_same; [apply Hw|done|done|]. by apply set_canceled_abs, Hc. }
  { apply wp_ret. apply ok_same; [apply Hw|done|done|]. by apply set_canceled_abs, Hc. }
  destruct Hc as (q & Hq & Hc).
  pose proof (CIF.cancel_request_spec' _ (oneshots w) i (ainv_cinv _ (rw_timers _ Hw) (rw_ainv _ Hw))) as Hs.
  apply wp_bind. destruct (CIF.request_data _ !! i) as [rd|] eqn:Hi.
  - destruct Hs as (s' & Hs & Hrd & Habs & Hinv').
    eapply wp_on_in_flight; [exact Hs|]. apply wp_ret. exists w. split; [apply ok_refl, Hw|].
    exists q, (strip rd). split_and!; try done; [by apply abs_waiting|apply Hinv'|].
    unfold abs. simpl. rewrite Hrd, Habs, Hc. simpl. by rewrite fmap_delete.
  - eapply wp_on_in_flight; [exact Hs|]. set (w1 := set_oneshots _ _).
    assert (Hok : ok now w w1).
    { eapply ok_step; [exact (rw_timers _ Hw)|done|done|eapply d_cancel_ignored; [apply Hw|done|by apply abs_waiting_None]|].
      by rewrite <- (pop_canceled_abs _ _ _ Hc). }
    eapply wp_mono; [by apply IH, (ready_ok now w)|].
    intros r w2 Hr. destruct r as [[[[[c' sp] j]|]|]|]; [|done|by eapply ok_trans..].
    destruct Hr as (w0 & ? & ?). exists w0. split; [by eapply ok_trans|done].
Qed.

Lemma wp_poll_write_cancel bound now w :
  ready_world w →
  wp (poll_write_cancel bound) (λ r w',
    ok now w w' ∧ (r = Ready (Some (Ok tt)) → work (abs w') < work (abs w))) w.
Proof.
  intros Hw. apply wp_bind, wp_bind. eapply wp_mono; [apply wp_ensure_writeable|]. intros r w1 [Hq Hr].
  pose proof (ok_quiet now _ _ (rw_timers _ Hw) Hq) as Hok.
  destruct r as [[[[]|e]|]|]; [|by apply wp_ret, wp_ret|done|by apply wp_ret, wp_ret].
  eapply wp_mono; [apply (wp_next_cancellation_loop now), (ready_ok now w), Hok; done|].
  intros [[[[[c sp] i]|e]|]|] w2 Hr2; [|done|by apply wp_ret; split; [eapply ok_trans|]..].
  destruct Hr2 as (w0 & Hok2 & q & wt & Hq2 & Hi & <- & Ht & Hcfg & Herr & Habs).
  pose proof (ok_trans _ _ _ _ Hok Hok2) as Hok3. pose proof (ready_ok _ _ _ Hw Hok3) as Hw0.
  apply wp_bind, wp_on_transport. intros r t (Hsent & Hrecv & Hend)%log_start_send.
  assert (Hwork : work (untrack i (pop_canceled q (abs w0))) < work (abs w)).
  { pose proof (ok_work _ _ _ Hok3) as Hle. unfold work in Hle |- *. rewrite Hq2 in Hle. simpl in *.
    pose proof (gmap_size_delete_le (strip <$> CIF.request_data (in_flight_requests (dispatch w0))) i). lia. }
  destruct r as [[]|e]; simpl in *; apply wp_ret; (split; [eapply ok_trans; [exact Hok3|]|]).
  - eapply ok_step; [done..|by eapply d_cancel; [apply Hw0|..]|].
    rewrite <- Habs. unfold abs, log_sent. simpl. by rewrite Hsent, Hrecv, Hend.
  - intros _. replace (work (abs (set_transport t w2))) with (work (abs w2)) by done. by rewrite Habs.
  - eapply ok_step; [done..|by eapply d_cancel_failed; [apply Hw0|..]|].
    rewrite <- Habs. unfold abs. simpl. by rewrite Hsent, Hrecv, Hend, app_nil_r.
  - done.
Qed.

Lemma wp_poll_expired now w :
  ready_world w →
  wp (on_in_flight (λ i st, Done (CIF.poll_expired i st now (Err RpcError.DeadlineExceeded))))
     (λ r w', ok now w w' ∧ (∀ i, r = Ready (Some i) → work (abs w') < work (abs w))) w.
Proof.
  intros Hw. destruct (CIF.poll_expired (in_flight_requests (dispatch w)) (oneshots w) now (Err RpcError.DeadlineExceeded))
    as [[r s'] st'] eqn:Hp.
  eapply wp_on_in_flight; [exact (f_equal Done Hp)|].
  apply CIF.poll_expired_spec' in Hp as [Hinv' Hr]; [|apply ainv_cinv; apply Hw].
  destruct r as [[i|]|]; [|destruct Hr as (Hrd & Habs & ->)..].
  - destruct Hr as (rd & due & Hi & Hdue & Hle & Hrd & Habs & ->).
    assert (Ha : abs (set_oneshots (CIF.store_send (CIF.response_completion rd) (Err RpcError.DeadlineExceeded) (oneshots w))
      (set_in_flight s' w)) = with_store (CIF.store_send (CIF.response_completion rd) (Err RpcError.DeadlineExceeded))
        (untrack i (abs w))) by (unfold abs; simpl; by rewrite Hrd, Habs, fmap_delete).
    split.
    + eapply ok_step; [apply Hinv'|done|done|eapply d_expire; [apply Hw|by apply abs_waiting| |done]|done].
      simpl. unfold CIF.abs. by rewrite due_map_lookup.
    + intros _ _. rewrite Ha. unfold work. simpl.
      assert (size (strip <$> CIF.request_data (in_flight_requests (dispatch w))) =
        S (size (delete i (strip <$> CIF.request_data (in_flight_requests (dispatch w)))))) as -> by
        (eapply gmap_size_delete_Some; by apply (abs_waiting w)). lia.
  - split; [|done]. split; [apply Hinv'|unfold abs; simpl; rewrite Hrd, Habs; apply rtc_refl|done|done].
  - split; [|done]. split; [apply Hinv'|unfold abs; simpl; rewrite Hrd, Habs; apply rtc_refl|done|done].
Qed.

(** The outcome of a writing step: if it did something, there is less to do. *)
Definition wrote (now : Z) w (r : Poll (option (Result unit (ChannelError.t (interp errty))))) w' : Prop :=
  ok now w w' ∧ (r = Ready (Some (Ok tt)) → work (abs w') < work (abs w)).

Lemma wrote_trans now w w1 r w2 : ok now w w1 → wrote now w1 r w2 → wrote now w r w2.
Proof.
  intros Hok [Hok2 Hw]. split; [by eapply ok_trans|]. intros Hr%Hw. apply ok_work in Hok. lia.
Qed.

Lemma wrote_quiet now w w1 r w2 : ok now w w1 → quiet w1 w2 → r ≠ Ready (Some (Ok tt)) → wrote now w r w2.
Proof. intros Hok Hq Hr. split; [|done]. eapply ok_trans; [done|]. apply ok_quiet; [apply Hok|done]. Qed.

Lemma wp_close_or_flush_wrote now s1 s2 w w1 :
  ok now w w1 → wp (close_or_flush s1 s2) (wrote now w) w1.
Proof.
  intros Hok. destruct s1, s2; apply wp_bind;
    (eapply wp_mono; [apply wp_poll_flush || apply wp_poll_close|]);
    intros [[]|] w2 Hq; apply wp_ret; by eapply wrote_quiet.
Qed.

Lemma wp_pump_write bound now w : ready_world w → wp (pump_write bound now) (wrote now w) w.
Proof.
  intros Hw. apply wp_bind. eapply wp_mono; [by apply wp_poll_write_request|]. intros p w1 [Hok1 Hwork1].
  pose proof (ready_ok _ _ _ Hw Hok1) as Hw1.
  destruct p as [[r|]|]; [apply wp_ret; split; [done|]; intros [= ->]; by apply Hwork1|..];
    (apply wp_bind; eapply wp_mono; [by apply (wp_poll_write_cancel bound now)|]);
    intros c w2 Hwr; pose proof (wrote_trans _ _ _ _ _ Hok1 Hwr) as [Hok2 Hwork2];
    pose proof (ready_ok _ _ _ Hw Hok2) as Hw2;
    (destruct c as [[r|]|]; [apply wp_ret; split; [done|]; intros [= ->]; by apply Hwork2|..]);
    (apply wp_bind; eapply wp_mono; [by apply (wp_poll_expired now)|]);
    intros x w3 [Hok3 Hwork3]; pose proof (ok_trans _ _ _ _ Hok2 Hok3) as Hok4;
    (destruct x as [[i|]|]; [apply wp_ret|by apply wp_close_or_flush_wrote..]);
    split; [done|intros _|done|intros _|done|intros _|done|intros _];
    specialize (Hwork3 _ eq_refl); apply ok_work in Hok2; lia.
Qed.

Lemma wp_pump_read now w :
  ready_world w →
  wp pump_read (λ r w', ok now w w' ∧ (r = Ready None → ended (rd_transport (dispatch w')) = true)) w.
Proof.
  intros Hw. apply wp_bind, wp_on_transport. intros r t (Hsent & Hrecv & Hend)%log_poll_next.
  destruct r as [[[x|e]|]|]; cycle 1.
  { rewrite app_nil_r in Hrecv. apply wp_ret. split; [|done]. apply ok_quiet; [apply Hw|by exists t]. }
  { rewrite app_nil_r in Hrecv. apply wp_ret. split; [|done].
    eapply ok_step; [exact (rw_timers _ Hw)|done|done|apply d_end, Hw|].
    unfold abs, set_ended. simpl. by rewrite Hsent, Hrecv, Hend. }
  { rewrite app_nil_r in Hrecv. apply wp_ret. split; [|done]. apply ok_quiet; [apply Hw|by exists t]. }
  apply wp_bind, wp_bind. pose proof (CIF.complete_request_spec _ (oneshots w) (request_id x) (response_outcome x)
    (ainv_cinv _ (rw_timers _ Hw) (rw_ainv _ Hw))) as Hc. simpl.
  destruct (CIF.request_data _ !! _) as [rd|] eqn:Hi.
  - destruct Hc as (s' & Hc & Hrd & Habs & Hinv'). eapply wp_on_in_flight; [exact Hc|].
    apply wp_ret, wp_ret. split; [|done].
    eapply ok_step; [apply Hinv'|done|done|eapply (d_response _ _ _ x); [apply Hw|by apply abs_waiting]|].
    unfold abs. simpl. by rewrite Hrd, Habs, Hsent, Hrecv, Hend, fmap_delete.
  - eapply wp_on_in_flight; [exact Hc|]. apply wp_ret, wp_ret. split; [|done].
    eapply ok_step; [exact (rw_timers _ Hw)|done|done|eapply (d_response_ignored _ _ _ x); [apply Hw|by apply abs_waiting_None]|].
    unfold abs. simpl. by rewrite Hsent, Hrecv, Hend.
Qed.

(** Nothing is queued, and nothing more can be. *)
Definition drained {A} (v : MpscView A) : Prop :=
  mv_queue v = [] ∧ (mv_senders v = 0 ∨ mv_closed v = true).

Lemma wlp_on_in_flight {A} f Q w :
  (∀ (a : A) i st, Q a (set_oneshots st (set_in_flight i w))) → wlp (on_in_flight f) Q w.
Proof.
  intros Hq a w'. unfold on_in_flight. destruct (f _ _) as [[[a' i] st]| |]; [|done..].
  intros [= <- <-]. apply Hq.
Qed.

Lemma wlp_next_request_loop n w :
  wlp (next_request_loop n) (λ r w', r = Ready None → drained (mpsc_view (pending_requests (dispatch w')))) w.
Proof.
  revert w. induction n as [|n IH]; intros w; [done|]. cbn [next_request_loop].
  apply wlp_bind, wlp_wp, wp_on_pending. intros r p Hp%law_poll_recv.
  destruct r as [[dr|]|]; [|apply wlp_ret|by apply wlp_ret].
  - apply wlp_bind, wlp_get. destruct (CIF.store_is_closed _ _); [|by apply wlp_ret].
    apply wlp_bind, wlp_modify, IH.
  - intros _. simpl. destruct Hp as (? & ? & ->). done.
Qed.

Lemma wlp_poll_write_request bound now w :
  wlp (poll_write_request bound now)
    (λ r w', r = Ready None → drained (mpsc_view (pending_requests (dispatch w')))) w.
Proof.
  apply wlp_bind, wlp_bind, wlp_get. case_bool_decide; [by apply wlp_ret, wlp_ret|].
  apply wlp_bind. eapply wlp_mono; [apply wlp_wp, wp_ensure_writeable|]. intros r w1 [_ Hr].
  destruct r as [[[[]|e]|]|]; [|by apply wlp_ret, wlp_ret|done|by apply wlp_ret, wlp_ret].
  eapply wlp_mono; [apply wlp_next_request_loop|].
  intros [[[[c sp i req l]|e]|]|] w2 Hd2; [|by apply wlp_ret|apply wlp_ret; eauto|by apply wlp_ret].
  apply wlp_bind. eapply wlp_mono; [apply wlp_true|]. intros x ? _.
  apply wlp_bind. eapply wlp_mono; [apply wlp_true|]. intros ? ? _.
  apply wlp_bind. eapply wlp_mono; [apply wlp_true|]. intros [] ? _; [by apply wlp_ret|].
  apply wlp_bind. eapply wlp_mono; [apply wlp_true|]. intros ? ? _. by apply wlp_ret.
Qed.

Lemma wlp_next_cancellation_loop n w :
  wlp (next_cancellation_loop n) (λ r w',
    pending_requests (dispatch w') = pending_requests (dispatch w) ∧ r ≠ Ready None ∨
    pending_requests (dispatch w') = pending_requests (dispatch w) ∧
      drained (mpsc_view (canceled_requests (dispatch w')))) w.
Proof.
  revert w. induction n as [|n IH]; intros w; [done|]. cbn [next_cancellation_loop].
  apply wlp_bind, wlp_wp, wp_on_canceled. intros r p Hp%law_poll_recv.
  destruct r as [[i|]|]; [|apply wlp_ret; right|apply wlp_ret; by left].
  - apply wlp_bind, wlp_on_in_flight. intros [[c sp]|] i' st; [apply wlp_ret; by left|].
    eapply wlp_mono; [apply IH|]. done.
  - simpl. destruct Hp as (? & ? & ->). done.
Qed.

Lemma wlp_poll_write_cancel bound w :
  wlp (poll_write_cancel bound) (λ r w',
    pending_requests (dispatch w') = pending_requests (dispatch w) ∧
    (r = Ready None → drained (mpsc_view (canceled_requests (dispatch w'))))) w.
Proof.
  apply wlp_bind, wlp_bind. eapply wlp_mono; [apply wlp_wp, wp_ensure_writeable|]. intros r w1 [(t & -> & _) Hr].
  destruct r as [[[[]|e]|]|]; [|by apply wlp_ret, wlp_ret|done|by apply wlp_ret, wlp_ret].
  eapply wlp_mono; [apply wlp_next_cancellation_loop|]. simpl.
  intros [[[[[c sp] i]|e]|]|] w2 Hd2; [|apply wlp_ret; naive_solver..].
  apply wlp_bind, wlp_wp, wp_on_transport. intros [] t' _; apply wlp_ret; naive_solver.
Qed.

(** [pump_write] says that the write half is closed only when both of its queues are. *)
Lemma wlp_pump_write bound now w :
  wlp (pump_write bound now) (λ r w', r = Ready None →
    drained (mpsc_view (pending_requests (dispatch w'))) ∧
    drained (mpsc_view (canceled_requests (dispatch w')))) w.
Proof.
  apply wlp_bind. eapply wlp_mono; [apply wlp_poll_write_request|]. intros p w1 Hd1.
  destruct p as [[r|]|]; [by apply wlp_ret|..];
    (apply wlp_bind; eapply wlp_mono; [apply wlp_poll_write_cancel|]); intros c w2 [Hp2 Hd2];
    (destruct c as [[r|]|]; [by apply wlp_ret|..]);
    (apply wlp_bind, wlp_on_in_flight; intros x i st);
    (destruct x as [[?|]|]; [by apply wlp_ret|..]);
    apply wlp_bind; (eapply wlp_mono; [apply wlp_wp; apply wp_poll_flush || apply wp_poll_close|]);
    intros [[]|] w3 (t & -> & _); apply wlp_ret; try done; intros _; simpl; rewrite Hp2; auto.
Qed.

Definition finished_cleanly w : Prop :=
  ended (rd_transport (dispatch w)) = true ∨
  drained (mpsc_view (pending_requests (dispatch w))) ∧
  drained (mpsc_view (canceled_requests (dispatch w))) ∧
  CIF.request_data (in_flight_requests (dispatch w)) = ∅.

Lemma dstep_ended max now (a a' : AS) : dstep max now a a' → a_ended a = true → a_ended a' = true.
Proof. by destruct 1. Qed.

Lemma ok_ended now w w' :
  ok now w w' → ended (rd_transport (dispatch w)) = true → ended (rd_transport (dispatch w')) = true.
Proof.
  intros [_ Hs _ _]. change (a_ended (abs w) = true → a_ended (abs w') = true).
  induction Hs; eauto using dstep_ended.
Qed.

Lemma wp_run_loop bound now n w :
  ready_world w →
  wp (run_loop bound now n) (λ r w', ok now w w' ∧ (r = Ready (Ok tt) → finished_cleanly w')) w.
Proof.
  revert w. induction n as [|n IH]; intros w Hw; [done|]. cbn [run_loop].
  apply wp_bind. eapply wp_mono; [by apply (wp_pump_read now)|]. intros r w1 [Hok1 Hend].
  pose proof (ready_ok _ _ _ Hw Hok1) as Hw1.
  assert (Hw2 : wp (pump_write bound now) (λ r2 w2,
    ready_world w2 ∧ ok now w w2 ∧ (r = Ready None → finished_cleanly w2) ∧
    (r2 = Ready None → CIF.is_empty (in_flight_requests (dispatch w2)) = true → finished_cleanly w2)) w1).
  { eapply wp_mono; [apply wp_wlp; [by apply wp_pump_write|apply wlp_pump_write]|].
    intros r2 w2 [[Hok2 _] Hdr]. split_and!; [by eapply ready_ok|by eapply ok_trans| |].
    - intros Hr. left. eapply ok_ended; eauto.
    - intros Hr ?%bool_decide_eq_true. right. by destruct (Hdr Hr). }
  assert (Hloop : ∀ w2, ready_world w2 → ok now w w2 →
    wp (run_loop bound now n) (λ r w', ok now w w' ∧ (r = Ready (Ok tt) → finished_cleanly w')) w2).
  { intros w2 ??. eapply wp_mono; [by apply IH|]. intros ? ? []. split; [by eapply ok_trans|done]. }
  destruct r as [[[[]|e]|]|]; [|by apply wp_ret|..]; apply wp_bind; (eapply wp_mono; [exact Hw2|]);
    intros r2 w2 (? & ? & ? & ?); destruct r2 as [[[[]|e2]|]|]; try (apply wp_ret; by auto); try (by apply Hloop);
    apply wp_bind, wp_get; destruct (CIF.is_empty _) eqn:?; try (apply wp_ret; by auto); by apply Hloop.
Qed.

(** What the shutdown needs: the channel of requests is closed and none is in flight. *)
Record closing_world (e : ChannelError.t (DynAny interp)) w : Prop := {
  cw_timers : timers w;
  cw_error : terminal_error (dispatch w) = Some e;
  cw_closed : mv_closed (mpsc_view (pending_requests (dispatch w))) = true;
  cw_empty : CIF.request_data (in_flight_requests (dispatch w)) = ∅;
}.

Lemma wp_drain_loop now e n w :
  closing_world e w →
  wp (drain_loop e n) (λ r w', ok now w w' ∧ closing_world e w' ∧
    (r = Ready tt → mv_queue (mpsc_view (pending_requests (dispatch w'))) = [])) w.
Proof.
  revert w. induction n as [|n IH]; intros w Hw; [done|]. cbn [drain_loop].
  apply wp_bind, wp_on_pending. intros r p Hp%law_poll_recv.
  destruct r as [[dr|]|]; simpl in Hp; cycle 1.
  { destruct Hp as (Hq & _ & Hp). apply wp_ret. split_and!; [|split; try apply Hw|by rewrite <- Hq, <- Hp].
    - apply ok_same; [apply Hw|done|done|]. by apply set_pending_abs.
    - simpl. rewrite Hp. apply Hw. }
  { apply wp_ret. split_and!; [|split; try apply Hw|done].
    - apply ok_same; [apply Hw|done|done|]. by apply set_pending_abs.
    - simpl. rewrite Hp. apply Hw. }
  destruct Hp as (q & Hq & Hp). apply wp_bind, wp_on_oneshots. set (w1 := set_oneshots _ _).
  assert (Hok : ok now w w1).
  { eapply ok_step; [exact (cw_timers _ _ Hw)|done|done|eapply d_drain; [apply Hw|apply Hw| |exact Hq]|].
    - simpl. by rewrite (cw_empty _ _ Hw).
    - unfold w1. rewrite <- (pop_abs _ _ _ Hp). unfold send_channel_error. by destruct e. }
  assert (Hw1 : closing_world e w1).
  { split; try apply Hw. simpl. rewrite Hp. apply Hw. }
  eapply wp_mono; [by apply IH|]. intros r w2 (Hok2 & ? & ?). split; [by eapply ok_trans|done].
Qed.

Lemma wp_shut_down bound now e w :
  timers w → terminal_error (dispatch w) = Some e →
  wp (shut_down_with_terminal_error bound e) (λ r w', ok now w w' ∧ closing_world e w' ∧
    (r = Ready tt → mv_queue (mpsc_view (pending_requests (dispatch w'))) = [])) w.
Proof.
  intros Ht He. apply wp_bind, wp_on_pending. intros [] p [= <-].
  eapply wp_bind, wp_on_in_flight; [done|]. set (w1 := set_oneshots _ _).
  assert (Hok : ok now w w1).
  { eapply ok_step; [exact (timers_ok_clear _ _)|done|done| |].
    - eapply (d_shutdown _ _ _ e (prod_map Datatypes.id strip <$> map_to_list (CIF.request_data (in_flight_requests (dispatch w)))));
        [done|]. simpl. by rewrite map_to_list_fmap.
    - unfold w1, abs. simpl. rewrite law_close. unfold CIF.abs. simpl. rewrite due_map_empty, fmap_empty.
      unfold with_store, untrack_all, close_pending. simpl. f_equal.
      rewrite foldl_fmap. by destruct e. }
  eapply wp_mono; [apply (wp_drain_loop now)|].
  - split; [apply Hok|done|by simpl; rewrite law_close|done].
  - intros r w2 (Hok2 & ? & ?). split; [by eapply ok_trans|done].
Qed.

(** Everyone who must still be answered: nobody. *)
Definition all_answered w : Prop :=
  mv_queue (mpsc_view (pending_requests (dispatch w))) = [] ∧
  CIF.request_data (in_flight_requests (dispatch w)) = ∅.

(** What one poll of the dispatch guarantees. *)
Definition poll_post now w (r : Poll (Result unit (ChannelError.t (interp errty)))) w' : Prop :=
  dinv w' ∧ config (dispatch w') = config (dispatch w) ∧
  dsteps (max_of w) now (abs w) (abs w') ∧
  match r with
  | Ready (Ok _) => finished_cleanly w'
  | Ready (Err e) => terminal_error (dispatch w') = Some (upcast_any interp e) ∧ all_answered w' ∧
      mv_closed (mpsc_view (pending_requests (dispatch w'))) = true
  | Pending => True
  end.

Lemma wp_poll_failed bound now n w (e : ChannelError.t (interp errty)) :
  dinv w → terminal_error (dispatch w) = Some (upcast_any interp e) →
  wp (poll_loop bound now (S n)) (poll_post now w) w.
Proof.
  intros [Ht Hi _] He. cbn [poll_loop]. apply wp_bind, wp_get. rewrite He.
  eapply wp_bind, wp_lift.
  { replace (ChannelError.clone (upcast_any interp e)) with (upcast_any interp e) by by destruct e.
    by rewrite downcast_upcast. }
  replace (upcast_error interp (ChannelError.clone e)) with (upcast_any interp e) by by destruct e.
  apply wp_bind. eapply wp_mono; [by apply (wp_shut_down bound now)|]. intros r w' (Hok & Hcl & Hq).
  assert (Hpost : dinv w' ∧ config (dispatch w') = config (dispatch w) ∧ dsteps (max_of w) now (abs w) (abs w')).
  { split_and!; [split; [apply Hok|by eapply ok_ainv|]|apply Hok|apply Hok].
    unfold error_ok. rewrite (cw_error _ _ Hcl). by eexists. }
  destruct r as [[]|]; apply wp_ret; destruct Hpost as (? & ? & ?); split_and!; try done; try apply Hcl.
  split; [by apply Hq|apply Hcl].
Qed.

Lemma wp_poll bound now w : dinv w → wp (poll bound now) (poll_post now w) w.
Proof.
  intros Hinv. destruct (terminal_error (dispatch w)) as [stored|] eqn:He.
  { pose proof (dinv_error _ Hinv) as Herr. unfold error_ok in Herr. rewrite He in Herr.
    destruct Herr as [e ->]. by apply (wp_poll_failed _ _ 1 _ e). }
  pose proof Hinv as [Ht Hi Herr]. unfold poll. cbn [poll_loop].
  apply wp_bind, wp_get. rewrite He. apply wp_bind.
  eapply wp_mono; [by apply wp_run_loop|]. intros r w1 [Hok Hfin].
  assert (Hinv1 : dinv w1).
  { split; [apply Hok|by eapply ok_ainv|]. unfold error_ok. by rewrite (ok_error _ _ _ Hok), He. }
  destruct r as [[[]|e]|].
  - apply wp_ret. split_and!; [done|apply Hok|apply Hok|auto].
  - apply wp_bind, wp_modify. set (w2 := set_terminal_error _ w1).
    assert (Hinv2 : dinv w2).
    { destruct Hinv1 as [Ht1 Hi1 _]. split; [done| |by exists e]. by eapply ainv_frame. }
    eapply wp_mono; [by apply (wp_poll_failed _ _ 0 _ e)|]. intros r w3 (? & ? & Hs & ?).
    split_and!; [done|etrans; [done|apply Hok]| |done].
    etrans; [apply Hok|]. eapply rtc_l; [apply (d_fail _ _ _ (upcast_any interp e))|].
    + simpl. by rewrite (ok_error _ _ _ Hok).
    + change (dsteps (max_of w) now (abs w2) (abs w3)). unfold max_of in *. simpl in Hs.
      by rewrite (ok_config _ _ _ Hok) in Hs.
  - apply wp_ret. split_and!; [done|apply Hok|apply Hok|done].
Qed.
End refine.
End Refine.
