(* ===== verification/ClientFrame.v ===== *)
(** * What a poll of the dispatch touches

    Two facts that hold of every method of the dispatch, by following its code: it
    changes the transport by operations of the transport only, and it makes the timer
    refuse a deadline only if a queued request has one beyond the timer's range. *)
From S2P Require Import Prelude Interfaces RefModels Wire TimerTable Transport Cancellations ClientInFlight ClientDispatch ClientSpec ClientRefine.

Module ClientFrame.
Export Refine.

Section frame.
Context `{!DelayQueue, !DelayQueueLaws, !Oneshot, !OneshotLaws, !Mpsc, !MpscLaws}.
Context {TypeId : Type} `{!EqDecision TypeId} {interp : TypeId → Type} {errty : TypeId}.
Context {Span Req Resp : Type}.
Context {T : Transport (ClientMessage Req) (Response Resp) (interp errty)}.
Implicit Types w : World Span T.

Abbreviation tr w := (rd_transport (dispatch w)).

(** ** The transport *)

Definition moves w w' : Prop := t_steps (tr w) (tr w').

#[export] Instance moves_preorder : PreOrder moves.
Proof. split; [intros w; apply rtc_refl|]. intros w1 w2 w3 Ha Hb. unfold moves, t_steps in *. by etrans. Qed.

Lemma moves_on_transport {A} (f : transport T → A * transport T) :
  (∀ t r t', f t = (r, t') → t_step t t') → keeps moves (on_transport f).
Proof. intros Hf w a w' E. unfold on_transport in E. destruct (f _) eqn:Ht. injection E as <- <-. by eapply rtc_once, Hf. Qed.
Lemma moves_on_pending {A} (f : mpsc (DispatchRequest (Span:=Span) (Req:=Req)) → A * mpsc DispatchRequest) :
  keeps moves (on_pending f).
Proof. intros w a w' E. unfold on_pending in E. destruct (f _). injection E as <- <-. apply rtc_refl. Qed.
Lemma moves_on_canceled {A} (f : mpsc Z → A * mpsc Z) : keeps moves (on_canceled f).
Proof. intros w a w' E. unfold on_canceled in E. destruct (f _). injection E as <- <-. apply rtc_refl. Qed.
Lemma moves_on_in_flight {A} f : keeps moves (on_in_flight (A:=A) f).
Proof. intros w. apply wlp_on_in_flight. intros. apply rtc_refl. Qed.
Lemma moves_on_oneshots f : keeps moves (on_oneshots f).
Proof. apply keeps_modify. intros w. apply rtc_refl. Qed.
Lemma moves_terminal_error e : keeps moves (modify (set_terminal_error e)).
Proof. apply keeps_modify. intros w. apply rtc_refl. Qed.

Lemma moves_poll_ready : keeps moves poll_ready.
Proof. unfold poll_ready. apply keeps_bind; [apply _|apply moves_on_transport; eauto using @t_step|keeps]. Qed.
Lemma moves_poll_flush : keeps moves poll_flush.
Proof. unfold poll_flush. apply keeps_bind; [apply _|apply moves_on_transport; eauto using @t_step|keeps]. Qed.
Lemma moves_poll_close : keeps moves poll_close.
Proof. unfold poll_close. apply keeps_bind; [apply _|apply moves_on_transport; eauto using @t_step|keeps]. Qed.
Lemma moves_start_send m : keeps moves (start_send m).
Proof. apply moves_on_transport. eauto using @t_step. Qed.
Lemma moves_poll_next : keeps moves (on_transport t_poll_next).
Proof. apply moves_on_transport. eauto using @t_step. Qed.

Hint Resolve moves_on_pending moves_on_canceled moves_on_in_flight moves_on_oneshots moves_terminal_error
  moves_poll_ready moves_poll_flush moves_poll_close moves_start_send moves_poll_next : tarpc.

Lemma moves_ensure_writeable n : keeps moves (ensure_writeable_loop n).
Proof. induction n as [|n IH]; cbn [ensure_writeable_loop]; keeps. Qed.
Lemma moves_next_request_loop n : keeps moves (next_request_loop n).
Proof. induction n as [|n IH]; cbn [next_request_loop]; keeps. Qed.
Lemma moves_next_cancellation_loop n : keeps moves (next_cancellation_loop n).
Proof. induction n as [|n IH]; cbn [next_cancellation_loop]; keeps. Qed.
Lemma moves_drain_loop e n : keeps moves (drain_loop e n).
Proof. induction n as [|n IH]; cbn [drain_loop]; keeps. Qed.
Hint Resolve moves_ensure_writeable moves_next_request_loop moves_next_cancellation_loop moves_drain_loop : tarpc.

Lemma moves_pump_write bound now : keeps moves (pump_write bound now).
Proof.
  assert (keeps moves (poll_write_request bound now)).
  { unfold poll_write_request, poll_next_request, ensure_writeable. keeps. }
  assert (keeps moves (poll_write_cancel bound)).
  { unfold poll_write_cancel, poll_next_cancellation, ensure_writeable. keeps. }
  unfold pump_write, close_or_flush. keeps.
Qed.
Lemma moves_pump_read : keeps moves pump_read.
Proof. unfold pump_read, complete. keeps. Qed.
Hint Resolve moves_pump_write moves_pump_read : tarpc.

Lemma moves_run_loop bound now n : keeps moves (run_loop bound now n).
Proof. induction n as [|n IH]; cbn [run_loop]; keeps. Qed.
Hint Resolve moves_run_loop : tarpc.

(** A poll changes the transport only by operations of the transport. *)
Lemma moves_poll bound now : keeps moves (poll bound now).
Proof. unfold poll. cbn [poll_loop]. unfold shut_down_with_terminal_error, run. keeps. Qed.

(** ** Deadlines beyond the timer's range *)

Context (now : Z).

Definition near w : Prop :=
  Forall (λ dr, ¬ far now (deadline (dr_ctx dr))) (mv_queue (mpsc_view (pending_requests (dispatch w)))).

Lemma fits_on_transport {A} (f : transport T → A * transport T) : fits near (on_transport f) (λ _, True).
Proof. intros w Hw. unfold on_transport. by destruct (f _). Qed.
Lemma fits_on_canceled {A} (f : mpsc Z → A * mpsc Z) : fits near (on_canceled f) (λ _, True).
Proof. intros w Hw. unfold on_canceled. by destruct (f _). Qed.
Lemma fits_on_oneshots f : fits near (on_oneshots f) (λ _, True).
Proof. by apply fits_modify. Qed.
Lemma fits_terminal_error e : fits near (modify (set_terminal_error e)) (λ _, True).
Proof. by apply fits_modify. Qed.
Lemma fits_on_in_flight {A} f :
  (∀ i st, f i st ≠ Panicked FarDeadline) → fits near (on_in_flight (A:=A) f) (λ _, True).
Proof.
  intros Hf w Hw. unfold on_in_flight. specialize (Hf (in_flight_requests (dispatch w)) (oneshots w)).
  by destruct (f _ _) as [[[a i] st]|[]|].
Qed.
Lemma fits_done {A} f : fits near (on_in_flight (A:=A) (λ i st, Done (f i st))) (λ _, True).
Proof. by apply fits_on_in_flight. Qed.
Lemma dq_remove_near (q : delay_queue) k : dq_remove q k ≠ Panicked FarDeadline.
Proof.
  destruct (dq_view q !! k) eqn:E; [by destruct (law_dq_remove q k) as (? & -> & _)|by rewrite law_dq_remove_absent].
Qed.
Lemma fits_complete_request i r : fits near (on_in_flight (λ t st, CIF.complete_request t st i r)) (λ _, True).
Proof.
  apply fits_on_in_flight. intros t st. unfold CIF.complete_request. destruct (_ !! _) as [rd|]; [|done].
  pose proof (dq_remove_near (CIF.deadlines t) (CIF.deadline_key rd)). by destruct (dq_remove _ _) as [|[]|].
Qed.
Lemma fits_cancel_request i : fits near (on_in_flight (λ t st, CIF.cancel_request t st i)) (λ _, True).
Proof.
  apply fits_on_in_flight. intros t st. unfold CIF.cancel_request. destruct (_ !! _) as [rd|]; [|done].
  pose proof (dq_remove_near (CIF.deadlines t) (CIF.deadline_key rd)). by destruct (dq_remove _ _) as [|[]|].
Qed.

(** A request taken from the queue has a deadline the timer supports, and so have those left. *)
Definition near_request (r : Poll (option (DispatchRequest (Span:=Span) (Req:=Req)))) : Prop :=
  ∀ dr, r = Ready (Some dr) → ¬ far now (deadline (dr_ctx dr)).

Lemma fits_recv_pending : fits near (on_pending mpsc_poll_recv) near_request.
Proof.
  intros w Hw. unfold on_pending. destruct (mpsc_poll_recv _) as [r p] eqn:E. apply law_poll_recv in E. unfold near in *.
  simpl. destruct r as [[dr|]|]; simpl in E.
  - destruct E as (q & Hq & ->). rewrite Hq in Hw. apply Forall_cons in Hw as [? ?]. split; [done|]. by intros ? [= <-].
  - destruct E as (_ & _ & ->). by split.
  - rewrite E. by split.
Qed.
Lemma fits_close_pending : fits near (on_pending (λ p, (tt, mpsc_close p))) (λ _, True).
Proof. intros w Hw. split; [|done]. unfold near in *. simpl. by rewrite law_close. Qed.

Lemma fits_poll_ready : fits near poll_ready (λ _, True).
Proof. unfold poll_ready. apply fits_bind; [apply fits_on_transport|]. intros a. by apply fits_ret. Qed.
Lemma fits_poll_flush : fits near poll_flush (λ _, True).
Proof. unfold poll_flush. apply fits_bind; [apply fits_on_transport|]. intros a. by apply fits_ret. Qed.
Lemma fits_poll_close : fits near poll_close (λ _, True).
Proof. unfold poll_close. apply fits_bind; [apply fits_on_transport|]. intros a. by apply fits_ret. Qed.
Lemma fits_start_send m : fits near (start_send m) (λ _, True).
Proof. apply fits_on_transport. Qed.

Hint Resolve fits_on_transport fits_on_canceled fits_on_oneshots fits_terminal_error fits_done fits_complete_request
  fits_cancel_request fits_close_pending fits_poll_ready fits_poll_flush fits_poll_close fits_start_send : tarpc.

Lemma fits_ensure_writeable n : fits near (ensure_writeable_loop n) (λ _, True).
Proof. induction n as [|n IH]; cbn [ensure_writeable_loop]; fits. Qed.
Lemma fits_next_cancellation_loop n : fits near (next_cancellation_loop n) (λ _, True).
Proof. induction n as [|n IH]; cbn [next_cancellation_loop]; fits. Qed.
Lemma fits_drain_loop e n : fits near (drain_loop e n) (λ _, True).
Proof.
  induction n as [|n IH]; cbn [drain_loop]; [fits|]. apply fits_bind; [eapply fits_true, fits_recv_pending|]. intros ?. fits.
Qed.
Hint Resolve fits_ensure_writeable fits_next_cancellation_loop fits_drain_loop : tarpc.

Definition near_next (r : Poll (option (Result (DispatchRequest (Span:=Span) (Req:=Req)) (ChannelError.t (interp errty))))) : Prop :=
  ∀ dr, r = Ready (Some (Ok dr)) → ¬ far now (deadline (dr_ctx dr)).

Lemma fits_next_request_loop n : fits near (next_request_loop n) near_next.
Proof.
  induction n as [|n IH]; cbn [next_request_loop]; [fits|].
  eapply fits_bind_post; [apply fits_recv_pending|]. intros [[dr|]|] Hdr; [|by apply fits_ret..].
  apply fits_bind; [fits|]. intros w. destruct (CIF.store_is_closed _ _); [fits|].
  apply fits_ret. intros ? [= <-]. by apply Hdr.
Qed.

Lemma fits_poll_write_request bound : fits near (poll_write_request bound now) (λ _, True).
Proof.
  unfold poll_write_request, poll_next_request, ensure_writeable. eapply (fits_bind_post _ _ _ near_next).
  - apply fits_bind; [fits|]. intros w. destruct (bool_decide _); [by apply fits_ret|].
    apply fits_bind; [fits|]. intros r. destruct r as [[[]|]|]; [|by apply fits_ret| |by apply fits_ret]; apply fits_next_request_loop.
  - intros r Hr. destruct r as [[[[c sp i req l]|e]|]|]; [|fits..].
    apply fits_bind; [|fits]. intros w Hw. specialize (Hr _ eq_refl). simpl in Hr.
    unfold on_in_flight, CIF.insert_request. destruct (_ !! _); [done|]. unfold far in Hr.
    change (time_until (deadline c) now) with (duration_since (deadline c) now).
    by destruct (dq_insert_cases (CIF.deadlines (in_flight_requests (dispatch w))) now i (duration_since (deadline c) now))
      as [(k & q & -> & _)|[_ ?]].
Qed.
Hint Resolve fits_poll_write_request : tarpc.

Lemma fits_pump_write bound : fits near (pump_write bound now) (λ _, True).
Proof.
  assert (fits near (poll_write_cancel bound) (λ _, True)).
  { unfold poll_write_cancel, poll_next_cancellation, ensure_writeable. fits. }
  unfold pump_write, close_or_flush. fits.
Qed.
Lemma fits_pump_read : fits near pump_read (λ _, True).
Proof. unfold pump_read, complete. fits. Qed.
Hint Resolve fits_pump_write fits_pump_read : tarpc.

Lemma fits_run_loop bound n : fits near (run_loop bound now n) (λ _, True).
Proof. induction n as [|n IH]; cbn [run_loop]; fits. Qed.
Hint Resolve fits_run_loop : tarpc.

(** Unless a queued request has a deadline beyond the timer's range, a poll does not
    make the timer panic. *)
Lemma near_poll bound w : near w → poll bound now w ≠ Panicked FarDeadline.
Proof.
  intros Hw. assert (Hp : fits near (poll bound now) (λ _, True)).
  { unfold poll. cbn [poll_loop]. unfold shut_down_with_terminal_error, run. fits. }
  specialize (Hp w Hw). by destruct (poll bound now w) as [|[]|].
Qed.
End frame.
End ClientFrame.
