(* ===== verification/ClientCalls.v ===== *)
(** * Client calls (tarpc/src/client.rs: [Channel], [ResponseGuard])

    A call is the future returned by [Channel::call].  Its code runs in its caller's task,
    between its await points: queueing the request, then waiting for the response.
    It can be dropped at either; [ResponseGuard]'s [drop] then closes the oneshot and
    sends a cancellation, and the dispatch may run between the two. *)
From S2P Require Import Prelude Interfaces Trace Wire Transport Cancellations ClientInFlight ClientDispatch.

Module Calls.
Export Client.

Section model.
Context `{!DelayQueue, !Oneshot, !Mpsc, !Otel}.
Context {TypeId : Type} `{!EqDecision TypeId} {interp : TypeId → Type} {errty : TypeId}.
Context {Span Req Resp : Type}.
Context {T : Transport (ClientMessage Req) (Response Resp) (interp errty)}.

Abbreviation RpcResult := (Result Resp (RpcError.t (DynAny interp))).
Abbreviation Store := (gmap nat (oneshot RpcResult)).

(** Where a call is suspended, or how it ended. *)
Inductive Stage :=
| Sending (request : DispatchRequest (Span:=Span) (Req:=Req))
| Awaiting
| Closing
| Returned (result : RpcResult)
| Dropped.

(** [ResponseGuard]: [g_response] is the location of the receiver. *)
Record ResponseGuard := MkResponseGuard {
  g_response : nat;
  g_request_id : Z;
  g_cancel : bool;
}.

Record Call := MkCall {
  c_guard : ResponseGuard;
  c_ctx : Context;
  c_request : Req;
  c_stage : Stage;
}.

Definition set_stage (s : Stage) (c : Call) : Call := MkCall (c_guard c) (c_ctx c) (c_request c) s.

(** A client: the dispatch, the shared counter of [Channel], the [Channel] handles,
    every call made so far, and when the dispatch last ran. *)
Record System := MkSystem {
  s_world : World Span T;
  s_next_request_id : Z;
  s_handles : nat;
  s_calls : list Call;
  s_clock : Z;
}.

Definition store_close (l : nat) (st : Store) : Store := alter oneshot_close l st.

(** [Receiver::poll] at a location. *)
Definition store_poll (l : nat) (st : Store) : Poll (Result RpcResult unit) * Store :=
  match st !! l with
  | Some o => let '(r, o') := oneshot_poll o in (r, <[l := o']> st)
  | None => (Ready (Err tt), st)
  end.

(** [ResponseGuard::drop], first and second half. *)
Definition guard_close (g : ResponseGuard) (w : World Span T) : World Span T :=
  set_oneshots (store_close (g_response g) (oneshots w)) w.
Definition guard_cancel (g : ResponseGuard) (w : World Span T) : World Span T :=
  if g_cancel g
  then set_canceled (Cancellations.cancel (g_request_id g) (canceled_requests (dispatch w))) w
  else w.
Definition guard_drop (g : ResponseGuard) (w : World Span T) : World Span T :=
  guard_cancel g (guard_close g w).

(** One poll of [ResponseGuard::response]; once it is ready the guard no longer
    cancels, and is dropped. *)
Definition guard_response (g : ResponseGuard) (w : World Span T) : Poll RpcResult * World Span T :=
  let '(r, st) := store_poll (g_response g) (oneshots w) in
  let w := set_oneshots st w in
  match r with
  | Pending => (Pending, w)
  | Ready response =>
      let g := MkResponseGuard (g_response g) (g_request_id g) false in
      (Ready match response with Ok response => response | Err _ => Err RpcError.Shutdown end,
       guard_drop g w)
  end.

Context {Rng : Type} (gen_u64 : Rng → Z * Rng).

(** The context a request travels with: the trace context of the current span if
    there is one, or else a child of the caller's. *)
Definition call_context (active : option otel_span_context) (ctx : Context) (rng : Rng) : Context * Rng :=
  match trace_context_try_from active with
  | Ok c => (MkContext (deadline ctx) c, rng)
  | Err _ => let '(c, rng) := new_child gen_u64 (trace_context ctx) rng in (MkContext (deadline ctx) c, rng)
  end.

(** [Channel::call] up to its first await. *)
Definition call_start (active : option otel_span_context) (ctx : Context) (span : Span) (request : Req)
    (rng : Rng) (s : System) : System * Rng :=
  let '(ctx, rng) := call_context active ctx rng in
  let l := length (s_calls s) in
  let w := set_oneshots (<[l := oneshot_channel]> (oneshots (s_world s))) (s_world s) in
  let '(request_id, next) := fetch_add_one (s_next_request_id s) in
  let response_guard := MkResponseGuard l request_id true in
  let call := MkCall response_guard ctx request (Sending (MkDispatchRequest ctx span request_id request l)) in
  (MkSystem w next (s_handles s) (s_calls s ++ [call]) (s_clock s), rng).

(** A poll of a call that waits for its response. *)
Definition await_response (c : Call) (w : World Span T) : Call * World Span T :=
  match guard_response (c_guard c) w with
  | (Pending, w) => (set_stage Awaiting c, w)
  | (Ready r, w) => (set_stage (Returned r) c, w)
  end.

(** One poll of a call. *)
Definition poll_call (c : Call) (w : World Span T) : Call * World Span T :=
  match c_stage c with
  | Sending dr =>
      let '(r, p) := mpsc_poll_send (pending_requests (dispatch w)) dr in
      let w := set_pending p w in
      match r with
      | Pending => (c, w)
      | Ready (Ok _) => await_response c w
      | Ready (Err dr) =>
          (* The request comes back and is dropped, and with it its sender. *)
          let w := set_oneshots (CIF.store_drop_sender (dr_response_completion dr) (oneshots w)) w in
          (set_stage (Returned (Err RpcError.Shutdown)) c, guard_drop (c_guard c) w)
      end
  | Awaiting => await_response c w
  | _ => (c, w)
  end.

(** Dropping a call: a request not yet queued is dropped first; then the guard. *)
Definition drop_call_close (c : Call) (w : World Span T) : Call * World Span T :=
  match c_stage c with
  | Sending dr =>
      let w := set_oneshots (CIF.store_drop_sender (dr_response_completion dr) (oneshots w)) w in
      (set_stage Closing c, guard_close (c_guard c) w)
  | Awaiting => (set_stage Closing c, guard_close (c_guard c) w)
  | _ => (c, w)
  end.
Definition drop_call_cancel (c : Call) (w : World Span T) : Call * World Span T :=
  match c_stage c with
  | Closing => (set_stage Dropped c, guard_cancel (c_guard c) w)
  | _ => (c, w)
  end.

(** Running one of these on the [k]-th call. *)
Definition on_call (f : Call → World Span T → Call * World Span T) (k : nat) (s : System) : System :=
  match s_calls s !! k with
  | Some c =>
      let '(c, w) := f c (s_world s) in
      MkSystem w (s_next_request_id s) (s_handles s) (<[k := c]> (s_calls s)) (s_clock s)
  | None => s
  end.

(** [Channel::clone], and dropping a handle. *)
Definition clone_channel (s : System) : System :=
  let d := dispatch (s_world s) in
  MkSystem (set_canceled (mpsc_clone_sender (canceled_requests d))
             (set_pending (mpsc_clone_sender (pending_requests d)) (s_world s)))
    (s_next_request_id s) (S (s_handles s)) (s_calls s) (s_clock s).
Definition drop_channel (s : System) : System :=
  match s_handles s with
  | 0 => s
  | S n =>
      let d := dispatch (s_world s) in
      MkSystem (set_canceled (mpsc_drop_sender (canceled_requests d))
                 (set_pending (mpsc_drop_sender (pending_requests d)) (s_world s)))
        (s_next_request_id s) n (s_calls s) (s_clock s)
  end.

(** A new client, as [new] returns it. *)
Definition new_system (config : Config) (t : transport T) (now : Z) : Exec System :=
  x ← new config t; Done (MkSystem x.1 x.2 1 [] now).

(** ** Steps of a client

    The dispatch is polled, some call makes progress, or the peer acts on the
    transport (what it may do is [peer]), in any order. *)
Context (peer : transport T → transport T → Prop).

Inductive step (bound : nat) (s : System) : System → Prop :=
| step_dispatch now r w' :
    (s_clock s ≤ now)%Z → poll bound now (s_world s) = Done (r, w') →
    step bound s (MkSystem w' (s_next_request_id s) (s_handles s) (s_calls s) now)
| step_peer t' :
    peer (rd_transport (dispatch (s_world s))) t' →
    step bound s (MkSystem (set_transport t' (s_world s)) (s_next_request_id s) (s_handles s) (s_calls s) (s_clock s))
| step_call_start active ctx span request rng :
    step bound s (call_start active ctx span request rng s).1
| step_poll_call k : step bound s (on_call poll_call k s)
| step_drop_close k : step bound s (on_call drop_call_close k s)
| step_drop_cancel k : step bound s (on_call drop_call_cancel k s)
| step_clone : step bound s (clone_channel s)
| step_drop_channel : step bound s (drop_channel s).

Definition reachable (bound : nat) (config : Config) (t : transport T) (now : Z) (s : System) : Prop :=
  ∃ s0, new_system config t now = Done s0 ∧ rtc (step bound) s0 s.
End model.

Arguments Call {_} interp Span Req Resp.
Arguments System {_ _ _ _ _ _} Span {_ _} T.
End Calls.
