(* ===== verification/ClientSafety.v ===== *)
(** * Safety of the client: calls and dispatch together

    An invariant of every state a client can reach, whatever the transport does and
    in whatever order calls and dispatch run: each response goes to the call that
    made the request, what is written obeys the wire protocol, and a request whose
    caller has gone is never left behind. *)
From S2P Require Import Prelude Interfaces RefModels Trace Wire TimerTable Transport Cancellations ClientInFlight ClientDispatch ClientSpec ClientRefine ClientCalls.

Module Safety.
Export Refine Calls.

(** ** What sending and dropping senders does to the oneshots *)

Section store.
Context `{!Oneshot, !OneshotLaws} {Res : Type}.
Implicit Types st : gmap nat (oneshot Res).

(** Only the oneshots at [ls] change, none is closed or opened, and a new value at
    [l] satisfies [P l]. *)
Record store_effect (P : nat → Res → Prop) (ls : list nat) st st' : Prop := {
  se_closed l : CIF.store_is_closed l st' = CIF.store_is_closed l st;
  se_dom l : is_Some (st' !! l) ↔ is_Some (st !! l);
  se_frame l : l ∉ ls → st' !! l = st !! l;
  se_value l v : CIF.value_at st' l = Some v → CIF.value_at st l = Some v ∨ P l v;
}.

Lemma store_effect_refl P ls st : store_effect P ls st st.
Proof. split; auto. Qed.

Lemma store_effect_mono (P Q : nat → Res → Prop) ls ls' st st' :
  store_effect P ls st st' → (∀ l v, P l v → Q l v) → ls ⊆ ls' → store_effect Q ls' st st'.
Proof.
  intros [H1 H2 H3 H4] HPQ Hls. split; [done|done|auto|]. intros l v [?|?]%H4; auto.
Qed.

Lemma store_effect_trans P ls st1 st2 st3 :
  store_effect P ls st1 st2 → store_effect P ls st2 st3 → store_effect P ls st1 st3.
Proof.
  intros [A1 A2 A3 A4] [B1 B2 B3 B4]. split; intros.
  - by rewrite B1.
  - by rewrite B2.
  - by rewrite B3, A3.
  - destruct (B4 l v) as [?|?]; auto.
Qed.

Lemma store_effect_send (P : nat → Res → Prop) l r st :
  P l r → store_effect P [l] st (CIF.store_send l r st).
Proof.
  intros HP. split.
  - intros l'. apply CIF.store_send_is_closed.
  - intros l'. apply lookup_alter_is_Some.
  - intros l' Hl. apply CIF.store_send_ne. set_solver.
  - intros l' v Hv. destruct (decide (l = l')) as [<-|Hne].
    + unfold CIF.value_at, CIF.store_send in *. rewrite lookup_alter_eq in Hv.
      destruct (st !! l) as [o|]; simpl in *; [|done]. rewrite law_oneshot_send in Hv.
      destruct (ov_rx_closed _); simpl in Hv; [by left|]. right. by simplify_eq.
    + left. unfold CIF.value_at in *. by rewrite CIF.store_send_ne in Hv.
Qed.

Lemma store_effect_drop P l st : store_effect P [l] st (CIF.store_drop_sender l st).
Proof.
  split.
  - intros l'. apply CIF.store_drop_sender_is_closed.
  - intros l'. apply lookup_alter_is_Some.
  - intros l' Hl. apply CIF.store_drop_sender_ne. set_solver.
  - intros l' v Hv. left. by rewrite CIF.store_drop_sender_value in Hv.
Qed.

Lemma store_effect_send_all {A} (P : nat → Res → Prop) (loc : A → nat) r (ws : list A) st :
  (∀ x, x ∈ ws → P (loc x) r) →
  store_effect P (loc <$> ws) st (foldl (λ st x, CIF.store_send (loc x) r st) st ws).
Proof.
  revert st. induction ws as [|x ws IH]; intros st HP; simpl; [apply store_effect_refl|].
  eapply store_effect_trans.
  - eapply store_effect_mono; [by apply (store_effect_send P), HP; left|done|set_solver].
  - eapply store_effect_mono; [apply IH|done|set_solver]. intros y Hy. apply HP. by right.
Qed.

Lemma open_dom st l : CIF.store_is_closed l st = false → is_Some (st !! l).
Proof. unfold CIF.store_is_closed. destruct (st !! l); [eauto|done]. Qed.

Lemma send_answers l r st :
  CIF.store_is_closed l st = false → is_Some (CIF.value_at (CIF.store_send l r st) l).
Proof. intros Hl. rewrite CIF.store_send_value; [eauto|by apply open_dom|done]. Qed.

Lemma send_keeps l l' r st :
  CIF.store_is_closed l st = false → is_Some (CIF.value_at st l) → is_Some (CIF.value_at (CIF.store_send l' r st) l).
Proof.
  intros Hl Hv. destruct (decide (l' = l)) as [->|Hne]; [by apply send_answers|].
  unfold CIF.value_at in *. by rewrite CIF.store_send_ne.
Qed.

Lemma send_all_answers {A} (loc : A → nat) r (ws : list A) st l :
  CIF.store_is_closed l st = false → l ∈ loc <$> ws ∨ is_Some (CIF.value_at st l) →
  is_Some (CIF.value_at (foldl (λ st x, CIF.store_send (loc x) r st) st ws) l).
Proof.
  revert st. induction ws as [|x ws IH]; intros st Hl Hin; simpl.
  { destruct Hin as [Hin|?]; [by apply elem_of_nil in Hin|done]. }
  apply IH; [by rewrite CIF.store_send_is_closed|]. destruct Hin as [[->|Hin]%elem_of_cons|Hv].
  - right. by apply send_answers.
  - by left.
  - right. by apply send_keeps.
Qed.

Lemma unused_value st l : unused_at st l → CIF.value_at st l = None.
Proof. intros (o & Ho & _ & Hv). unfold CIF.value_at. by rewrite Ho. Qed.
End store.

(** ** What one event of the dispatch can change *)

Section effect.
Context `{!Oneshot, !OneshotLaws} {Dyn Span Req Resp : Type}.
Implicit Types a : AState Dyn Span Req Resp.

(** The results the dispatch gives to a call, and when. *)
Inductive answer (now : Z) a a' (l : nat) : Result Resp (RpcError.t Dyn) → Prop :=
| answer_response r w :
    r ∈ a_received a' → a_waiting a !! request_id r = Some w → w_loc w = l →
    answer now a a' l (response_outcome r)
| answer_deadline i w due :
    a_waiting a !! i = Some w → w_loc w = l → a_due a !! i = Some due → (due ≤ now)%Z →
    answer now a a' l (Err RpcError.DeadlineExceeded)
| answer_send e : answer now a a' l (Err (RpcError.Send e))
| answer_channel e : a_error a' = Some e → answer now a a' l (Err (RpcError.Channel e)).

Record effect (now : Z) a a' : Prop := {
  ef_pending dr : dr ∈ mv_queue (a_pending a') → dr ∈ mv_queue (a_pending a);
  ef_waiting i w : a_waiting a' !! i = Some w → a_waiting a !! i = Some w ∨
    ∃ dr, dr ∈ mv_queue (a_pending a) ∧ i = dr_request_id dr ∧
      w = MkWaiting (dr_ctx dr) (dr_span dr) (dr_response_completion dr) ∧
      CIF.store_is_closed (dr_response_completion dr) (a_store a) = false ∧
      request_message dr ∈ a_sent a';
  ef_due i w due : a_waiting a' !! i = Some w → a_due a' !! i = Some due →
    a_waiting a !! i = Some w ∧ a_due a !! i = Some due ∨
    (∃ dr, dr ∈ mv_queue (a_pending a) ∧ i = dr_request_id dr) ∧ due = Z.max now (deadline (w_ctx w));
  ef_store : store_effect (answer now a a') (outstanding a).*2 (a_store a) (a_store a');
  ef_canceled i : i ∈ mv_queue (a_canceled a) → i ∈ mv_queue (a_canceled a') ∨ a_waiting a' !! i = None;
  ef_canceled_sub i : i ∈ mv_queue (a_canceled a') → i ∈ mv_queue (a_canceled a);
  ef_canceled_closed : mv_closed (a_canceled a') = mv_closed (a_canceled a);
  ef_answered l : l ∈ (outstanding a).*2 → CIF.store_is_closed l (a_store a) = false →
    l ∈ (outstanding a').*2 ∨ is_Some (CIF.value_at (a_store a') l) ∨
    ∃ i, (i, l) ∈ outstanding a ∧ i ∈ mv_queue (a_canceled a);
  ef_sent m : m ∈ a_sent a → m ∈ a_sent a';
  ef_received r : r ∈ a_received a → r ∈ a_received a';
  ef_error e : a_error a = Some e → a_error a' = Some e;
}.

Lemma pending_outstanding a dr q :
  mv_queue (a_pending a) = dr :: q → [dr_response_completion dr] ⊆ (outstanding a).*2.
Proof. intros Hq. rewrite (outstanding_pop _ _ _ Hq). set_solver. Qed.

Lemma waiting_outstanding a i w : a_waiting a !! i = Some w → [w_loc w] ⊆ (outstanding a).*2.
Proof. intros Hi. rewrite (outstanding_untrack _ _ _ Hi). set_solver. Qed.

(** A request leaves the table: nothing else of the queues changes. *)
Lemma effect_untrack now a a' i w (f : gmap nat (oneshot (Result Resp (RpcError.t Dyn))) → _) :
  a_waiting a !! i = Some w → a_pending a' = a_pending a → a_waiting a' = delete i (a_waiting a) →
  a_due a' = delete i (a_due a) → a_store a' = f (a_store a) →
  store_effect (answer now a a') [w_loc w] (a_store a) (f (a_store a)) →
  (∀ j, j ∈ mv_queue (a_canceled a) → j = i ∨ j ∈ mv_queue (a_canceled a')) →
  (∀ j, j ∈ mv_queue (a_canceled a') → j ∈ mv_queue (a_canceled a)) →
  mv_closed (a_canceled a') = mv_closed (a_canceled a) →
  (i ∈ mv_queue (a_canceled a) ∨ (CIF.store_is_closed (w_loc w) (a_store a) = false →
     is_Some (CIF.value_at (f (a_store a)) (w_loc w)))) →
  (∀ m, m ∈ a_sent a → m ∈ a_sent a') → (∀ r, r ∈ a_received a → r ∈ a_received a') →
  a_error a' = a_error a → effect now a a'.
Proof.
  intros Hi Ep Ew Ed Es Hst Hc Hcs Hcl Hans Hs Hr He. split; rewrite ?Ep, ?Ew, ?Ed, ?Es, ?He; auto.
  - intros j w' [_ ?]%lookup_delete_Some. by left.
  - intros j w' d [_ ?]%lookup_delete_Some [_ ?]%lookup_delete_Some. by left.
  - eapply store_effect_mono; [exact Hst|done|by eapply waiting_outstanding].
  - intros j [->|?]%Hc; [right; apply lookup_delete_eq|by left].
  - intros l. rewrite (outstanding_untrack _ _ _ Hi). simpl. intros [->|Hl]%elem_of_cons Hop.
    + destruct Hans as [?|Hv]; [|by auto]. right. right. exists i. split; [|done].
      apply elem_of_app. right. by apply waiting_owned_elem.
    + left. unfold outstanding, pending_owned, waiting_owned in *. rewrite Ep, Ew. done.
Qed.

(** Only the logs, the cancellations or the error change. *)
Lemma effect_frame now a a' :
  a_pending a' = a_pending a → a_waiting a' = a_waiting a → a_due a' = a_due a → a_store a' = a_store a →
  (∀ j, j ∈ mv_queue (a_canceled a) → j ∈ mv_queue (a_canceled a') ∨ a_waiting a !! j = None) →
  (∀ j, j ∈ mv_queue (a_canceled a') → j ∈ mv_queue (a_canceled a)) →
  mv_closed (a_canceled a') = mv_closed (a_canceled a) →
  (∀ m, m ∈ a_sent a → m ∈ a_sent a') → (∀ r, r ∈ a_received a → r ∈ a_received a') →
  (∀ e, a_error a = Some e → a_error a' = Some e) → effect now a a'.
Proof.
  intros Ep Ew Ed Es Hc Hcs Hcl Hs Hr He. split; rewrite ?Ep, ?Ew, ?Ed, ?Es; auto using store_effect_refl.
  intros l Hl _. left. unfold outstanding, pending_owned, waiting_owned in *. by rewrite Ep, Ew.
Qed.

(** A queued request is answered or dropped. *)
Lemma effect_pop now a a' dr q :
  mv_queue (a_pending a) = dr :: q → mv_queue (a_pending a') = q → a_waiting a' = a_waiting a →
  a_due a' = a_due a → a_canceled a' = a_canceled a → a_sent a' = a_sent a → a_received a' = a_received a →
  a_error a' = a_error a →
  store_effect (answer now a a') [dr_response_completion dr] (a_store a) (a_store a') →
  (CIF.store_is_closed (dr_response_completion dr) (a_store a) = false →
     is_Some (CIF.value_at (a_store a') (dr_response_completion dr))) → effect now a a'.
Proof.
  intros Hq Hq' Ew Ed Ec Es Er Ee Hst Hans.
  split; rewrite ?Hq', ?Ew, ?Ed, ?Ec, ?Es, ?Er, ?Ee, ?Hq; auto.
  - intros dr'. by right.
  - eapply store_effect_mono; [exact Hst|done|by eapply pending_outstanding].
  - intros l. rewrite (outstanding_pop _ _ _ Hq). simpl. intros [->|Hl]%elem_of_cons Hop; [by auto|].
    left. unfold outstanding, pending_owned, waiting_owned in *. simpl in Hl. by rewrite Hq', Ew.
Qed.

(** A queued request is written and put in flight. *)
Lemma effect_send max now a dr q :
  mv_queue (a_pending a) = dr :: q → CIF.store_is_closed (dr_response_completion dr) (a_store a) = false →
  (Z.of_nat (size (a_waiting a)) < max)%Z → a_waiting a !! dr_request_id dr = None →
  effect now a (log_sent (request_message dr)
    (track (dr_request_id dr) (MkWaiting (dr_ctx dr) (dr_span dr) (dr_response_completion dr))
       (Z.max now (deadline (dr_ctx dr))) (pop_pending q a))).
Proof.
  intros Hq Hcl Hmax Hi. split; simpl; auto using store_effect_refl; rewrite ?Hq.
  - intros dr'. by right.
  - intros j w [[<- <-]|[_ ?]]%lookup_insert_Some; [right|by left].
    exists dr. split_and!; [by left|done|done|done|]. apply elem_of_app. right. by left.
  - intros j w d [[<- <-]|[Hne ?]]%lookup_insert_Some; simpl.
    + rewrite lookup_insert_eq. intros [= <-]. right. split; [|done]. exists dr. split; [by left|done].
    + rewrite lookup_insert_ne by done. by left.
  - intros l Hl _. left. rewrite (outstanding_pop _ _ _ Hq) in Hl.
    by rewrite <- (outstanding_track (pop_pending q a) (dr_request_id dr) (MkWaiting (dr_ctx dr) (dr_span dr) (dr_response_completion dr))
      (Z.max now (deadline (dr_ctx dr))) Hi) in Hl.
  - intros m Hm. apply elem_of_app. by left.
Qed.

(** Everything in flight is answered with the error. *)
Lemma effect_shutdown now a e ws :
  a_error a = Some e → ws ≡ₚ map_to_list (a_waiting a) →
  effect now a (with_store (λ st, foldl (λ st iw, CIF.store_send (w_loc iw.2) (Err (RpcError.Channel e)) st) st ws)
    (untrack_all (close_pending a))).
Proof.
  intros He Hws.
  assert (Hlocs : (λ iw : Z * Waiting Span, w_loc iw.2) <$> ws ≡ₚ (waiting_owned a).*2).
  { unfold waiting_owned. rewrite Hws, <- list_fmap_compose. done. }
  split; simpl; auto.
  - by intros ??.
  - by intros ???.
  - eapply store_effect_mono; [apply (store_effect_send_all _ (λ iw, w_loc iw.2))|done|].
    + intros iw _. by apply answer_channel.
    + unfold outstanding. rewrite fmap_app, Hlocs. apply list_subseteq_app_r. done.
  - intros l Hl Hop. unfold outstanding in *. rewrite fmap_app in Hl. apply elem_of_app in Hl as [Hl|Hl].
    + left. rewrite fmap_app. apply elem_of_app. by left.
    + right. left. apply send_all_answers; [done|left]. by rewrite Hlocs.
Qed.

Lemma dstep_effect max now a a' : dstep max now a a' → effect now a a'.
Proof.
  destruct 1 as [dr q He Hq Hcl|dr q He Hq Hcl Hmax Hi|dr q e He Hq Hcl|i q He Hq Hi|i q w He Hq Hi|
    i q w He Hq Hi|i w due He Hi Hdue Hle|r w He Hi|r He Hi|He|e He|e ws He Hws|e dr q He Hcl Hw Hq].
  - eapply effect_pop; try done; [apply store_effect_drop|by rewrite Hcl].
  - by eapply effect_send.
  - eapply effect_pop; try done; [apply store_effect_send, answer_send|]. apply send_answers.
  - apply effect_frame; simpl; auto; rewrite Hq; [|by right]. intros j [->|?]%elem_of_cons; auto.
  - eapply effect_untrack; try done; [apply store_effect_drop|..]; simpl; rewrite ?Hq.
    + intros j. apply elem_of_cons.
    + by right.
    + left. by left.
    + intros m Hm. apply elem_of_app. by left.
  - eapply effect_untrack; try done; [apply store_effect_drop|..]; simpl; rewrite ?Hq.
    + intros j. apply elem_of_cons.
    + by right.
    + left. by left.
  - eapply effect_untrack; try done; [by eapply store_effect_send, answer_deadline|by auto|].
    right. apply send_answers.
  - eapply effect_untrack; try done; [eapply store_effect_send, answer_response; [|done|done]|by auto|..]; simpl.
    + apply elem_of_app. right. by left.
    + right. apply send_answers.
    + intros. apply elem_of_app. by left.
  - apply effect_frame; simpl; auto. intros r' ?. apply elem_of_app. by left.
  - apply effect_frame; simpl; auto.
  - apply effect_frame; simpl; auto. by rewrite He.
  - by apply effect_shutdown.
  - eapply effect_pop; try done; unfold with_store, send_channel_error; simpl;
      destruct (CIF.store_is_closed _ _) eqn:?;
      [apply store_effect_drop|by apply store_effect_send, answer_channel|done|by intros _; apply send_answers].
Qed.
End effect.

(** ** The invariant *)

Section invariant.
Context `{!Oneshot, !OneshotLaws} {TypeId : Type} {interp : TypeId → Type} {Span Req Resp : Type}.
Abbreviation AS := (AState (DynAny interp) Span Req Resp).
Abbreviation Call' := (Call interp Span Req Resp).
Implicit Types (a : AS) (calls : list Call') (c : Call') (k : nat).

(** The request of the [k]-th call, as it is written to the wire. *)
Definition call_message k c : ClientMessage Req :=
  ClientRequest (MkRequest (c_ctx c) (Z.of_nat k) (c_request c)).

(** A result the [k]-th call may be given. *)
Definition justified a (clock : Z) k c (v : Result Resp (RpcError.t (DynAny interp))) : Prop :=
  match v with
  | Ok x => MkResponse (Z.of_nat k) (Ok x) ∈ a_received a ∧ call_message k c ∈ a_sent a
  | Err (RpcError.Server e) => MkResponse (Z.of_nat k) (Err e) ∈ a_received a ∧ call_message k c ∈ a_sent a
  | Err RpcError.DeadlineExceeded => (deadline (c_ctx c) ≤ clock)%Z ∧ call_message k c ∈ a_sent a
  | Err (RpcError.Channel e) => a_error a = Some e
  | Err (RpcError.Send _) => True
  | Err RpcError.Shutdown => False
  end.

(** The request is in the hands of the dispatch, and its answer not yet in the caller's. *)
Definition submitted (s : Stage (interp:=interp) (Span:=Span) (Req:=Req) (Resp:=Resp)) : Prop :=
  match s with Awaiting | Closing | Dropped => True | _ => False end.

Definition stage_ok a (clock : Z) k c : Prop :=
  let closed := CIF.store_is_closed k (a_store a) in
  match c_stage c with
  | Sending dr => dr = MkDispatchRequest (c_ctx c) (dr_span dr) (Z.of_nat k) (c_request c) k ∧
      unused_at (a_store a) k ∧ closed = false
  | Awaiting => closed = false ∧ (k ∈ (outstanding a).*2 ∨ is_Some (CIF.value_at (a_store a) k))
  | Closing => closed = true
  | Dropped => closed = true ∧
      (is_Some (a_waiting a !! Z.of_nat k) → Z.of_nat k ∈ mv_queue (a_canceled a))
  | Returned r => r = Err RpcError.Shutdown ∨ justified a clock k c r
  end.

Record call_ok a (clock : Z) k c : Prop := {
  co_guard : c_guard c = MkResponseGuard k (Z.of_nat k) true;
  co_store : is_Some (a_store a !! k);
  co_value v : CIF.value_at (a_store a) k = Some v → justified a clock k c v;
  co_stage : stage_ok a clock k c;
}.

(** Requests queued and in flight are the requests of calls that wait for them. *)
Definition pending_ok calls (dr : DispatchRequest (Span:=Span) (Req:=Req)) : Prop :=
  ∃ c, calls !! dr_response_completion dr = Some c ∧ submitted (c_stage c) ∧
    dr_request_id dr = Z.of_nat (dr_response_completion dr) ∧
    dr_ctx dr = c_ctx c ∧ dr_request dr = c_request c.
Definition waiting_ok a calls (i : Z) (w : Waiting Span) : Prop :=
  ∃ c, calls !! w_loc w = Some c ∧ submitted (c_stage c) ∧ i = Z.of_nat (w_loc w) ∧
    w_ctx w = c_ctx c ∧ call_message (w_loc w) c ∈ a_sent a.

Record client_inv (max : Z) a calls (clock : Z) : Prop := {
  ci_ainv : ainv max a;
  ci_calls k c : calls !! k = Some c → call_ok a clock k c;
  ci_pending dr : dr ∈ mv_queue (a_pending a) → pending_ok calls dr;
  ci_waiting i w : a_waiting a !! i = Some w → waiting_ok a calls i w;
  ci_due i w due : a_waiting a !! i = Some w → a_due a !! i = Some due →
    (deadline (w_ctx w) ≤ due ≤ Z.max clock (deadline (w_ctx w)))%Z;
  ci_fresh k : length calls ≤ k → a_store a !! k = None;
  ci_canceled : mv_closed (a_canceled a) = false;
  (** Only calls that were given up are canceled. *)
  ci_canceled_ids i : i ∈ mv_queue (a_canceled a) →
    ∃ k, i = Z.of_nat k ∧ is_Some (a_store a !! k) ∧ CIF.store_is_closed k (a_store a) = true;
}.

Lemma justified_mono a a' clock clock' k c v :
  justified a clock k c v → (∀ m, m ∈ a_sent a → m ∈ a_sent a') →
  (∀ r, r ∈ a_received a → r ∈ a_received a') → (∀ e, a_error a = Some e → a_error a' = Some e) →
  (clock ≤ clock')%Z → justified a' clock' k c v.
Proof.
  intros Hj Hs Hr He Hc. destruct v as [x|[| | | |]]; simpl in *; try done; naive_solver lia.
Qed.

(** Every answer of the dispatch is justified. *)
Lemma answer_justified max a a' calls clock now k c v :
  client_inv max a calls clock → effect now a a' → calls !! k = Some c →
  answer now a a' k v → justified a' now k c v.
Proof.
  intros Hinv Hef Hk Ha. destruct Ha as [r w Hr Hw <-|i w due Hw <- Hdue Hle|e|e He]; simpl; [..|done|done].
  - destruct (ci_waiting _ _ _ _ Hinv _ _ Hw) as (c' & Hc & _ & Hi & _ & Hm).
    assert (c' = c) as -> by congruence. apply (ef_sent _ _ _ Hef) in Hm.
    destruct r as [j [x|e]]; simpl in *; subst; done.
  - destruct (ci_waiting _ _ _ _ Hinv _ _ Hw) as (c' & Hc & _ & -> & Hctx & Hm).
    assert (c' = c) as -> by congruence. apply (ef_sent _ _ _ Hef) in Hm.
    pose proof (ci_due _ _ _ _ Hinv _ _ _ Hw Hdue). rewrite <- Hctx. split; [lia|done].
Qed.

Lemma sending_not_outstanding max a calls clock k c dr :
  client_inv max a calls clock → calls !! k = Some c → c_stage c = Sending dr → k ∉ (outstanding a).*2.
Proof.
  intros Hinv Hk Hs ([i l] & -> & Hin)%list_elem_of_fmap. simpl in *.
  apply elem_of_app in Hin as [(dr' & [= -> ->] & Hd)%list_elem_of_fmap|(w & Hw & <-)%waiting_owned_inv].
  - apply (ci_pending _ _ _ _ Hinv) in Hd as (c' & Hc & Hsub & _). simplify_eq. by rewrite Hs in Hsub.
  - apply (ci_waiting _ _ _ _ Hinv) in Hw as (c' & Hc & Hsub & _). simplify_eq. by rewrite Hs in Hsub.
Qed.

Lemma outstanding_id max a calls clock i l :
  client_inv max a calls clock → (i, l) ∈ outstanding a → i = Z.of_nat l.
Proof.
  intros Hinv [(dr & [= -> ->] & Hd)%list_elem_of_fmap|(w & Hw & <-)%waiting_owned_inv]%elem_of_app.
  - by destruct (ci_pending _ _ _ _ Hinv _ Hd) as (? & _ & _ & ? & _).
  - by destruct (ci_waiting _ _ _ _ Hinv _ _ Hw) as (? & _ & _ & ? & _).
Qed.

Lemma effect_call_ok max a a' calls clock now k c :
  client_inv max a calls clock → effect now a a' → (clock ≤ now)%Z → calls !! k = Some c →
  call_ok a' now k c.
Proof.
  intros Hinv Hef Hle Hk. destruct (ci_calls _ _ _ _ Hinv _ _ Hk) as [Hg Hst Hv Hs].
  pose proof (ef_store _ _ _ Hef) as Hse.
  assert (Hmono : ∀ v, justified a clock k c v → justified a' now k c v).
  { intros v Hj. eapply justified_mono; [done|apply Hef..|done]. }
  split; [done|by apply Hse|..].
  - intros v [?|?]%(se_value _ _ _ _ Hse); [by auto|by eapply answer_justified].
  - unfold stage_ok in *. rewrite (se_closed _ _ _ _ Hse). destruct (c_stage c) eqn:Hstage; try done.
    + destruct Hs as (? & (o & Ho & Hu) & ?). split_and!; [done| |done].
      exists o. split; [|done]. rewrite (se_frame _ _ _ _ Hse); [done|]. by eapply sending_not_outstanding.
    + destruct Hs as [Hop Hans]. split; [done|]. destruct (decide (k ∈ (outstanding a).*2)) as [Hin|Hnin].
      * destruct (ef_answered _ _ _ Hef _ Hin Hop) as [?|[?|(i & Hi & Hc)]]; [by auto..|].
        destruct (ci_canceled_ids _ _ _ _ Hinv _ Hc) as (k' & Ei & _ & Hcl).
        rewrite (outstanding_id _ _ _ _ _ _ Hinv Hi) in Ei. assert (k' = k) by lia. congruence.
      * destruct Hans as [?|Hans]; [done|right]. unfold CIF.value_at in *. by rewrite (se_frame _ _ _ _ Hse).
    + destruct Hs as [?|?]; auto.
    + destruct Hs as [Hcl Hc]. split; [done|]. intros [w Hw].
      destruct (ef_waiting _ _ _ Hef _ _ Hw) as [Hw'|(dr & Hd & Hi & -> & Hop & _)].
      * destruct (ef_canceled _ _ _ Hef (Z.of_nat k)) as [?|?]; [by eauto|done|congruence].
      * apply (ci_pending _ _ _ _ Hinv) in Hd as (c' & Hc' & _ & Hid & _).
        assert (dr_response_completion dr = k) by lia. congruence.
Qed.

Lemma dstep_client_inv max now a a' calls clock :
  client_inv max a calls clock → (clock ≤ now)%Z → dstep max now a a' → client_inv max a' calls now.
Proof.
  intros Hinv Hle Hs. pose proof (dstep_effect _ _ _ _ Hs) as Hef. split.
  - eapply dstep_ainv; [apply Hinv|done].
  - intros k c Hk. by eapply effect_call_ok.
  - intros dr Hd%(ef_pending _ _ _ Hef). by eapply ci_pending.
  - intros i w Hw. destruct (ef_waiting _ _ _ Hef _ _ Hw) as [Hw'|(dr & Hd & -> & -> & _ & Hm)].
    + destruct (ci_waiting _ _ _ _ Hinv _ _ Hw') as (c & ? & ? & ? & ? & ?%(ef_sent _ _ _ Hef)). by exists c.
    + apply (ci_pending _ _ _ _ Hinv) in Hd as (c & Hc & Hsub & Hid & Hctx & Hreq). exists c.
      split_and!; try done. simpl. unfold call_message. by rewrite <- Hid, <- Hctx, <- Hreq.
  - intros i w due Hw Hd. destruct (ef_due _ _ _ Hef _ _ _ Hw Hd) as [[Hw' Hd']|[_ ->]]; [|lia].
    pose proof (ci_due _ _ _ _ Hinv _ _ _ Hw' Hd'). lia.
  - intros k Hk. apply eq_None_not_Some. rewrite (se_dom _ _ _ _ (ef_store _ _ _ Hef)).
    by rewrite (ci_fresh _ _ _ _ Hinv).
  - rewrite (ef_canceled_closed _ _ _ Hef). apply Hinv.
  - intros i Hi%(ef_canceled_sub _ _ _ Hef).
    destruct (ci_canceled_ids _ _ _ _ Hinv _ Hi) as (k & -> & Hd & Hcl). exists k.
    by rewrite (se_dom _ _ _ _ (ef_store _ _ _ Hef)), (se_closed _ _ _ _ (ef_store _ _ _ Hef)).
Qed.

Lemma dsteps_client_inv max now a a' calls clock :
  client_inv max a calls clock → (clock ≤ now)%Z → dsteps max now a a' → client_inv max a' calls now.
Proof.
  intros Hinv Hle Hs. assert (client_inv max a calls now) as Hinv'.
  { destruct Hinv as [? Hc ? ? Hdue]. split; try done; cycle 1.
    { intros i w due Hw Hd. pose proof (Hdue i w due Hw Hd). lia. }
    intros k c Hk. destruct (Hc _ _ Hk) as [? ? Hv Hst].
    assert (Hm : ∀ v, justified a clock k c v → justified a now k c v)
      by (intros; by eapply justified_mono).
    split; auto. unfold stage_ok in *. destruct (c_stage c); naive_solver. }
  clear Hinv. induction Hs as [|a1 a2 a3 Hd _ IH]; [done|]. apply IH. by eapply dstep_client_inv.
Qed.

(** ** The callers' steps, seen from the dispatch *)

Definition push_pending (dr : DispatchRequest (Span:=Span) (Req:=Req)) a : AS :=
  pop_pending (mv_queue (a_pending a) ++ [dr]) a.
Definition push_canceled (i : Z) a : AS := pop_canceled (mv_queue (a_canceled a) ++ [i]) a.

Lemma ainv_store max a f :
  ainv max a → (∀ l, l ∈ (outstanding a).*2 → unused_at (a_store a) l → unused_at (f (a_store a)) l) →
  ainv max (with_store f a).
Proof. intros [Ho Hd Hm] Hf. split; [|done|done]. by eapply owned_store. Qed.

(** One call moves on; the table, the logs and the other calls' oneshots stay. *)
Record caller_step a a' (k : nat) : Prop := {
  cs_waiting : a_waiting a' = a_waiting a;
  cs_due : a_due a' = a_due a;
  cs_sent : a_sent a' = a_sent a;
  cs_received : a_received a' = a_received a;
  cs_error : a_error a' = a_error a;
  cs_store l : l ≠ k → a_store a' !! l = a_store a !! l;
  cs_canceled i : i ∈ mv_queue (a_canceled a) → i ∈ mv_queue (a_canceled a');
  cs_canceled_closed : mv_closed (a_canceled a') = mv_closed (a_canceled a);
  cs_outstanding l : l ∈ (outstanding a).*2 → l ∈ (outstanding a').*2;
  cs_closed : is_Some (a_store a !! k) → CIF.store_is_closed k (a_store a) = true →
    CIF.store_is_closed k (a_store a') = true;
  cs_pushed i : i ∈ mv_queue (a_canceled a') → i ∈ mv_queue (a_canceled a) ∨
    i = Z.of_nat k ∧ CIF.store_is_closed k (a_store a') = true;
}.

Lemma store_same_at (st st' : gmap nat (oneshot (Result Resp (RpcError.t (DynAny interp))))) l :
  st' !! l = st !! l →
  CIF.store_is_closed l st' = CIF.store_is_closed l st ∧ CIF.value_at st' l = CIF.value_at st l ∧
  (unused_at st l → unused_at st' l).
Proof. intros E. unfold CIF.store_is_closed, CIF.value_at, unused_at. by rewrite E. Qed.

Lemma caller_other a a' clock k j c :
  caller_step a a' k → j ≠ k → call_ok a clock j c → call_ok a' clock j c.
Proof.
  intros Hcs Hne [Hg Hs Hv Hst]. pose proof (cs_store _ _ _ Hcs j Hne) as Es.
  destruct (store_same_at _ _ _ Es) as (Ec & Ev & Hu).
  assert (Hj : ∀ v, justified a clock j c v → justified a' clock j c v).
  { intros v Hj. by eapply justified_mono; [done|rewrite ?(cs_sent _ _ _ Hcs), ?(cs_received _ _ _ Hcs), ?(cs_error _ _ _ Hcs)..]. }
  split; [done|by rewrite Es|rewrite Ev; auto|]. unfold stage_ok in *.
  rewrite Ec, (cs_waiting _ _ _ Hcs). destruct (c_stage c); try done.
  - destruct Hst as (? & ? & ?). auto.
  - destruct Hst as [? [?|?]]; (split; [done|]); [left; by apply (cs_outstanding _ _ _ Hcs)|right; by rewrite Ev].
  - destruct Hst; auto.
  - destruct Hst as [? Hc]. split; [done|]. intros Hw. by apply (cs_canceled _ _ _ Hcs), Hc.
Qed.

Lemma submitted_update calls k c c' l (d : Call') :
  calls !! k = Some c → c_ctx c' = c_ctx c → c_request c' = c_request c →
  (submitted (c_stage c) → l = k → submitted (c_stage c')) →
  calls !! l = Some d → submitted (c_stage d) →
  ∃ d', <[k := c']> calls !! l = Some d' ∧ submitted (c_stage d') ∧ c_ctx d' = c_ctx d ∧ c_request d' = c_request d.
Proof.
  intros Hk Ec Er Hs Hl Hd. destruct (decide (l = k)) as [->|Hne].
  - exists c'. simplify_eq. rewrite list_lookup_insert_eq by by eapply lookup_lt_Some. auto.
  - exists d. by rewrite list_lookup_insert_ne by done.
Qed.

Lemma caller_update max a a' calls clock k c c' :
  client_inv max a calls clock → calls !! k = Some c → caller_step a a' k →
  c_ctx c' = c_ctx c → c_request c' = c_request c →
  (submitted (c_stage c) → k ∈ (outstanding a).*2 → submitted (c_stage c')) →
  (∀ dr, dr ∈ mv_queue (a_pending a') → dr ∈ mv_queue (a_pending a) ∨ pending_ok (<[k := c']> calls) dr) →
  ainv max a' → call_ok a' clock k c' → client_inv max a' (<[k := c']> calls) clock.
Proof.
  intros Hinv Hk Hcs Ec Er Hsub Hp Hai Hok.
  assert (Hlt : k < length calls) by by eapply lookup_lt_Some.
  split; [done|..].
  - intros j d. destruct (decide (j = k)) as [->|Hne].
    + rewrite list_lookup_insert_eq by done. by intros [= <-].
    + rewrite list_lookup_insert_ne by done. intros Hj. eapply caller_other; [done..|by eapply ci_calls].
  - intros dr [Hd|Hd]%Hp; [|done]. destruct (ci_pending _ _ _ _ Hinv _ Hd) as (d & Hl & Hs & ? & ? & ?).
    edestruct (submitted_update calls k c c') as (d' & ? & ? & ? & ?); [done..| |exact Hl|done|].
    + intros Hs' Heq. apply Hsub; [done|]. rewrite <- Heq. apply list_elem_of_fmap.
      exists (dr_request_id dr, dr_response_completion dr). split; [done|].
      apply elem_of_app. left. apply list_elem_of_fmap. by exists dr.
    + exists d'. split_and!; congruence || done.
  - intros i w. rewrite (cs_waiting _ _ _ Hcs). intros Hw.
    destruct (ci_waiting _ _ _ _ Hinv _ _ Hw) as (d & Hl & Hs & ? & ? & Hm).
    edestruct (submitted_update calls k c c') as (d' & ? & ? & E1 & E2); [done..| |exact Hl|done|].
    + intros Hs' Heq. apply Hsub; [done|]. rewrite <- Heq. apply (waiting_outstanding _ _ _ Hw). by left.
    + exists d'. split_and!; [done|done|done|congruence|]. rewrite (cs_sent _ _ _ Hcs).
      unfold call_message in *. by rewrite E1, E2.
  - rewrite (cs_waiting _ _ _ Hcs), (cs_due _ _ _ Hcs). apply Hinv.
  - intros j. rewrite length_insert. intros Hj. rewrite (cs_store _ _ _ Hcs) by lia. by apply Hinv.
  - rewrite (cs_canceled_closed _ _ _ Hcs). apply Hinv.
  - assert (Hd : is_Some (a_store a' !! k)) by apply Hok.
    intros i [Hi|[-> ?]]%(cs_pushed _ _ _ Hcs); [|by exists k].
    destruct (ci_canceled_ids _ _ _ _ Hinv _ Hi) as (j & -> & Hdj & Hcl). exists j. split; [done|].
    destruct (decide (j = k)) as [->|Hne]; [split; [done|by apply (cs_closed _ _ _ Hcs)]|].
    pose proof (cs_store _ _ _ Hcs _ Hne) as Es. destruct (store_same_at _ _ _ Es) as (Ecl & _). by rewrite Ecl, Es.
Qed.

Lemma close_unused (st : gmap nat (oneshot (Result Resp (RpcError.t (DynAny interp))))) k l :
  unused_at st l → unused_at (store_close k st) l.
Proof.
  intros (o & Ho & Hu). destruct (decide (l = k)) as [->|Hne].
  - exists (oneshot_close o). unfold store_close. rewrite lookup_alter_eq, Ho. split; [done|].
    unfold CIF.unused in *. by rewrite law_oneshot_close.
  - exists o. unfold store_close. by rewrite lookup_alter_ne.
Qed.

Lemma close_value (st : gmap nat (oneshot (Result Resp (RpcError.t (DynAny interp))))) k l :
  CIF.value_at (store_close k st) l = CIF.value_at st l.
Proof.
  unfold CIF.value_at, store_close. destruct (decide (l = k)) as [->|Hne].
  - rewrite lookup_alter_eq. destruct (st !! k); simpl; [|done]. by rewrite law_oneshot_close.
  - by rewrite lookup_alter_ne.
Qed.

Lemma close_closed (st : gmap nat (oneshot (Result Resp (RpcError.t (DynAny interp))))) k :
  CIF.store_is_closed k (store_close k st) = true.
Proof.
  unfold CIF.store_is_closed, store_close. rewrite lookup_alter_eq. destruct (st !! k); simpl; [|done].
  by rewrite law_oneshot_is_closed, law_oneshot_close.
Qed.

Lemma caller_step_refl a k : caller_step a a k.
Proof. split; auto. Qed.

Lemma caller_step_store a k f :
  (∀ l, l ≠ k → f (a_store a) !! l = a_store a !! l) →
  (is_Some (a_store a !! k) → CIF.store_is_closed k (a_store a) = true →
     CIF.store_is_closed k (f (a_store a)) = true) → caller_step a (with_store f a) k.
Proof. intros. split; simpl; auto. Qed.

Lemma caller_step_push a a' k :
  caller_step a a' k → CIF.store_is_closed k (a_store a') = true → caller_step a (push_canceled (Z.of_nat k) a') k.
Proof.
  intros [] Hcl. split; simpl; auto.
  - intros i ?. apply elem_of_app. auto.
  - intros i [?|E%list_elem_of_singleton]%elem_of_app; auto.
Qed.

(** Closing the oneshot, after dropping its sender if need be. *)
Lemma caller_step_close a k : caller_step a (with_store (store_close k) a) k.
Proof. apply caller_step_store; [intros; by apply lookup_alter_ne|intros; apply close_closed]. Qed.

Lemma caller_step_drop_close a k :
  caller_step a (with_store (λ st, store_close k (CIF.store_drop_sender k st)) a) k.
Proof.
  apply caller_step_store; [|intros; apply close_closed].
  intros l Hl. unfold store_close. by rewrite lookup_alter_ne, CIF.store_drop_sender_ne.
Qed.

Lemma caller_step_poll a k o o' :
  a_store a !! k = Some o → ov_rx_closed (oneshot_view o') = ov_rx_closed (oneshot_view o) →
  caller_step a (with_store (<[k := o']>) a) k.
Proof.
  intros Ho Hv. apply caller_step_store; [intros; by rewrite lookup_insert_ne|].
  unfold CIF.store_is_closed. by rewrite lookup_insert_eq, Ho, !law_oneshot_is_closed, Hv.
Qed.

Lemma caller_step_poll_close a k o' :
  caller_step a (with_store (λ st, store_close k (<[k := o']> st)) a) k.
Proof.
  apply caller_step_store; [|intros; apply close_closed].
  intros l Hl. unfold store_close. by rewrite lookup_alter_ne, lookup_insert_ne.
Qed.

Lemma push_pending_outstanding a dr :
  outstanding (push_pending dr a) ≡ₚ (dr_request_id dr, dr_response_completion dr) :: outstanding a.
Proof.
  unfold outstanding, pending_owned, push_pending. simpl. rewrite map_app, <- app_assoc. simpl.
  by rewrite Permutation_middle.
Qed.

Lemma caller_step_send a k dr : caller_step a (push_pending dr a) k.
Proof.
  split; simpl; auto. intros l Hl. rewrite push_pending_outstanding. by right.
Qed.

Lemma close_dom (st : gmap nat (oneshot (Result Resp (RpcError.t (DynAny interp))))) k l :
  is_Some (store_close k st !! l) ↔ is_Some (st !! l).
Proof. apply lookup_alter_is_Some. Qed.

Lemma inv_close_awaiting max a calls clock k c :
  client_inv max a calls clock → calls !! k = Some c → c_stage c = Awaiting →
  client_inv max (with_store (store_close k) a) (<[k := set_stage Closing c]> calls) clock.
Proof.
  intros Hinv Hk Hs. destruct (ci_calls _ _ _ _ Hinv _ _ Hk) as [Hg Hst Hv _].
  eapply caller_update; [done|done| |done|done|done|by auto|..].
  - apply caller_step_close.
  - apply ainv_store; [apply Hinv|]. intros l _. apply close_unused.
  - split; simpl; [done|by apply close_dom|by intros v; rewrite close_value; apply Hv|apply close_closed].
Qed.

Lemma inv_close_sending max a calls clock k c dr :
  client_inv max a calls clock → calls !! k = Some c → c_stage c = Sending dr →
  client_inv max (with_store (λ st, store_close k (CIF.store_drop_sender k st)) a)
    (<[k := set_stage Closing c]> calls) clock.
Proof.
  intros Hinv Hk Hs. destruct (ci_calls _ _ _ _ Hinv _ _ Hk) as [Hg Hst Hv _].
  eapply caller_update; [done|done| |done|done|by rewrite Hs|by auto|..].
  - apply caller_step_drop_close.
  - apply ainv_store; [apply Hinv|]. intros l Hl Hu. apply close_unused, unused_at_alter; [|done].
    intros ->. by eapply sending_not_outstanding.
  - split; simpl; [done|by apply close_dom, lookup_alter_is_Some| |apply close_closed].
    intros v. rewrite close_value, CIF.store_drop_sender_value. apply Hv.
Qed.

Lemma inv_cancel max a calls clock k c :
  client_inv max a calls clock → calls !! k = Some c → c_stage c = Closing →
  client_inv max (push_canceled (Z.of_nat k) a) (<[k := set_stage Dropped c]> calls) clock.
Proof.
  intros Hinv Hk Hs. destruct (ci_calls _ _ _ _ Hinv _ _ Hk) as [Hg Hst Hv Hok].
  unfold stage_ok in Hok. rewrite Hs in Hok.
  eapply caller_update; [done|done| |done|done|done|by auto|..].
  - apply caller_step_push; [apply caller_step_refl|done].
  - eapply ainv_frame; [apply Hinv|done..].
  - split; simpl; auto. split; [done|]. intros _. simpl. apply elem_of_app. right. by left.
Qed.

Lemma inv_send max a calls clock k c dr :
  client_inv max a calls clock → calls !! k = Some c → c_stage c = Sending dr →
  client_inv max (push_pending dr a) (<[k := set_stage Awaiting c]> calls) clock.
Proof.
  intros Hinv Hk Hs. destruct (ci_calls _ _ _ _ Hinv _ _ Hk) as [Hg Hst Hv Hok].
  unfold stage_ok in Hok. rewrite Hs in Hok. destruct Hok as (Hdr & Hu & Hop).
  assert (Hnin : k ∉ (outstanding a).*2) by by eapply sending_not_outstanding.
  eapply caller_update; [done|done|apply caller_step_send|done|done|by rewrite Hs|..].
  - intros dr' [?|E%list_elem_of_singleton]%elem_of_app; [by left|right]. rewrite E.
    exists (set_stage Awaiting c). rewrite Hdr. simpl.
    rewrite list_lookup_insert_eq by by eapply lookup_lt_Some. done.
  - destruct (ci_ainv _ _ _ _ Hinv) as [Ho Hd Hm]. split; [|done|done].
    rewrite push_pending_outstanding, Hdr. simpl. apply owned_cons; [done| |done|done].
    intros ([i l] & Heq & Hin)%list_elem_of_fmap. pose proof (outstanding_id _ _ _ _ _ _ Hinv Hin).
    simpl in *. assert (l = k) as -> by lia. apply Hnin. by apply (list_elem_of_fmap_2 snd _ (i, k)).
  - split; simpl; auto. split; [done|left]. rewrite push_pending_outstanding, Hdr. by left.
Qed.

Lemma inv_send_failed max a calls clock k c dr :
  client_inv max a calls clock → calls !! k = Some c → c_stage c = Sending dr →
  client_inv max (push_canceled (Z.of_nat k) (with_store (λ st, store_close k (CIF.store_drop_sender k st)) a))
    (<[k := set_stage (Returned (Err RpcError.Shutdown)) c]> calls) clock.
Proof.
  intros Hinv Hk Hs. destruct (ci_calls _ _ _ _ Hinv _ _ Hk) as [Hg Hst Hv _].
  eapply caller_update; [done|done| |done|done|by rewrite Hs|by auto|..].
  - apply caller_step_push; [apply caller_step_drop_close|apply close_closed].
  - eapply ainv_frame; [apply (ainv_store _ a (λ st, store_close k (CIF.store_drop_sender k st)))|done..]; [apply Hinv|].
    intros l Hl Hu. apply close_unused, unused_at_alter; [|done]. intros ->. by eapply sending_not_outstanding.
  - split; simpl; [done|by apply close_dom, lookup_alter_is_Some| |by left].
    intros v. rewrite close_value, CIF.store_drop_sender_value. apply Hv.
Qed.

(** A poll of the oneshot that is not ready leaves it as it was. *)
Lemma inv_poll_pending max a calls clock k c o o' :
  client_inv max a calls clock → calls !! k = Some c → c_stage c = Awaiting →
  a_store a !! k = Some o → oneshot_view o' = oneshot_view o →
  client_inv max (with_store (<[k := o']>) a) (<[k := set_stage Awaiting c]> calls) clock.
Proof.
  intros Hinv Hk Hs Ho Hv. destruct (ci_calls _ _ _ _ Hinv _ _ Hk) as [Hg Hst Hval Hok].
  unfold stage_ok in Hok. rewrite Hs in Hok.
  eapply caller_update; [done|done| |done|done|done|by auto|..].
  - eapply caller_step_poll; [done|by rewrite Hv].
  - apply ainv_store; [apply Hinv|]. intros l Hl (o1 & Ho1 & Hu).
    destruct (decide (l = k)) as [->|Hne]; [|exists o1; by rewrite lookup_insert_ne].
    exists o'. simplify_eq. split; [apply lookup_insert_eq|]. unfold CIF.unused in *. by rewrite Hv.
  - split; simpl; [done|rewrite lookup_insert_eq; eauto|..].
    + intros v. unfold CIF.value_at in *. rewrite lookup_insert_eq, Ho in *. simpl in *. rewrite Hv. apply Hval.
    + unfold stage_ok, CIF.store_is_closed, CIF.value_at in *. simpl. rewrite lookup_insert_eq, Ho in *. simpl in *.
      by rewrite !law_oneshot_is_closed, Hv in *.
Qed.

(** A poll of the oneshot that is ready: the call returns what was sent, or a
    shutdown error if nothing can be sent any more. *)
Lemma inv_poll_ready max a calls clock k c o o' r :
  client_inv max a calls clock → calls !! k = Some c → c_stage c = Awaiting →
  a_store a !! k = Some o → oneshot_poll_allowed (oneshot_view o) (Ready r) (oneshot_view o') →
  client_inv max (with_store (λ st, store_close k (<[k := o']> st)) a)
    (<[k := set_stage (Returned match r with Ok v => v | Err _ => Err RpcError.Shutdown end) c]> calls) clock.
Proof.
  intros Hinv Hk Hs Ho Hpoll. destruct (ci_calls _ _ _ _ Hinv _ _ Hk) as [Hg Hst Hval Hok].
  unfold stage_ok in Hok. rewrite Hs in Hok.
  destruct Hok as [Hop _]. unfold CIF.store_is_closed in Hop. rewrite Ho, law_oneshot_is_closed in Hop.
  assert (Hnot : ¬ unused_at (a_store a) k).
  { intros (o1 & Ho1 & Htx & Hnone). simplify_eq. destruct r as [v|]; simpl in Hpoll; [naive_solver|].
    destruct Hpoll as (_ & [?|?] & _); congruence. }
  assert (Hnin : k ∉ (outstanding a).*2).
  { intros ([i l] & -> & Hin)%list_elem_of_fmap. by eapply Hnot, owned_elem; [apply Hinv|]. }
  eapply caller_update; [done|done| |done|done|done|by auto|..].
  - apply caller_step_poll_close.
  - apply ainv_store; [apply Hinv|]. intros l Hl (o1 & Ho1 & Hu). apply close_unused. exists o1.
    rewrite lookup_insert_ne; [done|]. by intros ->.
  - split; simpl; [done|apply close_dom; rewrite lookup_insert_eq; eauto|..].
    + intros v. rewrite close_value. unfold CIF.value_at in *. rewrite lookup_insert_eq, Ho in *. simpl in *.
      destruct r as [v'|]; simpl in Hpoll; [by destruct Hpoll as [_ ->]|]. destruct Hpoll as (? & _ & ->). apply Hval.
    + unfold stage_ok. simpl. destruct r as [v|]; [|by left]. right.
      change (justified a clock k c v). apply Hval. unfold CIF.value_at. rewrite Ho. by destruct Hpoll.
Qed.

(** A new call, with the next oneshot and the next id. *)
Lemma inv_start max a calls clock cx req sp :
  client_inv max a calls clock →
  let k := length calls in
  client_inv max (with_store (<[k := oneshot_channel]>) a)
    (calls ++ [MkCall (MkResponseGuard k (Z.of_nat k) true) cx req
                 (Sending (MkDispatchRequest cx sp (Z.of_nat k) req k))]) clock.
Proof.
  intros Hinv k. assert (Hfr : a_store a !! k = None) by by eapply ci_fresh.
  assert (Hcs : caller_step a (with_store (<[k := oneshot_channel]>) a) k).
  { apply caller_step_store; [intros; by rewrite lookup_insert_ne|]. rewrite Hfr. by intros []. }
  split.
  - apply ainv_store; [apply Hinv|]. intros l _ (o & Ho & Hu). exists o.
    rewrite lookup_insert_ne; [done|]. intros ->. congruence.
  - intros j c [Hj|[Hle [Hj <-]%list_lookup_singleton_Some]]%lookup_app_Some.
    + eapply caller_other; [done| |by eapply ci_calls]. apply lookup_lt_Some in Hj. unfold k. lia.
    + assert (j = k) as -> by (unfold k; lia). pose proof (lookup_insert_eq (a_store a) k oneshot_channel) as Hl.
      assert (CIF.unused (Res:=Result Resp (RpcError.t (DynAny interp))) oneshot_channel) as Hun
        by (unfold CIF.unused; by rewrite law_oneshot_channel).
      split; simpl; [done|by rewrite Hl| |].
      * intros v. unfold CIF.value_at. rewrite Hl. simpl. by rewrite law_oneshot_channel.
      * split_and!; [done|by exists oneshot_channel|]. unfold CIF.store_is_closed. simpl. rewrite Hl.
        by rewrite law_oneshot_is_closed, law_oneshot_channel.
  - intros dr Hd. destruct (ci_pending _ _ _ _ Hinv _ Hd) as (c & Hc & ?). exists c.
    by rewrite lookup_app_l by by eapply lookup_lt_Some.
  - intros i w Hw. destruct (ci_waiting _ _ _ _ Hinv _ _ Hw) as (c & Hc & ?). exists c.
    by rewrite lookup_app_l by by eapply lookup_lt_Some.
  - apply Hinv.
  - intros j. rewrite length_app. simpl. intros Hj. rewrite lookup_insert_ne by (unfold k; lia). apply Hinv. lia.
  - apply Hinv.
  - intros i Hi. destruct (ci_canceled_ids _ _ _ _ Hinv _ Hi) as (j & -> & Hd & Hcl). exists j. split; [done|].
    assert (j ≠ k) as Hne by (intros ->; rewrite Hfr in Hd; by destruct Hd).
    pose proof (cs_store _ _ _ Hcs _ Hne) as Es. destruct (store_same_at _ _ _ Es) as (Ecl & _). by rewrite Ecl, Es.
Qed.

(** Handles come and go. *)
Lemma inv_senders max a calls clock v1 v2 :
  client_inv max a calls clock →
  mv_queue v1 = mv_queue (a_pending a) → mv_queue v2 = mv_queue (a_canceled a) →
  mv_closed v2 = mv_closed (a_canceled a) →
  client_inv max (MkAState v1 v2 (a_waiting a) (a_due a) (a_store a) (a_sent a) (a_received a) (a_ended a) (a_error a))
    calls clock.
Proof.
  intros [[Ho Hd Hm] Hc Hp Hw Hdue Hf Hcl Hids] E1 E2 E3. set (a' := MkAState _ _ _ _ _ _ _ _ _).
  assert (Eo : outstanding a' = outstanding a) by (unfold outstanding, pending_owned; simpl; by rewrite E1).
  split; auto; simpl; rewrite ?E1, ?E2, ?E3; auto.
  - split; auto. by rewrite Eo.
  - intros k c Hk. destruct (Hc _ _ Hk) as [? ? ? Hs]. split; auto. unfold stage_ok in *. rewrite Eo. simpl.
    by rewrite E2.
Qed.

(** ** The wire protocol *)

Definition request_id_of (m : ClientMessage Req) : option Z :=
  match m with ClientRequest r => Some (Wire.id r) | ClientCancel _ _ => None end.
Definition cancel_id_of (m : ClientMessage Req) : option Z :=
  match m with ClientRequest _ => None | ClientCancel _ i => Some i end.

(** What a client may write: each request once, and a cancellation only after its
    request, once, and with the request's trace context. *)
Record wire_ok (ms : list (ClientMessage Req)) : Prop := {
  wire_requests : NoDup (omap request_id_of ms);
  wire_cancels : NoDup (omap cancel_id_of ms);
  wire_order n tc i : ms !! n = Some (ClientCancel tc i) →
    ∃ m r, m < n ∧ ms !! m = Some (ClientRequest r) ∧ Wire.id r = i ∧ trace_context (context r) = tc;
}.

Record wire_inv a calls : Prop := {
  wi_wire : wire_ok (a_sent a);
  wi_pending dr : dr ∈ mv_queue (a_pending a) → dr_request_id dr ∉ omap request_id_of (a_sent a);
  wi_sending k c dr : calls !! k = Some c → c_stage c = Sending dr → Z.of_nat k ∉ omap request_id_of (a_sent a);
  wi_waiting i w : a_waiting a !! i = Some w → i ∉ omap cancel_id_of (a_sent a);
  wi_bound i : i ∈ omap request_id_of (a_sent a) → (i < Z.of_nat (length calls))%Z;
}.

Lemma wire_cancel_request ms i : wire_ok ms → i ∈ omap cancel_id_of ms → i ∈ omap request_id_of ms.
Proof.
  intros [_ _ Hord] ([r|tc j] & [n Hn]%list_elem_of_lookup & [= ->])%list_elem_of_omap.
  destruct (Hord _ _ _ Hn) as (m & r & _ & Hm & <- & _).
  apply list_elem_of_omap. exists (ClientRequest r). split; [by eapply list_elem_of_lookup_2|done].
Qed.

Lemma wire_send_request ms r :
  wire_ok ms → Wire.id r ∉ omap request_id_of ms → wire_ok (ms ++ [ClientRequest r]).
Proof.
  intros [Hr Hc Hord] Hn. split.
  - rewrite omap_app. simpl. apply NoDup_app. split_and!; [done| |apply NoDup_singleton].
    intros i Hi E%list_elem_of_singleton. by subst.
  - by rewrite omap_app, app_nil_r.
  - intros n tc i [Hi|[? [_ ?]%list_lookup_singleton_Some]]%lookup_app_Some; [|done].
    destruct (Hord _ _ _ Hi) as (m & r' & ? & Hm & ? & ?). exists m, r'.
    split_and!; try done. by apply lookup_app_l_Some.
Qed.

Lemma wire_send_cancel ms r :
  wire_ok ms → ClientRequest r ∈ ms → Wire.id r ∉ omap cancel_id_of ms →
  wire_ok (ms ++ [ClientCancel (trace_context (context r)) (Wire.id r)]).
Proof.
  intros [Hr Hc Hord] [m0 Hm0]%list_elem_of_lookup Hn. split.
  - by rewrite omap_app, app_nil_r.
  - rewrite omap_app. simpl. apply NoDup_app. split_and!; [done| |apply NoDup_singleton].
    intros i Hi E%list_elem_of_singleton. by subst.
  - intros n tc i [Hi|[Hle [Hz [= <- <-]]%list_lookup_singleton_Some]]%lookup_app_Some.
    + destruct (Hord _ _ _ Hi) as (m & r' & ? & Hm & ? & ?). exists m, r'.
      split_and!; try done. by apply lookup_app_l_Some.
    + exists m0, r. split_and!; [apply lookup_lt_Some in Hm0; lia|by apply lookup_app_l_Some|done|done].
Qed.

(** Nothing is written. *)
Lemma wire_frame a a' calls :
  wire_inv a calls → a_sent a' = a_sent a →
  (∀ dr, dr ∈ mv_queue (a_pending a') → dr ∈ mv_queue (a_pending a)) →
  (∀ i w, a_waiting a' !! i = Some w → a_waiting a !! i = Some w) → wire_inv a' calls.
Proof. intros [? ? ? ? ?] Es Hp Hw. split; rewrite ?Es; eauto. Qed.

Lemma dstep_wire_inv max now a a' calls clock :
  client_inv max a calls clock → wire_inv a calls → dstep max now a a' → wire_inv a' calls.
Proof.
  intros Hinv Hwi Hs. pose proof (dstep_effect _ _ _ _ Hs) as Hef.
  destruct Hs as [dr q He Hq Hcl|dr q He Hq Hcl Hmax Hi|dr q e He Hq Hcl|i q He Hq Hi|i q w He Hq Hi|
    i q w He Hq Hi|i w due He Hi Hdue Hle|r w He Hi|r He Hi|He|e He|e ws He Hws|e dr q He Hcl Hw Hq].
  2: { (* a request is written *)
    assert (Hdr : dr ∈ mv_queue (a_pending a)) by (rewrite Hq; by left).
    pose proof (wi_pending _ _ Hwi _ Hdr) as Hnew.
    destruct (ci_pending _ _ _ _ Hinv _ Hdr) as (c & Hc & Hsub & Hid & _).
    pose proof (ainv_owned _ _ (ci_ainv _ _ _ _ Hinv)) as Ho. rewrite (outstanding_pop _ _ _ Hq) in Ho.
    split; simpl; rewrite ?omap_app; simpl.
    - apply wire_send_request; [apply Hwi|done].
    - intros dr' Hd' [Hin|E%list_elem_of_singleton]%elem_of_app.
      + eapply wi_pending; [done| |done]. rewrite Hq. by right.
      + destruct (owned_head_ne _ _ (dr_request_id dr') (dr_response_completion dr') _ _ Ho) as [? _]; [|done].
        apply elem_of_app. left. apply list_elem_of_fmap. by exists dr'.
    - intros k c' dr' Hk Hs [Hin|E%list_elem_of_singleton]%elem_of_app; [by eapply wi_sending|].
      assert (dr_response_completion dr = k) by lia. simplify_eq. by rewrite Hs in Hsub.
    - intros j w. rewrite app_nil_r. intros [[<- <-]|[_ Hj]]%lookup_insert_Some; [|by eapply wi_waiting].
      intros Hin%wire_cancel_request; [done|apply Hwi].
    - intros j [Hin|E%list_elem_of_singleton]%elem_of_app; [by eapply wi_bound|]. rewrite E.
      rewrite Hid. apply lookup_lt_Some in Hc. lia. }
  4: { (* a cancellation is written *)
    destruct (ci_waiting _ _ _ _ Hinv _ _ Hi) as (c & Hc & Hsub & -> & -> & Hm).
    pose proof (wi_waiting _ _ Hwi _ _ Hi) as Hnew.
    split; simpl; rewrite ?omap_app, ?app_nil_r; simpl; [|apply Hwi|apply Hwi| |apply Hwi].
    - apply (wire_send_cancel _ _ (wi_wire _ _ Hwi) Hm Hnew).
    - intros j w' [Hne Hj]%lookup_delete_Some [Hin|E%list_elem_of_singleton]%elem_of_app; [by eapply wi_waiting|done]. }
  all: eapply wire_frame; [exact Hwi|done|apply Hef|].
  all: intros j w' Hw'; destruct (ef_waiting _ _ _ Hef _ _ Hw') as [?|?]; [done|]; simpl in Hw'.
  all: rewrite ?lookup_delete_Some in Hw'; try tauto; done.
Qed.

Lemma caller_wire_inv a a' calls k c c' :
  wire_inv a calls → calls !! k = Some c → caller_step a a' k →
  (∀ dr, dr ∈ mv_queue (a_pending a') → dr ∈ mv_queue (a_pending a) ∨ c_stage c = Sending dr ∧ dr_request_id dr = Z.of_nat k) →
  (∀ dr, c_stage c' = Sending dr → c_stage c = Sending dr) → wire_inv a' (<[k := c']> calls).
Proof.
  intros [H1 H2 H3 H4 H5] Hk Hcs Hp Hst. split; rewrite ?(cs_sent _ _ _ Hcs), ?(cs_waiting _ _ _ Hcs); auto.
  - intros dr [?|[Hs ->]]%Hp; [auto|by eapply H3].
  - intros j d dr. destruct (decide (j = k)) as [->|Hne].
    + rewrite list_lookup_insert_eq by by eapply lookup_lt_Some. intros [= <-] Hs%Hst. by eapply H3.
    + rewrite list_lookup_insert_ne by done. apply H3.
  - rewrite length_insert. auto.
Qed.
End invariant.

(** ** The system *)

Section system.
Context `{!DelayQueue, !DelayQueueLaws, !Oneshot, !OneshotLaws, !Mpsc, !MpscLaws, !Otel}.
Context {TypeId : Type} `{!EqDecision TypeId} {interp : TypeId → Type} {errty : TypeId}.
Context {Span Req Resp : Type}.
Context {T : Transport (ClientMessage Req) (Response Resp) (interp errty)} `{!TransportLog T}.
Context {Rng : Type} (gen_u64 : Rng → Z * Rng).

(** The peer may do anything to the transport but change its logs. *)
Context (peer : transport T → transport T → Prop).
Context (Hpeer : ∀ t t', peer t t' → sent t' = sent t ∧ received t' = received t ∧ ended t' = ended t).
Implicit Types (s : System Span T) (w : World Span T).

(** [client_inv] and [wire_inv] of a world and its calls. *)
Definition good w (calls : list (Call interp Span Req Resp)) (clock : Z) : Prop :=
  client_inv (max_of w) (abs w) calls clock ∧ wire_inv (abs w) calls.

Record sys_inv s : Prop := {
  si_timers : timers (s_world s);
  si_error : error_ok (s_world s);
  si_good : good (s_world s) (s_calls s) (s_clock s);
  si_next : s_next_request_id s = (Z.of_nat (length (s_calls s)) mod u64_modulus)%Z;
}.

Lemma sys_inv_dinv s : sys_inv s → dinv (s_world s).
Proof. intros [? ? [? _] _]. split; [done| |done]. by eapply ci_ainv. Qed.

(** What callers do leaves the dispatch's own state alone. *)
Definition same_dispatch w w' : Prop :=
  in_flight_requests (dispatch w') = in_flight_requests (dispatch w) ∧
  config (dispatch w') = config (dispatch w) ∧
  terminal_error (dispatch w') = terminal_error (dispatch w) ∧
  rd_transport (dispatch w') = rd_transport (dispatch w).

Lemma guard_cancel_abs g w :
  g_cancel g = true → mv_closed (a_canceled (abs w)) = false →
  abs (guard_cancel g w) = push_canceled (g_request_id g) (abs w).
Proof.
  intros Hg Hc. unfold guard_cancel, abs, push_canceled, pop_canceled. rewrite Hg. simpl in *.
  by rewrite Cancellations.cancel_view, Hc.
Qed.

(** Outcome of running [f] on the [k]-th call. *)
Definition caller_ok (f : Call interp Span Req Resp → World Span T → Call interp Span Req Resp * World Span T) : Prop :=
  ∀ w calls clock k c, good w calls clock → calls !! k = Some c →
    same_dispatch w (f c w).2 ∧ good (f c w).2 (<[k := (f c w).1]> calls) clock.

Lemma good_update w w' calls clock k c c' :
  good w calls clock → calls !! k = Some c → same_dispatch w w' →
  client_inv (max_of w) (abs w') (<[k := c']> calls) clock → caller_step (abs w) (abs w') k →
  (∀ dr, dr ∈ mv_queue (a_pending (abs w')) → dr ∈ mv_queue (a_pending (abs w)) ∨
     c_stage c = Sending dr ∧ dr_request_id dr = Z.of_nat k) →
  (∀ dr, c_stage c' = Sending dr → c_stage c = Sending dr) →
  same_dispatch w w' ∧ good w' (<[k := c']> calls) clock.
Proof.
  intros [Hc Hw] Hk Hsd Hinv Hcs Hp Hst. split; [done|]. split.
  - unfold max_of in *. destruct Hsd as (_ & -> & _). done.
  - by eapply caller_wire_inv.
Qed.

Lemma call_guard w calls clock k c :
  good w calls clock → calls !! k = Some c → c_guard c = MkResponseGuard k (Z.of_nat k) true.
Proof. intros [Hc _] Hk. by eapply co_guard, ci_calls. Qed.

Lemma sending_dr w calls clock k c dr :
  good w calls clock → calls !! k = Some c → c_stage c = Sending dr →
  dr_request_id dr = Z.of_nat k ∧ dr_response_completion dr = k.
Proof.
  intros [Hc _] Hk Hs. pose proof (co_stage _ _ _ _ (ci_calls _ _ _ _ Hc _ _ Hk)) as Hok.
  unfold stage_ok in Hok. rewrite Hs in Hok. by destruct Hok as (-> & _).
Qed.

Lemma drop_call_close_ok : caller_ok drop_call_close.
Proof.
  intros w calls clock k c Hg Hk. pose proof (call_guard _ _ _ _ _ Hg Hk) as Hgu.
  pose proof Hg as [Hc Hw]. unfold drop_call_close. destruct (c_stage c) eqn:Hs; simpl.
  - destruct (sending_dr _ _ _ _ _ _ Hg Hk Hs) as [_ El]. unfold guard_close. rewrite Hgu, El. simpl.
    eapply good_update; [done|done|done| | |by auto|done].
    + exact (inv_close_sending _ (abs w) _ _ _ _ _ Hc Hk Hs).
    + exact (caller_step_drop_close (abs w) k).
  - unfold guard_close. rewrite Hgu. simpl. eapply good_update; [done|done|done| | |by auto|done].
    + exact (inv_close_awaiting _ (abs w) _ _ _ _ Hc Hk Hs).
    + exact (caller_step_close (abs w) k).
  - by rewrite list_insert_id.
  - by rewrite list_insert_id.
  - by rewrite list_insert_id.
Qed.

Lemma drop_call_cancel_ok : caller_ok drop_call_cancel.
Proof.
  intros w calls clock k c Hg Hk. pose proof (call_guard _ _ _ _ _ Hg Hk) as Hgu.
  pose proof Hg as [Hc Hw]. unfold drop_call_cancel. destruct (c_stage c) eqn:Hs; simpl; try by rewrite list_insert_id.
  assert (Habs : abs (guard_cancel (c_guard c) w) = push_canceled (Z.of_nat k) (abs w)).
  { rewrite guard_cancel_abs; [by rewrite Hgu|by rewrite Hgu|apply Hc]. }
  eapply good_update; [done|done|by unfold guard_cancel; rewrite Hgu| | | |done]; rewrite Habs.
  - by apply inv_cancel.
  - apply caller_step_push; [apply caller_step_refl|].
    pose proof (co_stage _ _ _ _ (ci_calls _ _ _ _ Hc _ _ Hk)) as Hok. unfold stage_ok in Hok. by rewrite Hs in Hok.
  - by auto.
Qed.

Lemma await_response_ok w calls clock k c :
  good w calls clock → calls !! k = Some c → c_stage c = Awaiting →
  same_dispatch w (await_response c w).2 ∧
  good (await_response c w).2 (<[k := (await_response c w).1]> calls) clock.
Proof.
  intros Hg Hk Hs. pose proof (call_guard _ _ _ _ _ Hg Hk) as Hgu. pose proof Hg as [Hc Hw].
  destruct (co_store _ _ _ _ (ci_calls _ _ _ _ Hc _ _ Hk)) as [o Ho]. simpl in Ho.
  unfold await_response, guard_response, store_poll. rewrite Hgu. simpl. rewrite Ho.
  destruct (oneshot_poll o) as [[r|] o'] eqn:Hp; apply law_oneshot_poll in Hp; simpl.
  - eapply good_update; [done|done|done| | |by auto|done].
    + exact (inv_poll_ready _ (abs w) _ _ _ _ o o' _ Hc Hk Hs Ho Hp).
    + exact (caller_step_poll_close (abs w) k o').
  - eapply good_update; [done|done|done| | |by auto|done].
    + exact (inv_poll_pending _ (abs w) _ _ _ _ o o' Hc Hk Hs Ho Hp).
    + apply (caller_step_poll (abs w) k o o' Ho). simpl in Hp. by rewrite Hp.
Qed.

Lemma poll_call_ok : caller_ok poll_call.
Proof.
  intros w calls clock k c Hg Hk. pose proof (call_guard _ _ _ _ _ Hg Hk) as Hgu.
  pose proof Hg as [Hc Hw]. unfold poll_call. destruct (c_stage c) as [dr| | | |] eqn:Hs;
    [|by apply await_response_ok|by simpl; rewrite list_insert_id..].
  destruct (sending_dr _ _ _ _ _ _ Hg Hk Hs) as [Ei El].
  destruct (mpsc_poll_send _ _) as [r p] eqn:Hp. apply law_poll_send in Hp.
  destruct r as [[[]|dr']|]; simpl in Hp.
  - assert (Habs : abs (set_pending p w) = push_pending dr (abs w)) by by apply pop_abs.
    assert (Hg1 : same_dispatch w (set_pending p w) ∧ good (set_pending p w) (<[k := set_stage Awaiting c]> calls) clock).
    { eapply good_update; [done|done|done| | | |done]; rewrite Habs.
      - exact (inv_send _ _ _ _ _ _ _ Hc Hk Hs).
      - apply caller_step_send.
      - intros dr' [?|E%list_elem_of_singleton]%elem_of_app; [by left|right]. by subst. }
    destruct Hg1 as [_ Hg1].
    edestruct (await_response_ok _ _ clock k (set_stage Awaiting c) Hg1) as [Hsd Hg2]; [|done|].
    { apply list_lookup_insert_eq. by eapply lookup_lt_Some. }
    rewrite list_insert_insert_eq in Hg2. by split.
  - destruct Hp as (-> & _ & Hp). simpl. rewrite El. set (w1 := set_oneshots _ _).
    assert (Habs1 : abs w1 = with_store (CIF.store_drop_sender k) (abs w)).
    { unfold w1, abs, with_store. simpl. by rewrite Hp. }
    assert (Habs : abs (guard_drop (c_guard c) w1) =
      push_canceled (Z.of_nat k) (with_store (λ st, store_close k (CIF.store_drop_sender k st)) (abs w))).
    { unfold guard_drop. rewrite guard_cancel_abs; [|by rewrite Hgu|apply Hc].
      rewrite Hgu. simpl. unfold guard_close. simpl. unfold abs at 1. simpl.
      unfold push_canceled, pop_canceled, with_store. simpl. by rewrite Hp. }
    eapply good_update; [done|done|by unfold guard_drop, guard_cancel; rewrite Hgu| | | |done]; rewrite Habs.
    + exact (inv_send_failed _ _ _ _ _ _ _ Hc Hk Hs).
    + apply caller_step_push; [apply caller_step_drop_close|apply close_closed].
    + by auto.
  - simpl. rewrite list_insert_id by done. split; [done|].
    unfold good, max_of. simpl. by rewrite set_pending_abs.
Qed.

Lemma sys_caller f k s : caller_ok f → sys_inv s → sys_inv (on_call f k s).
Proof.
  intros Hf [Ht He Hg Hn]. unfold on_call. destruct (s_calls s !! k) as [c|] eqn:Hk; [|done].
  destruct (Hf _ _ _ _ _ Hg Hk) as [(Ei & Ec & Ee & Et) Hg']. destruct (f c (s_world s)) as [c' w']. simpl in *.
  split; simpl; [unfold timers; by rewrite Ei|unfold error_ok; by rewrite Ee|done|by rewrite length_insert].
Qed.

Lemma sys_start active cx sp req rng s :
  (Z.of_nat (length (s_calls s)) < u64_modulus)%Z → sys_inv s →
  sys_inv (call_start gen_u64 active cx sp req rng s).1.
Proof.
  intros Hlt [Ht He [Hc Hw] Hn]. unfold call_start. destruct (call_context _ _ _ _) as [cx' rng']. simpl.
  rewrite Z.mod_small in Hn by lia. rewrite Hn. split; simpl; [done|done| |].
  - split; [exact (inv_start _ (abs (s_world s)) _ _ cx' req sp Hc)|]. destruct Hw as [H1' H2' H3' H4' H5'].
    split; simpl; auto.
    + intros k c dr [Hk|[Hle [Hz <-]%list_lookup_singleton_Some]]%lookup_app_Some; [by apply H3'|].
      intros _ Hin%H5'. lia.
    + intros i Hi%H5'. rewrite length_app. simpl. lia.
  - rewrite length_app, Nat2Z.inj_add. done.
Qed.

Lemma sys_senders p c s :
  mv_queue (mpsc_view p) = mv_queue (mpsc_view (pending_requests (dispatch (s_world s)))) →
  mv_queue (mpsc_view c) = mv_queue (mpsc_view (canceled_requests (dispatch (s_world s)))) →
  mv_closed (mpsc_view c) = mv_closed (mpsc_view (canceled_requests (dispatch (s_world s)))) →
  ∀ n, sys_inv s →
  sys_inv (MkSystem (set_canceled c (set_pending p (s_world s))) (s_next_request_id s) n (s_calls s) (s_clock s)).
Proof.
  intros E1 E2 E3 n [Ht He [Hc Hw] Hn]. split; simpl; [done|done| |done]. split.
  - exact (inv_senders _ (abs (s_world s)) _ _ (mpsc_view p) (mpsc_view c) Hc E1 E2 E3).
  - destruct Hw as [H1' H2' H3' H4' H5']. split; simpl in *; auto. by rewrite E1.
Qed.

Lemma step_length bound s s' : step gen_u64 peer bound s s' → length (s_calls s) ≤ length (s_calls s').
Proof.
  destruct 1; simpl; try done.
  - unfold call_start. destruct (call_context _ _ _ _). simpl. rewrite length_app. lia.
  - unfold on_call. destruct (s_calls s !! k); [|done]. destruct (poll_call _ _). simpl. by rewrite length_insert.
  - unfold on_call. destruct (s_calls s !! k); [|done]. destruct (drop_call_close _ _). simpl. by rewrite length_insert.
  - unfold on_call. destruct (s_calls s !! k); [|done]. destruct (drop_call_cancel _ _). simpl. by rewrite length_insert.
  - unfold drop_channel. by destruct (s_handles s).
Qed.

Lemma dsteps_wire max now a a' (calls : list (Call interp Span Req Resp)) clock :
  client_inv max a calls clock → (clock ≤ now)%Z → wire_inv a calls → dsteps max now a a' → wire_inv a' calls.
Proof.
  intros Hinv Hle Hw Hs. revert clock Hle Hinv Hw. induction Hs as [|a1 a2 a3 Hd _ IH]; [done|].
  intros clock Hle Hinv Hw. apply (IH now); [lia|by eapply dstep_client_inv|by eapply dstep_wire_inv].
Qed.

(** Each step keeps the invariant, as long as ids do not wrap around. *)
Lemma step_inv bound s s' :
  step gen_u64 peer bound s s' → (Z.of_nat (length (s_calls s')) ≤ u64_modulus)%Z → sys_inv s → sys_inv s'.
Proof.
  intros Hst Hlen Hs. destruct Hst as [now r w' Hle Hp|t' Ht'|active cx sp req rng|k|k|k| |].
  - pose proof Hs as [Ht He [Hc Hw] Hn].
    pose proof (wp_done _ _ _ _ _ (wp_poll bound now _ (sys_inv_dinv _ Hs)) Hp) as (Hd & Hcfg & Hds & _).
    split; simpl; [apply Hd|apply Hd| |done]. unfold good, max_of. rewrite Hcfg. split.
    + by eapply dsteps_client_inv.
    + by eapply dsteps_wire.
  - destruct (Hpeer _ _ Ht') as (E1 & E2 & E3). destruct Hs as [Ht He Hg Hn].
    split; simpl; [done|done| |done]. unfold good in *. by rewrite (quiet_abs (s_world s)) by by exists t'.
  - apply sys_start; [|done]. unfold call_start in Hlen. destruct (call_context _ _ _ _). simpl in Hlen.
    rewrite length_app in Hlen. simpl in Hlen. lia.
  - apply sys_caller; [apply poll_call_ok|done].
  - apply sys_caller; [apply drop_call_close_ok|done].
  - apply sys_caller; [apply drop_call_cancel_ok|done].
  - apply sys_senders; [by rewrite law_clone_sender..|done].
  - unfold drop_channel. destruct (s_handles s); [done|]. apply sys_senders; [by rewrite law_drop_sender..|done].
Qed.

Definition config_wf (cfg : Config) : Prop :=
  (0 ≤ max_in_flight_requests cfg)%Z ∧ (0 ≤ pending_request_buffer cfg)%Z.

Lemma new_inv cfg t now s :
  config_wf cfg → sent t = [] → new_system cfg t now = Done s → sys_inv s.
Proof.
  intros [Hm Hb] Hsent Hnew. unfold new_system, new in Hnew.
  destruct (decide (0 < pending_request_buffer cfg)%Z) as [Hpos|Hz]; cycle 1.
  { replace (pending_request_buffer cfg) with 0%Z in Hnew by lia. by rewrite law_channel_zero in Hnew. }
  destruct (law_channel (DispatchRequest (Span:=Span) (Req:=Req)) _ Hpos) as (p & Hp & Hv).
  rewrite Hp in Hnew. simpl in Hnew. injection Hnew as <-.
  split; simpl; [apply timers_ok_new|done| |done]. split.
  - split; simpl; try done.
    + split; simpl; [|done|by rewrite fmap_empty, map_size_empty].
      unfold outstanding, pending_owned, waiting_owned. simpl. rewrite Hv, fmap_empty, map_to_list_empty. apply owned_nil.
    + rewrite Hv. intros dr Hd. by apply elem_of_nil in Hd.
    + by rewrite Cancellations.cancellations_view.
    + rewrite Cancellations.cancellations_view. intros i Hi. by apply elem_of_nil in Hi.
  - split; simpl; rewrite ?Hsent, ?Hv; try done; [by split; try constructor|..]; intros ? Hin; by apply elem_of_nil in Hin.
Qed.

Lemma reachable_inv bound cfg t now s :
  config_wf cfg → sent t = [] → reachable gen_u64 peer bound cfg t now s →
  (Z.of_nat (length (s_calls s)) ≤ u64_modulus)%Z → sys_inv s.
Proof.
  intros Hcfg Hsent (s0 & Hnew & Hsteps).
  revert s Hsteps. apply (rtc_ind_r (λ s, (Z.of_nat (length (s_calls s)) ≤ u64_modulus)%Z → sys_inv s)).
  { intros _. by eapply new_inv. }
  intros s1 s2 _ Hstep IH Hlen. eapply step_inv; [done|done|]. apply IH. pose proof (step_length _ _ _ Hstep). lia.
Qed.
End system.
End Safety.
