(* ===== verification/ClientProps.v ===== *)
(** * The client: theorems

    Stated for every state a client can reach from [new], with any transport, any
    order of calls, polls, drops and actions of the peer, as long as fewer than
    2{^64} calls are made (request ids are a 64-bit counter). *)
From S2P Require Import Prelude Interfaces RefModels Trace Wire TimerTable Transport Cancellations ClientInFlight ClientDispatch ClientSpec ClientRefine ClientFrame ClientCalls ClientSafety.

Module ClientProps.
Export Safety.

Section properties.
Context `{!DelayQueue, !DelayQueueLaws, !Oneshot, !OneshotLaws, !Mpsc, !MpscLaws, !Otel}.
Context {TypeId : Type} `{!EqDecision TypeId} {interp : TypeId → Type} {errty : TypeId}.
Context {Span Req Resp : Type}.
Context {T : Transport (ClientMessage Req) (Response Resp) (interp errty)} `{!TransportLog T}.
Context {Rng : Type} (gen_u64 : Rng → Z * Rng).
Context (peer : transport T → transport T → Prop).
Context (Hpeer : ∀ t t', peer t t' → sent t' = sent t ∧ received t' = received t ∧ ended t' = ended t).
Implicit Types (s : System Span T) (w : World Span T).

(** A reachable state of a client whose ids have not wrapped around. *)
Definition client_reaches (bound : nat) (cfg : Config) (t : transport T) (now : Z) s : Prop :=
  config_wf cfg ∧ sent t = [] ∧ reachable gen_u64 peer bound cfg t now s ∧
  (Z.of_nat (length (s_calls s)) ≤ u64_modulus)%Z.

Lemma reaches_inv bound cfg t now s : client_reaches bound cfg t now s → sys_inv s.
Proof. intros (? & ? & ? & ?). by eapply (reachable_inv gen_u64 peer Hpeer). Qed.

Lemma poll_done bound cfg t0 t s r w' :
  client_reaches bound cfg t0 t s → ∀ now, (s_clock s ≤ now)%Z → poll bound now (s_world s) = Done (r, w') →
  poll_post now (s_world s) r w' ∧ good w' (s_calls s) now.
Proof.
  intros Hr now Hle Hp. pose proof (reaches_inv _ _ _ _ _ Hr) as Hs.
  split; [by eapply wp_done; [apply wp_poll, sys_inv_dinv|]|].
  assert (Hs' : sys_inv (MkSystem w' (s_next_request_id s) (s_handles s) (s_calls s) now)).
  { eapply (step_inv gen_u64 peer Hpeer bound s); [by eapply step_dispatch|apply Hr|done]. }
  apply Hs'.
Qed.

(** C3: a client call never gets somebody else's answer.  A call that returns a value
    or a server error returns exactly what the server sent for this call's own
    request id, and only after its own request (with its own context and payload)
    was written; it returns [DeadlineExceeded] only once its deadline has passed; and
    [Channel] errors carry the error the transport failed with. *)
Theorem call_results_justified bound cfg t now s k c r :
  client_reaches bound cfg t now s → s_calls s !! k = Some c → c_stage c = Returned r →
  let tr := rd_transport (dispatch (s_world s)) in
  match r with
  | Ok x => MkResponse (Z.of_nat k) (Ok x) ∈ received tr ∧ call_message k c ∈ sent tr
  | Err (RpcError.Server e) => MkResponse (Z.of_nat k) (Err e) ∈ received tr ∧ call_message k c ∈ sent tr
  | Err RpcError.DeadlineExceeded => (deadline (c_ctx c) ≤ s_clock s)%Z ∧ call_message k c ∈ sent tr
  | Err (RpcError.Channel e) => terminal_error (dispatch (s_world s)) = Some e
  | Err (RpcError.Send _) | Err RpcError.Shutdown => True
  end.
Proof.
  intros Hr Hk Hst. pose proof (reaches_inv _ _ _ _ _ Hr) as [_ _ [Hc _] _].
  pose proof (co_stage _ _ _ _ (ci_calls _ _ _ _ Hc _ _ Hk)) as Hok. unfold stage_ok in Hok. rewrite Hst in Hok.
  destruct Hok as [->|Hj]; [done|]. by destruct r as [x|[| | | |]].
Qed.

(** C9: what a client writes obeys the protocol: no request id is written twice, and
    a cancellation is written at most once, after its request, with that request's
    trace context. *)
Theorem client_wire_protocol bound cfg t now s :
  client_reaches bound cfg t now s → wire_ok (sent (rd_transport (dispatch (s_world s)))).
Proof. intros Hr. pose proof (reaches_inv _ _ _ _ _ Hr) as [_ _ [_ Hw] _]. apply Hw. Qed.

(** C12: a request whose caller has gone is never left in flight unnoticed: its id is
    waiting in the cancellation queue, or its caller is still between closing its
    receiver and sending the cancellation.  (This is what [Drop for ResponseGuard]
    closes the receiver first for.) *)
Theorem abandoned_request_is_canceled bound cfg t now s i rd :
  client_reaches bound cfg t now s →
  CIF.request_data (in_flight_requests (dispatch (s_world s))) !! i = Some rd →
  CIF.store_is_closed (CIF.response_completion rd) (oneshots (s_world s)) = true →
  i ∈ mv_queue (mpsc_view (canceled_requests (dispatch (s_world s)))) ∨
  ∃ k c, s_calls s !! k = Some c ∧ i = Z.of_nat k ∧ c_stage c = Closing.
Proof.
  intros Hr Hi Hcl. pose proof (reaches_inv _ _ _ _ _ Hr) as [_ _ [Hc _] _].
  apply abs_waiting in Hi. destruct (ci_waiting _ _ _ _ Hc _ _ Hi) as (c & Hk & Hsub & -> & _). simpl in *.
  pose proof (co_stage _ _ _ _ (ci_calls _ _ _ _ Hc _ _ Hk)) as Hok. unfold stage_ok in Hok. simpl in *.
  rewrite Hcl in Hok. destruct (c_stage c) eqn:Hs; try done.
  - by destruct Hok.
  - right. by exists (CIF.response_completion rd), c.
  - left. apply Hok. eauto.
Qed.

(** C19: the dispatch does not panic (in particular, ids handed to it are unique and a
    stored error can always be given back its type), unless a queued request has a
    deadline beyond the range of tokio's timer; and it never has more requests in flight
    than its configuration allows. *)
Theorem dispatch_never_panics bound cfg t t0 s now :
  client_reaches bound cfg t t0 s → (s_clock s ≤ now)%Z →
  (∀ p, poll bound now (s_world s) = Panicked p → p = FarDeadline ∧ ¬ ClientFrame.near now (s_world s)) ∧
  (∀ r w', poll bound now (s_world s) = Done (r, w') →
     (Z.of_nat (CIF.len (in_flight_requests (dispatch w'))) ≤
        max_in_flight_requests (config (dispatch (s_world s))))%Z).
Proof.
  intros Hr Hle. split.
  - intros p Hp. pose proof (wp_poll bound now _ (sys_inv_dinv _ (reaches_inv _ _ _ _ _ Hr))) as Hw. unfold wp in Hw.
    rewrite Hp in Hw. destruct p; [done|]. split; [done|]. by intros ?%(ClientFrame.near_poll now bound).
  - intros r w' Hp. destruct (poll_done _ _ _ _ _ _ _ Hr _ Hle Hp) as [(_ & Hcfg & _) [Hc _]].
    pose proof (ainv_max _ _ (ci_ainv _ _ _ _ Hc)) as Hm. simpl in Hm. rewrite map_size_fmap in Hm.
    unfold max_of in Hm. by rewrite Hcfg in Hm.
Qed.

(** C13: when the dispatch finishes with an error, because the transport failed, or
    successfully while the server has not closed its half (every handle is gone and
    nothing is in flight), every call that waits for a response has been given one; and
    after a failure no further request is accepted.  Not covered: the dispatch also
    finishes successfully when the server closes its half, and then calls in flight are
    left without a response (their completions are dropped with it). *)
Theorem finished_dispatch_answers_every_call bound cfg t t0 s now r w' :
  client_reaches bound cfg t t0 s → (s_clock s ≤ now)%Z →
  poll bound now (s_world s) = Done (Ready r, w') →
  is_ok r = false ∨ ended (rd_transport (dispatch w')) = false →
  (is_ok r = false → mv_closed (mpsc_view (pending_requests (dispatch w'))) = true) ∧
  ∀ k c, s_calls s !! k = Some c → c_stage c = Awaiting →
  ∃ v, CIF.value_at (oneshots w') k = Some v ∧ justified (abs w') now k c v.
Proof.
  intros Hr Hle Hp Hcase. destruct (poll_done _ _ _ _ _ _ _ Hr _ Hle Hp) as [(_ & _ & _ & Hfin) [Hc _]].
  split; [destruct r; [done|intros _; apply Hfin]|]. intros k c Hk Hs.
  destruct (ci_calls _ _ _ _ Hc _ _ Hk) as [_ _ Hval Hst]. unfold stage_ok in Hst. rewrite Hs in Hst.
  assert (Hnone : outstanding (abs w') = []).
  { assert (mv_queue (mpsc_view (pending_requests (dispatch w'))) = [] ∧
      CIF.request_data (in_flight_requests (dispatch w')) = ∅) as [Hq Hd].
    { destruct r as [[]|e]; [|apply Hfin]. destruct Hfin as [?|([? _] & _ & ?)]; [|done].
      destruct Hcase as [Hf|Hf]; [discriminate Hf|congruence]. }
    unfold outstanding, pending_owned, waiting_owned. simpl. by rewrite Hq, Hd, fmap_empty, map_to_list_empty. }
  destruct Hst as [_ [Hin|[v Hv]]]; [rewrite Hnone in Hin; by apply elem_of_nil in Hin|]. eauto.
Qed.
End properties.

(** C10: one poll of the dispatch is a sequence of the events of the abstract client
    ([dstep]), and keeps the invariant; no assumption of its code is broken.  It ends successfully only
    when the server closed its half, or when no request or cancellation can come any
    more and none is in flight; it ends with an error only once every request, queued
    or in flight, has been answered with it and the queue is closed. *)
Theorem dispatch_poll_refines `{!DelayQueue, !DelayQueueLaws, !Oneshot, !OneshotLaws, !Mpsc, !MpscLaws}
    {TypeId : Type} `{!EqDecision TypeId} {interp : TypeId → Type} {errty : TypeId} {Span Req Resp : Type}
    {T : Transport (ClientMessage Req) (Response Resp) (interp errty)} `{!TransportLog T}
    bound now (w : World Span T) :
  dinv w →
  poll bound now w ≠ Panicked Unexpected ∧
  ∀ r w', poll bound now w = Done (r, w') →
    dinv w' ∧ dsteps (max_of w) now (abs w) (abs w') ∧
    match r with
    | Ready (Ok _) =>
        ended (rd_transport (dispatch w')) = true ∨
        drained (mpsc_view (pending_requests (dispatch w'))) ∧
        drained (mpsc_view (canceled_requests (dispatch w'))) ∧
        CIF.request_data (in_flight_requests (dispatch w')) = ∅
    | Ready (Err e) =>
        terminal_error (dispatch w') = Some (upcast_any interp e) ∧
        mv_queue (mpsc_view (pending_requests (dispatch w'))) = [] ∧
        mv_closed (mpsc_view (pending_requests (dispatch w'))) = true ∧
        CIF.request_data (in_flight_requests (dispatch w')) = ∅
    | Pending => True
    end.
Proof.
  intros Hinv. pose proof (wp_poll bound now w Hinv) as Hw. unfold wp in Hw.
  destruct (poll bound now w) as [[r w']|[]|] eqn:Hp; [|done..]. split; [done|].
  intros ? ? [= <- <-]. destruct Hw as (? & _ & ? & Hr). split_and!; [done|done|].
  destruct r as [[[]|e]|]; [done| |done]. destruct Hr as (? & [? ?] & ?). done.
Qed.

(** ** A client that makes one call

    The client's end of an in-memory channel, with its logs; requests and responses
    are numbers. *)

Definition demo_interp (_ : unit) : Type := MemChannel.ChannelError.
Definition demo_inner : Transport (ClientMessage Z) (Response Z) MemChannel.ChannelError :=
  MemChannel.unbounded_transport.
Definition demo_T : Transport (ClientMessage Z) (Response Z) (demo_interp tt) := logged demo_inner.
Definition demo_peer (t t' : transport demo_T) : Prop :=
  lg_sent t' = lg_sent t ∧ lg_received t' = lg_received t ∧ lg_ended t' = lg_ended t.
Definition demo_rng (_ : unit) : Z * unit := (7%Z, tt).
Definition demo_config : Config := MkConfig 2 1.
Definition demo_bound : nat := 8.
Definition demo_t0 : transport demo_T :=
  @MkLogged _ _ _ demo_inner (MemChannel.unbounded).1 [] [] false.
Definition demo_context : Context := MkContext 100 trace_context_default.

(** Running the system: a poll of the dispatch, and a message from the peer. *)
Definition dispatch_at (now : Z) (s : System unit demo_T) : System unit demo_T :=
  match poll demo_bound now (s_world s) with
  | Done (_, w') => MkSystem w' (s_next_request_id s) (s_handles s) (s_calls s) now
  | _ => s
  end.
Definition peer_sends (r : Response Z) (s : System unit demo_T) : System unit demo_T :=
  let t := rd_transport (dispatch (s_world s)) in
  let c := lg_inner t in
  let c' := MemChannel.MkUnboundedChannel (snd (mpsc_unbounded_send (MemChannel.rx c) r)) (MemChannel.tx c) in
  MkSystem (set_transport (@MkLogged _ _ _ demo_inner c' (lg_sent t) (lg_received t) (lg_ended t) : transport demo_T) (s_world s))
    (s_next_request_id s) (s_handles s) (s_calls s) (s_clock s).
Definition demo_start (req : Z) (s : System unit demo_T) : System unit demo_T :=
  (call_start demo_rng None demo_context tt req tt s).1.

Definition demo_s0 : System unit demo_T :=
  match new_system demo_config demo_t0 0 with
  | Done s => s
  | _ => MkSystem (MkWorld (MkRequestDispatch demo_t0 mpsc_unbounded_channel mpsc_unbounded_channel CIF.default demo_config None) ∅) 0 0 [] 0
  end.

(** The call is made and its request written ... *)
Definition demo_sent : System unit demo_T := dispatch_at 1 (on_call poll_call 0 (demo_start 41 demo_s0)).
(** ... the response arrives and the call returns it ... *)
Definition demo_answered : System unit demo_T :=
  on_call poll_call 0 (dispatch_at 2 (peer_sends (MkResponse 0 (Ok 42%Z)) demo_sent)).
(** ... or its caller goes away first. *)
Definition demo_dropped : System unit demo_T := on_call drop_call_close 0 demo_sent.

Lemma dispatch_at_step s now :
  (s_clock s ≤ now)%Z →
  match poll demo_bound now (s_world s) with Done _ => True | _ => False end →
  step demo_rng demo_peer demo_bound s (dispatch_at now s).
Proof.
  intros Hle Hd. unfold dispatch_at. destruct (poll _ _ _) as [[r w']| |] eqn:Hp; [|done..].
  by eapply step_dispatch.
Qed.

Lemma demo_peer_logs t t' :
  demo_peer t t' → sent t' = sent t ∧ received t' = received t ∧ ended t' = ended t.
Proof. done. Qed.

Lemma demo_sent_reaches : client_reaches demo_rng demo_peer demo_bound demo_config demo_t0 0 demo_sent.
Proof.
  split_and!; [by split|done| |by vm_compute]. exists demo_s0. split; [reflexivity|].
  eapply rtc_l; [apply (step_call_start _ _ _ _ None demo_context tt 41%Z tt)|].
  eapply rtc_l; [apply (step_poll_call _ _ _ _ 0)|].
  eapply rtc_once. apply dispatch_at_step; [by vm_compute|by vm_compute].
Qed.

Lemma demo_answered_reaches : client_reaches demo_rng demo_peer demo_bound demo_config demo_t0 0 demo_answered.
Proof.
  destruct demo_sent_reaches as (? & ? & (s0 & ? & Hs) & ?). split_and!; [done|done| |by vm_compute].
  exists s0. split; [done|]. etrans; [exact Hs|].
  apply (rtc_l _ _ (peer_sends (MkResponse 0 (Ok 42%Z)) demo_sent)); [by apply step_peer|].
  eapply rtc_l; [apply (dispatch_at_step (peer_sends (MkResponse 0 (Ok 42%Z)) demo_sent) 2); by vm_compute|].
  eapply rtc_once. apply (step_poll_call _ _ _ _ 0).
Qed.

Lemma demo_dropped_reaches : client_reaches demo_rng demo_peer demo_bound demo_config demo_t0 0 demo_dropped.
Proof.
  destruct demo_sent_reaches as (? & ? & (s0 & ? & Hs) & ?). split_and!; [done|done| |by vm_compute].
  exists s0. split; [done|]. etrans; [exact Hs|]. eapply rtc_once. apply step_drop_close.
Qed.

Definition demo_call : Call demo_interp unit Z Z :=
  MkCall (MkResponseGuard 0 0 true) (MkContext 100 (MkTraceContext (MkTraceId 0) (MkSpanId 7) Unsampled)) 41%Z
    (Returned (Ok 42%Z)).

Lemma call_results_justified_witness :
  MkResponse 0 (Ok 42%Z) ∈ received (rd_transport (dispatch (s_world demo_answered))) ∧
  call_message 0 demo_call ∈ sent (rd_transport (dispatch (s_world demo_answered))).
Proof.
  refine (call_results_justified demo_rng demo_peer demo_peer_logs demo_bound demo_config demo_t0 0 demo_answered 0
    demo_call (Ok 42%Z) demo_answered_reaches _ _); [vm_compute; reflexivity|reflexivity].
Defined.

Lemma client_wire_protocol_witness :
  wire_ok (sent (rd_transport (dispatch (s_world demo_sent)))) ∧
  length (sent (rd_transport (dispatch (s_world demo_sent)))) = 1.
Proof.
  split; [|vm_compute; reflexivity].
  exact (client_wire_protocol demo_rng demo_peer demo_peer_logs _ _ _ _ _ demo_sent_reaches).
Defined.

Definition demo_in_flight : CIF.RequestData (Span:=unit) := CIF.MkRequestData (c_ctx demo_call) () 0 0.

Lemma abandoned_request_is_canceled_witness :
    (0%Z ∈ mv_queue (mpsc_view (canceled_requests (dispatch (s_world demo_dropped)))) ∨
     ∃ k c, s_calls demo_dropped !! k = Some c ∧ 0%Z = Z.of_nat k ∧ c_stage c = Closing).
Proof.
  refine (abandoned_request_is_canceled demo_rng demo_peer demo_peer_logs _ _ _ _ demo_dropped 0 demo_in_flight
    demo_dropped_reaches _ _); vm_compute; reflexivity.
Defined.

Lemma dispatch_never_panics_witness :
  poll demo_bound 3 (s_world demo_dropped) ≠ Panicked Unexpected.
Proof.
  intros Hp. destruct (dispatch_never_panics demo_rng demo_peer demo_peer_logs _ _ _ _ _ 3 demo_dropped_reaches) as [Hn _];
    [by vm_compute|]. by apply Hn in Hp as [? _].
Defined.

Lemma dispatch_poll_refines_witness :
  dinv (s_world demo_sent) ∧ poll demo_bound 3 (s_world demo_sent) ≠ Panicked Unexpected.
Proof.
  assert (dinv (s_world demo_sent)) as Hd.
  { apply sys_inv_dinv, (reaches_inv demo_rng demo_peer demo_peer_logs _ _ _ _ _ demo_sent_reaches). }
  split; [exact Hd|]. exact (proj1 (dispatch_poll_refines demo_bound 3 _ Hd)).
Defined.

(** The server's half of the channel goes away: the next poll fails and answers. *)
Definition peer_closes (s : System unit demo_T) : System unit demo_T :=
  let t := rd_transport (dispatch (s_world s)) in
  let c := lg_inner t in
  let c' := MemChannel.MkUnboundedChannel (MemChannel.rx c) (mpsc_close (MemChannel.tx c)) in
  MkSystem (set_transport (@MkLogged _ _ _ demo_inner c' (lg_sent t) (lg_received t) (lg_ended t) : transport demo_T) (s_world s))
    (s_next_request_id s) (s_handles s) (s_calls s) (s_clock s).
Definition demo_closed : System unit demo_T := peer_closes demo_sent.

Lemma demo_closed_reaches : client_reaches demo_rng demo_peer demo_bound demo_config demo_t0 0 demo_closed.
Proof.
  destruct demo_sent_reaches as (? & ? & (s0 & ? & Hs) & ?). split_and!; [done|done| |by vm_compute].
  exists s0. split; [done|]. etrans; [exact Hs|]. eapply rtc_once. by apply step_peer.
Qed.

Definition fails (e : Exec (Poll (Result unit (ChannelError.t (demo_interp tt))) * World unit demo_T)) : bool :=
  match e with Done (Ready (Err _), _) => true | _ => false end.

Lemma demo_closed_fails : fails (poll demo_bound 3 (s_world demo_closed)) = true.
Proof. vm_compute. reflexivity. Qed.

Lemma finished_dispatch_answers_every_call_witness :
  ∃ e w', poll demo_bound 3 (s_world demo_closed) = Done (Ready (Err e), w') ∧
    ∀ k c, s_calls demo_closed !! k = Some c → c_stage c = Awaiting →
    ∃ v, CIF.value_at (oneshots w') k = Some v ∧ justified (abs w') 3 k c v.
Proof.
  pose proof demo_closed_fails as Hf. destruct (poll demo_bound 3 (s_world demo_closed)) as [[[[]|] w']| |] eqn:Hp;
    try discriminate Hf.
  exists e, w'. split; [reflexivity|].
  exact (proj2 (finished_dispatch_answers_every_call demo_rng demo_peer demo_peer_logs _ _ _ _ _ 3 _ _
    demo_closed_reaches ltac:(by vm_compute) Hp (or_introl eq_refl))).
Defined.
End ClientProps.
