(* ===== verification/ClientDeadlines.v ===== *)
(** * The client: deadlines are enforced, and nothing is left undone

    When a poll of the dispatch returns [Pending], the requests that are overdue have
    been answered (if timers fire within their resolution, [DelayQueuePrompt]); and
    while the transport accepts messages, the queues of cancellations and of requests
    have been received from until they gave nothing, or there is no room in flight. *)
From S2P Require Import Prelude Interfaces RefModels Trace Wire TimerTable Transport Cancellations ClientInFlight ClientDispatch ClientSpec ClientRefine ClientFrame ClientCalls ClientSafety ClientProps.

Module Deadlines.
Export ClientProps.

Section quiescence.
Context `{!DelayQueue, !DelayQueueLaws, !DelayQueuePrompt, !Oneshot, !OneshotLaws, !Mpsc, !MpscLaws}.
Context {TypeId : Type} `{!EqDecision TypeId} {interp : TypeId → Type} {errty : TypeId}.
Context {Span Req Resp : Type}.
Context {T : Transport (ClientMessage Req) (Response Resp) (interp errty)} `{!TransportLog T}.
Implicit Types w : World Span T.

(** No request in flight is overdue by more than the timer's resolution. *)
Definition on_time (now : Z) w : Prop :=
  ∀ i due, CIF.abs (in_flight_requests (dispatch w)) !! i = Some due → (now < due + dq_resolution)%Z.

(** The transport takes a message, or fails, whenever it is asked. *)
Definition always_writeable : Prop := ∀ (t : transport T) t', t_poll_ready t ≠ (Pending, t').

(** Both queues were received from until they gave nothing, or there is no room. *)
Definition written w : Prop :=
  exhausted (canceled_requests (dispatch w)) ∧
  (exhausted (pending_requests (dispatch w)) ∨
   (max_of w ≤ Z.of_nat (CIF.len (in_flight_requests (dispatch w))))%Z).

Record settled (now : Z) w : Prop := {
  settled_on_time : on_time now w;
  settled_written : always_writeable → written w;
}.

Lemma wlp_ensure_writeable_always n w :
  always_writeable → wlp (ensure_writeable_loop n) (λ r w', ∃ x, r = Ready (Some x)) w.
Proof.
  intros Ha. destruct n as [|n]; [done|]. cbn [ensure_writeable_loop].
  apply wlp_bind, wlp_bind, wlp_wp, wp_on_transport. intros [[[]|e]|] t Hr; [apply wlp_ret, wlp_ret; eauto..|].
  by apply Ha in Hr.
Qed.

Lemma wlp_next_request_empty n w :
  wlp (next_request_loop n) (λ r w', yields_nothing r → exhausted (pending_requests (dispatch w'))) w.
Proof.
  revert w. induction n as [|n IH]; intros w; [done|]. cbn [next_request_loop].
  apply wlp_bind, wlp_wp, wp_on_pending. intros r p Hp. pose proof (recv_nothing _ _ _ Hp) as Hn.
  destruct r as [[dr|]|]; [|apply wlp_ret; intros _; apply Hn; unfold yields_nothing; auto..].
  apply wlp_bind, wlp_get. destruct (CIF.store_is_closed _ _); [|by apply wlp_ret; intros [?|?]].
  apply wlp_bind, wlp_modify, IH.
Qed.

(** No request was written: none was queued, or there was no room. *)
Lemma wlp_write_request_nothing bound now w :
  always_writeable →
  wlp (poll_write_request bound now) (λ r w', yields_nothing r →
    exhausted (pending_requests (dispatch w')) ∨
    (max_of w' ≤ Z.of_nat (CIF.len (in_flight_requests (dispatch w'))))%Z) w.
Proof.
  intros Ha. apply wlp_bind, wlp_bind, wlp_get. case_bool_decide; [by apply wlp_ret, wlp_ret; right|].
  apply wlp_bind. eapply wlp_mono; [by apply wlp_ensure_writeable_always|]. intros r w1 [[[]|e] ->].
  - eapply wlp_mono; [apply wlp_next_request_empty|].
    intros [[[[c sp i req l]|e]|]|] w2 Hd; [| by apply wlp_ret; intros ?%yields_nothing_some |
      apply wlp_ret; intros Hn; left; apply Hd; unfold yields_nothing; auto..].
    do 3 (apply wlp_bind; eapply wlp_mono; [apply wlp_true|]; intros ? ? _). destruct a1.
    + apply wlp_ret. by intros ?%yields_nothing_some.
    + apply wlp_bind. eapply wlp_mono; [apply wlp_true|]. intros ? ? _. apply wlp_ret. by intros ?%yields_nothing_some.
  - apply wlp_ret, wlp_ret. by intros ?%yields_nothing_some.
Qed.

(** Whether a request could be written is not changed by steps that leave the queue
    of requests and the table alone. *)
Definition same_load w w' : Prop :=
  pending_requests (dispatch w') = pending_requests (dispatch w) ∧
  CIF.request_data (in_flight_requests (dispatch w')) = CIF.request_data (in_flight_requests (dispatch w)) ∧
  config (dispatch w') = config (dispatch w).

Lemma wlp_next_cancellation_nothing n w :
  wlp (next_cancellation_loop n) (λ r w', yields_nothing r →
    same_load w w' ∧ exhausted (canceled_requests (dispatch w'))) w.
Proof.
  revert w. induction n as [|n IH]; intros w; [done|]. cbn [next_cancellation_loop].
  apply wlp_bind, wlp_wp, wp_on_canceled. intros r p Hp. pose proof (recv_nothing _ _ _ Hp) as Hn.
  destruct r as [[i|]|]; [|apply wlp_ret; intros _; split; [done|apply Hn; unfold yields_nothing; auto]..].
  apply wlp_bind. intros [[c sp]|] w1 E.
  { apply wlp_ret. by intros ?%yields_nothing_some. }
  eapply wlp_mono; [apply IH|]. intros r w2 Hr Hy. destruct (Hr Hy) as [Hs Hq]. split; [|done].
  unfold on_in_flight, CIF.cancel_request in E. simpl in E.
  destruct (CIF.request_data _ !! i) as [rd|] eqn:Hi; [by destruct (dq_remove _ _)|]. by injection E as <-.
Qed.

Lemma wlp_write_cancel_nothing bound w :
  always_writeable →
  wlp (poll_write_cancel bound) (λ r w', yields_nothing r →
    same_load w w' ∧ exhausted (canceled_requests (dispatch w'))) w.
Proof.
  intros Ha. apply wlp_bind, wlp_bind.
  eapply wlp_mono; [apply wlp_wp, wp_wlp; [apply wp_ensure_writeable|by apply wlp_ensure_writeable_always]|].
  intros r w1 [[(t & -> & _) _] [[[]|e] ->]].
  - eapply wlp_mono; [apply wlp_next_cancellation_nothing|].
    intros [[[[[c sp] i]|e]|]|] w2 Hd; [| by apply wlp_ret; intros ?%yields_nothing_some |
      apply wlp_ret; intros _; apply Hd; unfold yields_nothing; auto..].
    apply wlp_bind. eapply wlp_mono; [apply wlp_true|]. intros [] ? _; apply wlp_ret; by intros ?%yields_nothing_some.
  - apply wlp_ret, wlp_ret. by intros ?%yields_nothing_some.
Qed.

(** The timers are asked last. *)
Lemma wlp_expired_nothing now w :
  wlp (on_in_flight (λ i st, Done (CIF.poll_expired i st now (Err RpcError.DeadlineExceeded)))) (λ r w',
    yields_nothing r → on_time now w' ∧ same_load w w' ∧
      canceled_requests (dispatch w') = canceled_requests (dispatch w)) w.
Proof.
  intros r w'. unfold on_in_flight, CIF.poll_expired.
  destruct (dq_poll_expired _ _) as [[[i|]|] q] eqn:Hp.
  - destruct (CIF.request_data _ !! i); intros [= <- <-] ?%yields_nothing_some; done.
  - intros [= <- <-] _. split; [|done]. intros j d. simpl. unfold CIF.abs. rewrite due_map_lookup. simpl.
    apply law_dq_expired_none in Hp as [_ Hv]. unfold due_in. destruct (_ !! j); simpl; [|done].
    by rewrite Hv, lookup_empty.
  - intros [= <- <-] _. split; [|done]. intros j d. simpl. unfold CIF.abs. rewrite due_map_lookup. simpl.
    pose proof (law_dq_expired_pending _ _ _ Hp) as Hv. unfold due_in. rewrite Hv.
    intros Hd. by eapply (timers_ok_prompt CIF.deadline_key).
Qed.

Lemma settled_quiet now w w' : settled now w → quiet w w' → settled now w'.
Proof. intros [] (t & -> & _). by split. Qed.

Lemma wlp_close_or_flush_settled now s1 s2 w :
  settled now w → wlp (close_or_flush s1 s2) (λ r w', yields_nothing r → settled now w') w.
Proof.
  intros Hs. destruct s1, s2; apply wlp_bind;
    (eapply wlp_mono; [apply wlp_wp; apply wp_poll_flush || apply wp_poll_close|]);
    intros [[[]|]|] w2 Hq; apply wlp_ret; intros _; by eapply settled_quiet.
Qed.

Lemma wlp_pump_write_settled bound now w :
  wlp (pump_write bound now) (λ r w', yields_nothing r → settled now w') w.
Proof.
  apply wlp_bind. intros p w1 Hp.
  assert (Hreq : yields_nothing p → always_writeable → exhausted (pending_requests (dispatch w1)) ∨
    (max_of w1 ≤ Z.of_nat (CIF.len (in_flight_requests (dispatch w1))))%Z)
    by (intros; by eapply wlp_write_request_nothing). clear Hp.
  assert (Hc : yields_nothing p → ∀ s1, wlp (c ← poll_write_cancel bound;
    match c with
    | Ready (Some r) => mret (Ready (Some r))
    | Ready None | Pending =>
        x ← on_in_flight (λ i st, Done (CIF.poll_expired i st now (Err RpcError.DeadlineExceeded)));
        match x with
        | Ready (Some _) => mret (Ready (Some (Ok tt)))
        | _ => close_or_flush s1 (if is_pending c then StatusPending else StatusClosed)
        end
    end) (λ r w', yields_nothing r → settled now w') w1).
  { intros Hy s1. specialize (Hreq Hy). apply wlp_bind. intros c w2 Hc.
    assert (Hcan : yields_nothing c → always_writeable →
      same_load w1 w2 ∧ exhausted (canceled_requests (dispatch w2)))
      by (intros; by eapply wlp_write_cancel_nothing). clear Hc.
    destruct c as [[r|]|]; [by apply wlp_ret; intros ?%yields_nothing_some|..];
      (apply wlp_bind; eapply wlp_mono; [apply wlp_expired_nothing|]); intros x w3 Hx;
      (destruct x as [[i|]|]; [by apply wlp_ret; intros ?%yields_nothing_some|..]);
      apply wlp_close_or_flush_settled; destruct Hx as (Ht & (E1 & E2 & E3) & E4); try (unfold yields_nothing; by auto);
      (split; [done|]); intros Ha;
      (destruct Hcan as ((F1 & F2 & F3) & F4); [unfold yields_nothing; by auto|done|]); split;
      rewrite ?E4, ?E1; [done|rewrite F1|done|rewrite F1|done|rewrite F1|done|rewrite F1];
      destruct (Hreq Ha) as [?|Hm]; [by left| |by left| |by left| |by left|]; right;
      unfold max_of, CIF.len in *; by rewrite E3, E2, F3, F2. }
  destruct p as [[r|]|]; [by apply wlp_ret; intros ?%yields_nothing_some|..]; apply Hc; unfold yields_nothing; auto.
Qed.

Lemma wlp_run_loop_settled bound now n w : wlp (run_loop bound now n) (λ r w', r = Pending → settled now w') w.
Proof.
  revert w. induction n as [|n IH]; intros w; [done|]. cbn [run_loop].
  apply wlp_bind. eapply wlp_mono; [apply wlp_true|]. intros r w1 _.
  destruct r as [[[[]|e]|]|]; [|by apply wlp_ret|..]; apply wlp_bind;
    (eapply wlp_mono; [apply wlp_pump_write_settled|]); intros r2 w2 Hw;
    destruct r2 as [[[[]|e2]|]|]; try (by apply wlp_ret); try apply IH;
    try (apply wlp_ret; intros _; apply Hw; unfold yields_nothing; by auto);
    apply wlp_bind, wlp_get; destruct (CIF.is_empty _); try (by apply wlp_ret); try apply IH;
    apply wlp_ret; intros _; apply Hw; unfold yields_nothing; auto.
Qed.
Lemma on_time_empty now w : CIF.request_data (in_flight_requests (dispatch w)) = ∅ → on_time now w.
Proof. intros He i due. unfold CIF.abs. by rewrite He, due_map_empty, lookup_empty. Qed.

(** The shutdown has answered everybody in flight, even if it has not finished. *)
Lemma wlp_poll_failed_on_time bound now n w (e : ChannelError.t (interp errty)) :
  timers w → terminal_error (dispatch w) = Some (upcast_any interp e) →
  wlp (poll_loop bound now (S n)) (λ r w', on_time now w' ∧ terminal_error (dispatch w') ≠ None) w.
Proof.
  intros Ht He. cbn [poll_loop]. apply wlp_bind, wlp_get. rewrite He.
  apply wlp_bind, wlp_wp. eapply wp_lift.
  { replace (ChannelError.clone (upcast_any interp e)) with (upcast_any interp e) by by destruct e.
    by rewrite downcast_upcast. }
  replace (upcast_error interp (ChannelError.clone e)) with (upcast_any interp e) by by destruct e.
  apply wlp_bind. eapply wlp_mono; [by apply wlp_wp, (wp_shut_down bound now)|]. intros r w' (_ & Hcl & _).
  assert (on_time now w' ∧ terminal_error (dispatch w') ≠ None).
  { split; [apply on_time_empty, Hcl|]. by rewrite (cw_error _ _ Hcl). }
  by destruct r; apply wlp_ret.
Qed.

Lemma poll_pending_settled bound now w w' :
  dinv w → poll bound now w = Done (Pending, w') →
  on_time now w' ∧ (terminal_error (dispatch w') = None → settled now w').
Proof.
  intros Hinv. revert w'. cut (wlp (poll bound now) (λ r w', r = Pending →
    on_time now w' ∧ (terminal_error (dispatch w') = None → settled now w')) w).
  { intros Hw w' Hp. by eapply Hw. }
  pose proof (dinv_error _ Hinv) as Herr. unfold error_ok in Herr.
  destruct (terminal_error (dispatch w)) as [stored|] eqn:He.
  { destruct Herr as [e ->]. eapply wlp_mono; [by apply (wlp_poll_failed_on_time _ _ 1 _ e), He; apply Hinv|].
    intros r w' [? ?] _. by split. }
  unfold poll. cbn [poll_loop]. apply wlp_bind, wlp_get. rewrite He.
  apply wlp_bind. intros r w1 Hr.
  assert (Hok : ok now w w1).
  { by eapply (wp_done _ _ _ _ _ (wp_run_loop bound now bound w (Build_ready_world _ (dinv_timers _ Hinv) (dinv_ainv _ Hinv) He))). }
  apply wlp_run_loop_settled in Hr. destruct r as [[[]|e]|].
  - by apply wlp_ret.
  - apply wlp_bind, wlp_modify.
    eapply wlp_mono; [by apply (wlp_poll_failed_on_time _ _ 0 _ e); [apply Hok|]|]. intros r w' [? ?] _. by split.
  - apply wlp_ret. intros _. destruct (Hr eq_refl) as [Hot Hwr]. split; [done|]. by split.
Qed.

(** C15: a poll of the dispatch that returns [Pending] leaves nothing undone that it
    could have done.  Provided timers fire within their resolution, no request in
    flight is overdue by more than that, whether the transport works or has failed;
    and as long as it has not failed and takes messages whenever it is asked, the
    cancellations have been taken from their queue until [poll_recv] gave no more,
    and so have the requests, unless as many as the configuration allows are in
    flight. *)
Theorem dispatch_poll_settles bound now w w' :
  dinv w → poll bound now w = Done (Pending, w') →
  on_time now w' ∧ (terminal_error (dispatch w') = None → always_writeable →
    exhausted (canceled_requests (dispatch w')) ∧
    (exhausted (pending_requests (dispatch w')) ∨
     (max_in_flight_requests (config (dispatch w')) ≤ Z.of_nat (CIF.len (in_flight_requests (dispatch w'))))%Z)).
Proof.
  intros Hinv Hp. destruct (poll_pending_settled _ _ _ _ Hinv Hp) as [? Hs]. split; [done|].
  intros He Ha. by apply (Hs He).
Qed.


End quiescence.

Section overdue.
Context `{!DelayQueue, !DelayQueueLaws, !DelayQueuePrompt, !Oneshot, !OneshotLaws, !Mpsc, !MpscLaws, !Otel}.
Context {TypeId : Type} `{!EqDecision TypeId} {interp : TypeId → Type} {errty : TypeId}.
Context {Span Req Resp : Type}.
Context {T : Transport (ClientMessage Req) (Response Resp) (interp errty)} `{!TransportLog T}.
Context {Rng : Type} (gen_u64 : Rng → Z * Rng).
Context (peer : transport T → transport T → Prop).
Context (Hpeer : ∀ t t', peer t t' → sent t' = sent t ∧ received t' = received t ∧ ended t' = ended t).
Implicit Types (s : System Span T).

End overdue.

(** ** The client that made one call, polled again *)

Definition waits (e : Exec (Poll (Result unit (ChannelError.t (demo_interp tt))) * World unit demo_T)) : bool :=
  match e with Done (Pending, w) => bool_decide (is_Some (terminal_error (dispatch w)) → False) | _ => false end.

Lemma demo_sent_waits : waits (poll demo_bound 3 (s_world demo_sent)) && waits (poll demo_bound 200 (s_world demo_sent)) = true.
Proof. vm_compute. reflexivity. Qed.

(** The transport of the demonstration takes every message. *)
Lemma demo_always_writeable : always_writeable (T:=demo_T).
Proof. by intros t t'. Qed.

Lemma dispatch_poll_settles_witness :
  ∃ w', poll demo_bound 3 (s_world demo_sent) = Done (Pending, w') ∧ on_time 3 w' ∧
    mv_queue (mpsc_view (canceled_requests (dispatch w'))) = [].
Proof.
  destruct (andb_prop _ _ demo_sent_waits) as [Hw _].
  destruct (poll demo_bound 3 (s_world demo_sent)) as [[[] w']| |] eqn:Hp; try discriminate Hw.
  exists w'. split; [reflexivity|]. simpl in Hw.
  destruct (dispatch_poll_settles demo_bound 3 (s_world demo_sent) w') as [Ht Hq].
  - apply sys_inv_dinv, (reaches_inv demo_rng demo_peer demo_peer_logs _ _ _ _ _ demo_sent_reaches).
  - exact Hp.
  - split; [exact Ht|]. apply ref_exhausted, Hq; [|exact demo_always_writeable].
    apply bool_decide_eq_true in Hw. destruct (terminal_error (dispatch w')); [|reflexivity]. destruct Hw. by eexists.
Defined.


End Deadlines.
