(* ===== verification/ClientAccounts.v ===== *)
(** * The client: no request is forgotten

    Every request a client has written is accounted for, as long as its transport has
    not failed: it is still in the table with a timer that runs until its deadline at
    least, or it was canceled and the server told so, or a response to it was read, or
    its deadline has passed. *)
From S2P Require Import Prelude Interfaces RefModels Trace Wire TimerTable Transport Cancellations ClientInFlight ClientDispatch ClientSpec ClientRefine ClientFrame ClientCalls ClientSafety ClientProps.

Module ClientAccounts.
Export ClientProps.

Section accounts.
Context `{!DelayQueue, !DelayQueueLaws, !Oneshot, !OneshotLaws, !Mpsc, !MpscLaws}.
Context {TypeId : Type} `{!EqDecision TypeId} {interp : TypeId → Type} {errty : TypeId}.
Context {Span Req Resp : Type}.
Context {T : Transport (ClientMessage Req) (Response Resp) (interp errty)} `{!TransportLog T}.
Implicit Types (w : World Span T) (r : Request Req).

Abbreviation tr w := (rd_transport (dispatch w)).
Abbreviation timer w := (CIF.abs (in_flight_requests (dispatch w))).

Definition tracked r w : Prop := ∃ due, timer w !! id r = Some due ∧ (deadline (context r) ≤ due)%Z.
Definition settled_with now r w : Prop :=
  (∃ tc, ClientCancel tc (id r) ∈ sent (tr w)) ∨ (∃ x, x ∈ received (tr w) ∧ request_id x = id r) ∨
  (deadline (context r) ≤ now)%Z.

Record accounted (now : Z) w : Prop := {
  ac_timers : timers w;
  ac_sent : ∀ r, ClientRequest r ∈ sent (tr w) → tracked r w ∨ settled_with now r w;
}.

Lemma accounted_later now now' w : (now ≤ now')%Z → accounted now w → accounted now' w.
Proof.
  intros Hle [Ht Hs]. split; [done|]. intros r Hr. destruct (Hs r Hr) as [?|[?|[?|?]]]; [by left|right..].
  - by left.
  - right. by left.
  - right. right. lia.
Qed.

(** What a piece of the dispatch that reports no error does. *)
Definition keeps_account (now : Z) w w' : Prop := accounted now w → accounted now w'.

#[export] Instance keeps_account_preorder now : PreOrder (keeps_account now).
Proof. split; unfold keeps_account; [by intros w|]. intros w1 w2 w3. auto. Qed.

Lemma account_same now w w' :
  in_flight_requests (dispatch w') = in_flight_requests (dispatch w) → sent (tr w') = sent (tr w) →
  (∀ x, x ∈ received (tr w) → x ∈ received (tr w')) → keeps_account now w w'.
Proof.
  intros Ei Es Er [Ht Ha]. split; [unfold timers; by rewrite Ei|]. rewrite Es. unfold tracked, settled_with. rewrite Ei, Es.
  intros r Hr. destruct (Ha r Hr) as [?|[?|[(x & Hx & ?)|?]]]; [by left|right; by left| |right; right; by right].
  right. right. left. exists x. auto.
Qed.

Section parts.
Context (now : Z).

Lemma account_on_transport {A} (f : transport T → A * transport T) :
  (∀ t a t', f t = (a, t') → sent t' = sent t ∧ received t' = received t ∧ ended t' = ended t) →
  keeps (keeps_account now) (on_transport f).
Proof.
  intros Hf w a w' E. unfold on_transport in E. destruct (f _) as [a' t] eqn:Ht. injection E as <- <-.
  apply Hf in Ht as (Hs & Hr & _). apply account_same; [done|exact Hs|]. simpl. by rewrite Hr.
Qed.
Lemma account_on_pending {A} (f : mpsc (DispatchRequest (Span:=Span) (Req:=Req)) → A * mpsc DispatchRequest) :
  keeps (keeps_account now) (on_pending f).
Proof. intros w a w' E. unfold on_pending in E. destruct (f _). injection E as <- <-. by apply account_same. Qed.
Lemma account_on_canceled {A} (f : mpsc Z → A * mpsc Z) : keeps (keeps_account now) (on_canceled f).
Proof. intros w a w' E. unfold on_canceled in E. destruct (f _). injection E as <- <-. by apply account_same. Qed.
Lemma account_on_oneshots f : keeps (keeps_account now) (on_oneshots f).
Proof. apply keeps_modify. intros w. by apply account_same. Qed.
Lemma account_poll_ready : keeps (keeps_account now) poll_ready.
Proof. unfold poll_ready. apply keeps_bind; [apply _|apply account_on_transport, log_poll_ready|keeps]. Qed.
Lemma account_poll_flush : keeps (keeps_account now) poll_flush.
Proof. unfold poll_flush. apply keeps_bind; [apply _|apply account_on_transport, log_poll_flush|keeps]. Qed.
Lemma account_poll_close : keeps (keeps_account now) poll_close.
Proof. unfold poll_close. apply keeps_bind; [apply _|apply account_on_transport, log_poll_close|keeps]. Qed.
Hint Resolve account_on_pending account_on_canceled account_on_oneshots account_poll_ready account_poll_flush
  account_poll_close : tarpc.

Lemma account_ensure_writeable n : keeps (keeps_account now) (ensure_writeable_loop n).
Proof. induction n as [|n IH]; cbn [ensure_writeable_loop]; keeps. Qed.
Lemma account_next_request_loop n : keeps (keeps_account now) (next_request_loop n).
Proof. induction n as [|n IH]; cbn [next_request_loop]; keeps. Qed.
Lemma account_close_or_flush s1 s2 : keeps (keeps_account now) (close_or_flush s1 s2).
Proof. unfold close_or_flush. keeps. Qed.
Hint Resolve account_ensure_writeable account_next_request_loop account_close_or_flush : tarpc.
End parts.

(** ** The table *)

(** [w'] is [w] without request [i]. *)
Definition removed i w w' : Prop :=
  tr w' = tr w ∧ (timers w → timers w' ∧ timer w' = delete i (timer w)).

Lemma timer_delete i rd dl w :
  timers w → CIF.request_data (in_flight_requests (dispatch w)) !! i = Some rd →
  dq_view dl = delete (CIF.deadline_key rd) (dq_view (CIF.deadlines (in_flight_requests (dispatch w)))) →
  let s' := CIF.MkInFlightRequests (delete i (CIF.request_data (in_flight_requests (dispatch w)))) dl in
  timers_ok CIF.deadline_key (CIF.request_data s') (CIF.deadlines s') ∧ CIF.abs s' = delete i (timer w).
Proof. intros Ht Hi Hd. split; [by eapply timers_ok_delete|by eapply due_map_delete]. Qed.

Lemma timer_absent i w :
  timers w → CIF.request_data (in_flight_requests (dispatch w)) !! i = None → delete i (timer w) = timer w.
Proof. intros Ht Hi. apply delete_id. by apply (due_map_None CIF.deadline_key). Qed.

Lemma remove_done i rd dl w :
  timers w → CIF.request_data (in_flight_requests (dispatch w)) !! i = Some rd →
  dq_remove (CIF.deadlines (in_flight_requests (dispatch w))) (CIF.deadline_key rd) = Done dl →
  dq_view dl = delete (CIF.deadline_key rd) (dq_view (CIF.deadlines (in_flight_requests (dispatch w)))).
Proof. intros Ht Hi Hd. destruct (timers_ok_remove _ _ _ _ _ Ht Hi) as (dl' & E & Hv). rewrite Hd in E. by injection E as ->. Qed.

Lemma wlp_complete i res w : wlp (on_in_flight (λ t st, CIF.complete_request t st i res)) (λ _ w', removed i w w') w.
Proof.
  intros a w'. unfold on_in_flight, CIF.complete_request. destruct (CIF.request_data _ !! i) as [rd|] eqn:Hi.
  - destruct (dq_remove _ _) as [dl| |] eqn:Hd; [|done..]. intros [= <- <-]. split; [done|]. intros Ht.
    eapply (timer_delete i rd dl w); [done..|]. by eapply remove_done.
  - intros [= <- <-]. split; [done|]. intros Ht. split; [done|]. by rewrite timer_absent.
Qed.

Lemma wlp_cancel i w :
  wlp (on_in_flight (λ t st, CIF.cancel_request t st i)) (λ o w', removed i w w' ∧ (o = None → timers w → timer w' = timer w)) w.
Proof.
  intros a w'. unfold on_in_flight, CIF.cancel_request. destruct (CIF.request_data _ !! i) as [rd|] eqn:Hi.
  - destruct (dq_remove _ _) as [dl| |] eqn:Hd; [|done..]. intros [= <- <-]. split; [|done]. split; [done|]. intros Ht.
    eapply (timer_delete i rd dl w); [done..|]. by eapply remove_done.
  - intros [= <- <-]. split; [|done]. split; [done|]. intros Ht. split; [done|]. by rewrite timer_absent.
Qed.

Lemma wlp_insert now i c sp l w :
  wlp (on_in_flight (λ t st, CIF.insert_request t st now i c sp l)) (λ o w', o = Ok tt →
    tr w' = tr w ∧ (timers w → timers w' ∧ timer w !! i = None ∧ timer w' = <[i := Z.max now (deadline c)]> (timer w))) w.
Proof.
  intros a w'. unfold on_in_flight, CIF.insert_request. destruct (CIF.request_data _ !! i) as [rd|] eqn:Hi.
  { by intros [= <- <-]. }
  destruct (dq_insert _ _ _ _) as [[k dl]| |] eqn:Hd; [|done..]. intros [= <- <-] _. split; [done|]. intros Ht. split_and!.
  - by eapply timers_ok_insert.
  - by apply (due_map_None CIF.deadline_key).
  - unfold CIF.abs. simpl. erewrite due_map_insert; [|done..].
    change (time_until (deadline c) now) with (duration_since (deadline c) now). by rewrite duration_since_max.
Qed.

(** A request that leaves the table must be settled. *)
Lemma account_removed now i w w' :
  removed i w w' → (∀ r, id r = i → tracked r w → settled_with now r w) → keeps_account now w w'.
Proof.
  intros [Et Hrm] Hi [Ht Ha]. destruct (Hrm Ht) as [Ht' Etm]. split; [done|]. rewrite Et. intros r Hr.
  unfold settled_with in *. rewrite Et. destruct (Ha r Hr) as [Htr|]; [|by right].
  destruct (decide (id r = i)) as [E|Hne]; [right; auto|left].
  destruct Htr as (due & Hd & ?). exists due. by rewrite Etm, lookup_delete_ne.
Qed.

Lemma account_expired now (res : Result Resp (RpcError.t (DynAny interp))) :
  keeps (keeps_account now) (on_in_flight (λ t st, Done (CIF.poll_expired t st now res))).
Proof.
  intros w a w'. unfold on_in_flight, CIF.poll_expired. destruct (dq_poll_expired _ now) as [p dl] eqn:Hp. intros E Hacc.
  pose proof (ac_timers _ _ Hacc) as Ht.
  assert (Hsame : dq_view dl = dq_view (CIF.deadlines (in_flight_requests (dispatch w))) →
    ∀ st, accounted now (set_oneshots st (set_in_flight (CIF.MkInFlightRequests (CIF.request_data (in_flight_requests (dispatch w))) dl) w))).
  { intros Hv st. destruct Hacc as [_ Ha]. split; [by eapply timers_ok_view|]. intros r Hr. destruct (Ha r Hr) as [(due & Hd & ?)|?]; [left|by right].
    exists due. split; [|done]. simpl. unfold CIF.abs. simpl. by erewrite due_map_ext. }
  destruct p as [[i|]|].
  - destruct (timers_ok_expired _ _ _ _ _ _ Ht Hp) as (rd & due & Hi & Hdue & Hle & Hv & Hok). rewrite Hi in E. injection E as <- <-.
    eapply (account_removed now i); [|intros r <- (d & Hd & ?)|done].
    + split; [done|]. intros _. by eapply (timer_delete i rd dl w).
    + right. right. unfold CIF.abs in Hd. rewrite due_map_lookup, Hdue in Hd. injection Hd as <-. lia.
  - apply law_dq_expired_none in Hp as [Hv Hv']. injection E as <- <-. apply Hsame. by rewrite Hv, Hv'.
  - apply law_dq_expired_pending in Hp. injection E as <- <-. by apply Hsame.
Qed.

(** ** Reading and writing *)

Section polls.
Context (now : Z).
Hint Resolve account_on_pending account_on_canceled account_on_oneshots account_poll_ready account_poll_flush
  account_poll_close account_ensure_writeable account_next_request_loop account_close_or_flush account_expired : tarpc.

Lemma account_pump_read : keeps (keeps_account now) pump_read.
Proof.
  intros w. apply wlp_bind, wlp_wp, wp_on_transport. intros p t (Hs & Hr & _)%log_poll_next.
  set (w1 := set_transport t w).
  assert (K1 : keeps_account now w w1) by (apply account_same; [done|exact Hs|]; intros x; simpl; rewrite Hr, elem_of_app; by left).
  destruct p as [[[x|e]|]|]; try by apply wlp_ret. apply wlp_bind, wlp_bind. eapply wlp_mono; [apply wlp_complete|].
  intros o w2 Hrm. apply wlp_ret, wlp_ret. etrans; [exact K1|]. eapply account_removed; [exact Hrm|].
  intros r Hid _. right. left. exists x. split; [simpl; rewrite Hr; set_solver|done].
Qed.

(** A message is handed to the transport. *)
Lemma account_log m t w (ok : bool) :
  sent t = sent (tr w) ++ (if ok then [m] else []) → received t = received (tr w) →
  (∀ r, ok = true → m = ClientRequest r → tracked r w) → keeps_account now w (set_transport t w).
Proof.
  intros Hs Hr Hm [Ht Ha]. split; [done|]. unfold settled_with. simpl. rewrite Hs, Hr. intros r [Hin|Hnew]%elem_of_app.
  - destruct (Ha r Hin) as [?|[[tc ?]|?]]; [by left|right; left; exists tc; apply elem_of_app; by left|right; by right].
  - destruct ok; [|by apply elem_of_nil in Hnew]. apply list_elem_of_singleton in Hnew. left. by apply Hm.
Qed.

Lemma account_poll_write_request bound : keeps (keeps_account now) (poll_write_request bound now).
Proof.
  unfold poll_write_request. apply keeps_bind; [apply _|unfold poll_next_request, ensure_writeable; keeps|].
  intros [[[[c sp i req l]|e]|]|]; [|keeps..]. intros w. apply wlp_bind. eapply wlp_mono; [apply wlp_insert|].
  intros o w1 Hins. apply wlp_bind. intros u w2 E. unfold lift_exec in E. destruct o as [[]|]; [|done]. simpl in E. injection E as <- <-.
  destruct (Hins eq_refl) as [Et Htm]. clear Hins. apply wlp_bind, wlp_wp, wp_on_transport. intros a t (Hs & Hr & _)%log_start_send.
  set (r0 := MkRequest (MkContext (deadline c) (trace_context c)) i req) in Hs.
  assert (Hin : accounted now w → accounted now w1 ∧ timer w !! i = None ∧ tracked r0 w1).
  { intros [Ht Ha]. destruct (Htm Ht) as (Ht1 & Hn & E1). split_and!; [|done|].
    - split; [done|]. unfold settled_with. rewrite Et. intros r Hin. destruct (Ha r Hin) as [(due & Hd & ?)|?]; [left|by right].
      exists due. rewrite E1, lookup_insert_ne; [done|]. intros ->. congruence.
    - exists (Z.max now (deadline c)). rewrite E1. simpl. rewrite lookup_insert_eq. split; [done|lia]. }
  destruct a as [[]|e]; simpl in Hs.
  - apply wlp_ret. intros (K1 & _ & K0)%Hin. eapply (account_log (ClientRequest r0) t w1 true); [done..| |done].
    by intros r _ [= <-].
  - apply wlp_bind. eapply wlp_mono; [apply wlp_complete|]. intros o w3 [Et3 Hrm]. apply wlp_ret. intros Hacc.
    destruct (Hin Hacc) as ([Ht1 _] & Hn & _), (Hrm Ht1) as [Ht3 E3], Hacc as [Ht Ha], (Htm Ht) as (_ & _ & E1).
    split; [done|]. unfold settled_with. rewrite Et3. simpl. rewrite Hs, Hr, app_nil_r, Et. intros r Hin'.
    destruct (Ha r Hin') as [(due & Hd & ?)|?]; [left|by right]. exists due. rewrite E3. simpl. rewrite E1, delete_insert_id by done. done.
Qed.

Lemma account_next_cancellation_loop n w :
  wlp (next_cancellation_loop n) (λ p w', match p with
    | Ready (Some (Ok (_, _, i))) => ∃ w0, keeps_account now w w0 ∧ removed i w0 w'
    | _ => keeps_account now w w'
    end) w.
Proof.
  revert w. induction n as [|n IH]; intros w; [done|]. cbn [next_cancellation_loop]. apply wlp_bind.
  eapply wlp_mono; [apply (account_on_canceled now)|]. intros [[i|]|] w1 K1; [|by apply wlp_ret..].
  apply wlp_bind. eapply wlp_mono; [apply wlp_cancel|]. intros [[c sp]|] w2 [Hrm Hno].
  - apply wlp_ret. by exists w1.
  - assert (K2 : keeps_account now w w2).
    { etrans; [exact K1|]. intros [Ht Ha]. destruct Hrm as [Et Hrm], (Hrm Ht) as [Ht2 _]. split; [done|].
      unfold tracked, settled_with. rewrite Et, (Hno eq_refl Ht). exact Ha. }
    eapply wlp_mono; [apply IH|]. intros [[[[[c sp] j]|]|]|] w3 K3; try by etrans.
    destruct K3 as (w0 & K3 & ?). exists w0. split; [by etrans|done].
Qed.

(** Unless it fails. *)
Definition failed {A E} (r : Poll (option (Result A E))) : Prop := ∃ e, r = Ready (Some (Err e)).

Lemma account_poll_write_cancel bound w : wlp (poll_write_cancel bound) (λ p w', failed p ∨ keeps_account now w w') w.
Proof.
  apply wlp_bind. eapply wlp_mono.
  { apply wlp_bind. eapply wlp_mono; [apply (account_ensure_writeable now)|]. intros p w1 K1.
    instantiate (1 := λ p w', match p with
      | Ready (Some (Ok (_, _, i))) => ∃ w0, keeps_account now w w0 ∧ removed i w0 w'
      | _ => keeps_account now w w'
      end).
    assert (Hl : wlp (next_cancellation_loop bound) (λ p w', match p with
      | Ready (Some (Ok (_, _, i))) => ∃ w0, keeps_account now w w0 ∧ removed i w0 w'
      | _ => keeps_account now w w'
      end) w1).
    { eapply wlp_mono; [apply account_next_cancellation_loop|]. intros [[[[[c sp] j]|]|]|] w2 K2;
        try (etrans; [exact K1|exact K2]).
      destruct K2 as (w0 & K0 & ?). exists w0. split; [etrans; [exact K1|exact K0]|done]. }
    destruct p as [[[[]|e]|]|]; [exact Hl|by apply wlp_ret|exact Hl|by apply wlp_ret]. }
  intros [[[[[c sp] i]|e]|]|] w1 K1; [|apply wlp_ret; by right..]. destruct K1 as (w0 & K0 & [Et Hrm]).
  apply wlp_bind, wlp_wp, wp_on_transport. intros a t (Hs & Hr & _)%log_start_send.
  destruct a as [[]|e]; apply wlp_ret; [right|left; by eexists]. intros [Ht Ha]%K0. destruct (Hrm Ht) as [Ht1 E1].
  simpl in Hs. rewrite Et in Hs, Hr. split; [done|]. unfold settled_with. simpl. rewrite Hs, Hr. intros r [Hin|Hc%list_elem_of_singleton]%elem_of_app; [|done].
  destruct (decide (id r = i)) as [<-|Hne]; [right; left; eexists; apply elem_of_app; right; by left|].
  destruct (Ha r Hin) as [(due & Hd & ?)|[[tc ?]|?]]; [left|right; left; exists tc; apply elem_of_app; by left|right; by right].
  exists due. simpl. by rewrite E1, lookup_delete_ne.
Qed.

Lemma account_pump_write bound w : wlp (pump_write bound now) (λ p w', failed p ∨ keeps_account now w w') w.
Proof.
  apply wlp_bind. eapply wlp_mono; [apply (account_poll_write_request bound)|]. intros p w1 K1.
  assert (Hrest : ∀ s1, wlp (c ← poll_write_cancel bound;
    match c with
    | Ready (Some r) => mret (Ready (Some r))
    | Ready None | Pending =>
        x ← on_in_flight (λ i st, Done (CIF.poll_expired i st now (Err RpcError.DeadlineExceeded)));
        match x with
        | Ready (Some _) => mret (Ready (Some (Ok tt)))
        | _ => close_or_flush s1 (if is_pending c then StatusPending else StatusClosed)
        end
    end) (λ p w', failed p ∨ keeps_account now w w') w1).
  { intros s1. apply wlp_bind. eapply wlp_mono; [apply account_poll_write_cancel|]. intros c w2 K2.
    assert (Hk : ¬ failed c → keeps_account now w w2) by (destruct K2 as [?|K2]; [done|]; intros ?; etrans; [exact K1|exact K2]).
    destruct c as [[[[]|e]|]|]; try (apply wlp_ret; right; apply Hk; by intros [? ?]); [apply wlp_ret; left; by eexists|..];
      (assert (K2' : keeps_account now w w2) by (apply Hk; by intros [? ?]));
      (eapply wlp_mono; [eapply (keeps_bind (keeps_account now) _ _ (account_expired now _))|]);
      [keeps|intros r w3 K3; right; etrans; [exact K2'|exact K3]|keeps|intros r w3 K3; right; etrans; [exact K2'|exact K3]]. }
  destruct p as [[r|]|]; [apply wlp_ret; by right|apply Hrest..].
Qed.

Lemma account_run_loop bound n w :
  wlp (run_loop bound now n) (λ p w', (∃ e, p = Ready (Err e)) ∨ keeps_account now w w') w.
Proof.
  revert w. induction n as [|n IH]; intros w; [done|]. cbn [run_loop]. apply wlp_bind.
  eapply wlp_mono; [apply account_pump_read|]. intros read w1 K1.
  assert (Hloop : ∀ w2, keeps_account now w w2 → wlp (run_loop bound now n) (λ p w', (∃ e, p = Ready (Err e)) ∨ keeps_account now w w') w2).
  { intros w2 K2. eapply wlp_mono; [apply IH|]. intros r w3 [?|K3]; [by left|right; etrans; [exact K2|exact K3]]. }
  destruct read as [[[[]|e]|]|]; [|apply wlp_ret; by right|..]; apply wlp_bind;
    (eapply wlp_mono; [apply account_pump_write|]); intros wr w2 K2;
    (destruct wr as [[[[]|e2]|]|]; [|apply wlp_ret; left; by eexists|..]);
    (assert (Hk : keeps_account now w w2) by (destruct K2 as [[? ?]|K2]; [done|]; etrans; [exact K1|exact K2]));
    try (by apply Hloop); try (apply wlp_ret; by right);
    apply wlp_bind, wlp_get; destruct (CIF.is_empty _); try (by apply Hloop); apply wlp_ret; by right.
Qed.
End polls.

(** A whole poll, unless the dispatch has failed. *)
Definition same_error w w' : Prop := terminal_error (dispatch w') = terminal_error (dispatch w).

#[export] Instance same_error_preorder : PreOrder same_error.
Proof. split; unfold same_error; [by intros w|]. intros w1 w2 w3. congruence. Qed.

Lemma same_error_shut_down bound e : keeps same_error (shut_down_with_terminal_error bound e).
Proof.
  assert (Hp : ∀ A (f : mpsc (DispatchRequest (Span:=Span) (Req:=Req)) → A * mpsc DispatchRequest), keeps same_error (on_pending f)).
  { intros A f w a w' E. unfold on_pending in E. destruct (f _). by injection E as <- <-. }
  assert (Ho : ∀ f, keeps same_error (on_oneshots f)) by (intros f; by apply keeps_modify).
  assert (Hl : ∀ n, keeps same_error (drain_loop e n)) by (induction n as [|n IH]; cbn [drain_loop]; keeps).
  unfold shut_down_with_terminal_error. keeps. intros w. by apply wlp_on_in_flight.
Qed.

Lemma account_poll bound now w :
  wlp (poll bound now) (λ _ w', terminal_error (dispatch w') = None →
    terminal_error (dispatch w) = None ∧ keeps_account now w w') w.
Proof.
  assert (Hfail : ∀ n w, terminal_error (dispatch w) ≠ None →
    wlp (poll_loop bound now n) (λ _ w', terminal_error (dispatch w') ≠ None) w).
  { intros n w1 He. destruct n as [|n]; [done|]. cbn [poll_loop]. apply wlp_bind, wlp_get.
    destruct (terminal_error (dispatch w1)) as [stored|] eqn:Es; [|done].
    apply (wlp_mono _ (λ _ w', same_error w1 w')); [|unfold same_error; intros a w' Hs; by rewrite Hs, Es].
    apply (keeps_bind same_error); [keeps|]. intros e. apply keeps_bind; [apply _|apply same_error_shut_down|]. keeps. }
  unfold poll. cbn [poll_loop]. apply wlp_bind, wlp_get. destruct (terminal_error (dispatch w)) as [stored|] eqn:Es.
  { apply (wlp_mono _ (λ _ w', terminal_error (dispatch w') ≠ None)); [|by intros a w' ? ?].
    assert (He : terminal_error (dispatch w) ≠ None) by by rewrite Es.
    intros a w' E. apply (Hfail 1 w He a). cbn [poll_loop]. cbv [mbind M_bind get]. by rewrite Es. }
  apply wlp_bind. eapply wlp_mono; [apply account_run_loop|]. intros [[[]|e]|] w1 Hr.
  - apply wlp_ret. intros _. split; [done|]. by destruct Hr as [[? ?]|].
  - apply wlp_bind, wlp_modify. eapply wlp_mono; [by apply (Hfail 1)|]. by intros a w' He He'.
  - apply wlp_ret. intros _. split; [done|]. by destruct Hr as [[? ?]|].
Qed.
End accounts.

(** ** The client *)

Section client.
Context `{!DelayQueue, !DelayQueueLaws, !Oneshot, !OneshotLaws, !Mpsc, !MpscLaws, !Otel}.
Context {TypeId : Type} `{!EqDecision TypeId} {interp : TypeId → Type} {errty : TypeId}.
Context {Span Req Resp : Type}.
Context {T : Transport (ClientMessage Req) (Response Resp) (interp errty)} `{!TransportLog T}.
Context {Rng : Type} (gen_u64 : Rng → Z * Rng).
Context (peer : transport T → transport T → Prop).
Context (Hpeer : ∀ t t', peer t t' → sent t' = sent t ∧ received t' = received t ∧ ended t' = ended t).
Implicit Types s : System Span T.

(** *** What is written are the requests of the calls *)

Definition written_by (calls : list (Call interp Span Req Resp)) (ms : list (ClientMessage Req)) : Prop :=
  ∀ r, ClientRequest r ∈ ms → ∃ k c, calls !! k = Some c ∧ ClientRequest r = call_message k c.

Lemma dstep_written max now (a a' : AState (DynAny interp) Span Req Resp) r :
  dstep max now a a' → ClientRequest r ∈ a_sent a' →
  ClientRequest r ∈ a_sent a ∨ ∃ dr, dr ∈ mv_queue (a_pending a) ∧ ClientRequest r = request_message dr.
Proof.
  destruct 1 as [| dr q _ Hq| | |i q w| | | | | | | |]; simpl; auto;
    intros [?|Hn%list_elem_of_singleton]%elem_of_app; auto; [|done]. right. exists dr. split; [rewrite Hq; by left|done].
Qed.

Lemma dsteps_written max now (a a' : AState (DynAny interp) Span Req Resp) calls clock :
  client_inv max a calls clock → (clock ≤ now)%Z → dsteps max now a a' → written_by calls (a_sent a) → written_by calls (a_sent a').
Proof.
  intros Hinv Hle Hs. revert clock Hle Hinv. induction Hs as [|a1 a2 a3 Hd _ IH]; [done|]. intros clock Hle Hinv Hw.
  apply (IH now); [lia|by eapply dstep_client_inv|]. intros r [?|(dr & Hdr & ->)]%(dstep_written _ _ _ _ _ Hd); [auto|].
  destruct (ci_pending _ _ _ _ Hinv _ Hdr) as (c & Hc & _ & Hid & Hctx & Hreq). exists (dr_response_completion dr), c.
  split; [done|]. unfold request_message, call_message. by rewrite Hid, Hctx, Hreq.
Qed.

(** The steps of a call do not change what it asks for. *)
Definition same_call (f : Call interp Span Req Resp → World Span T → Call interp Span Req Resp * World Span T) : Prop :=
  ∀ c w, c_ctx (f c w).1 = c_ctx c ∧ c_request (f c w).1 = c_request c.

Lemma poll_call_same : same_call poll_call.
Proof.
  intros c w. assert (Ha : ∀ w, c_ctx (await_response c w).1 = c_ctx c ∧ c_request (await_response c w).1 = c_request c).
  { intros w'. unfold await_response. by destruct (guard_response _ _) as [[] ?]. }
  unfold poll_call. destruct (c_stage c); try done. destruct (mpsc_poll_send _ _) as [[[]|] ?]; [apply Ha|done..].
Qed.
Lemma drop_call_close_same : same_call drop_call_close.
Proof. intros c w. unfold drop_call_close. by destruct (c_stage c). Qed.
Lemma drop_call_cancel_same : same_call drop_call_cancel.
Proof. intros c w. unfold drop_call_cancel. by destruct (c_stage c). Qed.

(** *** All of it, in every state *)

Record account_inv s : Prop := {
  ai_accounted : terminal_error (dispatch (s_world s)) = None → accounted (s_clock s) (s_world s);
  ai_written : written_by (s_calls s) (sent (rd_transport (dispatch (s_world s))));
}.

Lemma account_world s w i h :
  in_flight_requests (dispatch w) = in_flight_requests (dispatch (s_world s)) →
  sent (rd_transport (dispatch w)) = sent (rd_transport (dispatch (s_world s))) →
  received (rd_transport (dispatch w)) = received (rd_transport (dispatch (s_world s))) →
  terminal_error (dispatch w) = terminal_error (dispatch (s_world s)) →
  account_inv s → account_inv (MkSystem w i h (s_calls s) (s_clock s)).
Proof.
  intros Ei Es Er Ee [Ha Hw]. split; simpl; [|by rewrite Es]. rewrite Ee. intros He.
  apply (account_same _ (s_world s)); [done|done|by rewrite Er|auto].
Qed.

Lemma account_caller f k s : caller_ok f → same_call f → sys_inv s → account_inv s → account_inv (on_call f k s).
Proof.
  intros Hf Hsame [_ _ Hg _] Ha. unfold on_call. destruct (s_calls s !! k) as [c|] eqn:Hk; [|done].
  destruct (Hf _ _ _ _ _ Hg Hk) as [(Ei & _ & Ee & Et) _]. destruct (Hsame c (s_world s)) as [Hc Hr].
  destruct (f c (s_world s)) as [c' w']. simpl in *.
  apply (account_world _ w' (s_next_request_id s) (s_handles s)) in Ha as [Ha Hw]; [|by rewrite ?Et..].
  split; [exact Ha|]. simpl in *. intros r Hin. destruct (Hw r Hin) as (j & d & Hj & ->). destruct (decide (j = k)) as [->|].
  - exists k, c'. rewrite list_lookup_insert_eq by (by eapply lookup_lt_Some). split; [done|]. simplify_eq. unfold call_message. by rewrite Hc, Hr.
  - exists j, d. by rewrite list_lookup_insert_ne.
Qed.

Lemma account_step bound s s' : step gen_u64 peer bound s s' → sys_inv s → account_inv s → account_inv s'.
Proof.
  intros Hst Hs Ha. destruct Hst as [now r w' Hle Hp|t' Ht'|active cx sp req rng|k|k|k| |].
  - pose proof Hs as [_ _ [Hc _] _]. destruct Ha as [Ha Hw]. split; simpl.
    + intros He. destruct (account_poll _ _ _ _ _ Hp He) as [He0 Hk]. apply Hk. by eapply accounted_later, Ha.
    + destruct (wp_done _ _ _ _ _ (wp_poll bound now _ (sys_inv_dinv _ Hs)) Hp) as (_ & _ & Hds & _).
      by eapply (dsteps_written _ _ (abs (s_world s)) (abs w')).
  - destruct (Hpeer _ _ Ht') as (E1 & E2 & _). by apply account_world.
  - unfold call_start. destruct (call_context _ _ _ _) as [cx' rng']. simpl.
    match goal with |- account_inv (MkSystem ?w ?i ?h _ _) => apply (account_world _ w i h) in Ha as [Ha Hw]; [|done..] end.
    split; [exact Ha|]. intros r Hin. destruct (Hw r Hin) as (k & c & Hk & ->). exists k, c. split; [by apply lookup_app_l_Some|done].
  - apply account_caller; [apply poll_call_ok|apply poll_call_same|done|done].
  - apply account_caller; [apply drop_call_close_ok|apply drop_call_close_same|done|done].
  - apply account_caller; [apply drop_call_cancel_ok|apply drop_call_cancel_same|done|done].
  - by apply account_world.
  - unfold drop_channel. destruct (s_handles s); [done|]. by apply account_world.
Qed.

Lemma account_reachable bound cfg t now s :
  client_reaches gen_u64 peer bound cfg t now s → account_inv s.
Proof.
  intros (Hcfg & Hsent & (s0 & Hnew & Hsteps) & Hlen). revert s Hsteps Hlen.
  apply (rtc_ind_r (λ s, (Z.of_nat (length (s_calls s)) ≤ u64_modulus)%Z → account_inv s)).
  - intros _. pose proof (new_inv _ _ _ _ Hcfg Hsent Hnew) as [Ht _ _ _].
    unfold new_system, new in Hnew. apply exec_bind_done in Hnew as (x & (p & Hp & [= <-])%exec_bind_done & [= <-]).
    split; [intros _; split; [done|]|unfold written_by]; simpl; rewrite Hsent; by intros r ?%elem_of_nil.
  - intros s1 s2 Hr Hstep IH Hl. pose proof (step_length gen_u64 peer _ _ _ Hstep) as Hle.
    assert (Hl1 : (Z.of_nat (length (s_calls s1)) ≤ u64_modulus)%Z) by lia.
    eapply account_step; [done| |auto]. eapply (reaches_inv gen_u64 peer Hpeer). split_and!; [done..| |done]. by exists s0.
Qed.

End client.
End ClientAccounts.
