(* ===== verification/ClientTermination.v ===== *)
(** * The client's loops end

    One poll of the dispatch finishes: with a bound on the iterations of its loops
    that depends on what is queued, in flight and readable at its start, it never
    runs out.  The transport must make progress ([TransportProgress]); on a transport
    that always has one more response ready, [run] would indeed not return. *)
From S2P Require Import Prelude Interfaces RefModels Trace Wire TimerTable Transport Cancellations ClientInFlight ClientDispatch ClientSpec ClientRefine ClientFrame ClientCalls ClientSafety ClientProps.

Module Termination.
Export Refine.

Section termination.
Context `{!DelayQueue, !DelayQueueLaws, !Oneshot, !OneshotLaws, !Mpsc, !MpscLaws}.
Context {TypeId : Type} `{!EqDecision TypeId} {interp : TypeId → Type} {errty : TypeId}.
Context {Span Req Resp : Type}.
Context {T : Transport (ClientMessage Req) (Response Resp) (interp errty)} `{!TransportLog T, !TransportProgress T}.
Implicit Types w : World Span T.

Abbreviation tr w := (rd_transport (dispatch w)).

Lemma on_transport_done {A} (f : transport T → A * transport T) w :
  on_transport f w = Done ((f (tr w)).1, set_transport (f (tr w)).2 w).
Proof. unfold on_transport. by destruct (f _). Qed.

Lemma terminates_on_transport {A} (f : transport T → A * transport T) w : terminates (on_transport f) w.
Proof. by eapply terminates_done, on_transport_done. Qed.

Lemma terminates_on_pending {A} (f : mpsc _ → A * mpsc _) w : terminates (on_pending (T:=T) (Span:=Span) f) w.
Proof. unfold terminates, on_pending. by destruct (f _). Qed.

Lemma terminates_on_canceled {A} (f : mpsc Z → A * mpsc Z) w : terminates (on_canceled f) w.
Proof. unfold terminates, on_canceled. by destruct (f _). Qed.

Lemma terminates_on_in_flight {A} f w :
  (f (in_flight_requests (dispatch w)) (oneshots w) ≠ OutOfFuel) → terminates (on_in_flight (A:=A) f) w.
Proof. unfold terminates, on_in_flight. by destruct (f _ _) as [[[??]?]| |]. Qed.

Lemma remove_fuel (q : delay_queue) k : dq_remove q k ≠ OutOfFuel.
Proof.
  destruct (dq_view q !! k) eqn:E.
  - by destruct (law_dq_remove q k) as (? & -> & _).
  - by rewrite law_dq_remove_absent.
Qed.

Lemma insert_request_fuel {Res} (s : CIF.InFlightRequests (Span:=Span)) (st : gmap nat (oneshot Res)) now i c sp l :
  CIF.insert_request s st now i c sp l ≠ OutOfFuel.
Proof.
  unfold CIF.insert_request. destruct (_ !! _); [done|].
  by destruct (dq_insert_cases (CIF.deadlines s) now i (time_until (deadline c) now)) as [(k & q & -> & _)|[-> _]].
Qed.

Lemma complete_request_fuel {Res} (s : CIF.InFlightRequests (Span:=Span)) (st : gmap nat (oneshot Res)) i r :
  CIF.complete_request s st i r ≠ OutOfFuel.
Proof.
  unfold CIF.complete_request. destruct (_ !! _) as [rd|]; [|done].
  pose proof (remove_fuel (CIF.deadlines s) (CIF.deadline_key rd)). by destruct (dq_remove _ _).
Qed.

Lemma cancel_request_fuel {Res} (s : CIF.InFlightRequests (Span:=Span)) (st : gmap nat (oneshot Res)) i :
  CIF.cancel_request s st i ≠ OutOfFuel.
Proof.
  unfold CIF.cancel_request. destruct (_ !! _) as [rd|]; [|done].
  pose proof (remove_fuel (CIF.deadlines s) (CIF.deadline_key rd)). by destruct (dq_remove _ _).
Qed.

Lemma terminates_poll_flush w : terminates poll_flush w.
Proof. apply terminates_bind; [apply terminates_on_transport|done]. Qed.
Lemma terminates_poll_close w : terminates poll_close w.
Proof. apply terminates_bind; [apply terminates_on_transport|done]. Qed.
Lemma terminates_poll_ready w : terminates poll_ready w.
Proof. apply terminates_bind; [apply terminates_on_transport|done]. Qed.

(** Two rounds are enough: a completed flush makes the transport ready. *)
Lemma terminates_ensure_writeable n w : 2 ≤ n → terminates (ensure_writeable_loop n) w.
Proof.
  destruct n as [|[|n]]; [lia|lia|intros _].
  assert (Hflushed : ∀ n w, flushed (tr w) = true → terminates (ensure_writeable_loop (S n)) w).
  { intros n' w' Hf. cbn [ensure_writeable_loop]. apply terminates_bind; [apply terminates_poll_ready|].
    unfold poll_ready. intros r w2 (p & w1 & Hp & Hr)%M_bind_done. rewrite on_transport_done in Hp.
    destruct (t_poll_ready (tr w')) as [p' t'] eqn:E. apply progress_poll_ready in E as [_ E].
    simplify_eq/=. injection Hr as <- <-. specialize (E Hf). by destruct p as [[]|]. }
  cbn [ensure_writeable_loop]. apply terminates_bind; [apply terminates_poll_ready|].
  intros [[[]|e]|] w1 _; [done..|]. apply terminates_bind; [apply terminates_poll_flush|].
  intros r w3 Hr. destruct r as [[[]|e]|]; [|done..]. apply Hflushed.
  unfold poll_flush in Hr. apply M_bind_done in Hr as (p & w2 & Hp & Hr). rewrite on_transport_done in Hp.
  destruct (t_poll_flush (tr w1)) as [p' t'] eqn:E. apply progress_poll_flush in E as [_ E].
  simplify_eq/=. injection Hr as Hr <-. simpl. apply E. by destruct p as [[[]|]|].
Qed.

Lemma wlp_recv_pending w :
  wlp (on_pending mpsc_poll_recv) (λ r w', ∃ p, w' = set_pending p w ∧
    recv_allowed (mpsc_view (pending_requests (dispatch w))) r (mpsc_view p)) w.
Proof. apply wlp_wp, wp_on_pending. intros r p Hp%law_poll_recv. eauto. Qed.

Lemma wlp_recv_canceled w :
  wlp (on_canceled Cancellations.poll_next) (λ r w', ∃ p, w' = set_canceled p w ∧
    recv_allowed (mpsc_view (canceled_requests (dispatch w))) r (mpsc_view p)) w.
Proof. apply wlp_wp, wp_on_canceled. intros r p Hp%law_poll_recv. eauto. Qed.

Lemma terminates_next_request_loop n w :
  length (mv_queue (mpsc_view (pending_requests (dispatch w)))) < n → terminates (next_request_loop n) w.
Proof.
  revert w. induction n as [|n IH]; intros w Hn; [lia|]. cbn [next_request_loop].
  eapply terminates_bind_wlp; [apply terminates_on_pending|apply wlp_recv_pending|].
  intros r w' (p & -> & Hp). destruct r as [[dr|]|]; [|done..].
  destruct Hp as (q & Hq & Hp). apply terminates_bind; [done|]. intros ? ? [= <- <-].
  destruct (CIF.store_is_closed _ _); [|done]. apply terminates_bind; [done|]. intros ? ? [= <- <-].
  apply IH. simpl. rewrite Hp. simpl. rewrite Hq in Hn. simpl in Hn. lia.
Qed.

Lemma terminates_drain_loop e n w :
  length (mv_queue (mpsc_view (pending_requests (dispatch w)))) < n → terminates (drain_loop e n) w.
Proof.
  revert w. induction n as [|n IH]; intros w Hn; [lia|]. cbn [drain_loop].
  eapply terminates_bind_wlp; [apply terminates_on_pending|apply wlp_recv_pending|].
  intros r w' (p & -> & Hp). destruct r as [[dr|]|]; [|done..].
  destruct Hp as (q & Hq & Hp). apply terminates_bind; [done|]. intros ? ? [= <- <-].
  apply IH. simpl. rewrite Hp. simpl. rewrite Hq in Hn. simpl in Hn. lia.
Qed.

Lemma terminates_next_cancellation_loop n w :
  length (mv_queue (mpsc_view (canceled_requests (dispatch w)))) < n → terminates (next_cancellation_loop n) w.
Proof.
  revert w. induction n as [|n IH]; intros w Hn; [lia|]. cbn [next_cancellation_loop].
  eapply terminates_bind_wlp; [apply terminates_on_canceled|apply wlp_recv_canceled|].
  intros r w' (p & -> & Hp). destruct r as [[i|]|]; [|done..]. destruct Hp as (q & Hq & Hp).
  apply (terminates_bind_wlp _ _ (λ _ w2, ∃ i' st, w2 = set_oneshots st (set_in_flight i' (set_canceled p w))));
    [apply terminates_on_in_flight, cancel_request_fuel|apply wlp_on_in_flight; eauto|].
  intros [[c sp]|] w2 (i' & st & ->); [done|].
  apply IH. simpl. rewrite Hp. simpl. rewrite Hq in Hn. simpl in Hn. lia.
Qed.

(** ** What can still be read *)

Lemma calms_pump_write bound now w : wlp (pump_write bound now) (λ _ w', unread (tr w') ≤ unread (tr w)) w.
Proof. eapply wlp_mono; [apply ClientFrame.moves_pump_write|]. intros a w' Hm. by apply progress_steps. Qed.

Lemma wlp_pump_read_unread w :
  wlp pump_read (λ r w', unread (tr w') ≤ unread (tr w) ∧
    (r = Ready (Some (Ok tt)) → unread (tr w') < unread (tr w))) w.
Proof.
  apply wlp_bind, wlp_wp, wp_on_transport. intros r t Hr%progress_poll_next.
  destruct r as [[[x|e]|]|]; try (apply wlp_ret; simpl in *; split; [lia|done]).
  apply wlp_bind, wlp_bind, wlp_on_in_flight. intros. apply wlp_ret, wlp_ret. simpl. split; [lia|done].
Qed.

(** ** One poll *)

(** A bound on the iterations of every loop of a poll that starts in [w]. *)
Definition enough w : nat := S (S (S (work (abs w) + unread (tr w)))).

Lemma terminates_poll_write_request bound now w : 2 ≤ bound → work (abs w) < bound → terminates (poll_write_request bound now) w.
Proof.
  intros H2' Hw. apply terminates_bind.
  - apply terminates_bind; [done|]. intros ? ? [= <- <-]. destruct (bool_decide _); [done|].
    eapply terminates_bind_wlp; [by apply terminates_ensure_writeable|apply wlp_wp, wp_ensure_writeable|].
    intros r w1 [Hq _]. destruct r as [[[]|]|]; try done; apply terminates_next_request_loop;
      destruct Hq as (t & -> & _); unfold work in Hw; simpl in *; lia.
  - intros [[[[c sp i req l]|e]|]|] w1 _; [|done..].
    apply terminates_bind; [apply terminates_on_in_flight, insert_request_fuel|]. intros r ? _.
    apply terminates_bind; [by destruct r|]. intros ? ? _.
    apply terminates_bind; [apply terminates_on_transport|]. intros [] ? _; [done|].
    apply terminates_bind; [apply terminates_on_in_flight, complete_request_fuel|done].
Qed.

Lemma terminates_poll_write_cancel bound w : 2 ≤ bound → work (abs w) < bound → terminates (poll_write_cancel bound) w.
Proof.
  intros H2' Hw. apply terminates_bind.
  - eapply terminates_bind_wlp; [by apply terminates_ensure_writeable|apply wlp_wp, wp_ensure_writeable|].
    intros r w1 [Hq _]. destruct r as [[[]|]|]; try done; apply terminates_next_cancellation_loop;
      destruct Hq as (t & -> & _); unfold work in Hw; simpl in *; lia.
  - intros [[[[[c sp] i]|e]|]|] w1 _; [|done..].
    apply terminates_bind; [apply terminates_on_transport|]. by intros [] ? _.
Qed.

Lemma terminates_pump_write bound now w :
  ready_world w → 2 ≤ bound → work (abs w) < bound → terminates (pump_write bound now) w.
Proof.
  intros Hw H2' Hb.
  eapply terminates_bind_wlp; [by apply terminates_poll_write_request|by apply wlp_wp, (wp_poll_write_request bound now)|].
  intros p w1 [Hok _]. apply ok_work in Hok. assert (Hb1 : work (abs w1) < bound) by lia.
  destruct p as [[r|]|]; [done|..]; (apply terminates_bind; [by apply terminates_poll_write_cancel|]);
    intros c w2 _; (destruct c as [[r|]|]; [done|..]);
    (apply terminates_bind; [by apply terminates_on_in_flight|]); intros x w3 _;
    (destruct x as [[i|]|]; [done|..]);
    (apply terminates_bind; [apply terminates_poll_flush || apply terminates_poll_close|]);
    by intros [[]|] ? _.
Qed.

Lemma terminates_pump_read w : terminates pump_read w.
Proof.
  apply terminates_bind; [apply terminates_on_transport|]. intros [[[x|e]|]|] w1 _; [|done..].
  apply terminates_bind; [|done]. apply terminates_bind; [|done]. apply terminates_on_in_flight, complete_request_fuel.
Qed.

Lemma terminates_run_loop bound now n w :
  ready_world w → 2 ≤ bound → work (abs w) < bound → work (abs w) + unread (tr w) < n →
  terminates (run_loop bound now n) w.
Proof.
  revert w. induction n as [|n IH]; intros w Hw H2' Hb Hn; [lia|]. cbn [run_loop].
  eapply (terminates_bind_wlp _ _ (λ r w', ok now w w' ∧ unread (tr w') ≤ unread (tr w) ∧
    (r = Ready (Some (Ok tt)) → unread (tr w') < unread (tr w)))); [apply terminates_pump_read| |].
  { intros r w1 E. split; [|by eapply wlp_pump_read_unread].
    by destruct (wp_done _ _ _ _ _ (wp_pump_read now w Hw) E). }
  intros r w1 (Hok1 & Hle1 & Hlt1). pose proof (ready_ok _ _ _ Hw Hok1) as Hw1. pose proof (ok_work _ _ _ Hok1).
  assert (Hpw : terminates (pump_write bound now) w1) by (apply terminates_pump_write; [done|done|lia]).
  assert (Hwlp : wlp (pump_write bound now) (λ r2 w2, ready_world w2 ∧ work (abs w2) ≤ work (abs w1) ∧
    unread (tr w2) ≤ unread (tr w1) ∧ (r2 = Ready (Some (Ok tt)) → work (abs w2) < work (abs w1))) w1).
  { intros r2 w2 E. destruct (wp_done _ _ _ _ _ (wp_pump_write bound now w1 Hw1) E) as [Hok2 Hlt2].
    split_and!; [by eapply ready_ok|by eapply ok_work|by eapply calms_pump_write|done]. }
  destruct r as [[[[]|e]|]|]; [specialize (Hlt1 eq_refl)|done|..];
    (eapply terminates_bind_wlp; [exact Hpw|exact Hwlp|]); intros r2 w2 (Hw2 & ? & ? & Hlt2);
    destruct r2 as [[[[]|e2]|]|]; try done; try specialize (Hlt2 eq_refl); try (apply IH; [done|done|lia|lia]);
    (apply terminates_bind; [done|]); intros ? ? [= <- <-]; destruct (CIF.is_empty _); try done;
    apply IH; [done|done|lia|lia].
Qed.

Lemma terminates_shut_down bound e w :
  length (mv_queue (mpsc_view (pending_requests (dispatch w)))) < bound →
  terminates (shut_down_with_terminal_error bound e) w.
Proof.
  intros Hb. apply terminates_bind; [apply terminates_on_pending|]. intros ? ? [= <- <-].
  apply terminates_bind; [by apply terminates_on_in_flight|]. intros ? ? [= <- <-].
  apply terminates_drain_loop. simpl. by rewrite law_close.
Qed.

Lemma terminates_poll bound now w : dinv w → enough w ≤ bound → terminates (poll bound now) w.
Proof.
  intros Hinv Hb. unfold enough in Hb.
  assert (Hsd : ∀ e w', work (abs w') ≤ work (abs w) → terminates (shut_down_with_terminal_error bound e) w').
  { intros e w' Hw'. apply terminates_shut_down. unfold work at 1 in Hw'. simpl in Hw'. lia. }
  unfold poll. cbn [poll_loop]. apply terminates_bind; [done|]. intros ? ? [= <- <-].
  destruct (terminal_error (dispatch w)) as [stored|] eqn:He.
  { apply terminates_bind; [by destruct (downcast _ _ _)|]. intros e w1 E.
    apply terminates_bind; [|by intros [] ? _]. apply Hsd.
    destruct (expect_ok _); [|done..]. by injection E as <- <-. }
  assert (Hw : ready_world w) by (split; [apply Hinv|apply Hinv|done]).
  eapply terminates_bind_wlp; [apply terminates_run_loop; [done|lia..]|by apply wlp_wp, wp_run_loop|].
  intros r w1 [Hok _]. pose proof (ok_work _ _ _ Hok). destruct r as [[[]|e]|]; [done| |done].
  apply terminates_bind; [done|]. intros ? ? [= <- <-].
  apply terminates_bind; [done|]. intros ? ? [= <- <-]. simpl.
  apply terminates_bind; [by destruct (downcast _ _ _)|]. intros e' w2 E.
  apply terminates_bind; [|by intros [] ? _]. apply Hsd.
  destruct (expect_ok _); [|done..]. by injection E as <- <-.
Qed.

(** C20: a poll of the dispatch returns: it neither panics nor runs forever, when the
    queued requests have deadlines the timer supports and every loop may make [enough]
    iterations, a number computed from what is queued, in flight and readable when the
    poll starts. *)
Theorem dispatch_poll_returns bound now w :
  dinv w → ClientFrame.near now w → enough w ≤ bound → ∃ r w', poll bound now w = Done (r, w').
Proof.
  intros Hinv Hn Hb. apply (ClientFrame.near_poll now bound) in Hn. pose proof (terminates_poll bound now w Hinv Hb) as Ht.
  pose proof (wp_poll bound now w Hinv) as Hw. unfold wp, terminates in *.
  destruct (poll bound now w) as [[r w']|[]|]; [eauto|done|done|done].
Qed.
End termination.

#[local] Instance demo_inner_progress : TransportProgress ClientProps.demo_inner :=
  MemChannel.unbounded_progress.
#[local] Instance demo_progress : TransportProgress ClientProps.demo_T :=
  logged_progress ClientProps.demo_inner.

Lemma dispatch_poll_returns_witness :
  ∃ r w', poll 9 3 (Calls.s_world ClientProps.demo_sent) = Done (r, w').
Proof.
  refine (dispatch_poll_returns 9 3 (Calls.s_world ClientProps.demo_sent) _ _ _); [|by vm_compute|by vm_compute; lia].
  apply Safety.sys_inv_dinv, (ClientProps.reaches_inv ClientProps.demo_rng ClientProps.demo_peer ClientProps.demo_peer_logs
    _ _ _ _ _ ClientProps.demo_sent_reaches).
Defined.
End Termination.
