(* ===== verification/ServerChannel.v ===== *)
(** * Server channels (tarpc/src/server.rs: [Channel], [BaseChannel])

    A channel is a transport with request lifecycle management: a stream of requests
    to serve and a sink of responses.  The trait is a class, since [Requests] and the
    limits are written against it; [BaseChannel] is its standard instance.  The state
    of a channel includes what it shares with the request handlers: the abort states
    and the channel on which dropped handlers report themselves. *)
From S2P Require Import Prelude Interfaces RefModels Trace Wire TimerTable Transport Cancellations ServerInFlight.

Module Server.

(** [Config], with its default. *)
Record Config := MkConfig { pending_response_buffer : Z }.
Definition config_default : Config := MkConfig 100.

(** [ResponseGuard]: the cancellation channel it sends to is the one of its channel. *)
Record ResponseGuard := MkResponseGuard {
  g_request_id : Z;
  g_cancel : bool;
}.

(** [TrackedRequest]: the registration is a location of the channel's abort states. *)
Record TrackedRequest (Span Req : Type) := MkTrackedRequest {
  tr_request : Request Req;
  tr_abort_registration : nat;
  tr_span : Span;
  tr_response_guard : ResponseGuard;
}.
Arguments MkTrackedRequest {Span Req} _ _ _ _.
Arguments tr_request {Span Req} _.
Arguments tr_abort_registration {Span Req} _.
Arguments tr_span {Span Req} _.
Arguments tr_response_guard {Span Req} _.

(** ** The trait [Channel]

    Stream, sink and the trait's own methods; [ch_guard_drop] is what dropping a
    [ResponseGuard] of a request of this channel does, and [ch_is_aborted] what an
    [Abortable] future registered with such a request sees. *)
Class Channel (Span Req Resp Error : Type) : Type := {
  channel : Type;
  ch_poll_next : nat → Z → M channel (Poll (option (Result (TrackedRequest Span Req) Error)));
  ch_poll_ready : M channel (Poll (Result unit Error));
  ch_start_send : Response Resp → M channel (Result unit Error);
  ch_poll_flush : M channel (Poll (Result unit Error));
  ch_poll_close : M channel (Poll (Result unit Error));
  ch_config : channel → Config;
  ch_in_flight_requests : channel → nat;
  ch_guard_drop : ResponseGuard → channel → channel;
  ch_is_aborted : nat → channel → bool;
}.
Arguments channel {_ _ _ _} _.

(** ** [BaseChannel] *)

Section model.
Context `{!DelayQueue, !Mpsc, !Abort, !Otel}.
Context {E Span Req Resp Rng : Type}.
Context {T : Transport (Response Resp) (ClientMessage Req) E}.
Context (gen_u64 : Rng → Z * Rng).

(** The span made for a request, and what the tracing layer makes of its context. *)
Context (new_span : Request Req → Span) (span_active : Span → OtelContext → option otel_span_context).

(** [transport] is a [Fuse<T>]: [T] stands for [fused] of the transport given. *)
Record BaseChannel := MkBaseChannel {
  bc_config : Config;
  bc_transport : transport T;
  (** Shared with the response guards. *)
  bc_canceled_requests : mpsc Z;
  bc_in_flight_requests : SIF.InFlightRequests (Span:=Span);
  (** Shared with the request handlers. *)
  bc_aborts : gmap nat abort_inner;
  (** The thread's random number generator. *)
  bc_rng : Rng;
}.

Definition set_transport (t : transport T) (b : BaseChannel) : BaseChannel :=
  MkBaseChannel (bc_config b) t (bc_canceled_requests b) (bc_in_flight_requests b) (bc_aborts b) (bc_rng b).
Definition set_canceled (c : mpsc Z) (b : BaseChannel) : BaseChannel :=
  MkBaseChannel (bc_config b) (bc_transport b) c (bc_in_flight_requests b) (bc_aborts b) (bc_rng b).
Definition set_in_flight (i : SIF.InFlightRequests) (ab : gmap nat abort_inner) (b : BaseChannel) : BaseChannel :=
  MkBaseChannel (bc_config b) (bc_transport b) (bc_canceled_requests b) i ab (bc_rng b).
Definition set_rng (r : Rng) (b : BaseChannel) : BaseChannel :=
  MkBaseChannel (bc_config b) (bc_transport b) (bc_canceled_requests b) (bc_in_flight_requests b) (bc_aborts b) r.

Definition on_transport {A} (f : transport T → A * transport T) : M BaseChannel A := λ b,
  let '(a, t) := f (bc_transport b) in Done (a, set_transport t b).
Definition on_canceled {A} (f : mpsc Z → A * mpsc Z) : M BaseChannel A := λ b,
  let '(a, c) := f (bc_canceled_requests b) in Done (a, set_canceled c b).
Definition on_in_flight {A}
    (f : SIF.InFlightRequests → gmap nat abort_inner → Exec (A * SIF.InFlightRequests * gmap nat abort_inner))
    : M BaseChannel A := λ b,
  match f (bc_in_flight_requests b) (bc_aborts b) with
  | Done (a, i, ab) => Done (a, set_in_flight i ab b)
  | Panicked p => Panicked p
  | OutOfFuel => OutOfFuel
  end.

(** [BaseChannel::new] and [with_defaults]. *)
Definition new (config : Config) (t : transport T) (rng : Rng) : BaseChannel :=
  MkBaseChannel config t Cancellations.cancellations SIF.default ∅ rng.
Definition with_defaults (t : transport T) (rng : Rng) : BaseChannel := new config_default t rng.

(** [Config::channel]. *)
Definition config_channel (self : Config) (t : transport T) (rng : Rng) : BaseChannel := new self t rng.

Definition remove_request (request_id : Z) : M BaseChannel (option Span) :=
  on_in_flight (λ i ab, x ← SIF.remove_request i request_id; Done (x.1, x.2, ab)).

(** The context a request is served with: the trace context of its span if there is
    one, or else a child of the client's. *)
Definition request_context (span : Span) (c : Context) (rng : Rng) : Context * Rng :=
  match trace_context_try_from (span_active span (set_context c)) with
  | Ok tc => (MkContext (deadline c) tc, rng)
  | Err _ => let '(tc, rng) := new_child gen_u64 (trace_context c) rng in (MkContext (deadline c) tc, rng)
  end.

(** [BaseChannel::start_request] at time [now]. *)
Definition start_request (now : Z) (request : Request Req) : M BaseChannel (Result (TrackedRequest Span Req) unit) :=
  let span := new_span request in
  b ← get;
  let '(ctx, rng) := request_context span (context request) (bc_rng b) in
  _ ← modify (set_rng rng);
  let request := MkRequest ctx (id request) (message request) in
  start ← on_in_flight (λ i ab, SIF.start_request i ab now (id request) (deadline (context request)) span);
  match start with
  | Ok abort_registration =>
      _ ← on_canceled (λ c, (tt, mpsc_clone_sender c));
      mret (Ok (MkTrackedRequest request abort_registration span (MkResponseGuard (id request) false)))
  | Err _ => mret (Err tt)
  end.

Inductive ReceiverStatus := StReady | StPending | StClosed.

Definition combine (a b : ReceiverStatus) : ReceiverStatus :=
  match a, b with
  | StReady, _ | _, StReady => StReady
  | StClosed, StClosed => StClosed
  | StPending, StClosed | StClosed, StPending | StPending, StPending => StPending
  end.

(** A handler that was dropped: forget its request. *)
Definition poll_cancellation : M BaseChannel ReceiverStatus :=
  c ← on_canceled Cancellations.poll_recv;
  match c with
  | Ready (Some request_id) => _ ← remove_request request_id; mret StReady
  | Pending | Ready None => mret StClosed
  end.

Definition poll_expiration (now : Z) : M BaseChannel ReceiverStatus :=
  x ← on_in_flight (λ i ab, Done (SIF.poll_expired i ab now));
  mret match x with
       | Ready (Some _) => StReady
       | Ready None => StClosed
       | Pending => StPending
       end.

(** [Stream::poll_next]. *)
Fixpoint poll_next_loop (now : Z) (n : nat)
    : M BaseChannel (Poll (option (Result (TrackedRequest Span Req) (ChannelError.t E)))) :=
  match n with
  | 0 => no_fuel
  | S n =>
      cancellation_status ← poll_cancellation;
      expiration_status ← poll_expiration now;
      let finish request_status :=
        match combine (combine cancellation_status expiration_status) request_status with
        | StReady => poll_next_loop now n
        | StClosed => mret (Ready None)
        | StPending => mret Pending
        end in
      message ← on_transport t_poll_next;
      match message with
      | Ready (Some (Err e)) => mret (Ready (Some (Err (ChannelError.Read e))))
      | Ready (Some (Ok (ClientRequest request))) =>
          r ← start_request now request;
          match r with
          | Ok request => mret (Ready (Some (Ok request)))
          | Err _ => poll_next_loop now n
          end
      | Ready (Some (Ok (ClientCancel trace_context request_id))) =>
          _ ← on_in_flight (λ i ab, SIF.cancel_request i ab request_id);
          finish StReady
      | Ready None => finish StClosed
      | Pending => finish StPending
      end
  end.

(** [Sink] for [BaseChannel]. *)
Definition poll_ready : M BaseChannel (Poll (Result unit (ChannelError.t E))) :=
  p ← on_transport t_poll_ready; mret (poll_map (result_map_err ChannelError.Ready) p).

Definition start_send (response : Response Resp) : M BaseChannel (Result unit (ChannelError.t E)) :=
  o ← remove_request (request_id response);
  match o with
  | Some _ => r ← on_transport (t_start_send response); mret (result_map_err ChannelError.Write r)
  | None => mret (Ok tt)
  end.

Definition poll_flush : M BaseChannel (Poll (Result unit (ChannelError.t E))) :=
  p ← on_transport t_poll_flush; mret (poll_map (result_map_err ChannelError.Flush) p).

Definition poll_close : M BaseChannel (Poll (Result unit (ChannelError.t E))) :=
  p ← on_transport t_poll_close; mret (poll_map (result_map_err ChannelError.Close) p).

(** [Drop for ResponseGuard]; its end of the cancellation channel goes with it. *)
Definition guard_drop (g : ResponseGuard) (b : BaseChannel) : BaseChannel :=
  let c := bc_canceled_requests b in
  let c := if g_cancel g then Cancellations.cancel (g_request_id g) c else c in
  set_canceled (mpsc_drop_sender c) b.

#[export] Instance base_channel : Channel Span Req Resp (ChannelError.t E) := {|
  channel := BaseChannel;
  ch_poll_next bound now := poll_next_loop now bound;
  ch_poll_ready := poll_ready;
  ch_start_send := start_send;
  ch_poll_flush := poll_flush;
  ch_poll_close := poll_close;
  ch_config := bc_config;
  ch_in_flight_requests b := SIF.len (bc_in_flight_requests b);
  ch_guard_drop := guard_drop;
  ch_is_aborted h b := SIF.is_aborted (bc_aborts b) h;
|}.
End model.

Arguments BaseChannel {_ _ _ _} Span {_ _} Rng T.
End Server.
