(* ===== verification/ServerRefine.v ===== *)
(** * [BaseChannel] keeps the promise of a server channel

    Its stream and sink are sequences of the events of [ServerSpec]; they do not
    panic, and its stream ends only when the client has closed its half and no
    request is in flight. *)
From S2P Require Import Prelude Interfaces RefModels Trace Wire TimerTable Transport Cancellations ServerInFlight ServerChannel ServerSpec.

Module ServerRefine.
Export ServerSpec.

Section refine.
Context `{!DelayQueue, !DelayQueueLaws, !Mpsc, !MpscLaws, !Abort, !AbortLaws, !Otel}.
Context {E Span Req Resp Rng : Type}.
Context {T : Transport (Response Resp) (ClientMessage Req) E} `{!TransportLog T}.
Context (gen_u64 : Rng → Z * Rng).
Context (new_span : Request Req → Span) (span_active : Span → OtelContext → option otel_span_context).
Implicit Types b : BaseChannel Span Rng T.

Definition abs b : BState Req Resp :=
  MkBState (SIF.abort_handle <$> SIF.request_data (bc_in_flight_requests b))
    (SIF.abs (bc_in_flight_requests b)) (bc_aborts b) (mpsc_view (bc_canceled_requests b))
    (sent (bc_transport b)) (received (bc_transport b)) (ended (bc_transport b)).

Definition binv b : Prop := SIF.inv (bc_in_flight_requests b) (bc_aborts b).

(** [b'] is reached from [b] by events of a channel, of which at most [k] start a request. *)
Record ok (now : Z) (k : nat) b b' : Prop := {
  ok_inv : binv b';
  ok_steps : bsteps now (abs b) (abs b');
  ok_config : bc_config b' = bc_config b;
  ok_size : size (b_tracked (abs b')) ≤ size (b_tracked (abs b)) + k;
}.

Lemma bok_refl now b : binv b → ok now 0 b b.
Proof. split; [done|apply rtc_refl|done|lia]. Qed.

Lemma bok_trans now k b1 b2 b3 : ok now 0 b1 b2 → ok now k b2 b3 → ok now k b1 b3.
Proof. intros [I1 S1 C1 Z1] [I2 S2 C2 Z2]. split; [done|by etrans|congruence|lia]. Qed.

Lemma bok_step now b b' a' :
  binv b' → bstep now (abs b) a' → abs b' = a' → bc_config b' = bc_config b →
  size (b_tracked a') ≤ size (b_tracked (abs b)) → ok now 0 b b'.
Proof. intros ?? <- ??. split; [done|by apply rtc_once|done|lia]. Qed.

Lemma ok_start now b b' a' :
  binv b' → bstep now (abs b) a' → abs b' = a' → bc_config b' = bc_config b →
  size (b_tracked a') ≤ S (size (b_tracked (abs b))) → ok now 1 b b'.
Proof. intros ?? <- ??. split; [done|by apply rtc_once|done|lia]. Qed.

Lemma bok_same now b b' : binv b' → abs b' = abs b → bc_config b' = bc_config b → ok now 0 b b'.
Proof. intros ? Ha ?. split; [done|rewrite Ha; apply rtc_refl|done|rewrite Ha; lia]. Qed.

Lemma tracked_lookup b i rd :
  SIF.request_data (bc_in_flight_requests b) !! i = Some rd → b_tracked (abs b) !! i = Some (SIF.abort_handle rd).
Proof. intros Hi. simpl. by rewrite lookup_fmap, Hi. Qed.

Lemma tracked_None b i :
  SIF.request_data (bc_in_flight_requests b) !! i = None → b_tracked (abs b) !! i = None.
Proof. intros Hi. simpl. by rewrite lookup_fmap, Hi. Qed.

Lemma wp_base_transport {A} (f : transport T → A * transport T) Q b :
  (∀ a t, f (bc_transport b) = (a, t) → Q a (set_transport t b)) → wp (on_transport f) Q b.
Proof. intros Hq. unfold wp, on_transport. destruct (f _) as [a t] eqn:Hf. by apply Hq. Qed.

Lemma wp_base_canceled {A} (f : mpsc Z → A * mpsc Z) Q b :
  (∀ a c, f (bc_canceled_requests b) = (a, c) → Q a (set_canceled c b)) → wp (on_canceled f) Q b.
Proof. intros Hq. unfold wp, on_canceled. destruct (f _) as [a t] eqn:Hf. by apply Hq. Qed.

Lemma wp_base_in_flight {A} f (a : A) i ab Q b :
  f (bc_in_flight_requests b) (bc_aborts b) = Done (a, i, ab) →
  Q a (set_in_flight i ab b) → wp (on_in_flight f) Q b.
Proof. intros Hf Hq. unfold wp, on_in_flight. by rewrite Hf. Qed.

Lemma wp_base_far {A} f Q b :
  f (bc_in_flight_requests b) (bc_aborts b) = Panicked FarDeadline → wp (on_in_flight (A:=A) f) Q b.
Proof. intros Hf. unfold wp, on_in_flight. by rewrite Hf. Qed.

(** Forgetting a request: the table shrinks, the abort states stay. *)
Lemma wp_remove_request i Q b :
  binv b →
  (∀ rd s', SIF.request_data (bc_in_flight_requests b) !! i = Some rd →
     binv (set_in_flight s' (bc_aborts b) b) →
     abs (set_in_flight s' (bc_aborts b) b) = untrack i (abs b) →
     Q (Some (SIF.span rd)) (set_in_flight s' (bc_aborts b) b)) →
  (SIF.request_data (bc_in_flight_requests b) !! i = None → Q None b) →
  wp (remove_request i) Q b.
Proof.
  intros Hinv Hs Hn. pose proof (SIF.remove_request_spec _ (bc_aborts b) i Hinv) as Hr.
  destruct (SIF.request_data _ !! i) as [rd|] eqn:Hi.
  - destruct Hr as (s' & Hr & Hrd & Habs & Hinv').
    eapply wp_base_in_flight; [by rewrite Hr|]. apply Hs; [done|done|].
    unfold abs. simpl. by rewrite Hrd, Habs, fmap_delete.
  - eapply wp_base_in_flight; [by rewrite Hr|]. replace (set_in_flight _ _ b) with b by by destruct b. auto.
Qed.

Lemma wp_poll_cancellation now b : binv b → wp poll_cancellation (λ r b', ok now 0 b b' ∧ r ≠ StPending) b.
Proof.
  intros Hinv. apply wp_bind, wp_base_canceled. intros r c Hc%Cancellations.poll_next_view.
  destruct r as [[i|]|]; simpl in Hc; cycle 1.
  { apply wp_ret. split; [|done]. apply bok_same; [done| |done]. unfold abs. simpl. by destruct Hc as (_ & _ & ->). }
  { apply wp_ret. split; [|done]. apply bok_same; [done| |done]. unfold abs. simpl. by rewrite Hc. }
  destruct Hc as (q & Hq & Hc). apply wp_bind. apply wp_remove_request; [done|..].
  - intros rd s' Hi Hinv' Habs. apply wp_ret. split; [|done].
    eapply bok_step; [done|by eapply (b_forget _ _ i)| |done|apply gmap_size_delete_le]. rewrite Habs. unfold abs, untrack. simpl. by rewrite Hc.
  - intros Hi. apply wp_ret. split; [|done]. simpl in Hi.
    eapply bok_step; [done|by eapply (b_forget _ _ i)| |done|apply gmap_size_delete_le]. unfold abs, untrack. simpl. rewrite Hc.
    rewrite !delete_id; [done|by apply (SIF.abs_None _ _ _ Hinv)|by rewrite lookup_fmap, Hi].
Qed.

Lemma wp_poll_expiration now b :
  binv b → wp (poll_expiration now) (λ r b', ok now 0 b b' ∧
    (r = StClosed → SIF.request_data (bc_in_flight_requests b') = ∅)) b.
Proof.
  intros Hinv. apply wp_bind.
  destruct (SIF.poll_expired (bc_in_flight_requests b) (bc_aborts b) now) as [[r s'] ab'] eqn:Hp.
  eapply wp_base_in_flight; [exact (f_equal Done Hp)|]. apply wp_ret.
  apply SIF.poll_expired_spec in Hp as [Hinv' Hr]; [|done]. destruct r as [[i|]|].
  - split; [|done]. destruct Hr as (rd & due & Hi & Hdue & Hle & Hrd & Habs & ->).
    eapply bok_step; [done|eapply (b_expire _ _ i); [by apply tracked_lookup| |done]| |done|apply gmap_size_delete_le].
    + simpl. unfold SIF.abs. by rewrite due_map_lookup.
    + unfold abs. simpl. by rewrite Hrd, Habs, fmap_delete.
  - destruct Hr as (Hrd & -> & ->). split; [|done]. apply bok_same; [done|done|done].
  - destruct Hr as (_ & Hrd & Habs & ->). split; [|done]. apply bok_same; [done| |done].
    unfold abs. simpl. by rewrite Hrd, Habs.
Qed.

(** A message of the client has just been read. *)
Lemma wp_poll_next_transport b :
  wp (on_transport t_poll_next) (λ r b', bc_in_flight_requests b' = bc_in_flight_requests b ∧
    bc_aborts b' = bc_aborts b ∧ bc_config b' = bc_config b ∧
    match r with
    | Ready (Some (Ok m)) => abs b' = log_received m (abs b)
    | Ready None => abs b' = set_ended (abs b)
    | _ => abs b' = abs b
    end) b.
Proof.
  apply wp_base_transport. intros r t (Hs & Hr & He)%log_poll_next. split_and!; [done..|].
  destruct r as [[[m|e]|]|]; unfold abs; simpl; rewrite ?app_nil_r in Hr; by rewrite Hs, Hr, He.
Qed.

(** What starting a request gives its handler. *)
Definition started (r : Request Req) (tr : TrackedRequest Span Req) b' : Prop :=
  ClientRequest r ∈ received (bc_transport b') ∧
  id (tr_request tr) = id r ∧ message (tr_request tr) = message r ∧
  deadline (context (tr_request tr)) = deadline (context r) ∧
  tr_response_guard tr = MkResponseGuard (id r) false ∧
  b_tracked (abs b') !! id r = Some (tr_abort_registration tr) ∧
  SIF.is_aborted (bc_aborts b') (tr_abort_registration tr) = false.

Lemma request_context_deadline sp c rng :
  deadline (request_context gen_u64 span_active sp c rng).1 = deadline c.
Proof.
  unfold request_context. destruct (trace_context_try_from _); [done|]. by destruct (new_child _ _ _).
Qed.

(** The account a started request is given. *)
Definition start_event (now : Z) (r : Request Req) (tr : TrackedRequest Span Req) (a a' : BState Req Resp) : Prop :=
  b_aborts a !! tr_abort_registration tr = None ∧
  a' = set_canceled_view (add_sender (b_canceled a))
         (track (id r) (tr_abort_registration tr) (Z.max now (deadline (context r))) (log_received (ClientRequest r) a)).

(** [b0] is the channel before the message was read. *)
Lemma wp_start_request now b0 b r :
  binv b → bc_config b = bc_config b0 → abs b = log_received (ClientRequest r) (abs b0) →
  wp (start_request gen_u64 new_span span_active now r) (λ res b',
    match res with
    | Ok tr => (ok now 1 b0 b' ∧ started r tr b') ∧ start_event now r tr (abs b0) (abs b')
    | Err _ => (ok now 0 b0 b' ∧ is_Some (b_tracked (abs b0) !! id r)) ∧ abs b' = abs b
    end) b.
Proof.
  intros Hinv Hcfg Hb. unfold start_request. apply wp_bind, wp_get.
  pose proof (request_context_deadline (new_span r) (context r) (bc_rng b)) as Hdl.
  destruct (request_context _ _ _ _ _) as [ctx rng]. simpl in Hdl. apply wp_bind, wp_modify, wp_bind. simpl. rewrite Hdl.
  destruct (SIF.start_request_cases (bc_in_flight_requests b) (bc_aborts b) now (id r) (deadline (context r)) (new_span r))
    as [(res & s' & ab' & Hs & Hr)|(Hs & _)]; [|by apply wp_base_far].
  eapply wp_base_in_flight; [exact Hs|].
  pose proof (SIF.start_request_inv _ _ _ _ _ _ _ _ _ Hinv Hs) as Hinv'.
  assert (Htr : b_tracked (abs b0) = b_tracked (abs b)) by by rewrite Hb.
  assert (Hrec : ClientRequest r ∈ received (bc_transport b)).
  { change (ClientRequest r ∈ b_received (abs b)). rewrite Hb. apply elem_of_app. right. by left. }
  destruct res as [h|[]].
  - destruct (SIF.abs_start _ _ _ _ _ _ _ _ _ Hinv Hs) as [Hnone Habs].
    unfold SIF.start_request in Hs. destruct (SIF.request_data _ !! _) eqn:Hi; [done|].
    destruct (dq_insert _ _ _ _) as [[k dl]| |] eqn:Hdq; [|done..]. simpl in Hs. simplify_eq/=. set (h := fresh (dom (bc_aborts b))) in *.
    apply wp_bind, wp_base_canceled. intros [] c [= <-]. apply wp_ret.
    assert (Hev : start_event now r (MkTrackedRequest (MkRequest ctx (id r) (message r)) h (new_span r) (MkResponseGuard (id r) false))
      (abs b0) (abs (set_canceled (mpsc_clone_sender (bc_canceled_requests b)) (set_in_flight
        (SIF.MkInFlightRequests (<[id r := SIF.MkRequestData h k (new_span r)]> (SIF.request_data (bc_in_flight_requests b))) dl)
        (<[h := abort_new]> (bc_aborts b)) (set_rng rng b))))).
    { split.
      - change (b_aborts (log_received (ClientRequest r) (abs b0)) !! h = None). rewrite <- Hb.
        apply not_elem_of_dom, is_fresh.
      - change (b_canceled (abs b0)) with (b_canceled (log_received (ClientRequest r) (abs b0))). rewrite <- Hb.
        unfold abs. simpl. by rewrite fmap_insert, law_clone_sender, Habs. }
    split; [|exact Hev]. destruct Hev as [Hfresh Hev]. split; [|split_and!; simpl; try done].
    + eapply ok_start; [done|eapply (b_start _ _ r h); [|exact Hfresh]|exact Hev|done|apply gmap_size_insert_le].
      change (b_tracked (log_received (ClientRequest r) (abs b0)) !! id r = None). rewrite <- Hb. by apply tracked_None.
    + by rewrite fmap_insert, lookup_insert_eq.
    + unfold SIF.is_aborted. by rewrite lookup_insert_eq, law_abort_new.
  - destruct Hr as ([rd Hi] & -> & ->); [done|]. apply wp_ret. apply tracked_lookup in Hi. rewrite <- Htr in Hi. split; [split; [|eauto]|done].
    by eapply bok_step; [done|by eapply (b_duplicate _ _ r)|..].
Qed.

Lemma wp_cancel_request now tc i b0 b :
  binv b → bc_config b = bc_config b0 → abs b = log_received (ClientCancel tc i) (abs b0) →
  wp (on_in_flight (λ t ab, SIF.cancel_request t ab i)) (λ _ b', ok now 0 b0 b') b.
Proof.
  intros Hinv Hcfg Hb. pose proof (SIF.cancel_request_spec _ _ i Hinv) as Hcs.
  assert (Htr : b_tracked (abs b0) = b_tracked (abs b)) by by rewrite Hb.
  destruct (SIF.request_data _ !! i) as [rd|] eqn:Hi.
  - destruct Hcs as (s' & Hcs & Hrd & Habs & Hinv'). eapply wp_base_in_flight; [exact Hcs|].
    eapply bok_step; [done|eapply (b_cancel _ _ tc i); rewrite Htr; by apply tracked_lookup| |done|apply gmap_size_delete_le].
    rewrite <- Hb. unfold abs. simpl. by rewrite Hrd, Habs, fmap_delete.
  - eapply wp_base_in_flight; [exact Hcs|].
    eapply bok_step; [done|eapply (b_cancel_ignored _ _ tc i); rewrite Htr; by apply tracked_None| |done|done].
    rewrite <- Hb. by destruct b.
Qed.

(** What a poll of the stream tells its caller. *)
Definition next_post (r : Poll (option (Result (TrackedRequest Span Req) (ChannelError.t E)))) b' : Prop :=
  match r with
  | Ready (Some (Ok tr)) => ∃ r, started r tr b'
  | Ready None => ended (bc_transport b') = true ∧ SIF.request_data (bc_in_flight_requests b') = ∅
  | _ => True
  end.

(** How many requests a poll of the stream hands out. *)
Definition yields {A B} (r : Poll (option (Result A B))) : nat :=
  match r with Ready (Some (Ok _)) => 1 | _ => 0 end.

Lemma wp_poll_next now n b :
  binv b → wp (poll_next_loop gen_u64 new_span span_active now n) (λ r b', ok now (yields r) b b' ∧ next_post r b') b.
Proof.
  revert b. induction n as [|n IH]; intros b Hinv; [done|]. cbn [poll_next_loop].
  apply wp_bind. eapply wp_mono; [by apply (wp_poll_cancellation now)|]. intros st1 b1 [Hok1 Hst1].
  apply wp_bind. eapply wp_mono; [apply (wp_poll_expiration now), Hok1|]. intros st2 b2 [Hok2 Hst2].
  pose proof (bok_trans _ _ _ _ _ Hok1 Hok2) as Hok. clear Hok1 Hok2.
  assert (Hloop : ∀ b3, ok now 0 b b3 → wp (poll_next_loop gen_u64 new_span span_active now n)
    (λ r b', ok now (yields r) b b' ∧ next_post r b') b3).
  { intros b3 Hok3. eapply wp_mono; [apply IH, Hok3|]. intros r b4 []. split; [by eapply bok_trans|done]. }
  apply wp_bind. eapply wp_mono; [apply wp_poll_next_transport|].
  intros m b3 (Ei & Ea & Ec & Hm).
  assert (Hinv3 : binv b3) by (unfold binv; rewrite Ei, Ea; apply Hok).
  assert (Hc3 : bc_config b3 = bc_config b) by (rewrite Ec; apply Hok).
  destruct m as [[[[r|tc i]|e]|]|].
  - apply wp_bind. eapply wp_mono; [by apply (wp_start_request now b2)|]. intros [tr|[]] b4 [[Hok4 Hr] _].
    + apply wp_ret. split; [by eapply bok_trans|by exists r].
    + apply Hloop. by eapply bok_trans.
  - apply wp_bind. eapply wp_mono; [apply (wp_cancel_request now tc i b2); [done|by rewrite Ec|done]|]. intros ? b4 Hok4.
    replace (combine (combine st1 st2) StReady) with StReady by by destruct st1, st2.
    apply Hloop. by eapply bok_trans.
  - apply wp_ret. split; [|done]. eapply bok_trans; [exact Hok|]. by apply bok_same.
  - assert (ok now 0 b b3) as Hok3.
    { eapply bok_trans; [exact Hok|]. by eapply bok_step; [|apply b_end|..]. }
    destruct st1, st2; simpl; try (by apply Hloop); try (by apply wp_ret); try done.
    apply wp_ret. split; [done|]. split; [|rewrite Ei; by apply Hst2].
    change (b_ended (abs b3) = true). by rewrite Hm.
  - assert (ok now 0 b b3) as Hok3.
    { eapply bok_trans; [exact Hok|]. by apply bok_same. }
    destruct st1, st2; simpl; try (by apply Hloop); by apply wp_ret.
Qed.

(** Reading writes nothing. *)
Definition silent {A} (m : M (BaseChannel Span Rng T) A) : Prop :=
  ∀ b, wlp m (λ _ b', sent (bc_transport b') = sent (bc_transport b)) b.

Lemma silent_bind {A B} (m : M (BaseChannel Span Rng T) A) (f : A → M (BaseChannel Span Rng T) B) :
  silent m → (∀ a, silent (f a)) → silent (m ≫= f).
Proof.
  intros Hm Hf b. apply wlp_bind. eapply wlp_mono; [apply Hm|]. intros a b1 E1.
  eapply wlp_mono; [apply Hf|]. intros ? b2 E2. by rewrite E2.
Qed.

Lemma silent_ret {A} (a : A) : silent (mret a).
Proof. intros b. by apply wlp_ret. Qed.
Lemma silent_get : silent get.
Proof. intros b. by apply wlp_get. Qed.
Lemma silent_set_rng rng : silent (modify (set_rng rng)).
Proof. intros b. by apply wlp_modify. Qed.
Lemma silent_no_fuel {A} : silent (no_fuel (A:=A)).
Proof. by intros b a b'. Qed.
Lemma silent_on_canceled {A} (f : mpsc Z → A * mpsc Z) : silent (on_canceled f).
Proof. intros b. by apply wlp_wp, wp_base_canceled. Qed.
Lemma silent_on_in_flight {A} f : silent (on_in_flight (A:=A) f).
Proof.
  intros b a b'. unfold on_in_flight. destruct (f _ _) as [[[a' i] ab]| |]; [|done..]. by intros [= <- <-].
Qed.
Lemma silent_poll_next : silent (on_transport t_poll_next).
Proof. intros b. apply wlp_wp, wp_base_transport. by intros r t (? & _)%log_poll_next. Qed.

Hint Resolve silent_ret silent_get silent_set_rng silent_no_fuel silent_on_canceled silent_on_in_flight
  silent_poll_next : tarpc.

Lemma silent_poll_next_loop now n : silent (poll_next_loop gen_u64 new_span span_active now n).
Proof.
  induction n as [|n IH]; cbn [poll_next_loop]; unfold poll_cancellation, poll_expiration, remove_request, start_request;
    repeat match goal with
    | |- silent (_ ≫= _) => apply silent_bind; [|intros ?]
    | |- silent (let '(_, _) := ?x in _) => destruct x
    | |- silent (match ?x with _ => _ end) => destruct x
    | |- silent _ => solve [eauto with tarpc]
    end.
Qed.

(** ** The sink *)

Lemma wp_pass now (f : transport T → Poll (Result unit E) * transport T) c b :
  (∀ t r t', f t = (r, t') → sent t' = sent t ∧ received t' = received t ∧ ended t' = ended t) → binv b →
  wp (p ← on_transport f; mret (poll_map (result_map_err c) p))
     (λ (_ : Poll (Result unit (ChannelError.t E))) b', ok now 0 b b') b.
Proof.
  intros Hf Hinv. apply wp_bind, wp_base_transport. intros r t (Hs & Hr & He)%Hf. apply wp_ret.
  apply bok_same; [done| |done]. unfold abs. simpl. by rewrite Hs, Hr, He.
Qed.

Lemma wp_base_poll_ready now b : binv b → wp poll_ready (λ _ b', ok now 0 b b') b.
Proof. apply wp_pass, log_poll_ready. Qed.
Lemma wp_base_poll_flush now b : binv b → wp poll_flush (λ _ b', ok now 0 b b') b.
Proof. apply wp_pass, log_poll_flush. Qed.
Lemma wp_base_poll_close now b : binv b → wp poll_close (λ _ b', ok now 0 b b') b.
Proof. apply wp_pass, log_poll_close. Qed.

(** A response is written if its request is tracked, and dropped if not; either way
    the request is not tracked any more. *)
Lemma wp_start_send now r b :
  binv b →
  wp (start_send r) (λ res b', ok now 0 b b' ∧
    b_tracked (abs b') = delete (request_id r) (b_tracked (abs b)) ∧
    match b_tracked (abs b) !! request_id r with
    | Some _ => sent (bc_transport b') = sent (bc_transport b) ++ (if is_ok res then [r] else [])
    | None => b' = b ∧ res = Ok tt
    end) b.
Proof.
  intros Hinv. apply wp_bind, wp_remove_request; [done|..].
  - intros rd s' Hi Hinv' Habs. rewrite (tracked_lookup _ _ _ Hi).
    apply wp_bind, wp_base_transport. intros res t (Hs & Hr & He)%log_start_send. apply wp_ret. simpl in *.
    assert (Ht : b_tracked (abs (set_transport t (set_in_flight s' (bc_aborts b) b))) =
      delete (request_id r) (b_tracked (abs b))) by exact (f_equal b_tracked Habs).
    split_and!; [|exact Ht|by destruct res].
    destruct res as [[]|e]; simpl in Hs.
    + eapply bok_step; [done|eapply (b_respond _ _ r); by apply tracked_lookup| |done|apply gmap_size_delete_le].
      rewrite <- Habs. unfold abs, log_sent. simpl. by rewrite Hs, Hr, He.
    + eapply bok_step; [done|eapply (b_respond_failed _ _ (request_id r)); by apply tracked_lookup| |done|apply gmap_size_delete_le].
      rewrite <- Habs. unfold abs. simpl. by rewrite Hs, Hr, He, app_nil_r.
  - intros Hi%tracked_None. rewrite Hi. apply wp_ret. split; [by apply bok_refl|].
    by rewrite delete_id.
Qed.

End refine.
End ServerRefine.
