(* ===== verification/ServerRequests.v ===== *)
(** * Serving requests (tarpc/src/server.rs: [Requests], [InFlightRequest])

    [Requests] drives a channel: it hands out requests to serve and writes the
    responses its handlers queue.  It is written against [Channel]; what it relies on
    is [ChannelLaws], which [BaseChannel] is shown to satisfy. *)
From S2P Require Import Prelude Interfaces RefModels Trace Wire TimerTable Transport Cancellations ServerInFlight ServerChannel ServerSpec ServerRefine.

Module Requests.
Export ServerRefine.

(** ** The interface between [Requests] and its channel *)

Section laws.
Context `{!Abort} {Span Req Resp Error : Type}.

(** A channel operation: events of a channel, at most [k] of them starting a request. *)
Record channel_ok {W} (inv : W → Prop) (abs : W → BState Req Resp) (now : Z) (k : nat) (w w' : W) : Prop := {
  cok_inv : inv w';
  cok_steps : bsteps now (abs w) (abs w');
  cok_size : size (b_tracked (abs w')) ≤ size (b_tracked (abs w)) + k;
}.

Lemma channel_ok_refl {W} inv abs now (w : W) : inv w → channel_ok inv abs now 0 w w.
Proof. intros. split; [done|apply rtc_refl|lia]. Qed.

Lemma channel_ok_trans {W} inv abs now k1 k2 (w1 w2 w3 : W) :
  channel_ok inv abs now k1 w1 w2 → channel_ok inv abs now k2 w2 w3 → channel_ok inv abs now (k1 + k2) w1 w3.
Proof. intros [I1 S1 Z1] [I2 S2 Z2]. split; [done|by etrans|lia]. Qed.

(** A request handed out: it came from the client, is tracked, and is not aborted. *)
Definition handed_out (tr : TrackedRequest Span Req) (aborted : nat → bool) (a : BState Req Resp) : Prop :=
  (∃ r, ClientRequest r ∈ b_received a ∧ id (tr_request tr) = id r ∧ message (tr_request tr) = message r ∧
     deadline (context (tr_request tr)) = deadline (context r)) ∧
  tr_response_guard tr = MkResponseGuard (id (tr_request tr)) false ∧
  b_tracked a !! id (tr_request tr) = Some (tr_abort_registration tr) ∧
  aborted (tr_abort_registration tr) = false.

Class ChannelLaws (C : Channel Span Req Resp Error) : Type := {
  ch_inv : channel C → Prop;
  ch_abs : channel C → BState Req Resp;
  (** Responses the channel makes up itself. *)
  ch_own_response : Response Resp → Prop;
  law_ch_poll_next bound now c : ch_inv c →
    wp (ch_poll_next bound now) (λ r c',
      channel_ok ch_inv ch_abs now (yields r) c c' ∧
      (∃ own, b_sent (ch_abs c') = b_sent (ch_abs c) ++ own ∧ Forall ch_own_response own) ∧
      match r with
      | Ready (Some (Ok tr)) => handed_out tr (λ h, ch_is_aborted h c') (ch_abs c')
      | Ready None => b_ended (ch_abs c') = true ∧ b_tracked (ch_abs c') = ∅
      | _ => True
      end) c;
  law_ch_poll_ready c : ch_inv c → wp ch_poll_ready (λ _ c', ch_inv c' ∧ ch_abs c' = ch_abs c) c;
  law_ch_poll_flush c : ch_inv c → wp ch_poll_flush (λ _ c', ch_inv c' ∧ ch_abs c' = ch_abs c) c;
  law_ch_poll_close c : ch_inv c → wp ch_poll_close (λ _ c', ch_inv c' ∧ ch_abs c' = ch_abs c) c;
  law_ch_start_send now r c : ch_inv c →
    wp (ch_start_send r) (λ res c',
      channel_ok ch_inv ch_abs now 0 c c' ∧
      b_tracked (ch_abs c') = delete (request_id r) (b_tracked (ch_abs c)) ∧
      b_sent (ch_abs c') = b_sent (ch_abs c) ++
        (if b_tracked (ch_abs c) !! request_id r then if is_ok res then [r] else [] else [])) c;
  law_ch_in_flight c : ch_inv c → ch_in_flight_requests c = size (b_tracked (ch_abs c));
  law_ch_guard_drop now g c : ch_inv c →
    channel_ok ch_inv ch_abs now 0 c (ch_guard_drop g c) ∧
    b_tracked (ch_abs (ch_guard_drop g c)) = b_tracked (ch_abs c) ∧
    b_sent (ch_abs (ch_guard_drop g c)) = b_sent (ch_abs c) ∧
    b_received (ch_abs (ch_guard_drop g c)) = b_received (ch_abs c) ∧
    ∀ h, ch_is_aborted h (ch_guard_drop g c) = ch_is_aborted h c;
}.
End laws.

(** Laws are looked up for a given channel, never to find one. *)
#[export] Hint Mode ChannelLaws - - - - - ! : typeclass_instances.

(** ** [BaseChannel] satisfies it *)

Section base_laws.
Context `{!DelayQueue, !DelayQueueLaws, !Mpsc, !MpscLaws, !Abort, !AbortLaws, !Otel}.
Context {E Span Req Resp Rng : Type}.
Context {T : Transport (Response Resp) (ClientMessage Req) E} `{!TransportLog T}.
Context (gen_u64 : Rng → Z * Rng).
Context (new_span : Request Req → Span) (span_active : Span → OtelContext → option otel_span_context).

Lemma ok_channel_ok now k (b b' : BaseChannel Span Rng T) : ok now k b b' → channel_ok binv abs now k b b'.
Proof. intros []. by split. Qed.

Lemma wp_pass_abs (f : transport T → Poll (Result unit E) * transport T) c (b : BaseChannel Span Rng T) :
  (∀ t r t', f t = (r, t') → sent t' = sent t ∧ received t' = received t ∧ ended t' = ended t) → binv b →
  wp (p ← on_transport f; mret (poll_map (result_map_err c) p))
     (λ (_ : Poll (Result unit (ChannelError.t E))) b', binv b' ∧ abs b' = abs b) b.
Proof.
  intros Hf Hinv. apply wp_bind, wp_base_transport. intros r t (Hs & Hr & He)%Hf. apply wp_ret.
  split; [done|]. unfold abs. simpl. by rewrite Hs, Hr, He.
Qed.

#[export] Program Instance base_channel_laws :
    ChannelLaws (base_channel gen_u64 new_span span_active (Resp:=Resp) (T:=T)) := {|
  ch_inv := binv;
  ch_abs := abs;
  ch_own_response _ := False;
|}.
Next Obligation.
  intros bound now b Hinv. cbn. eapply wp_mono.
  { apply wp_wlp; [by apply wp_poll_next|]. apply silent_poll_next_loop. }
  intros r b' [[Hok Hpost] Hs]. split; [by apply ok_channel_ok|]. split.
  { exists []. rewrite app_nil_r. by split; [|constructor]. }
  destruct r as [[[tr|e]|]|]; [|done| |done].
  - destruct Hpost as (r & Hr & Hi & Hm & Hd & Hg & Ht & Ha). split; [by exists r|]. by rewrite Hi.
  - destruct Hpost as [He Hd]. split; [done|]. simpl. by rewrite Hd, fmap_empty.
Qed.
Next Obligation. intros b Hinv. apply wp_pass_abs; [apply log_poll_ready|done]. Qed.
Next Obligation. intros b Hinv. apply wp_pass_abs; [apply log_poll_flush|done]. Qed.
Next Obligation. intros b Hinv. apply wp_pass_abs; [apply log_poll_close|done]. Qed.
Next Obligation.
  intros now r b Hinv. cbn. eapply wp_mono; [by apply (wp_start_send now)|]. intros res b' (Hok & Ht & Hs).
  split; [by apply ok_channel_ok|]. split; [exact Ht|].
  destruct ((SIF.abort_handle <$> _) !! request_id r) eqn:Hi; simpl in Hs; rewrite Hi in Hs.
  - exact Hs.
  - destruct Hs as [-> _]. by rewrite app_nil_r.
Qed.
Next Obligation. intros b Hinv. simpl. by rewrite map_size_fmap. Qed.
Next Obligation.
  intros now g b Hinv. split_and!; [|done..]. split; [done| |simpl; lia]. simpl. unfold guard_drop.
  assert (Hr : ∀ c, bsteps now (abs (set_canceled c b)) (abs (set_canceled (mpsc_drop_sender c) b))).
  { intros c. apply rtc_once. eapply eq_ind; [apply b_release|]. unfold abs. simpl. by rewrite law_drop_sender. }
  etrans; [|apply Hr]. destruct (g_cancel g); [|by destruct b].
  unfold abs. simpl. rewrite Cancellations.cancel_view. destruct (mv_closed _); [apply rtc_refl|].
  apply rtc_once. apply b_abandon.
Qed.
End base_laws.

(** ** Model of [Requests] and of the request handlers *)

Section model.
Context `{!Mpsc} {Span Req Resp Error : Type} {C : Channel Span Req Resp Error}.

(** [Requests]; the channel of responses is shared with the handlers. *)
Record Requests := MkRequests {
  rq_channel : channel C;
  rq_pending_responses : mpsc (Response Resp);
}.

(** [InFlightRequest]. *)
Record InFlightRequest := MkInFlightRequest {
  if_request : Request Req;
  if_abort_registration : nat;
  if_response_guard : ResponseGuard;
  if_span : Span;
}.

Definition on_channel {A} (m : M (channel C) A) : M Requests A := λ q,
  match m (rq_channel q) with
  | Done (a, c) => Done (a, MkRequests c (rq_pending_responses q))
  | Panicked p => Panicked p
  | OutOfFuel => OutOfFuel
  end.
Definition on_responses {A} (f : mpsc (Response Resp) → A * mpsc (Response Resp)) : M Requests A := λ q,
  let '(a, p) := f (rq_pending_responses q) in Done (a, MkRequests (rq_channel q) p).

(** [Channel::requests]: panics when the configured buffer is zero. *)
Definition requests (c : channel C) : Exec Requests :=
  responses ← mpsc_channel (pending_response_buffer (ch_config c)); Done (MkRequests c responses).

Context (bound : nat) (now : Z).

Definition pump_read : M Requests (Poll (option (Result InFlightRequest Error))) :=
  r ← on_channel (ch_poll_next bound now);
  match r with
  | Ready (Some (Ok (MkTrackedRequest request abort_registration span response_guard))) =>
      _ ← on_responses (λ p, (tt, mpsc_clone_sender p));
      mret (Ready (Some (Ok (MkInFlightRequest request abort_registration
                               (MkResponseGuard (g_request_id response_guard) true) span))))
  | Ready (Some (Err e)) => mret (Ready (Some (Err e)))
  | Ready None => mret (Ready None)
  | Pending => mret Pending
  end.

Fixpoint ensure_writeable_loop (n : nat) : M Requests (Poll (option (Result unit Error))) :=
  match n with
  | 0 => no_fuel
  | S n =>
      p ← on_channel ch_poll_ready;
      match p with
      | Ready (Err e) => mret (Ready (Some (Err e)))
      | Ready (Ok _) => mret (Ready (Some (Ok tt)))
      | Pending => ready? _ ← on_channel ch_poll_flush; ensure_writeable_loop n
      end
  end.
Definition ensure_writeable := ensure_writeable_loop bound.

Definition poll_next_response : M Requests (Poll (option (Result (Response Resp) Error))) :=
  p ← ensure_writeable;
  match p with
  | Pending => mret Pending
  | Ready (Some (Err e)) => mret (Ready (Some (Err e)))
  | Ready _ =>
      ready! o ← on_responses mpsc_poll_recv;
      mret (Ready (option_map Ok o))
  end.

Definition pump_write (read_half_closed : bool) : M Requests (Poll (option (Result unit Error))) :=
  r ← poll_next_response;
  match r with
  | Ready (Some (Err e)) => mret (Ready (Some (Err e)))
  | Ready (Some (Ok response)) =>
      x ← on_channel (ch_start_send response);
      match x with
      | Ok _ => mret (Ready (Some (Ok tt)))
      | Err e => mret (Ready (Some (Err e)))
      end
  | Ready None => ready? _ ← on_channel ch_poll_flush; mret (Ready None)
  | Pending =>
      ready? _ ← on_channel ch_poll_flush;
      q ← get;
      if read_half_closed && bool_decide (ch_in_flight_requests (rq_channel q) = 0)
      then mret (Ready None) else mret Pending
  end.

(** Dropping a request that was read but cannot be handed out. *)
Definition drop_in_flight (r : InFlightRequest) : M Requests unit :=
  _ ← modify (λ q, MkRequests (ch_guard_drop (if_response_guard r) (rq_channel q)) (rq_pending_responses q));
  on_responses (λ p, (tt, mpsc_drop_sender p)).

(** [Stream::poll_next]. *)
Fixpoint poll_next_requests_loop (n : nat) : M Requests (Poll (option (Result InFlightRequest Error))) :=
  match n with
  | 0 => no_fuel
  | S n =>
      read ← pump_read;
      match read with
      | Ready (Some (Err e)) => mret (Ready (Some (Err e)))
      | _ =>
          let read_closed := match read with Ready None => true | _ => false end in
          write ← pump_write read_closed;
          match read, write with
          | Ready (Some (Ok request)), Ready (Some (Err e)) =>
              _ ← drop_in_flight request; mret (Ready (Some (Err e)))
          | _, Ready (Some (Err e)) => mret (Ready (Some (Err e)))
          | Ready None, Ready None => mret (Ready None)
          | Ready (Some (Ok request_handler)), _ => mret (Ready (Some (Ok request_handler)))
          | _, Ready (Some _) => poll_next_requests_loop n
          | _, _ => mret Pending
          end
      end
  end.
Definition poll_next_requests := poll_next_requests_loop bound.

(** *** The future returned by [InFlightRequest::execute] *)

Inductive HandlerStage :=
| Serving
| SendingResponse (response : Response Resp)
| Completed
| HandlerDropped.

(** [h_outcome] is what the service function returned, once it has. *)
Record Handler := MkHandler {
  h_request : InFlightRequest;
  h_stage : HandlerStage;
  h_outcome : option (Result Resp ServerError);
}.

Definition guard_drop_in (g : ResponseGuard) (q : Requests) : Requests :=
  MkRequests (ch_guard_drop g (rq_channel q)) (mpsc_drop_sender (rq_pending_responses q)).

(** The end of [execute]: the guard no longer cancels, and is dropped. *)
Definition finish (h : Handler) (q : Requests) : Handler * Requests :=
  (MkHandler (h_request h) Completed (h_outcome h),
   guard_drop_in (MkResponseGuard (g_request_id (if_response_guard (h_request h))) false) q).

Definition send_response (h : Handler) (response : Response Resp) (q : Requests) : Handler * Requests :=
  let '(r, p) := mpsc_poll_send (rq_pending_responses q) response in
  let q := MkRequests (rq_channel q) p in
  match r with
  | Pending => (MkHandler (h_request h) (SendingResponse response) (h_outcome h), q)
  | Ready _ => finish h q
  end.

(** One poll, when a poll of the service function would give [outcome]. *)
Definition poll_handler (outcome : Poll (Result Resp ServerError)) (h : Handler) (q : Requests) : Handler * Requests :=
  match h_stage h with
  | Completed | HandlerDropped => (h, q)
  | stage =>
      if ch_is_aborted (if_abort_registration (h_request h)) (rq_channel q) then finish h q
      else
        match stage with
        | Serving =>
            match outcome with
            | Pending => (h, q)
            | Ready message =>
                let response := MkResponse (id (if_request (h_request h))) message in
                send_response (MkHandler (h_request h) Serving (Some message)) response q
            end
        | SendingResponse response => send_response h response q
        | _ => (h, q)
        end
  end.

(** Dropping the future before it completes. *)
Definition drop_handler (h : Handler) (q : Requests) : Handler * Requests :=
  match h_stage h with
  | Completed | HandlerDropped => (h, q)
  | _ => (MkHandler (h_request h) HandlerDropped (h_outcome h), guard_drop_in (if_response_guard (h_request h)) q)
  end.
End model.

Arguments Requests {_ _ _ _ _} C.
Arguments InFlightRequest Span Req : clear implicits.
Arguments Handler Span Req Resp : clear implicits.
End Requests.
