(* ===== verification/ServerSystem.v ===== *)
(** * A server and its request handlers

    [Requests] polled over and over, each request it hands out run by a handler, the
    handlers polled or dropped in any order, the client acting in between: the states
    such a server can reach, and an invariant of them.  Everything is proved against
    the interface [ChannelLaws], so it holds of [BaseChannel] and of its decorators. *)
From S2P Require Import Prelude Interfaces RefModels Trace Wire TimerTable Transport Cancellations ServerInFlight ServerChannel ServerSpec ServerRefine ServerRequests.

Module ServerSystem.
Export Requests.

Section system.
Context `{!Abort, !Mpsc, !MpscLaws} {Span Req Resp Error : Type}.
Context {C : Channel Span Req Resp Error} `{!ChannelLaws C}.
Implicit Types (q : Requests C) (c : channel C) (h : Handler Span Req Resp).

(** ** One poll of [Requests] *)

Definition queued q : list (Response Resp) := mv_queue (mpsc_view (rq_pending_responses q)).
Definition written q : list (Response Resp) := b_sent (ch_abs (rq_channel q)).

(** What a step of [Requests] may do: channel events; the responses it writes were
    queued by handlers or made by the channel, and those it keeps were queued. *)
Record requests_ok (now : Z) q q' : Prop := {
  ro_inv : ch_inv (rq_channel q');
  ro_steps : bsteps now (ch_abs (rq_channel q)) (ch_abs (rq_channel q'));
  ro_written : ∃ l, written q' = written q ++ l ∧ Forall (λ r, ch_own_response r ∨ r ∈ queued q) l;
  ro_queued : queued q' ⊆ queued q;
}.

Lemma requests_ok_refl now q : ch_inv (rq_channel q) → requests_ok now q q.
Proof. split; [done|apply rtc_refl|exists []; by rewrite app_nil_r|done]. Qed.

Lemma requests_ok_trans now q1 q2 q3 : requests_ok now q1 q2 → requests_ok now q2 q3 → requests_ok now q1 q3.
Proof.
  intros [I1 S1 (l1 & W1 & F1) Q1] [I2 S2 (l2 & W2 & F2) Q2]. split; [done|by etrans| |set_solver].
  exists (l1 ++ l2). rewrite W2, W1, app_assoc. split; [done|]. apply Forall_app. split; [done|].
  eapply Forall_impl; [exact F2|]. intros r [?|?]; auto.
Qed.

Lemma wp_on_channel {A} (m : M (channel C) A) Q q :
  wp m (λ a c, Q a (MkRequests c (rq_pending_responses q))) (rq_channel q) → wp (on_channel m) Q q.
Proof. unfold wp, on_channel. by destruct (m _) as [[a c]| |]. Qed.

Lemma wp_on_responses {A} (f : mpsc (Response Resp) → A * mpsc (Response Resp)) Q q :
  (∀ a p, f (rq_pending_responses q) = (a, p) → Q a (MkRequests (rq_channel q) p)) → wp (on_responses f) Q q.
Proof. intros Hq. unfold wp, on_responses. destruct (f _) as [a p] eqn:Hf. by apply Hq. Qed.

(** Operations of the channel that only pass messages along. *)
Lemma wp_silent {A} (m : M (channel C) A) now q :
  (∀ c, ch_inv c → wp m (λ _ c', ch_inv c' ∧ ch_abs c' = ch_abs c) c) → ch_inv (rq_channel q) →
  wp (on_channel m) (λ _ q', requests_ok now q q' ∧ ch_abs (rq_channel q') = ch_abs (rq_channel q)) q.
Proof.
  intros Hm Hinv. apply wp_on_channel. eapply wp_mono; [by apply Hm|]. intros a c' [Hi Ha].
  split; [|done]. split; simpl; [done|rewrite Ha; apply rtc_refl| |done].
  exists []. unfold written. simpl. by rewrite Ha, app_nil_r.
Qed.

Lemma wp_requests_read bound now q :
  ch_inv (rq_channel q) →
  wp (pump_read bound now) (λ r q', requests_ok now q q' ∧
    match r with
    | Ready (Some (Ok ifr)) =>
        (∃ r, ClientRequest r ∈ b_received (ch_abs (rq_channel q')) ∧
           id (if_request ifr) = id r ∧ message (if_request ifr) = message r) ∧
        if_response_guard ifr = MkResponseGuard (id (if_request ifr)) true
    | Ready None => b_ended (ch_abs (rq_channel q')) = true ∧ b_tracked (ch_abs (rq_channel q')) = ∅
    | _ => True
    end) q.
Proof.
  intros Hinv. apply wp_bind, wp_on_channel. eapply wp_mono; [by apply law_ch_poll_next|].
  intros r c' ([Hi Hs _] & (own & Ho & Hf) & Hr).
  assert (Hok : ∀ p, mv_queue (mpsc_view p) = mv_queue (mpsc_view (rq_pending_responses q)) →
    requests_ok now q (MkRequests c' p)).
  { intros p Hp. split; [done|done| |unfold queued; simpl; by rewrite Hp].
    exists own. split; [done|]. eapply Forall_impl; [exact Hf|]. auto. }
  destruct r as [[[[req ab sp g]|e]|]|]; try (apply wp_ret; by split; [apply Hok|]).
  apply wp_bind, wp_on_responses. intros [] p [= <-]. apply wp_ret. split; [apply Hok; by rewrite law_clone_sender|].
  destruct Hr as ((r & ? & ? & ? & _) & Hg & _). simpl in *. split; [by exists r|]. by rewrite Hg.
Qed.

Lemma wp_requests_writeable now n q :
  ch_inv (rq_channel q) →
  wp (ensure_writeable_loop n) (λ _ q', requests_ok now q q' ∧ ch_abs (rq_channel q') = ch_abs (rq_channel q)) q.
Proof.
  revert q. induction n as [|n IH]; intros q Hinv; [done|]. simpl. apply wp_bind.
  eapply wp_mono; [apply (wp_silent _ now); [apply law_ch_poll_ready|done]|]. intros [[[]|e]|] q1 [Hok1 Ha1]; [by apply wp_ret..|].
  apply wp_bind. eapply wp_mono; [apply (wp_silent _ now); [apply law_ch_poll_flush|apply Hok1]|].
  intros p q2 [Hok2 Ha2]. pose proof (requests_ok_trans _ _ _ _ Hok1 Hok2) as Hok.
  destruct p as [[[]|e]|]; [|apply wp_ret; split; [done|congruence]..].
  eapply wp_mono; [apply IH, Hok|]. intros ? q3 [Hok3 Ha3]. split; [by eapply requests_ok_trans|congruence].
Qed.

(** A response taken from the queue, or nothing taken. *)
Lemma wp_poll_next_response bound now q :
  ch_inv (rq_channel q) →
  wp (poll_next_response bound) (λ res q', ∃ q1, requests_ok now q q1 ∧
    ch_abs (rq_channel q1) = ch_abs (rq_channel q) ∧ rq_channel q' = rq_channel q1 ∧
    match res with
    | Ready (Some (Ok x)) => queued q1 = x :: queued q'
    | _ => queued q' = queued q1
    end) q.
Proof.
  intros Hinv. apply wp_bind. eapply wp_mono; [by apply (wp_requests_writeable now)|]. intros p q1 [Hok1 Ha1].
  assert (Hrecv : wp (ready! o ← on_responses mpsc_poll_recv; mret (Ready (option_map Ok o)))
      (λ (res : Poll (option (Result (Response Resp) Error))) q', ∃ q1, requests_ok now q q1 ∧
       ch_abs (rq_channel q1) = ch_abs (rq_channel q) ∧ rq_channel q' = rq_channel q1 ∧
       match res with Ready (Some (Ok x)) => queued q1 = x :: queued q' | _ => queued q' = queued q1 end) q1).
  { apply wp_bind, wp_on_responses. intros o p2 Hp%law_poll_recv.
    destruct o as [[x|]|]; simpl in Hp; apply wp_ret; exists q1; (split_and!; [done..|]); unfold queued; simpl.
    - by destruct Hp as (l & -> & ->).
    - by destruct Hp as (_ & _ & ->).
    - by rewrite Hp. }
  destruct p as [[[[]|e]|]|]; [exact Hrecv| |exact Hrecv|]; apply wp_ret; by exists q1.
Qed.

(** Taking the oldest response and handing it to the channel. *)
Lemma wp_send_next now q q1 q2 x :
  requests_ok now q q1 → rq_channel q2 = rq_channel q1 → queued q1 = x :: queued q2 →
  wp (on_channel (ch_start_send x)) (λ _ q', requests_ok now q q') q2.
Proof.
  intros Hok Hc Hq. apply wp_on_channel. rewrite Hc. eapply wp_mono; [apply (law_ch_start_send now), Hok|].
  intros res c' ([Hi Hs _] & _ & Hw). eapply requests_ok_trans; [exact Hok|]. split; [done|done| |].
  - eexists. split; [exact Hw|]. destruct (_ !! _); [destruct (is_ok res)|]; [|by constructor..].
    constructor; [|by constructor]. right. rewrite Hq. by left.
  - unfold queued in *. simpl. rewrite Hq. set_solver.
Qed.

(** Nothing is written unless the answer is [Some]. *)
Definition pumped (now : Z) q (res : Poll (option (Result unit Error))) q' : Prop :=
  requests_ok now q q' ∧
  match res with Ready (Some _) => True | _ => ch_abs (rq_channel q') = ch_abs (rq_channel q) end.

Lemma wp_flush_then (k : M (Requests C) (Poll (option (Result unit Error)))) now q q1 :
  requests_ok now q q1 → ch_abs (rq_channel q1) = ch_abs (rq_channel q) →
  (∀ q2, ∃ res, k q2 = Done (res, q2) ∧ (res = Ready None ∨ res = Pending)) →
  wp (ready? _ ← on_channel ch_poll_flush; k) (pumped now q) q1.
Proof.
  intros Hok1 Ha1 Hk. apply wp_bind.
  eapply wp_mono; [apply (wp_silent _ now); [apply law_ch_poll_flush|apply Hok1]|]. intros x q3 [Hok3 Ha3].
  pose proof (requests_ok_trans _ _ _ _ Hok1 Hok3) as Hok. rewrite Ha1 in Ha3.
  destruct x as [[u|e]|]; [|by apply wp_ret..]. unfold wp.
  destruct (Hk q3) as (res & -> & [-> | ->]); done.
Qed.

Lemma wp_requests_write bound now closed q :
  ch_inv (rq_channel q) → wp (pump_write bound closed) (pumped now q) q.
Proof.
  intros Hinv. apply wp_bind. eapply wp_mono; [by apply (wp_poll_next_response bound now)|].
  intros res q2 (q1 & Hok1 & Ha1 & Hc & Hq).
  assert (Hsame : queued q2 = queued q1 → requests_ok now q q2).
  { intros E. eapply requests_ok_trans; [exact Hok1|].
    split; [rewrite Hc; apply Hok1|rewrite Hc; apply rtc_refl| |by rewrite E]. exists []. unfold written. rewrite Hc, app_nil_r. by split. }
  assert (Ha2 : ch_abs (rq_channel q2) = ch_abs (rq_channel q)) by by rewrite Hc.
  destruct res as [[[x|e]|]|].
  - apply wp_bind. eapply wp_mono; [by eapply wp_send_next|]. intros [[]|e] q3 Hok3; apply wp_ret; by split.
  - apply wp_ret. split; [by apply Hsame|done].
  - apply wp_flush_then; [by apply Hsame|done|eauto].
  - apply wp_flush_then; [by apply Hsame|done|]. intros q3. cbv [mbind M_bind get]. destruct (_ && _); eauto.
Qed.

(** A request that was read and cannot be handed out is given up. *)
Lemma wp_drop_in_flight now ifr q :
  ch_inv (rq_channel q) → wp (drop_in_flight ifr) (λ _ q', requests_ok now q q') q.
Proof.
  intros Hinv. apply wp_bind, wp_modify, wp_on_responses. intros [] p [= <-].
  destruct (law_ch_guard_drop now (if_response_guard ifr) _ Hinv) as ([Hi Hs _] & _ & Hw & _).
  split; [done|done| |unfold queued; simpl; by rewrite law_drop_sender].
  exists []. unfold written. simpl. by rewrite Hw, app_nil_r.
Qed.

(** What a poll of [Requests] tells its caller: a request of the client, with its
    guard armed; or that the client is done and every request has been answered. *)
Definition next_request q' (res : Poll (option (Result (InFlightRequest Span Req) Error))) : Prop :=
  match res with
  | Ready (Some (Ok ifr)) =>
      (∃ r, ClientRequest r ∈ b_received (ch_abs (rq_channel q')) ∧
         id (if_request ifr) = id r ∧ message (if_request ifr) = message r) ∧
      if_response_guard ifr = MkResponseGuard (id (if_request ifr)) true
  | Ready None => b_ended (ch_abs (rq_channel q')) = true ∧ b_tracked (ch_abs (rq_channel q')) = ∅
  | _ => True
  end.

Lemma wp_poll_next_requests bound now n q :
  ch_inv (rq_channel q) →
  wp (poll_next_requests_loop bound now n) (λ res q', requests_ok now q q' ∧ next_request q' res) q.
Proof.
  revert q. induction n as [|n IH]; intros q Hinv; [done|]. cbn [poll_next_requests_loop]. apply wp_bind.
  eapply wp_mono; [by apply (wp_requests_read bound now)|]. intros read q1 [Hok1 Hr].
  assert (Hloop : ∀ q2, requests_ok now q q2 →
    wp (poll_next_requests_loop bound now n) (λ res q', requests_ok now q q' ∧ next_request q' res) q2).
  { intros q2 Hok2. eapply wp_mono; [apply IH, Hok2|]. intros res q3 [Hok3 Hn3]. split; [by eapply requests_ok_trans|done]. }
  assert (Hw : ∀ closed, wp (pump_write bound closed) (λ res q2, requests_ok now q q2 ∧ pumped now q1 res q2) q1).
  { intros closed. eapply wp_mono; [apply (wp_requests_write bound now), Hok1|]. intros res q2 Hp.
    split; [eapply requests_ok_trans; [exact Hok1|apply Hp]|done]. }
  destruct read as [[[ifr|e]|]|]; [|by apply wp_ret| |]; apply wp_bind; (eapply wp_mono; [apply Hw|]);
    intros wr q2 [Hok2 [Hp2 Ha2]].
  - destruct Hr as [(r & Hr & Hi & Hm) Hg].
    assert (next_request q2 (Ready (Some (Ok ifr)))).
    { split; [|done]. exists r. split; [|done]. eapply bsteps_received; [apply Hp2|done]. }
    destruct wr as [[[[]|e]|]|]; try by apply wp_ret.
    apply wp_bind. eapply wp_mono; [apply (wp_drop_in_flight now), Hok2|]. intros [] q3 Hok3. apply wp_ret.
    split; [by eapply requests_ok_trans|done].
  - destruct wr as [[[[]|e]|]|]; [by apply Hloop|by apply wp_ret| |by apply wp_ret].
    apply wp_ret. split; [done|]. simpl. by rewrite Ha2.
  - destruct wr as [[[[]|e]|]|]; [by apply Hloop|by apply wp_ret..].
Qed.

(** ** The server as a transition system

    [env] is what the client and the transport do between two steps: it may change
    the transport, but not what has been read from it or written to it. *)
Context (env : channel C → channel C → Prop).

Record Server := MkServer {
  sv_requests : Requests C;
  (** The futures of the requests handed out so far, in order. *)
  sv_handlers : list (Handler Span Req Resp);
  sv_clock : Z;
}.

(** [Requests::execute]: a request handed out becomes a handler. *)
Definition spawn (res : Poll (option (Result (InFlightRequest Span Req) Error))) : list (Handler Span Req Resp) :=
  match res with
  | Ready (Some (Ok ifr)) => [MkHandler ifr Serving None]
  | _ => []
  end.

Definition on_handler (f : Handler Span Req Resp → Requests C → Handler Span Req Resp * Requests C)
    (k : nat) (s : Server) : Server :=
  match sv_handlers s !! k with
  | Some h => let '(h, q) := f h (sv_requests s) in MkServer q (<[k := h]> (sv_handlers s)) (sv_clock s)
  | None => s
  end.

Inductive serve_step (bound : nat) (s : Server) : Server → Prop :=
| serve_poll now res q :
    (sv_clock s ≤ now)%Z → poll_next_requests bound now (sv_requests s) = Done (res, q) →
    serve_step bound s (MkServer q (sv_handlers s ++ spawn res) now)
| serve_poll_handler k outcome : serve_step bound s (on_handler (poll_handler outcome) k s)
| serve_drop_handler k : serve_step bound s (on_handler drop_handler k s)
| serve_env c :
    env (rq_channel (sv_requests s)) c →
    serve_step bound s (MkServer (MkRequests c (rq_pending_responses (sv_requests s))) (sv_handlers s) (sv_clock s)).

Definition serves (bound : nat) (c : channel C) (now : Z) (s : Server) : Prop :=
  ∃ q, requests c = Done q ∧ rtc (serve_step bound) (MkServer q [] now) s.

(** *** Its invariant *)

(** [r] is what the service function returned for a request with [r]'s id. *)
Definition made (hs : list (Handler Span Req Resp)) (r : Response Resp) : Prop :=
  ∃ k h, hs !! k = Some h ∧ id (if_request (h_request h)) = request_id r ∧ h_outcome h = Some (response_message r).

Definition stage_ok h : Prop :=
  match h_stage h with
  | Serving => h_outcome h = None
  | SendingResponse r => request_id r = id (if_request (h_request h)) ∧ h_outcome h = Some (response_message r)
  | Completed | HandlerDropped => True
  end.

Definition asked_for h (a : BState Req Resp) : Prop :=
  ∃ r, ClientRequest r ∈ b_received a ∧ id (if_request (h_request h)) = id r ∧ message (if_request (h_request h)) = message r.

Record server_inv (s : Server) : Prop := {
  si_inv : ch_inv (rq_channel (sv_requests s));
  si_balanced : balanced (ch_abs (rq_channel (sv_requests s)));
  si_written : ∀ r, r ∈ written (sv_requests s) → ch_own_response r ∨ made (sv_handlers s) r;
  si_queued : ∀ r, r ∈ queued (sv_requests s) → made (sv_handlers s) r;
  si_handlers : ∀ h, h ∈ sv_handlers s → stage_ok h ∧ asked_for h (ch_abs (rq_channel (sv_requests s)));
}.

(** What a step of a handler may do: its request and its outcome stay; it adds to the
    queue only what its service function returned. *)
Record handler_ok h q h' q' : Prop := {
  ho_request : h_request h' = h_request h;
  ho_stage : stage_ok h';
  ho_outcome : ∀ o, h_outcome h = Some o → h_outcome h' = Some o;
  ho_inv : ch_inv (rq_channel q');
  ho_steps : ∀ now, bsteps now (ch_abs (rq_channel q)) (ch_abs (rq_channel q'));
  ho_written : written q' = written q;
  ho_queued : ∀ r, r ∈ queued q' → r ∈ queued q ∨
    request_id r = id (if_request (h_request h)) ∧ h_outcome h' = Some (response_message r);
}.

Lemma handler_ok_refl h q : stage_ok h → ch_inv (rq_channel q) → handler_ok h q h q.
Proof. split; [done..|intros; apply rtc_refl|done|auto]. Qed.

(** Dropping a guard, armed or not. *)
Lemma handler_ok_drop g h q stage p :
  ch_inv (rq_channel q) → stage = Completed ∨ stage = HandlerDropped →
  (∀ r, r ∈ mv_queue (mpsc_view p) → r ∈ queued q ∨
     request_id r = id (if_request (h_request h)) ∧ h_outcome h = Some (response_message r)) →
  handler_ok h q (MkHandler (h_request h) stage (h_outcome h)) (guard_drop_in g (MkRequests (rq_channel q) p)).
Proof.
  intros Hinv Hst Hp. pose proof (λ now, law_ch_guard_drop now g _ Hinv) as Hg.
  split; simpl; [done|by destruct Hst as [-> | ->]|done|apply (Hg 0%Z)| |apply (Hg 0%Z)|].
  - intros now. apply (Hg now).
  - unfold queued. simpl. by rewrite law_drop_sender.
Qed.

Lemma send_response_ok h q r :
  ch_inv (rq_channel q) → request_id r = id (if_request (h_request h)) → h_outcome h = Some (response_message r) →
  handler_ok h q (send_response h r q).1 (send_response h r q).2.
Proof.
  intros Hinv Hi Ho. unfold send_response. destruct (mpsc_poll_send _ _) as [x p] eqn:Hp.
  apply law_poll_send in Hp. destruct x as [[[]|e]|]; simpl in Hp.
  - apply handler_ok_drop; [done|auto|]. rewrite Hp. simpl. intros r' [?|?%list_elem_of_singleton]%elem_of_app; subst; auto.
  - apply handler_ok_drop; [done|auto|]. destruct Hp as (_ & _ & ->). auto.
  - split; simpl; [done|done|done|done|intros; apply rtc_refl|done|]. unfold queued. simpl. rewrite Hp. auto.
Qed.

Lemma finish_ok h q : ch_inv (rq_channel q) → handler_ok h q (finish h q).1 (finish h q).2.
Proof.
  intros Hinv. unfold finish. replace q with (MkRequests (rq_channel q) (rq_pending_responses q)) at 4 by by destruct q.
  apply handler_ok_drop; [done|auto|]. auto.
Qed.

Lemma poll_handler_ok outcome h q :
  stage_ok h → ch_inv (rq_channel q) →
  handler_ok h q (poll_handler outcome h q).1 (poll_handler outcome h q).2.
Proof.
  intros Hst Hinv. unfold poll_handler. destruct (h_stage h) as [|r| |] eqn:Hs; try by apply handler_ok_refl.
  - destruct (ch_is_aborted _ _); [by apply finish_ok|].
    destruct outcome as [o|]; [|by apply handler_ok_refl].
    unfold stage_ok in Hst. rewrite Hs in Hst.
    destruct (send_response_ok (MkHandler (h_request h) Serving (Some o)) q
      (MkResponse (id (if_request (h_request h))) o)) as [? ? Hout ? ? ? Hq]; [done..|].
    split; simpl in *; [done|done|by rewrite Hst|done..].
  - destruct (ch_is_aborted _ _); [by apply finish_ok|].
    unfold stage_ok in Hst. rewrite Hs in Hst. destruct Hst. by apply send_response_ok.
Qed.

Lemma drop_handler_ok h q :
  stage_ok h → ch_inv (rq_channel q) → handler_ok h q (drop_handler h q).1 (drop_handler h q).2.
Proof.
  intros Hst Hinv. assert (Hd : handler_ok h q (MkHandler (h_request h) HandlerDropped (h_outcome h))
    (guard_drop_in (if_response_guard (h_request h)) q)).
  { replace q with (MkRequests (rq_channel q) (rq_pending_responses q)) at 2 by by destruct q.
    apply handler_ok_drop; auto. }
  unfold drop_handler. destruct (h_stage h); [done|done|by apply handler_ok_refl..].
Qed.

Lemma made_app hs hs' r : made hs r → made (hs ++ hs') r.
Proof. intros (k & h & Hk & ?). exists k, h. split; [by apply lookup_app_l_Some|done]. Qed.

Lemma made_insert hs k h h' r :
  hs !! k = Some h → h_request h' = h_request h → (∀ o, h_outcome h = Some o → h_outcome h' = Some o) →
  made hs r → made (<[k := h']> hs) r.
Proof.
  intros Hk Hr Ho (j & hj & Hj & Hi & Hm). destruct (decide (j = k)) as [->|].
  - exists k, h'. simplify_eq. split_and!; [|by rewrite Hr|auto].
    rewrite list_lookup_insert_eq; [done|by eapply lookup_lt_Some].
  - exists j, hj. by rewrite list_lookup_insert_ne.
Qed.

Lemma asked_for_steps now h a a' : bsteps now a a' → asked_for h a → asked_for h a'.
Proof. intros Hs (r & Hr & ?). exists r. split; [by eapply bsteps_received|done]. Qed.

Lemma on_handler_inv f k (s : Server) :
  (∀ h q, stage_ok h → ch_inv (rq_channel q) → handler_ok h q (f h q).1 (f h q).2) →
  server_inv s → server_inv (on_handler f k s).
Proof.
  intros Hf Hs. unfold on_handler. destruct (sv_handlers s !! k) as [h|] eqn:Hk; [|done].
  destruct Hs as [Hi Hb Hw Hq Hh]. pose proof (list_elem_of_lookup_2 _ _ _ Hk) as Hin.
  destruct (Hh _ Hin) as [Hst Hask]. specialize (Hf h (sv_requests s) Hst Hi).
  destruct (f h (sv_requests s)) as [h' q']. destruct Hf as [Fr Fs Fo Fi Fst Fw Fq]. simpl in *.
  split; simpl; [done|by eapply bsteps_balanced, Hb; apply (Fst 0%Z)|..].
  - intros r Hr. rewrite Fw in Hr. destruct (Hw _ Hr); [auto|right]. by eapply made_insert.
  - intros r Hr. destruct (Fq _ Hr) as [?|[E Ho]]; [by eapply made_insert; eauto|].
    exists k, h'. split_and!; [|by rewrite Fr|done]. rewrite list_lookup_insert_eq; [done|by eapply lookup_lt_Some].
  - intros h1 Hh1. apply list_elem_of_lookup in Hh1 as [j Hj].
    destruct (decide (j = k)) as [->|]; [|rewrite list_lookup_insert_ne in Hj by done].
    + rewrite list_lookup_insert_eq in Hj by (by eapply lookup_lt_Some). simplify_eq. split; [done|].
      destruct Hask as (r & Hr & E). exists r. split; [by apply (bsteps_received _ _ _ (Fst 0%Z))|by rewrite Fr].
    + apply list_elem_of_lookup_2 in Hj. destruct (Hh _ Hj) as [? (r & Hr & E)]. split; [done|].
      exists r. split; [by apply (bsteps_received _ _ _ (Fst 0%Z))|done].
Qed.

Lemma poll_inv bound now (s : Server) res q :
  server_inv s → poll_next_requests bound now (sv_requests s) = Done (res, q) →
  server_inv (MkServer q (sv_handlers s ++ spawn res) now).
Proof.
  intros [Hi Hb Hw Hq Hh] Hp.
  destruct (wp_done _ _ _ _ _ (wp_poll_next_requests bound now bound _ Hi) Hp) as [[Oi Os (l & Ow & Ol) Oq] Hn].
  rewrite Forall_forall in Ol. split; simpl; [done|by eapply bsteps_balanced|..].
  - intros r Hr. rewrite Ow in Hr. apply elem_of_app in Hr as [Hr|Hr].
    + destruct (Hw _ Hr); [auto|right]. by apply made_app.
    + destruct (Ol _ Hr); [auto|right]. by apply made_app, Hq.
  - intros r Hr. by apply made_app, Hq, Oq.
  - intros h [Hin|Hin]%elem_of_app.
    + destruct (Hh _ Hin). split; [done|by eapply asked_for_steps].
    + destruct res as [[[ifr|e]|]|]; simpl in Hin; try by apply elem_of_nil in Hin.
      apply list_elem_of_singleton in Hin as ->. by destruct Hn.
Qed.

Context (Henv : ∀ c c', env c c' → ch_inv c → ch_inv c' ∧ ch_abs c' = ch_abs c).

Lemma serve_step_inv bound (s s' : Server) : serve_step bound s s' → server_inv s → server_inv s'.
Proof.
  destruct 1 as [now res q Hle Hp|k o|k|c He]; intros Hs.
  - by eapply poll_inv.
  - by apply on_handler_inv; [apply poll_handler_ok|].
  - by apply on_handler_inv; [apply drop_handler_ok|].
  - destruct Hs as [Hi Hb Hw Hq Hh]. destruct (Henv _ _ He Hi) as [Hi' Ha].
    split; simpl; unfold written in *; simpl; rewrite ?Ha; done.
Qed.

Lemma serves_inv bound c now (s : Server) :
  (0 < pending_response_buffer (ch_config c))%Z → ch_inv c → balanced (ch_abs c) → b_sent (ch_abs c) = [] →
  serves bound c now s → server_inv s.
Proof.
  intros Hbuf Hi Hb Hw (q & Hq & Hs). unfold requests in Hq.
  destruct (law_channel (Response Resp) _ Hbuf) as (p & Hp & Hv). rewrite Hp in Hq. injection Hq as <-.
  assert (Hinit : server_inv (MkServer (MkRequests c p) [] now)).
  { split; simpl; [done|done|..].
    - unfold written. simpl. rewrite Hw. by intros r ?%elem_of_nil.
    - unfold queued. simpl. rewrite Hv. by intros r ?%elem_of_nil.
    - by intros h ?%elem_of_nil. }
  by eapply (rtc_preserves _ server_inv); [apply serve_step_inv|..].
Qed.
End system.

Arguments Server {_ _ _ _ _} C.
End ServerSystem.
