(* ===== verification/Limits.v ===== *)
(** * Throttling requests (tarpc/src/server/limits/requests_per_channel.rs)

    [MaxRequests] decorates a channel: when as many requests as allowed are in flight,
    the next ones are answered by the channel itself.  The decorated channel keeps the
    promises of [ChannelLaws], so whatever is proved of servers holds behind it too. *)
From S2P Require Import Prelude Interfaces RefModels Trace Wire TimerTable Transport Cancellations ServerInFlight ServerChannel ServerSpec ServerRefine ServerRequests.

Module Limits.
Export Requests.

Section model.
Context {Span Req Resp Error : Type} {C : Channel Span Req Resp Error}.

(** [MaxRequests]; the limit is a [usize]. *)
Record MaxRequests := MkMaxRequests {
  max_in_flight_requests : nat;
  inner : channel C;
}.

(** [MaxRequests::new]. *)
Definition max_requests_new (c : channel C) (max : nat) : MaxRequests := MkMaxRequests max c.

Definition on_inner {A} (m : M (channel C) A) : M MaxRequests A := λ s,
  match m (inner s) with
  | Done (a, c) => Done (a, MkMaxRequests (max_in_flight_requests s) c)
  | Panicked p => Panicked p
  | OutOfFuel => OutOfFuel
  end.

Definition throttle_error : ServerError := MkServerError WouldBlock "server throttled the request.".

(** Dropping a tracked request that is not handed out: its guard is not armed. *)
Definition drop_tracked (r : TrackedRequest Span Req) : M MaxRequests unit :=
  modify (λ s, MkMaxRequests (max_in_flight_requests s) (ch_guard_drop (tr_response_guard r) (inner s))).

(** [Stream::poll_next]. *)
Fixpoint throttle_loop (bound : nat) (now : Z) (n : nat) : M MaxRequests (Poll (option (Result (TrackedRequest Span Req) Error))) :=
  match n with
  | 0 => no_fuel
  | S n =>
      s ← get;
      if bool_decide (max_in_flight_requests s ≤ ch_in_flight_requests (inner s)) then
        ready? _ ← on_inner ch_poll_ready;
        p ← on_inner (ch_poll_next bound now);
        match p with
        | Pending => mret Pending
        | Ready (Some (Err e)) => mret (Ready (Some (Err e)))
        | Ready (Some (Ok r)) =>
            x ← on_inner (ch_start_send (MkResponse (id (tr_request r)) (Err throttle_error)));
            _ ← drop_tracked r;
            match x with
            | Err e => mret (Ready (Some (Err e)))
            | Ok _ => throttle_loop bound now n
            end
        | Ready None => mret (Ready None)
        end
      else on_inner (ch_poll_next bound now)
  end.

#[export] Instance max_requests : Channel Span Req Resp Error := {|
  channel := MaxRequests;
  ch_poll_next bound now := throttle_loop bound now bound;
  ch_poll_ready := on_inner ch_poll_ready;
  ch_start_send r := on_inner (ch_start_send r);
  ch_poll_flush := on_inner ch_poll_flush;
  ch_poll_close := on_inner ch_poll_close;
  ch_config s := ch_config (inner s);
  ch_in_flight_requests s := ch_in_flight_requests (inner s);
  ch_guard_drop g s := MkMaxRequests (max_in_flight_requests s) (ch_guard_drop g (inner s));
  ch_is_aborted h s := ch_is_aborted h (inner s);
|}.

(** [MaxRequestsPerChannel]: the stream of channels, each decorated. *)
Definition max_requests_per_channel_poll_next {S} (poll_next : S → Poll (option (channel C)) * S)
    (max : nat) (s : S) : Poll (option MaxRequests) * S :=
  let '(p, s) := poll_next s in
  match p with
  | Ready (Some channel) => (Ready (Some (max_requests_new channel max)), s)
  | Ready None => (Ready None, s)
  | Pending => (Pending, s)
  end.
End model.

Arguments MaxRequests {_ _ _ _} C.
Arguments max_requests {_ _ _ _} C.

Section laws.
Context `{!Abort} {Span Req Resp Error : Type} {C : Channel Span Req Resp Error} `{!ChannelLaws C}.
Implicit Types s : MaxRequests C.

Lemma wp_on_inner {A} (m : M (channel C) A) Q s :
  wp m (λ a c, Q a (MkMaxRequests (max_in_flight_requests s) c)) (inner s) → wp (on_inner m) Q s.
Proof. unfold wp, on_inner. by destruct (m _) as [[a c]| |]. Qed.

Definition mr_inv s : Prop := ch_inv (inner s).
Definition mr_abs s : BState Req Resp := ch_abs (inner s).
Definition mr_own (r : Response Resp) : Prop := ch_own_response r ∨ response_message r = Err throttle_error.

Definition mr_grows s s' : Prop :=
  max_in_flight_requests s' = max_in_flight_requests s ∧
  ∃ own, b_sent (mr_abs s') = b_sent (mr_abs s) ++ own ∧ Forall mr_own own.

Lemma mr_grows_refl s : mr_grows s s.
Proof. split; [done|]. exists []. rewrite app_nil_r. by split; [|constructor]. Qed.

Lemma mr_grows_trans s1 s2 s3 : mr_grows s1 s2 → mr_grows s2 s3 → mr_grows s1 s3.
Proof.
  intros [E1 (o1 & H1 & F1)] [E2 (o2 & H2 & F2)]. split; [congruence|]. exists (o1 ++ o2).
  rewrite H2, H1, app_assoc. split; [done|by apply Forall_app].
Qed.

(** The decorated channel took [k] steps that hand out requests. *)
Definition mr_ok (now : Z) (k : nat) s s' : Prop := channel_ok mr_inv mr_abs now k s s' ∧ mr_grows s s'.

Lemma mr_ok_trans now k1 k2 s1 s2 s3 : mr_ok now k1 s1 s2 → mr_ok now k2 s2 s3 → mr_ok now (k1 + k2) s1 s3.
Proof. intros [H1 G1] [H2 G2]. split; [by eapply channel_ok_trans|by eapply mr_grows_trans]. Qed.

Lemma mr_own_app (own : list (Response Resp)) : Forall ch_own_response own → Forall mr_own own.
Proof. intros Hf. eapply Forall_impl; [exact Hf|]. by left. Qed.

Lemma wp_inner_ready now s : mr_inv s → wp (on_inner ch_poll_ready) (λ _ s', mr_ok now 0 s s' ∧ mr_abs s' = mr_abs s) s.
Proof.
  intros Hi. apply wp_on_inner. eapply wp_mono; [by apply law_ch_poll_ready|]. intros p c' [Hi' Ha].
  split; [|done]. split; [split; [done| |]|split; [done|exists []]]; unfold mr_abs; simpl.
  - rewrite Ha. apply rtc_refl.
  - rewrite Ha. lia.
  - rewrite Ha, app_nil_r. by split; [|constructor].
Qed.

Lemma wp_inner_next bound now s :
  mr_inv s → wp (on_inner (ch_poll_next bound now)) (λ r s', mr_ok now (yields r) s s' ∧
    match r with
    | Ready (Some (Ok tr)) => handed_out tr (λ h, ch_is_aborted h (inner s')) (mr_abs s')
    | Ready None => b_ended (mr_abs s') = true ∧ b_tracked (mr_abs s') = ∅
    | _ => True
    end) s.
Proof.
  intros Hi. apply wp_on_inner. eapply wp_mono; [by apply law_ch_poll_next|].
  intros r c' ([Hi' Hs Hz] & (own & Ho & Hf) & Hr). split; [|done].
  split; [by split|split; [done|]]. exists own. split; [done|by apply mr_own_app].
Qed.

(** A request over the limit: it is answered and forgotten. *)
Lemma wp_throttle {A} (k : Result unit Error → M (MaxRequests C) A) Q now s tr a0 :
  mr_inv s → handed_out tr a0 (mr_abs s) →
  (∀ x s', mr_ok now 0 s s' → S (size (b_tracked (mr_abs s'))) = size (b_tracked (mr_abs s)) → wp (k x) Q s') →
  wp (x ← on_inner (ch_start_send (MkResponse (id (tr_request tr)) (Err throttle_error))); _ ← drop_tracked tr; k x) Q s.
Proof.
  intros Hi (_ & _ & Ht & _) Hk. apply wp_bind, wp_on_inner. eapply wp_mono; [by apply (law_ch_start_send now)|].
  intros x c1 (Hok1 & Ht1 & Hs1). apply wp_bind, wp_modify, Hk; simpl in *;
  destruct (law_ch_guard_drop now (tr_response_guard tr) c1 (cok_inv _ _ _ _ _ _ Hok1)) as (Hok2 & Ht2 & Hs2 & _).
  - split; [pose proof (channel_ok_trans _ _ _ _ _ _ _ _ Hok1 Hok2) as [? ? ?]; by split|].
    split; [done|]. eexists. unfold mr_abs. simpl. rewrite Hs2. split; [exact Hs1|].
    destruct (_ !! _); [|by constructor]. destruct (is_ok x); [|by constructor]. constructor; [by right|by constructor].
  - unfold mr_abs. simpl. rewrite Ht2, Ht1. symmetry. by eapply gmap_size_delete_Some.
Qed.

(** What a poll hands out, besides: a request only while the limit is kept. *)
Definition throttled (now : Z) s (r : Poll (option (Result (TrackedRequest Span Req) Error))) s' : Prop :=
  mr_ok now (yields r) s s' ∧
  match r with
  | Ready (Some (Ok tr)) =>
      handed_out tr (λ h, ch_is_aborted h (inner s')) (mr_abs s') ∧
      ch_in_flight_requests (inner s') ≤ max_in_flight_requests s'
  | Ready None => b_ended (mr_abs s') = true ∧ b_tracked (mr_abs s') = ∅
  | _ => True
  end.

Lemma mr_ok_size now s1 s2 s3 :
  mr_ok now 1 s1 s2 → mr_ok now 0 s2 s3 → S (size (b_tracked (mr_abs s3))) = size (b_tracked (mr_abs s2)) →
  mr_ok now 0 s1 s3.
Proof.
  intros H12 H23 Hz. pose proof (mr_ok_trans _ _ _ _ _ _ H12 H23) as [[? ? _] G]. split; [|done].
  destruct H12 as [[_ _ Z12] _]. split; [done|done|lia].
Qed.

Lemma wp_throttle_loop bound now n s : mr_inv s → wp (throttle_loop bound now n) (throttled now s) s.
Proof.
  revert s. induction n as [|n IH]; intros s Hi; [done|]. cbn [throttle_loop]. apply wp_bind, wp_get.
  case_bool_decide as Hmax.
  - apply wp_bind. eapply wp_mono; [by apply (wp_inner_ready now)|]. intros p s1 [Hok1 Ha1].
    destruct p as [[[]|e]|]; [|by apply wp_ret..].
    apply wp_bind. eapply wp_mono; [apply (wp_inner_next bound now), Hok1|]. intros r s2 [Hok2 Hr].
    pose proof (mr_ok_trans _ _ _ _ _ _ Hok1 Hok2) as Hok. simpl in Hok.
    destruct r as [[[tr|e]|]|]; try by apply wp_ret.
    eapply (wp_throttle _ _ now); [apply Hok|exact Hr|]. intros x s3 Hok3 Hz3.
    pose proof (mr_ok_size _ _ _ _ Hok Hok3 Hz3) as Hok'.
    destruct x as [[]|e]; [|by apply wp_ret].
    eapply wp_mono; [apply IH, Hok'|]. intros r s4 [Hok4 ?]. split; [by eapply (mr_ok_trans _ 0)|done].
  - eapply wp_mono; [by apply (wp_inner_next bound now)|]. intros r s1 [Hok1 Hr]. split; [done|].
    destruct r as [[[tr|e]|]|]; try done. split; [done|].
    destruct Hok1 as [[Hi1 _ Z1] [Hm _]]. simpl in Z1. rewrite Hm, law_ch_in_flight by done.
    unfold mr_inv, mr_abs in *. rewrite law_ch_in_flight in Hmax by done. lia.
Qed.

Lemma wp_inner_pass {A} (m : M (channel C) A) s :
  (∀ c, ch_inv c → wp m (λ _ c', ch_inv c' ∧ ch_abs c' = ch_abs c) c) → mr_inv s →
  wp (on_inner m) (λ _ s', mr_inv s' ∧ mr_abs s' = mr_abs s) s.
Proof. intros Hm Hi. apply wp_on_inner. eapply wp_mono; [by apply Hm|]. by intros. Qed.

(** The decorated channel keeps the promises of its kind. *)
#[export] Program Instance max_requests_laws : ChannelLaws (max_requests C) := {|
  ch_inv := mr_inv;
  ch_abs := mr_abs;
  ch_own_response := mr_own;
|}.
Next Obligation.
  intros bound now s Hi. cbn. eapply wp_mono; [by apply wp_throttle_loop|]. intros r s' [[Hok [_ Hg]] Hr].
  split; [done|]. split; [done|]. destruct r as [[[tr|e]|]|]; [apply Hr|done..].
Qed.
Next Obligation. intros s Hi. apply wp_inner_pass; [apply law_ch_poll_ready|done]. Qed.
Next Obligation. intros s Hi. apply wp_inner_pass; [apply law_ch_poll_flush|done]. Qed.
Next Obligation. intros s Hi. apply wp_inner_pass; [apply law_ch_poll_close|done]. Qed.
Next Obligation.
  intros now r s Hi. apply wp_on_inner. eapply wp_mono; [by apply (law_ch_start_send now)|].
  intros res c' ([] & Ht & Hs). split; [by split|]. by split.
Qed.
Next Obligation. intros s Hi. exact (law_ch_in_flight (inner s) Hi). Qed.
Next Obligation.
  intros now g s Hi. destruct (law_ch_guard_drop now g (inner s) Hi) as ([] & ? & ? & ? & ?). split_and!; [by split|done..].
Qed.

End laws.
End Limits.
