(* ===== verification/ServerFrame.v ===== *)
(** * What a server channel touches

    By following the code of [BaseChannel]: it changes its transport by operations of the
    transport only, and it makes the timer refuse a deadline only if the client sent a
    request with a deadline beyond the timer's range.  The second is stated of channels in
    general ([ChannelTimely]), so that it holds of [Requests] over any channel. *)
From S2P Require Import Prelude Interfaces RefModels Trace Wire TimerTable Transport Cancellations ServerInFlight ServerChannel ServerSpec ServerRefine ServerRequests Limits.

Module ServerFrame.
Export Limits.

(** ** The interface *)

Class ChannelTimely {Span Req Resp Error : Type} (C : Channel Span Req Resp Error) : Type := {
  (** Every request that can be read at this time has a deadline the timer supports. *)
  ch_near : Z → channel C → Prop;
  near_ch_poll_next bound now : fits (ch_near now) (ch_poll_next bound now) (λ _, True);
  near_ch_poll_ready now : fits (ch_near now) ch_poll_ready (λ _, True);
  near_ch_start_send now r : fits (ch_near now) (ch_start_send r) (λ _, True);
  near_ch_poll_flush now : fits (ch_near now) ch_poll_flush (λ _, True);
  near_ch_guard_drop now g c : ch_near now c → ch_near now (ch_guard_drop g c);
}.
#[export] Hint Mode ChannelTimely - - - - ! : typeclass_instances.

(** ** [BaseChannel] *)

Section base.
Context `{!DelayQueue, !DelayQueueLaws, !Mpsc, !MpscLaws, !Abort, !AbortLaws, !Otel}.
Context {E Span Req Resp Rng : Type}.
Context {T : Transport (Response Resp) (ClientMessage Req) E}.
Context (gen_u64 : Rng → Z * Rng).
Context (new_span : Request Req → Span) (span_active : Span → OtelContext → option otel_span_context).
Implicit Types b : BaseChannel Span Rng T.

Definition moves b b' : Prop := t_steps (bc_transport b) (bc_transport b').

#[export] Instance base_moves_preorder : PreOrder moves.
Proof. split; [intros b; apply rtc_refl|]. intros b1 b2 b3 Ha Hb. unfold moves, t_steps in *. by etrans. Qed.

Lemma base_moves_transport {A} (f : transport T → A * transport T) :
  (∀ t r t', f t = (r, t') → t_step t t') → keeps moves (on_transport f).
Proof. intros Hf b a b' Ht. unfold on_transport in Ht. destruct (f _) eqn:E1. injection Ht as <- <-. by eapply rtc_once, Hf. Qed.
Lemma base_moves_canceled {A} (f : mpsc Z → A * mpsc Z) : keeps moves (on_canceled f).
Proof. intros b a b' Ht. unfold on_canceled in Ht. destruct (f _). injection Ht as <- <-. apply rtc_refl. Qed.
Lemma base_moves_in_flight {A} f : keeps moves (on_in_flight (A:=A) f).
Proof.
  intros b a b'. unfold on_in_flight. destruct (f _ _) as [[[a' i] ab]| |]; [|done..]. intros [= <- <-]. apply rtc_refl.
Qed.
Lemma moves_set_rng rng : keeps moves (modify (set_rng rng)).
Proof. apply keeps_modify. intros b. apply rtc_refl. Qed.
Lemma moves_read : keeps moves (on_transport t_poll_next).
Proof. apply base_moves_transport. eauto using @t_step. Qed.
Hint Resolve base_moves_canceled base_moves_in_flight moves_set_rng moves_read : tarpc.

Lemma moves_poll_next_loop now n : keeps moves (poll_next_loop gen_u64 new_span span_active now n).
Proof.
  induction n as [|n IH]; cbn [poll_next_loop]; unfold poll_cancellation, poll_expiration, remove_request, start_request; keeps.
Qed.
Lemma moves_base_start_send r : keeps moves (start_send r).
Proof.
  unfold start_send, remove_request. apply keeps_bind; [apply _|keeps|]. intros [o|]; [|keeps].
  apply keeps_bind; [apply _|apply base_moves_transport; eauto using @t_step|keeps].
Qed.
Lemma moves_base_poll_ready : keeps moves poll_ready.
Proof. unfold poll_ready. apply keeps_bind; [apply _|apply base_moves_transport; eauto using @t_step|keeps]. Qed.
Lemma moves_base_poll_flush : keeps moves poll_flush.
Proof. unfold poll_flush. apply keeps_bind; [apply _|apply base_moves_transport; eauto using @t_step|keeps]. Qed.
Lemma moves_base_poll_close : keeps moves poll_close.
Proof. unfold poll_close. apply keeps_bind; [apply _|apply base_moves_transport; eauto using @t_step|keeps]. Qed.

(** *** Deadlines beyond the timer's range *)

Definition near_message (now : Z) (m : ClientMessage Req) : Prop :=
  match m with ClientRequest r => ¬ far now (deadline (context r)) | ClientCancel _ _ => True end.

Definition timely (now : Z) b : Prop := yields_only (near_message now) (bc_transport b).

Context (now : Z).

(** What changes the transport by its operations only and does not panic keeps it timely. *)
Lemma fits_moves {A} (m : M (BaseChannel Span Rng T) A) :
  keeps moves m → (∀ b, m b ≠ Panicked FarDeadline) → fits (timely now) m (λ _, True).
Proof.
  intros Hk Hn b Hb. specialize (Hk b). specialize (Hn b). unfold wlp in Hk. destruct (m b) as [[a b']|[]|]; [|done..].
  split; [|done]. by eapply yields_only_steps; [apply (Hk a b')|].
Qed.

Lemma fits_base_transport {A} (f : transport T → A * transport T) :
  (∀ t r t', f t = (r, t') → t_step t t') → fits (timely now) (on_transport f) (λ _, True).
Proof. intros Hf. apply fits_moves; [by apply base_moves_transport|]. intros b. unfold on_transport. by destruct (f _). Qed.
Lemma fits_base_canceled {A} (f : mpsc Z → A * mpsc Z) : fits (timely now) (on_canceled f) (λ _, True).
Proof. apply fits_moves; [apply base_moves_canceled|]. intros b. unfold on_canceled. by destruct (f _). Qed.
Lemma fits_base_in_flight {A} f :
  (∀ i ab, f i ab ≠ Panicked FarDeadline) → fits (timely now) (on_in_flight (A:=A) f) (λ _, True).
Proof.
  intros Hf. apply fits_moves; [apply base_moves_in_flight|]. intros b. unfold on_in_flight.
  specialize (Hf (bc_in_flight_requests b) (bc_aborts b)). by destruct (f _ _) as [[[a i] ab]|[]|].
Qed.
Lemma fits_base_done {A} f : fits (timely now) (on_in_flight (A:=A) (λ i ab, Done (f i ab))) (λ _, True).
Proof. by apply fits_base_in_flight. Qed.
Lemma fits_set_rng rng : fits (timely now) (modify (set_rng rng)) (λ _, True).
Proof. by apply fits_modify. Qed.
Lemma remove_near (q : delay_queue) k : dq_remove q k ≠ Panicked FarDeadline.
Proof.
  destruct (dq_view q !! k) eqn:E1; [by destruct (law_dq_remove q k) as (? & -> & _)|by rewrite law_dq_remove_absent].
Qed.
Lemma fits_remove_request i : fits (timely now) (remove_request i) (λ _, True).
Proof.
  apply fits_base_in_flight. intros t ab. unfold SIF.remove_request. destruct (_ !! _) as [rd|]; [|done].
  pose proof (remove_near (SIF.deadlines t) (SIF.deadline_key rd)). by destruct (dq_remove _ _) as [|[]|].
Qed.
Lemma fits_base_cancel i : fits (timely now) (on_in_flight (λ t ab, SIF.cancel_request t ab i)) (λ _, True).
Proof.
  apply fits_base_in_flight. intros t ab. unfold SIF.cancel_request. destruct (_ !! _) as [rd|]; [|done].
  pose proof (remove_near (SIF.deadlines t) (SIF.deadline_key rd)). by destruct (dq_remove _ _) as [|[]|].
Qed.
Hint Resolve fits_base_canceled fits_base_done fits_set_rng fits_remove_request fits_base_cancel : tarpc.

Lemma fits_read :
  fits (timely now) (on_transport t_poll_next) (λ p, ∀ m, p = Ready (Some (Ok m)) → near_message now m).
Proof.
  intros b Hb. unfold on_transport. destruct (t_poll_next _) as [p t] eqn:Ht. split.
  - eapply yields_only_steps; [by eapply rtc_once, t_step_next|done].
  - intros m ->. eapply Hb; [apply rtc_refl|done].
Qed.

Lemma fits_start_request r :
  near_message now (ClientRequest r) → fits (timely now) (start_request gen_u64 new_span span_active now r) (λ _, True).
Proof.
  intros Hr. unfold start_request. apply fits_bind; [fits|]. intros b.
  pose proof (request_context_deadline gen_u64 span_active (new_span r) (context r) (bc_rng b)) as Hd.
  destruct (request_context _ _ _ _ _) as [ctx rng]. simpl in Hd. apply fits_bind; [fits|]. intros ?.
  apply fits_bind; [|fits]. apply fits_base_in_flight. intros t ab. simpl. rewrite Hd.
  destruct (SIF.start_request_cases t ab now (id r) (deadline (context r)) (new_span r)) as [(? & ? & ? & -> & _)|(_ & _ & ?)]; done.
Qed.

Lemma fits_poll_next_loop n : fits (timely now) (poll_next_loop gen_u64 new_span span_active now n) (λ _, True).
Proof.
  induction n as [|n IH]; cbn [poll_next_loop]; [fits|]. unfold poll_cancellation, poll_expiration.
  apply fits_bind; [fits|]. intros st1. apply fits_bind; [fits|]. intros st2.
  eapply fits_bind_post; [apply fits_read|]. intros m Hm. destruct m as [[[[r|tc i]|e]|]|]; [|fits..].
  apply fits_bind; [by apply fits_start_request, Hm|]. intros [tr|[]]; fits.
Qed.

Lemma fits_pass (f : transport T → Poll (Result unit E) * transport T) c :
  (∀ t r t', f t = (r, t') → t_step t t') →
  fits (timely now) (p ← on_transport f; mret (poll_map (result_map_err (c : E → ChannelError.t E)) p)) (λ _, True).
Proof. intros Hf. apply fits_bind; [by apply fits_base_transport|]. intros p. by apply fits_ret. Qed.

Lemma fits_base_start_send r : fits (timely now) (start_send r) (λ _, True).
Proof.
  unfold start_send. apply fits_bind; [fits|]. intros [o|]; [|fits].
  apply fits_bind; [apply fits_base_transport; eauto using @t_step|fits].
Qed.
End base.

#[export] Program Instance base_timely `{!DelayQueue, !DelayQueueLaws, !Mpsc, !MpscLaws, !Abort, !AbortLaws, !Otel}
    {E Span Req Resp Rng : Type} {T : Transport (Response Resp) (ClientMessage Req) E} (gen_u64 : Rng → Z * Rng)
    (new_span : Request Req → Span) (span_active : Span → OtelContext → option otel_span_context) :
    ChannelTimely (base_channel gen_u64 new_span span_active (Resp:=Resp) (T:=T)) := {| ch_near := timely |}.
Next Obligation. intros. apply fits_poll_next_loop. Qed.
Next Obligation. intros. apply fits_pass. eauto using @t_step. Qed.
Next Obligation. intros. apply fits_base_start_send. Qed.
Next Obligation. intros. apply fits_pass. eauto using @t_step. Qed.
Next Obligation. done. Qed.

(** ** [MaxRequests] *)

Section throttled.
Context {Span Req Resp Error : Type} {C : Channel Span Req Resp Error} `{!ChannelTimely C}.

Definition near_inner (now : Z) (s : MaxRequests C) : Prop := ch_near now (inner s).

Lemma fits_on_inner {A} now (m : M (channel C) A) :
  fits (ch_near now) m (λ _, True) → fits (near_inner now) (on_inner m) (λ _, True).
Proof. intros Hm s Hs. specialize (Hm _ Hs). unfold on_inner. by destruct (m _) as [[a c]|[]|]. Qed.

Lemma fits_throttle_loop bound now n : fits (near_inner now) (throttle_loop bound now n) (λ _, True).
Proof.
  assert (Hd : ∀ r, fits (near_inner now) (drop_tracked (C:=C) r) (λ _, True)).
  { intros r. apply fits_modify. intros s Hs. by apply near_ch_guard_drop. }
  induction n as [|n IH]; cbn [throttle_loop]; fits;
    eauto using fits_on_inner, near_ch_poll_next, near_ch_poll_ready, near_ch_start_send.
Qed.

#[export] Program Instance max_requests_timely : ChannelTimely (max_requests C) := {| ch_near := near_inner |}.
Next Obligation. intros. apply fits_throttle_loop. Qed.
Next Obligation. intros. apply fits_on_inner, near_ch_poll_ready. Qed.
Next Obligation. intros. apply fits_on_inner, near_ch_start_send. Qed.
Next Obligation. intros. apply fits_on_inner, near_ch_poll_flush. Qed.
Next Obligation. intros now g c Hc. by apply near_ch_guard_drop. Qed.
End throttled.

(** ** [Requests] *)

Section requests.
Context `{!Mpsc} {Span Req Resp Error : Type} {C : Channel Span Req Resp Error} `{!ChannelTimely C}.
Context (now : Z).

Definition near_requests (q : Requests C) : Prop := ch_near now (rq_channel q).

Lemma fits_on_channel {A} (m : M (channel C) A) :
  fits (ch_near now) m (λ _, True) → fits near_requests (on_channel m) (λ _, True).
Proof. intros Hm q Hq. specialize (Hm _ Hq). unfold on_channel. by destruct (m _) as [[a c]|[]|]. Qed.
Lemma fits_on_responses {A} (f : mpsc (Response Resp) → A * mpsc (Response Resp)) :
  fits near_requests (on_responses f) (λ _, True).
Proof. intros q Hq. unfold on_responses. by destruct (f _). Qed.

Lemma fits_requests_next bound : fits near_requests (on_channel (ch_poll_next bound now)) (λ _, True).
Proof. apply fits_on_channel, near_ch_poll_next. Qed.
Lemma fits_requests_ready : fits near_requests (on_channel ch_poll_ready) (λ _, True).
Proof. apply fits_on_channel, near_ch_poll_ready. Qed.
Lemma fits_requests_flush : fits near_requests (on_channel ch_poll_flush) (λ _, True).
Proof. apply fits_on_channel, near_ch_poll_flush. Qed.
Lemma fits_requests_send r : fits near_requests (on_channel (ch_start_send r)) (λ _, True).
Proof. apply fits_on_channel, near_ch_start_send. Qed.
Hint Resolve fits_on_responses fits_requests_next fits_requests_ready fits_requests_flush fits_requests_send : tarpc.

Lemma fits_requests_writeable n : fits near_requests (ensure_writeable_loop n) (λ _, True).
Proof. induction n as [|n IH]; cbn [ensure_writeable_loop]; fits. Qed.
Hint Resolve fits_requests_writeable : tarpc.

Lemma fits_requests_write bound closed : fits near_requests (pump_write bound closed) (λ _, True).
Proof. unfold pump_write, poll_next_response, ensure_writeable. fits. Qed.
Lemma fits_drop_in_flight r : fits near_requests (drop_in_flight r) (λ _, True).
Proof. apply fits_bind; [|fits]. apply fits_modify. intros q Hq. by apply near_ch_guard_drop. Qed.
Hint Resolve fits_requests_write fits_drop_in_flight : tarpc.

(** Unless the client sent a request with a deadline beyond the timer's range, a poll of
    [Requests] does not make the timer panic. *)
Lemma near_poll_next_requests bound (q : Requests C) :
  ch_near now (rq_channel q) → poll_next_requests bound now q ≠ Panicked FarDeadline.
Proof.
  intros Hq. unfold poll_next_requests. revert Hq. generalize bound at 2 as n. intros n Hq.
  assert (Hp : fits near_requests (poll_next_requests_loop bound now n) (λ _, True)).
  { induction n as [|n IH]; cbn [poll_next_requests_loop]; unfold pump_read; fits. }
  specialize (Hp q Hq). by destruct (poll_next_requests_loop bound now n q) as [|[]|].
Qed.
End requests.
End ServerFrame.
