(* ===== verification/ServerTermination.v ===== *)
(** * The server's loops end

    A poll of a server channel, decorated or not, and a poll of [Requests] finish:
    each round of their loops uses up something that was there at the start (a message
    to read, a cancellation, an expired request, a queued response).  As for the
    client, the transport must make progress. *)
From S2P Require Import Prelude Interfaces RefModels Trace Wire TimerTable Transport Cancellations ServerInFlight ServerChannel ServerSpec ServerRefine ServerRequests ServerSystem Limits.

Module ServerTermination.
Export ServerSystem Limits.

(** What the loops of a channel and of its clients use up. *)
Class ChannelProgress `{!Abort} {Span Req Resp Error} (C : Channel Span Req Resp Error) `{!ChannelLaws C} : Type := {
  ch_work : channel C → nat;
  ch_flushed : channel C → bool;
  prog_poll_next bound now c : ch_inv c → ch_work c < bound →
    total (ch_poll_next bound now) (λ _ c', ch_work c' ≤ ch_work c) c;
  prog_poll_ready c : ch_inv c →
    total ch_poll_ready (λ r c', ch_work c' ≤ ch_work c ∧ (ch_flushed c = true → r ≠ Pending)) c;
  prog_poll_flush c : ch_inv c →
    total ch_poll_flush (λ r c', ch_work c' ≤ ch_work c ∧ (r = Ready (Ok tt) → ch_flushed c' = true)) c;
  prog_start_send r c : ch_inv c →
    total (ch_start_send r) (λ _ c',
      ch_work c' + (if b_tracked (ch_abs c) !! request_id r then 1 else 0) ≤ ch_work c) c;
  prog_guard_drop g c : ch_inv c → ch_work (ch_guard_drop g c) ≤ ch_work c + if g_cancel g then 1 else 0;
}.

(** ** [BaseChannel] *)

Section base.
Context `{!DelayQueue, !DelayQueueLaws, !Mpsc, !MpscLaws, !Abort, !AbortLaws, !Otel}.
Context {E Span Req Resp Rng : Type}.
Context {T : Transport (Response Resp) (ClientMessage Req) E} `{!TransportLog T, !TransportProgress T}.
Context (gen_u64 : Rng → Z * Rng).
Context (new_span : Request Req → Span) (span_active : Span → OtelContext → option otel_span_context).
Implicit Types b : BaseChannel Span Rng T.

Definition tracked_count b : nat := size (SIF.request_data (bc_in_flight_requests b)).
Definition canceled_count b : nat := length (mv_queue (mpsc_view (bc_canceled_requests b))).
Definition base_work b : nat := unread (bc_transport b) + canceled_count b + tracked_count b.

Lemma terminates_base_transport {A} (f : transport T → A * transport T) b : terminates (on_transport f) b.
Proof. unfold terminates, on_transport. by destruct (f _). Qed.

Lemma terminates_base_canceled {A} (f : mpsc Z → A * mpsc Z) b : terminates (on_canceled f) b.
Proof. unfold terminates, on_canceled. by destruct (f _). Qed.

Lemma terminates_base_in_flight {A} f b :
  f (bc_in_flight_requests b) (bc_aborts b) ≠ OutOfFuel → terminates (on_in_flight (A:=A) f) b.
Proof. unfold terminates, on_in_flight. by destruct (f _ _) as [[[??]?]| |]. Qed.

Lemma total_on_transport {A} (f : transport T → A * transport T) Q b :
  (∀ a t, f (bc_transport b) = (a, t) → Q a (set_transport t b)) → total (on_transport f) Q b.
Proof. intros Hq. apply total_wp; [apply terminates_base_transport|by apply wp_base_transport]. Qed.

Lemma dq_remove_fuel (q : delay_queue) k : dq_remove q k ≠ OutOfFuel.
Proof.
  destruct (dq_view q !! k) eqn:Hk.
  - by destruct (law_dq_remove q k) as (? & -> & _).
  - by rewrite law_dq_remove_absent.
Qed.

Lemma terminates_remove_request i b : terminates (remove_request i) b.
Proof.
  apply terminates_base_in_flight. unfold SIF.remove_request. destruct (_ !! _) as [rd|]; [|done].
  pose proof (dq_remove_fuel (SIF.deadlines (bc_in_flight_requests b)) (SIF.deadline_key rd)).
  by destruct (dq_remove _ _).
Qed.

Lemma size_tracked b : size (b_tracked (abs b)) = tracked_count b.
Proof. simpl. by rewrite map_size_fmap. Qed.

Lemma total_remove_request i b :
  binv b → total (remove_request i) (λ _ b', bc_transport b' = bc_transport b ∧
    bc_canceled_requests b' = bc_canceled_requests b ∧ binv b' ∧
    tracked_count b' + (if b_tracked (abs b) !! i then 1 else 0) ≤ tracked_count b) b.
Proof.
  intros Hinv. apply total_wp; [apply terminates_remove_request|]. apply wp_remove_request; [done|..].
  - intros rd s' Hi Hinv' Habs. split_and!; [done..|]. rewrite (tracked_lookup _ _ _ Hi).
    rewrite <- !size_tracked, Habs. simpl. rewrite (gmap_size_delete_Some _ _ _ (tracked_lookup _ _ _ Hi)). simpl. lia.
  - intros Hi. rewrite (tracked_None _ _ Hi). split_and!; [done..|lia].
Qed.

(** A source that had something used it up. *)
Definition spent (r : ReceiverStatus) : nat := match r with StReady => 1 | _ => 0 end.

Lemma total_poll_cancellation b :
  binv b → total poll_cancellation (λ r b', binv b' ∧ base_work b' + spent r ≤ base_work b) b.
Proof.
  intros Hinv. apply total_bind, total_wp; [apply terminates_base_canceled|]. apply wp_base_canceled.
  intros r c Hc%Cancellations.poll_next_view. destruct r as [[i|]|]; simpl in Hc.
  - destruct Hc as (q & Hq & Hc). apply total_bind. eapply total_mono; [by apply total_remove_request|].
    intros o b' (Ht & Hcc & Hi & Hz). apply total_ret. split; [done|].
    unfold base_work, canceled_count. rewrite Ht, Hcc. simpl. rewrite Hc, Hq. simpl.
    change (tracked_count (set_canceled c b)) with (tracked_count b) in Hz. destruct (_ !! _); lia.
  - apply total_ret. split; [done|]. unfold base_work, canceled_count. simpl. destruct Hc as (_ & _ & ->).
    change (tracked_count (set_canceled c b)) with (tracked_count b). lia.
  - apply total_ret. split; [done|]. unfold base_work, canceled_count. simpl. rewrite Hc.
    change (tracked_count (set_canceled c b)) with (tracked_count b). lia.
Qed.

Lemma total_poll_expiration now b :
  binv b → total (poll_expiration now) (λ r b', binv b' ∧ base_work b' + spent r ≤ base_work b) b.
Proof.
  intros Hinv. apply total_wp.
  { apply terminates_bind; [by apply terminates_base_in_flight|done]. }
  apply wp_bind. destruct (SIF.poll_expired (bc_in_flight_requests b) (bc_aborts b) now) as [[r s'] ab'] eqn:Hp.
  eapply wp_base_in_flight; [exact (f_equal Done Hp)|]. apply wp_ret.
  apply SIF.poll_expired_spec in Hp as [Hinv' Hr]; [|done]. split; [done|]. unfold base_work, tracked_count. simpl.
  change (canceled_count (set_in_flight s' ab' b)) with (canceled_count b).
  destruct r as [[i|]|].
  - destruct Hr as (rd & due & Hi & _ & _ & Hrd & _ & _). rewrite Hrd, (gmap_size_delete_Some _ _ _ Hi). simpl. lia.
  - destruct Hr as (Hrd & -> & ->). simpl. lia.
  - destruct Hr as (_ & Hrd & _ & _). rewrite Hrd. simpl. lia.
Qed.

(** Starting a request keeps the sum of what is to be read and what is tracked. *)
Lemma total_start_request now r b :
  binv b → total (start_request gen_u64 new_span span_active now r) (λ res b', binv b' ∧
    base_work b' ≤ base_work b + match res with Ok _ => 1 | Err _ => 0 end) b.
Proof.
  intros Hinv. unfold start_request. apply total_bind, total_wp; [done|]. apply wp_get.
  destruct (request_context _ _ _ _ _) as [ctx rng]. apply total_bind, total_wp; [done|]. apply wp_modify.
  destruct (SIF.start_request_cases (bc_in_flight_requests b) (bc_aborts b) now (id r) (deadline ctx) (new_span r))
    as [(res & s' & ab' & Hs & _)|(Hs & _)];
    (apply total_bind, total_wp; [apply terminates_base_in_flight; simpl; by rewrite Hs|]); simpl; [|by apply wp_base_far].
  eapply wp_base_in_flight; [exact Hs|].
  pose proof (SIF.start_request_inv _ _ _ _ _ _ _ _ _ Hinv Hs) as Hinv'.
  unfold SIF.start_request in Hs. destruct (SIF.request_data _ !! _) eqn:Hi.
  - injection Hs as <- <- <-. apply total_ret. split; [done|]. unfold base_work, canceled_count, tracked_count. simpl. lia.
  - destruct (dq_insert _ _ _ _) as [[k dl]| |]; [|done..]. simplify_eq/=. apply total_bind, total_wp; [apply terminates_base_canceled|].
    apply wp_base_canceled. intros [] c [= <-]. apply total_ret. split; [done|].
    unfold base_work, canceled_count, tracked_count. simpl. rewrite law_clone_sender. simpl.
    rewrite Nat.add_1_r, <- Nat.add_succ_r. apply Nat.add_le_mono_l, gmap_size_insert_le.
Qed.

Lemma total_cancel_request i b :
  binv b → total (on_in_flight (λ t ab, SIF.cancel_request t ab i)) (λ _ b', binv b' ∧ base_work b' ≤ base_work b) b.
Proof.
  intros Hinv. pose proof (SIF.cancel_request_spec _ _ i Hinv) as Hc. apply total_wp.
  { apply terminates_base_in_flight. destruct (SIF.request_data _ !! i); [by destruct Hc as (s' & -> & _)|by rewrite Hc]. }
  unfold base_work. destruct (SIF.request_data _ !! i) as [rd|] eqn:Hi.
  - destruct Hc as (s' & Hc & Hrd & _ & Hinv'). eapply wp_base_in_flight; [exact Hc|]. split; [done|].
    change (canceled_count (set_in_flight s' _ b)) with (canceled_count b). simpl.
    unfold tracked_count. simpl. rewrite Hrd. pose proof (gmap_size_delete_le (SIF.request_data (bc_in_flight_requests b)) i). lia.
  - eapply wp_base_in_flight; [exact Hc|]. split; [by destruct b|]. by destruct b.
Qed.

Lemma total_base_poll_next now n b :
  binv b → base_work b < n →
  total (poll_next_loop gen_u64 new_span span_active now n) (λ _ b', base_work b' ≤ base_work b) b.
Proof.
  revert b. induction n as [|n IH]; intros b Hinv Hn; [lia|]. cbn [poll_next_loop].
  apply total_bind. eapply total_mono; [by apply total_poll_cancellation|]. intros st1 b1 [Hi1 W1].
  apply total_bind. eapply total_mono; [by apply (total_poll_expiration now)|]. intros st2 b2 [Hi2 W2].
  assert (Hloop : ∀ b3, binv b3 → base_work b3 < base_work b →
    total (poll_next_loop gen_u64 new_span span_active now n) (λ _ b', base_work b' ≤ base_work b) b3).
  { intros b3 Hi3 W3. eapply total_mono; [apply IH; [done|lia]|]. intros r b4 W4. cbv beta in *. lia. }
  assert (Hfin : ∀ st3 b3, binv b3 → base_work b3 + spent st3 ≤ base_work b2 →
    total match combine (combine st1 st2) st3 with
          | StReady => poll_next_loop gen_u64 new_span span_active now n
          | StClosed => mret (Ready None) | StPending => mret Pending end (λ _ b', base_work b' ≤ base_work b) b3).
  { intros st3 b3 Hi3 W3. destruct (combine (combine st1 st2) st3) eqn:Hc; [|apply total_ret; lia..].
    apply Hloop; [done|]. destruct st1, st2, st3; simpl in *; try done; lia. }
  apply total_bind, total_on_transport. intros m t Hm%progress_poll_next.
  assert (Hi3 : binv (set_transport t b2)) by done.
  assert (W3 : base_work (set_transport t b2) + unread (bc_transport b2) = base_work b2 + unread t).
  { unfold base_work. simpl. change (canceled_count (set_transport t b2)) with (canceled_count b2).
    change (tracked_count (set_transport t b2)) with (tracked_count b2). lia. }
  destruct m as [[[[r|tc i]|e]|]|].
  - apply total_bind. eapply total_mono; [by apply total_start_request|]. intros [tr|[]] b4 [Hi4 W4].
    + apply total_ret. lia.
    + apply Hloop; [done|lia].
  - apply total_bind. eapply total_mono; [by apply total_cancel_request|]. intros ? b4 [Hi4 W4].
    apply Hfin; [done|simpl; lia].
  - apply total_ret. lia.
  - apply Hfin; [done|simpl; lia].
  - apply Hfin; [done|simpl; lia].
Qed.

Lemma base_work_set_transport t b :
  unread t ≤ unread (bc_transport b) → base_work (set_transport t b) ≤ base_work b.
Proof. intros Ht. unfold base_work. change (canceled_count (set_transport t b)) with (canceled_count b).
  change (tracked_count (set_transport t b)) with (tracked_count b). simpl. lia. Qed.

#[export] Program Instance base_progress :
    ChannelProgress (base_channel gen_u64 new_span span_active (Resp:=Resp) (T:=T)) := {|
  ch_work := base_work;
  ch_flushed b := flushed (bc_transport b);
|}.
Next Obligation. intros bound now b Hinv Hn. by apply total_base_poll_next. Qed.
Next Obligation.
  intros b Hinv. apply total_bind, total_on_transport. intros r t [Hu Hf]%progress_poll_ready. apply total_ret.
  split; [by apply base_work_set_transport|]. intros Hfl. specialize (Hf Hfl). by destruct r.
Qed.
Next Obligation.
  intros b Hinv. apply total_bind, total_on_transport. intros r t [Hu Hf]%progress_poll_flush. apply total_ret.
  split; [by apply base_work_set_transport|]. intros Hr. apply Hf. by destruct r as [[[]|]|].
Qed.
Next Obligation.
  intros r b Hinv. apply total_bind. eapply total_mono; [by apply total_remove_request|].
  intros o b1 (Ht & Hc & Hi & Hz).
  assert (W : base_work b1 + (if b_tracked (abs b) !! request_id r then 1 else 0) ≤ base_work b).
  { unfold base_work, canceled_count. rewrite Ht, Hc. unfold canceled_count in *. lia. }
  destruct o as [sp|]; [|by apply total_ret].
  apply total_bind, total_on_transport. intros res t Hu%progress_start_send. apply total_ret.
  pose proof (base_work_set_transport t b1 Hu). cbn in *. lia.
Qed.
Next Obligation.
  intros g b Hinv. cbn. unfold guard_drop, base_work, canceled_count. simpl. rewrite law_drop_sender. simpl.
  change (tracked_count (set_canceled _ b)) with (tracked_count b).
  destruct (g_cancel g); [|lia]. rewrite Cancellations.cancel_view.
  destruct (mv_closed _); simpl; rewrite ?length_app; simpl; lia.
Qed.
End base.

(** ** [MaxRequests] *)

Section throttle.
Context `{!Abort} {Span Req Resp Error : Type} {C : Channel Span Req Resp Error}.
Context `{HL : !ChannelLaws C, !ChannelProgress C}.
Implicit Types s : MaxRequests C.

Lemma total_on_inner {A} (m : M (channel C) A) Q s :
  total m (λ a c, Q a (MkMaxRequests (max_in_flight_requests s) c)) (inner s) → total (on_inner m) Q s.
Proof. unfold total, on_inner. by destruct (m _) as [[a c]| |]. Qed.

Definition mr_work s : nat := ch_work (inner s).

Lemma total_throttle_loop bound now n s :
  mr_inv s → mr_work s < bound → mr_work s < n →
  total (throttle_loop bound now n) (λ _ s', mr_work s' ≤ mr_work s) s.
Proof.
  revert s. induction n as [|n IH]; intros s Hi Hb Hn; [lia|]. cbn [throttle_loop]. apply total_bind, total_wp; [done|].
  apply wp_get. unfold mr_work in *. case_bool_decide as Hmax; cycle 1.
  { apply total_on_inner. by apply prog_poll_next. }
  apply total_bind, total_on_inner. eapply total_mono; [apply total_and_wp; [by apply prog_poll_ready|by apply law_ch_poll_ready]|].
  intros p c1 [[W1 _] [Hi1 _]]. destruct p as [[[]|e]|]; [|by apply total_ret..].
  apply total_bind, total_on_inner.
  eapply total_mono; [apply total_and_wp; [apply prog_poll_next; [done|simpl; lia]|by apply law_ch_poll_next]|].
  simpl. intros r c2 [W2 ([Hi2 _ _] & _ & Hr)]. destruct r as [[[tr|e]|]|]; try (apply total_ret; simpl; lia).
  destruct Hr as (_ & Hg & Ht & _). apply total_bind, total_on_inner.
  eapply total_mono; [apply total_and_wp; [by apply prog_start_send|by apply (law_ch_start_send now)]|].
  simpl. rewrite Ht. intros x c3 [W3 ([Hi3 _ _] & _ & _)]. apply total_bind, total_wp; [done|]. apply wp_modify. simpl.
  destruct (law_ch_guard_drop now (tr_response_guard tr) c3 Hi3) as ([Hi4 _ _] & _).
  assert (W4 : ch_work (ch_guard_drop (tr_response_guard tr) c3) < ch_work (inner s)).
  { pose proof (prog_guard_drop (tr_response_guard tr) c3 Hi3) as W4. rewrite Hg in W4 at 2. simpl in W4. lia. }
  destruct x as [[]|e]; [|apply total_ret; simpl; lia].
  eapply total_mono; [apply IH; simpl; [done|lia..]|]. simpl. intros r s' W5. lia.
Qed.

#[export] Program Instance max_requests_progress : ChannelProgress (max_requests C) := {|
  ch_work := mr_work;
  ch_flushed s := ch_flushed (inner s);
|}.
Next Obligation. intros bound now s Hi Hb. by apply total_throttle_loop. Qed.
Next Obligation. intros s Hi. apply total_on_inner. exact (prog_poll_ready (C:=C) (inner s) Hi). Qed.
Next Obligation. intros s Hi. apply total_on_inner. exact (prog_poll_flush (C:=C) (inner s) Hi). Qed.
Next Obligation. intros r s Hi. apply total_on_inner. exact (prog_start_send (C:=C) r (inner s) Hi). Qed.
Next Obligation. intros g s Hi. exact (prog_guard_drop (C:=C) g (inner s) Hi). Qed.
End throttle.

(** ** [Requests] *)

Section requests.
Context `{!Abort, !Mpsc, !MpscLaws} {Span Req Resp Error : Type} {C : Channel Span Req Resp Error}.
Context `{HL : !ChannelLaws C, !ChannelProgress C}.
Implicit Types q : Requests C.

Lemma total_on_channel {A} (m : M (channel C) A) Q q :
  total m (λ a c, Q a (MkRequests c (rq_pending_responses q))) (rq_channel q) → total (on_channel m) Q q.
Proof. unfold total, on_channel. by destruct (m _) as [[a c]| |]. Qed.

Lemma total_on_responses {A} (f : mpsc (Response Resp) → A * mpsc (Response Resp)) Q q :
  (∀ a p, f (rq_pending_responses q) = (a, p) → Q a (MkRequests (rq_channel q) p)) → total (on_responses f) Q q.
Proof. intros Hq. unfold total, on_responses. destruct (f _) as [a p] eqn:Hf. by apply Hq. Qed.

(** [q'] is no further from being done than [q]. *)
Definition nearer q q' : Prop :=
  ch_inv (rq_channel q') ∧ ch_work (rq_channel q') ≤ ch_work (rq_channel q) ∧ length (queued q') ≤ length (queued q).

Lemma nearer_trans q1 q2 q3 : nearer q1 q2 → nearer q2 q3 → nearer q1 q3.
Proof. intros (? & ? & ?) (? & ? & ?). split_and!; [done|lia..]. Qed.

Lemma total_ready q :
  ch_inv (rq_channel q) → total (on_channel ch_poll_ready) (λ r q',
    nearer q q' ∧ (ch_flushed (rq_channel q) = true → r ≠ Pending)) q.
Proof.
  intros Hi. apply total_on_channel. eapply total_mono; [apply total_and_wp; [by apply prog_poll_ready|by apply law_ch_poll_ready]|].
  intros r c [[W Hr] [Hi' _]]. split; [by split_and!|done].
Qed.

Lemma total_flush q :
  ch_inv (rq_channel q) → total (on_channel ch_poll_flush) (λ r q',
    nearer q q' ∧ (r = Ready (Ok tt) → ch_flushed (rq_channel q') = true)) q.
Proof.
  intros Hi. apply total_on_channel. eapply total_mono; [apply total_and_wp; [by apply prog_poll_flush|by apply law_ch_poll_flush]|].
  intros r c [[W Hr] [Hi' _]]. split; [by split_and!|done].
Qed.

(** Two rounds: a completed flush makes the channel ready. *)
Lemma total_ensure_writeable n q :
  ch_inv (rq_channel q) → 2 ≤ n → total (ensure_writeable_loop n) (λ _ q', nearer q q') q.
Proof.
  intros Hi Hn. destruct n as [|[|n]]; [lia|lia|]. cbn [ensure_writeable_loop]. apply total_bind.
  eapply total_mono; [by apply total_ready|]. intros p q1 [N1 _]. destruct p as [[[]|e]|]; [by apply total_ret..|].
  apply total_bind. eapply total_mono; [apply total_flush, N1|]. intros p q2 [N2 Hf]. pose proof (nearer_trans _ _ _ N1 N2) as N.
  destruct p as [[[]|e]|]; [|by apply total_ret..].
  apply total_bind. eapply total_mono; [apply total_ready, N|]. intros p q3 [N3 Hr]. pose proof (nearer_trans _ _ _ N N3).
  specialize (Hr (Hf eq_refl)). destruct p as [[[]|e]|]; [by apply total_ret..|done].
Qed.

Lemma total_pump_read bound now q :
  ch_inv (rq_channel q) → ch_work (rq_channel q) < bound → total (pump_read bound now) (λ _ q', nearer q q') q.
Proof.
  intros Hi Hb. apply total_bind, total_on_channel.
  eapply total_mono; [apply total_and_wp; [by apply prog_poll_next|by apply law_ch_poll_next]|].
  intros r c [W ([Hi' _ _] & _)].
  destruct r as [[[[req ab sp g]|e]|]|]; try (apply total_ret; by split_and!).
  apply total_bind, total_on_responses. intros [] p [= <-]. apply total_ret. split_and!; [done|done|].
  unfold queued. simpl. by rewrite law_clone_sender.
Qed.

(** A round that wrote something took it from the queue. *)
Definition wrote q (r : Poll (option (Result unit Error))) q' : Prop :=
  nearer q q' ∧ (r = Ready (Some (Ok tt)) → length (queued q') < length (queued q)).

Lemma total_flush_then (k : M (Requests C) (Poll (option (Result unit Error)))) q q1 :
  nearer q q1 → (∀ q2, ∃ r, k q2 = Done (r, q2) ∧ (r = Ready None ∨ r = Pending)) →
  total (ready? _ ← on_channel ch_poll_flush; k) (wrote q) q1.
Proof.
  intros N1 Hk. apply total_bind. eapply total_mono; [apply total_flush, N1|]. intros x q2 [N2 _].
  pose proof (nearer_trans _ _ _ N1 N2). destruct x as [[u|e]|]; [|by apply total_ret..].
  unfold total. destruct (Hk q2) as (r & -> & [-> | ->]); by split.
Qed.

Lemma total_pump_write bound closed q :
  ch_inv (rq_channel q) → 2 ≤ bound → total (pump_write bound closed) (wrote q) q.
Proof.
  intros Hi Hb. unfold pump_write, poll_next_response. apply total_bind, total_bind.
  eapply total_mono; [by apply total_ensure_writeable|]. intros p q1 N1.
  assert (Hrecv : total (ready! o ← on_responses mpsc_poll_recv; mret (Ready (option_map Ok o)))
    (λ (r : Poll (option (Result (Response Resp) Error))) q2, nearer q q2 ∧
      match r with Ready (Some (Ok _)) => length (queued q2) < length (queued q) | _ => True end) q1).
  { apply total_bind, total_on_responses. intros o p2 Hp%law_poll_recv. destruct N1 as (? & ? & N1). unfold nearer, queued in *.
    destruct o as [[x|]|]; simpl in Hp; apply total_ret; simpl.
    - destruct Hp as (l & Hl & ->). rewrite Hl in N1. simpl in *. split_and!; [done|done|lia..].
    - destruct Hp as (_ & _ & ->). by split_and!.
    - rewrite Hp. by split_and!. }
  assert (Hrest : ∀ r q2, nearer q q2 →
    match r with Ready (Some (Ok _)) => length (queued q2) < length (queued q) | _ => True end →
    total match r with
      | Ready (Some (Err e)) => mret (Ready (Some (Err e)))
      | Ready (Some (Ok response)) => x ← on_channel (ch_start_send response);
          match x with Ok _ => mret (Ready (Some (Ok tt))) | Err e => mret (Ready (Some (Err e))) end
      | Ready None => ready? _ ← on_channel ch_poll_flush; mret (Ready None)
      | Pending => ready? _ ← on_channel ch_poll_flush;
          q ← get; if closed && bool_decide (ch_in_flight_requests (rq_channel q) = 0)
          then mret (Ready None) else mret Pending
      end (wrote q) q2).
  { intros r q2 N2 Hl. destruct r as [[[x|e]|]|].
    - apply total_bind, total_on_channel.
      eapply total_mono; [apply total_and_wp; [apply prog_start_send, N2|apply (law_ch_start_send 0), N2]|].
      intros y c [W ([Hi' _ _] & _)]. assert (nearer q (MkRequests c (rq_pending_responses q2))).
      { eapply nearer_trans; [exact N2|]. split_and!; [done|simpl in *; lia|done]. }
      destruct y as [[]|e]; by apply total_ret.
    - by apply total_ret.
    - apply total_flush_then; [done|eauto].
    - apply total_flush_then; [done|]. intros q3. cbv [mbind M_bind get]. destruct (_ && _); eauto. }
  destruct p as [[[[]|e]|]|].
  - eapply total_mono; [exact Hrecv|]. intros r q2 [N2 Hl]. by apply Hrest.
  - apply total_ret. by apply (Hrest (Ready (Some (Err e)))).
  - eapply total_mono; [exact Hrecv|]. intros r q2 [N2 Hl]. by apply Hrest.
  - apply total_ret. by apply (Hrest Pending).
Qed.

(** The rounds of a poll are at most as many as responses are queued, and one more. *)
Definition requests_work q : nat := ch_work (rq_channel q) + length (queued q) + 2.

Lemma total_poll_next_requests bound now n q :
  ch_inv (rq_channel q) → ch_work (rq_channel q) < bound → 2 ≤ bound → length (queued q) < n →
  total (poll_next_requests_loop bound now n) (λ _ _, True) q.
Proof.
  revert q. induction n as [|n IH]; intros q Hi Hw Hb Hn; [lia|]. cbn [poll_next_requests_loop]. apply total_bind.
  eapply total_mono; [by apply total_pump_read|]. intros read q1 N1.
  assert (Hwr : ∀ closed, total (pump_write bound closed) (λ r q2, nearer q q2 ∧
    (r = Ready (Some (Ok tt)) → length (queued q2) < length (queued q))) q1).
  { intros closed. eapply total_mono; [apply total_pump_write; [apply N1|done]|]. intros r q2 [N2 Hl].
    split; [exact (nearer_trans _ _ _ N1 N2)|]. intros Hr. specialize (Hl Hr). destruct N1 as (_ & _ & ?). lia. }
  assert (Hloop : ∀ q2, nearer q q2 → length (queued q2) < length (queued q) →
    total (poll_next_requests_loop bound now n) (λ _ _, True) q2).
  { intros q2 (? & ? & ?) ?. apply IH; [done|lia..]. }
  destruct read as [[[ifr|e]|]|]; [|by apply total_ret| |]; apply total_bind;
    (eapply total_mono; [apply Hwr|]); intros wr q2 [N2 Hl]; destruct wr as [[[[]|e]|]|]; try by apply total_ret.
  - apply Hloop; [done|by apply Hl].
  - apply Hloop; [done|by apply Hl].
Qed.
End requests.
End ServerTermination.
