(* ===== verification/ServerProps.v ===== *)
(** * The server: theorems

    The first group holds of every channel that keeps the promises of [ChannelLaws],
    with any service functions and any order of polls, drops and actions of the
    client; the second group is about [BaseChannel] and [MaxRequests]. *)
From S2P Require Import Prelude Interfaces RefModels Trace Wire TimerTable Transport Cancellations ServerInFlight ServerChannel ServerSpec ServerRefine ServerRequests ServerSystem Limits ServerFrame ServerTermination.

Module ServerProps.
Export ServerTermination.

Section serving.
Context `{!Abort, !Mpsc, !MpscLaws} {Span Req Resp Error : Type}.
Context {C : Channel Span Req Resp Error} `{!ChannelLaws C}.
Context (env : channel C → channel C → Prop).
Context (Henv : ∀ c c', env c c' → ch_inv c → ch_inv c' ∧ ch_abs c' = ch_abs c).

(** A channel that can be served: its configuration allows a buffer, and it starts
    with its accounts in order. *)
Definition fresh_channel (c : channel C) : Prop :=
  (0 < pending_response_buffer (ch_config c))%Z ∧ ch_inv c ∧ balanced (ch_abs c) ∧ b_sent (ch_abs c) = [].

Lemma fresh_inv bound c now (s : ServerSystem.Server C) :
  fresh_channel c → serves env bound c now s → server_inv s.
Proof. intros (? & ? & ? & ?). by apply serves_inv. Qed.

(** C5: every response a server writes is one the channel made up itself (a throttled
    request), or exactly what the service function returned for a request of the
    client with that id: the handler was run with the client's own message. *)
Theorem server_responses_justified bound c now (s : ServerSystem.Server C) r :
  fresh_channel c → serves env bound c now s → r ∈ written (sv_requests s) →
  ch_own_response r ∨
  ∃ k h req, sv_handlers s !! k = Some h ∧ h_outcome h = Some (response_message r) ∧
    ClientRequest req ∈ b_received (ch_abs (rq_channel (sv_requests s))) ∧
    id req = request_id r ∧ message (if_request (h_request h)) = message req.
Proof.
  intros Hc Hs Hr. destruct (fresh_inv _ _ _ _ Hc Hs) as [_ _ Hw _ Hh].
  destruct (Hw _ Hr) as [?|(k & h & Hk & Hi & Ho)]; [auto|right].
  destruct (Hh h) as [_ (req & Hreq & Hid & Hm)]; [by eapply list_elem_of_lookup_2|].
  exists k, h, req. split_and!; [done..|congruence|done].
Qed.

(** C4: a server never answers more than it was asked: for every id, the responses
    written, together with the one request with that id that may be in flight, are at
    most as many as the requests received. *)
Theorem server_never_overanswers bound c now (s : ServerSystem.Server C) i :
  fresh_channel c → serves env bound c now s →
  let a := ch_abs (rq_channel (sv_requests s)) in
  answered i a + open i a ≤ asked i a.
Proof. intros Hc Hs. apply (si_balanced _ (fresh_inv _ _ _ _ Hc Hs)). Qed.

(** C37: polling [Requests] does not panic (unless a deadline is beyond the range of
    tokio's timer); a request it hands out is the client's, with
    its guard armed; and it reports the end of the stream only when the client has
    closed its half and no request is in flight any more. *)
Theorem requests_poll_sound bound now (q : Requests C) :
  ch_inv (rq_channel q) →
  poll_next_requests bound now q ≠ Panicked Unexpected ∧
  ∀ res q', poll_next_requests bound now q = Done (res, q') →
    ch_inv (rq_channel q') ∧
    match res with
    | Ready (Some (Ok ifr)) =>
        (∃ r, ClientRequest r ∈ b_received (ch_abs (rq_channel q')) ∧
           id (if_request ifr) = id r ∧ message (if_request ifr) = message r) ∧
        if_response_guard ifr = MkResponseGuard (id (if_request ifr)) true
    | Ready None => b_ended (ch_abs (rq_channel q')) = true ∧ ch_in_flight_requests (rq_channel q') = 0
    | _ => True
    end.
Proof.
  intros Hi. pose proof (wp_poll_next_requests bound now bound q Hi) as Hw. unfold poll_next_requests, wp in *.
  destruct (poll_next_requests_loop _ _ _ _) as [[res q']|[]|]; [|done..]. split; [done|]. intros ? ? [= <- <-].
  destruct Hw as [[Hi' _ _ _] Hn]. split; [done|]. destruct res as [[[ifr|e]|]|]; [done|done| |done].
  destruct Hn as [? Ht]. split; [done|]. rewrite law_ch_in_flight, Ht by done. apply map_size_empty.
Qed.

(** C22: polling [Requests] returns, if the client sent no request with a deadline beyond
    the timer's range: a bound on its loops that exceeds what the channel has to work off
    and the number of queued responses is enough. *)
Theorem requests_poll_returns `{!ChannelProgress C, !ServerFrame.ChannelTimely C} bound now (q : Requests C) :
  ch_inv (rq_channel q) → ServerFrame.ch_near now (rq_channel q) → requests_work q ≤ bound →
  ∃ res q', poll_next_requests bound now q = Done (res, q').
Proof.
  intros Hi Hn%(ServerFrame.near_poll_next_requests now bound) Hb. unfold requests_work in Hb.
  pose proof (total_poll_next_requests bound now bound q Hi) as Ht. unfold poll_next_requests, total in *.
  pose proof (wp_poll_next_requests bound now bound q Hi) as Hw. unfold wp in Hw.
  destruct (poll_next_requests_loop _ _ _ _) as [[res q']|[]|]; [eauto|done|done|]. destruct Ht; lia.
Qed.

(** The future of a request that was canceled or has expired (its handle is
    aborted) ends at its next poll, sends no response, and does not report itself;
    one that is dropped instead reports itself with its armed guard; and a response is
    only ever sent with the request's own id. *)
Theorem handler_ends_once outcome (h : Handler Span Req Resp) (q : Requests C) :
  (h_stage h = Serving ∨ ∃ r, h_stage h = SendingResponse r) →
  (ch_is_aborted (if_abort_registration (h_request h)) (rq_channel q) = true →
     h_stage (poll_handler outcome h q).1 = Completed ∧ queued (poll_handler outcome h q).2 = queued q ∧
     rq_channel (poll_handler outcome h q).2 =
       ch_guard_drop (MkResponseGuard (g_request_id (if_response_guard (h_request h))) false) (rq_channel q)) ∧
  (h_stage (drop_handler h q).1 = HandlerDropped ∧ queued (drop_handler h q).2 = queued q ∧
     rq_channel (drop_handler h q).2 = ch_guard_drop (if_response_guard (h_request h)) (rq_channel q)) ∧
  (ch_is_aborted (if_abort_registration (h_request h)) (rq_channel q) = false → h_stage h = Serving →
     ∀ o, outcome = Ready o →
     let r := MkResponse (id (if_request (h_request h))) o in
     let '(h', q') := poll_handler outcome h q in
     (h_stage h' = SendingResponse r ∧ queued q' = queued q) ∨
     (h_stage h' = Completed ∧ (queued q' = queued q ++ [r] ∨
        queued q' = queued q ∧ mv_closed (mpsc_view (rq_pending_responses q)) = true))).
Proof.
  intros Hst. assert (Hq : ∀ g p, queued (guard_drop_in g (MkRequests (rq_channel q) p)) = mv_queue (mpsc_view p)).
  { intros g p. unfold queued. simpl. by rewrite law_drop_sender. }
  assert (Hq' : ∀ g, queued (guard_drop_in g q) = queued q).
  { intros g. unfold queued. simpl. by rewrite law_drop_sender. }
  split; [|split].
  - intros Ha. unfold poll_handler. destruct Hst as [->|[r ->]]; rewrite Ha; simpl; (split; [done|by split]).
  - unfold drop_handler. destruct Hst as [->|[r ->]]; simpl; (split; [done|by split]).
  - intros Ha Hs o ->. unfold poll_handler. rewrite Hs, Ha. unfold send_response. simpl.
    destruct (mpsc_poll_send _ _) as [x p] eqn:Hp. apply law_poll_send in Hp. destruct x as [[[]|e]|]; simpl in *.
    + right. split; [done|left]. by rewrite Hq, Hp.
    + destruct Hp as (_ & Hc & Hp). right. split; [done|right]. by rewrite Hq, Hp.
    + left. split; [done|]. unfold queued. simpl. by rewrite Hp.
Qed.
End serving.

Section base_channel.
Context `{!DelayQueue, !DelayQueueLaws, !Mpsc, !MpscLaws, !Abort, !AbortLaws, !Otel}.
Context {E Span Req Resp Rng : Type}.
Context {T : Transport (Response Resp) (ClientMessage Req) E} `{!TransportLog T}.
Context (gen_u64 : Rng → Z * Rng).
Context (new_span : Request Req → Span) (span_active : Span → OtelContext → option otel_span_context).
Implicit Types b : BaseChannel Span Rng T.

(** C11: one poll of [BaseChannel]'s stream is a sequence of the events of an abstract
    server channel ([bstep]), does not panic (unless a deadline is beyond the range of
    tokio's timer), writes nothing and starts at most the request it yields.  A yielded request has the client's id, message and deadline, is
    tracked, is not aborted, and its guard is not armed; the stream ends only when the
    client closed its half and nothing is in flight. *)
Theorem base_poll_next_refines now n b :
  binv b →
  poll_next_loop gen_u64 new_span span_active now n b ≠ Panicked Unexpected ∧
  ∀ r b', poll_next_loop gen_u64 new_span span_active now n b = Done (r, b') →
    binv b' ∧ bsteps now (abs b) (abs b') ∧ sent (bc_transport b') = sent (bc_transport b) ∧
    size (b_tracked (abs b')) ≤ size (b_tracked (abs b)) + yields r ∧
    match r with
    | Ready (Some (Ok tr)) => ∃ req, started req tr b'
    | Ready None => ended (bc_transport b') = true ∧ SIF.len (bc_in_flight_requests b') = 0
    | _ => True
    end.
Proof.
  intros Hinv. pose proof (wp_poll_next gen_u64 new_span span_active now n b Hinv) as Hw. unfold wp in Hw.
  pose proof (silent_poll_next_loop gen_u64 new_span span_active now n b) as Hs. unfold wlp in Hs.
  destruct (poll_next_loop _ _ _ _ _ _) as [[r b']|[]|]; [|done..]. split; [done|]. intros ? ? [= <- <-].
  destruct Hw as [[Hi Hst _ Hz] Hn]. split_and!; [done|done|by eapply Hs|done|].
  destruct r as [[[tr|e]|]|]; [done|done| |done]. destruct Hn as [? Hd]. split; [done|].
  unfold SIF.len. rewrite Hd. apply map_size_empty.
Qed.

(** C21: a response is handed to the transport exactly when its request is still in
    flight; a response to a request that was canceled, has expired or was answered
    already is dropped without error.  Either way no request with its id is in flight
    afterwards, and the others are not touched. *)
Theorem base_start_send_spec r b :
  binv b →
  ∃ res b', start_send r b = Done (res, b') ∧ binv b' ∧
    b_tracked (abs b') = delete (request_id r) (b_tracked (abs b)) ∧
    match b_tracked (abs b) !! request_id r with
    | Some _ => sent (bc_transport b') = sent (bc_transport b) ++ (if is_ok res then [r] else [])
    | None => b' = b ∧ res = Ok tt
    end.
Proof.
  intros Hinv. pose proof (wp_start_send 0 r b Hinv) as Hw. unfold wp in Hw.
  assert (Ht : terminates (start_send r) b).
  { apply terminates_bind; [apply terminates_remove_request|]. intros [sp|] b1 _; [|done].
    apply terminates_bind; [apply terminates_base_transport|done]. }
  assert (Hn : start_send r b ≠ Panicked FarDeadline).
  { unfold start_send, remove_request, on_in_flight. cbv [mbind M_bind].
    pose proof (SIF.remove_request_spec _ _ (request_id r) Hinv) as Hr.
    destruct (SIF.request_data (bc_in_flight_requests b) !! request_id r) as [rd|]; [destruct Hr as (s' & -> & _)|by rewrite Hr].
    simpl. unfold on_transport.
    by destruct (t_start_send _ _). }
  unfold terminates in Ht. destruct (start_send r b) as [[res b']|[]|]; [|done..].
  destruct Hw as ([Hi _ _ _] & Htr & Hs). exists res, b'. by split_and!.
Qed.

(** Polling [BaseChannel]'s stream returns, if every request that can be read has a
    deadline the timer supports: each round of its loop reads a message, takes a
    cancellation or expires a request, so a bound above their number is enough. *)
Theorem base_poll_next_returns `{!TransportProgress T} now n b :
  binv b → ServerFrame.timely now b → base_work b < n →
  ∃ r b', poll_next_loop gen_u64 new_span span_active now n b = Done (r, b') ∧ base_work b' ≤ base_work b.
Proof.
  intros Hinv Hnear Hn. apply (ServerFrame.fits_poll_next_loop gen_u64 new_span span_active now n) in Hnear.
  pose proof (total_base_poll_next gen_u64 new_span span_active now n b Hinv Hn) as Ht.
  pose proof (wp_poll_next gen_u64 new_span span_active now n b Hinv) as Hw. unfold total, wp in *.
  destruct (poll_next_loop _ _ _ _ _ _) as [[r b']|[]|]; [eauto|done|done|done].
Qed.

(** *** Polling only removes requests, until one is started *)

(** [b1] has fewer requests than [b], and lacks those whose cancellation it used up. *)
Definition shrinks b b1 : Prop :=
  b_tracked (abs b1) ⊆ b_tracked (abs b) ∧
  ∀ i, i ∈ mv_queue (mpsc_view (bc_canceled_requests b)) →
    i ∈ mv_queue (mpsc_view (bc_canceled_requests b1)) ∨ b_tracked (abs b1) !! i = None.

Lemma shrinks_refl b : shrinks b b.
Proof. split; auto. Qed.

Lemma shrinks_trans b1 b2 b3 : shrinks b1 b2 → shrinks b2 b3 → shrinks b1 b3.
Proof.
  intros [T1 Q1] [T2 Q2]. split; [by etrans|]. intros i [Hi|Hi]%Q1; [auto|]. right. by eapply lookup_weaken_None.
Qed.

Lemma shrinks_untrack i b b1 :
  b_tracked (abs b1) = delete i (b_tracked (abs b)) → bc_canceled_requests b1 = bc_canceled_requests b → shrinks b b1.
Proof. intros Ht Hc. split; [rewrite Ht; apply delete_subseteq|]. rewrite Hc. auto. Qed.

Lemma shrinks_same b b1 :
  b_tracked (abs b1) = b_tracked (abs b) →
  mv_queue (mpsc_view (bc_canceled_requests b1)) = mv_queue (mpsc_view (bc_canceled_requests b)) → shrinks b b1.
Proof. intros Ht Hc. split; [by rewrite Ht|]. rewrite Hc. auto. Qed.

Lemma poll_cancellation_shrinks b :
  binv b → wp poll_cancellation (λ r b', binv b' ∧ shrinks b b' ∧
    bc_transport b' = bc_transport b ∧ (r ≠ StReady → exhausted (bc_canceled_requests b'))) b.
Proof.
  intros Hinv. apply wp_bind, wp_base_canceled. intros r c Hc. pose proof (Cancellations.poll_next_view _ _ _ Hc) as Hv.
  destruct r as [[i|]|]; simpl in Hv.
  - destruct Hv as (q & Hq & Hv).
    assert (Hqi : ∀ j, j ∈ mv_queue (mpsc_view (bc_canceled_requests b)) → j = i ∨ j ∈ mv_queue (mpsc_view c)).
    { rewrite Hq, Hv. by intros j [->|?]%elem_of_cons; auto. }
    apply wp_bind, wp_remove_request; [done|..].
    + intros rd s' Hi Hinv' Habs. apply wp_ret. split_and!; [done| |done|done]. split; rewrite Habs; [apply delete_subseteq|].
      intros j [->|?]%Hqi; [right; apply lookup_delete_eq|auto].
    + intros Hi%tracked_None. apply wp_ret. split_and!; [done| |done|done]. split; [done|].
      intros j [->|?]%Hqi; auto.
  - apply wp_ret. destruct Hv as (Hq & _ & Hv). split_and!; [done| |done|intros _; left; by rewrite <- Hv in Hq].
    apply shrinks_same; [done|]. simpl. by rewrite Hv.
  - apply wp_ret. split_and!; [done| |done|intros _; right; by exists (bc_canceled_requests b)].
    apply shrinks_same; [done|]. simpl. by rewrite Hv.
Qed.

Lemma poll_expiration_shrinks now b :
  binv b → wp (poll_expiration now) (λ r b', binv b' ∧ shrinks b b' ∧
    bc_transport b' = bc_transport b ∧ bc_canceled_requests b' = bc_canceled_requests b) b.
Proof.
  intros Hinv. apply wp_bind.
  destruct (SIF.poll_expired (bc_in_flight_requests b) (bc_aborts b) now) as [[r s'] ab'] eqn:Hp.
  eapply wp_base_in_flight; [exact (f_equal Done Hp)|]. apply wp_ret.
  apply SIF.poll_expired_spec in Hp as [Hinv' Hr]; [|done]. split_and!; [done| |done|done]. destruct r as [[i|]|].
  - destruct Hr as (rd & due & _ & _ & _ & Hrd & _ & _).
    eapply (shrinks_untrack i); [|done]. simpl. by rewrite Hrd, fmap_delete.
  - destruct Hr as (Hrd & -> & ->). by apply shrinks_same.
  - destruct Hr as (_ & Hrd & Habs & _). apply shrinks_same; [simpl; by rewrite Hrd|done].
Qed.

(** The client's messages that do not hand out a request. *)
Lemma start_request_shrinks now b r :
  binv b → wp (start_request gen_u64 new_span span_active now r) (λ res b',
    binv b' ∧ (res = Err tt → shrinks b b')) b.
Proof.
  intros Hinv. unfold start_request. apply wp_bind, wp_get. destruct (request_context _ _ _ _ _) as [ctx rng].
  apply wp_bind, wp_modify, wp_bind.
  destruct (SIF.start_request_cases (bc_in_flight_requests b) (bc_aborts b) now (id r) (deadline ctx) (new_span r))
    as [(res & s' & ab' & Hs & Hr)|(Hs & _)]; [|by apply wp_base_far].
  eapply wp_base_in_flight; [exact Hs|].
  pose proof (SIF.start_request_inv _ _ _ _ _ _ _ _ _ Hinv Hs) as Hinv'. destruct res as [h|[]].
  - apply wp_bind, wp_base_canceled. intros [] c [= <-]. by apply wp_ret.
  - apply wp_ret. split; [done|]. intros _. destruct Hr as (_ & -> & ->); [done|]. by apply shrinks_same.
Qed.

Lemma cancel_request_shrinks i b :
  binv b → wp (on_in_flight (λ t ab, SIF.cancel_request t ab i)) (λ _ b', binv b' ∧ shrinks b b') b.
Proof.
  intros Hinv. pose proof (SIF.cancel_request_spec _ _ i Hinv) as Hc.
  destruct (SIF.request_data _ !! i) as [rd|] eqn:Hi.
  - destruct Hc as (s' & Hc & Hrd & _ & Hinv'). eapply wp_base_in_flight; [exact Hc|]. split; [done|].
    eapply (shrinks_untrack i); [|done]. simpl. by rewrite Hrd, fmap_delete.
  - eapply wp_base_in_flight; [exact Hc|]. split; [by destruct b|]. by apply shrinks_same; destruct b.
Qed.

Lemma terminates_poll_cancellation b : terminates poll_cancellation b.
Proof.
  apply terminates_bind; [apply terminates_base_canceled|]. intros [[i|]|] b1 _; [|done..].
  apply terminates_bind; [apply terminates_remove_request|done].
Qed.

Lemma terminates_poll_expiration now b : terminates (poll_expiration now) b.
Proof. apply terminates_bind; [by apply terminates_base_in_flight|done]. Qed.

Lemma start_request_far now b r :
  b_tracked (abs b) !! id r = None → far now (deadline (context r)) →
  start_request gen_u64 new_span span_active now r b = Panicked FarDeadline.
Proof.
  intros Hn Hf. unfold start_request, on_in_flight. cbv [mbind M_bind mret M_ret get modify].
  pose proof (request_context_deadline gen_u64 span_active (new_span r) (context r) (bc_rng b)) as Hd.
  destruct (request_context _ _ _ _ _) as [ctx rng']. simpl in *. unfold SIF.start_request. simpl.
  rewrite lookup_fmap in Hn. apply fmap_None in Hn. rewrite Hn, Hd. unfold far in Hf. by rewrite law_dq_insert_far.
Qed.

(** C34: a client can make its server panic.  Whatever state a channel is in, if the next
    message on its transport is a request with a deadline beyond the range of tokio's
    timer, and no request with its id is in flight (a repeated id is refused before the
    timer is touched), then polling the channel panics: nothing between the wire and
    [DelayQueue::insert] limits the deadline. *)
Theorem far_deadline_panics_server now n b t' r :
  binv b → t_poll_next (bc_transport b) = (Ready (Some (Ok (ClientRequest r))), t') →
  far now (deadline (context r)) → b_tracked (abs b) !! id r = None →
  poll_next_loop gen_u64 new_span span_active now (S n) b = Panicked FarDeadline.
Proof.
  intros Hinv Ht Hf Hn. cbn [poll_next_loop].
  pose proof (poll_cancellation_shrinks b Hinv) as Hw1. pose proof (terminates_poll_cancellation b) as Ht1.
  unfold wp, terminates in Hw1, Ht1. unfold mbind at 1, M_bind at 1.
  destruct (poll_cancellation b) as [[st1 b1]|[]|]; [|done..]. destruct Hw1 as (Hi1 & [T1 _] & E1 & _).
  pose proof (poll_expiration_shrinks now b1 Hi1) as Hw2. pose proof (terminates_poll_expiration now b1) as Ht2.
  unfold wp, terminates in Hw2, Ht2. unfold mbind at 1, M_bind at 1.
  destruct (poll_expiration now b1) as [[st2 b2]|[]|]; [|done..]. destruct Hw2 as (Hi2 & [T2 _] & E2 & _).
  unfold mbind at 1, M_bind at 1. unfold on_transport at 1. rewrite E2, E1, Ht.
  unfold mbind at 1, M_bind at 1. rewrite start_request_far; [done| |done].
  eapply (lookup_weaken_None (b_tracked (abs b2))); [exact Hn|]. etrans; [exact T2|exact T1].
Qed.

(** *** What waiting means *)

Context `{!DelayQueuePrompt}.

(** Nothing is left to do without the client: the queue of handlers that gave up was
    received from until it gave no more, their requests are forgotten, and nothing is
    overdue. *)
Record quiescent (now : Z) b b' : Prop := {
  qu_tracked : b_tracked (abs b') ⊆ b_tracked (abs b);
  qu_canceled : exhausted (bc_canceled_requests b');
  qu_forgotten : ∀ i, i ∈ mv_queue (mpsc_view (bc_canceled_requests b)) →
    i ∈ mv_queue (mpsc_view (bc_canceled_requests b')) ∨ b_tracked (abs b') !! i = None;
  qu_expired : ∀ i due, SIF.abs (bc_in_flight_requests b') !! i = Some due → (now < due + dq_resolution)%Z;
}.

Lemma quiescent_shrinks now b b1 b' : shrinks b b1 → quiescent now b1 b' → quiescent now b b'.
Proof.
  intros [Ht Hc] [Q1 Q2 Q3 Q4]. split; [by etrans|done| |done]. intros i [?|Hn]%Hc; [auto|].
  right. by eapply lookup_weaken_None.
Qed.

Lemma poll_expiration_on_time now b :
  binv b → wp (poll_expiration now) (λ r b',
    r ≠ StReady → ∀ i due, SIF.abs (bc_in_flight_requests b') !! i = Some due → (now < due + dq_resolution)%Z) b.
Proof.
  intros Hinv. apply wp_bind.
  destruct (SIF.poll_expired (bc_in_flight_requests b) (bc_aborts b) now) as [[r s'] ab'] eqn:Hp.
  eapply wp_base_in_flight; [exact (f_equal Done Hp)|]. apply wp_ret.
  pose proof Hp as Hpp. apply SIF.poll_expired_spec in Hp as [Hinv' Hr]; [|done]. destruct r as [[i|]|]; [done|..]; intros _ j d; simpl.
  - destruct Hr as (Hrd & -> & ->). unfold SIF.abs. rewrite due_map_lookup. unfold due_in. by rewrite Hrd, lookup_empty.
  - destruct Hr as (_ & Hrd & Habs & _). rewrite Habs. unfold SIF.abs. rewrite due_map_lookup. by eapply SIF.poll_pending_prompt.
Qed.

Lemma poll_next_quiescent now n b :
  binv b → wp (poll_next_loop gen_u64 new_span span_active now n) (λ r b',
    r = Pending ∨ r = Ready None → quiescent now b b') b.
Proof.
  revert b. induction n as [|n IH]; intros b Hinv; [done|]. cbn [poll_next_loop].
  apply wp_bind. eapply wp_mono; [by apply poll_cancellation_shrinks|]. intros st1 b1 (Hi1 & S1 & _ & C1).
  apply wp_bind. eapply wp_mono; [by apply wp_and; [apply (poll_expiration_shrinks now)|apply poll_expiration_on_time]|].
  intros st2 b2 [(Hi2 & S2 & _ & E2) D2].
  pose proof (shrinks_trans _ _ _ S1 S2) as S. rewrite <- E2 in C1.
  assert (Hloop : ∀ b3, binv b3 → shrinks b2 b3 → wp (poll_next_loop gen_u64 new_span span_active now n)
    (λ r b', r = Pending ∨ r = Ready None → quiescent now b b') b3).
  { intros b3 Hi3 S3. eapply wp_mono; [by apply IH|]. intros r b4 Hq Hr.
    eapply quiescent_shrinks; [by eapply shrinks_trans|auto]. }
  assert (Hstop : ∀ st3 t, combine (combine st1 st2) st3 ≠ StReady → quiescent now b (set_transport t b2)).
  { intros st3 t Hc. eapply quiescent_shrinks; [exact S|].
    assert (st1 ≠ StReady ∧ st2 ≠ StReady) as [H1' H2'] by (split; intros ->; apply Hc; [done|by destruct st1]).
    split; simpl; [done|by apply C1|auto|by apply D2]. }
  assert (Hfin : ∀ st3 t, wp match combine (combine st1 st2) st3 with
      | StReady => poll_next_loop gen_u64 new_span span_active now n
      | StClosed => mret (Ready None) | StPending => mret Pending end
      (λ r b', r = Pending ∨ r = Ready None → quiescent now b b') (set_transport t b2)).
  { intros st3 t. specialize (Hstop st3 t).
    destruct (combine (combine st1 st2) st3); [by apply Hloop; [|apply shrinks_same]|apply wp_ret; auto..]. }
  apply wp_bind, wp_base_transport. intros m t _.
  destruct m as [[[[r|tc i]|e]|]|]; [| |by apply wp_ret; intros [?|?]|apply Hfin|apply Hfin].
  - apply wp_bind. eapply wp_mono; [by apply start_request_shrinks|]. intros [tr|[]] b4 [Hi4 S4].
    + apply wp_ret. by intros [?|?].
    + apply Hloop; [done|]. by apply S4.
  - apply wp_bind. eapply wp_mono; [by apply cancel_request_shrinks|]. intros ? b4 [Hi4 S4].
    replace (combine (combine st1 st2) StReady) with StReady by by destruct st1, st2. by apply Hloop.
Qed.

(** When [BaseChannel]'s stream has nothing to yield, everything that could be done
    without the client has been done: the requests whose handlers gave up are
    forgotten, their queue was received from until it gave no more, and no request is
    left that is overdue by more than the timer's resolution (if timers keep it). *)
Theorem base_poll_next_quiescent now n b r b' :
  binv b → poll_next_loop gen_u64 new_span span_active now n b = Done (r, b') → r = Pending ∨ r = Ready None →
  quiescent now b b'.
Proof. intros Hinv Hp. exact (wp_done _ _ _ _ _ (poll_next_quiescent now n b Hinv) Hp). Qed.
End base_channel.

(** ** A server that answers one request

    The server's end of an in-memory channel, with its logs; the service returns 42. *)

Definition srv_inner : Transport (Response Z) (ClientMessage Z) MemChannel.ChannelError := MemChannel.unbounded_transport.
Definition srv_T : Transport (Response Z) (ClientMessage Z) MemChannel.ChannelError := logged srv_inner.
Definition srv_rng (_ : unit) : Z * unit := (7%Z, tt).
Definition srv_span (_ : Request Z) : unit := tt.
Definition srv_active (_ : unit) (_ : OtelContext) : option otel_span_context := None.
Definition srv_channel : Channel unit Z Z (ChannelError.t MemChannel.ChannelError) :=
  base_channel (T:=srv_T) srv_rng srv_span srv_active.
#[export] Instance srv_channel_laws : ChannelLaws srv_channel := base_channel_laws (T:=srv_T) srv_rng srv_span srv_active.
#[export] Instance srv_T_progress : TransportProgress srv_T :=
  @logged_progress _ _ _ srv_inner MemChannel.unbounded_progress.
#[export] Instance srv_channel_progress : ChannelProgress srv_channel := base_progress (T:=srv_T) srv_rng srv_span srv_active.

#[export] Instance srv_channel_timely : ServerFrame.ChannelTimely srv_channel :=
  ServerFrame.base_timely (T:=srv_T) srv_rng srv_span srv_active.

Definition srv_t0 : transport srv_T := @MkLogged _ _ _ srv_inner (MemChannel.unbounded).1 [] [] false.
Definition srv_b0 : channel srv_channel := with_defaults (Span:=unit) (T:=srv_T) srv_t0 tt.

(** The client writes a message. *)
Definition client_sends (m : ClientMessage Z) (b : channel srv_channel) : channel srv_channel :=
  let t := bc_transport b in
  let c := lg_inner t in
  let c' := MemChannel.MkUnboundedChannel (snd (mpsc_unbounded_send (MemChannel.rx c) m)) (MemChannel.tx c) in
  set_transport (@MkLogged _ _ _ srv_inner c' (lg_sent t) (lg_received t) (lg_ended t) : transport srv_T) b.

Definition srv_env (b b' : channel srv_channel) : Prop := ∃ m, b' = client_sends m b.

Lemma srv_env_ok b b' : srv_env b b' → ch_inv b → ch_inv b' ∧ ch_abs b' = ch_abs b.
Proof. intros [m ->] Hi. split; [exact Hi|done]. Qed.

Definition srv_bound : nat := 8.
Definition srv_context : Context := MkContext 100 trace_context_default.
Definition srv_request (i : Z) : ClientMessage Z := ClientRequest (MkRequest srv_context i 41%Z).

Definition poll_server (now : Z) (s : ServerSystem.Server srv_channel) : ServerSystem.Server srv_channel :=
  match poll_next_requests srv_bound now (sv_requests s) with
  | Done (res, q) => MkServer q (sv_handlers s ++ spawn res) now
  | _ => s
  end.
Definition env_server (m : ClientMessage Z) (s : ServerSystem.Server srv_channel) : ServerSystem.Server srv_channel :=
  MkServer (MkRequests (client_sends m (rq_channel (sv_requests s))) (rq_pending_responses (sv_requests s)))
    (sv_handlers s) (sv_clock s).

Definition srv_q0 : Requests srv_channel :=
  match requests srv_b0 with Done q => q | _ => MkRequests srv_b0 mpsc_unbounded_channel end.
Definition srv_s0 : ServerSystem.Server srv_channel := MkServer srv_q0 [] 0.
Definition srv_answered : ServerSystem.Server srv_channel :=
  poll_server 2 (on_handler (poll_handler (Ready (Ok 42%Z))) 0 (poll_server 1 (env_server (srv_request 5) srv_s0))).

Lemma poll_server_step s now :
  (sv_clock s ≤ now)%Z →
  match poll_next_requests srv_bound now (sv_requests s) with Done _ => True | _ => False end →
  serve_step srv_env srv_bound s (poll_server now s).
Proof.
  intros Hle Hd. unfold poll_server. destruct (poll_next_requests _ _ _) as [[r q]| |] eqn:Hp; [|done..].
  by eapply serve_poll.
Qed.

Lemma srv_binv_b0 : binv (T:=srv_T) srv_b0.
Proof. split; [apply timers_ok_new|apply owners_ok_empty]. Qed.

Lemma srv_fresh : fresh_channel srv_b0.
Proof.
  split_and!; [done|exact srv_binv_b0| |done]. intros i. unfold open. by destruct (_ !! i) eqn:Hi; [destruct i|].
Qed.

Lemma srv_serves : serves srv_env srv_bound srv_b0 0 srv_answered.
Proof.
  exists srv_q0. split; [reflexivity|].
  eapply rtc_l; [apply (serve_env _ _ _ (client_sends (srv_request 5) srv_b0)); by eexists|].
  eapply rtc_l; [apply (poll_server_step (env_server (srv_request 5) srv_s0) 1); by vm_compute|].
  eapply rtc_l; [apply (serve_poll_handler _ _ _ 0 (Ready (Ok 42%Z)))|].
  eapply rtc_once. apply poll_server_step; by vm_compute.
Qed.

Definition srv_response : Response Z := MkResponse 5 (Ok 42%Z).

Lemma srv_written : srv_response ∈ written (sv_requests srv_answered).
Proof.
  assert (H : written (sv_requests srv_answered) = [srv_response]) by (vm_compute; reflexivity).
  rewrite H. apply list_elem_of_here.
Qed.

Lemma server_responses_justified_witness :
  ch_own_response (C:=srv_channel) srv_response ∨
  ∃ k h req, sv_handlers srv_answered !! k = Some h ∧ h_outcome h = Some (response_message srv_response) ∧
    ClientRequest req ∈ b_received (ch_abs (rq_channel (sv_requests srv_answered))) ∧
    id req = request_id srv_response ∧ message (if_request (h_request h)) = message req.
Proof.
  exact (server_responses_justified srv_env srv_env_ok srv_bound srv_b0 0 srv_answered srv_response
    srv_fresh srv_serves srv_written).
Defined.

Lemma server_never_overanswers_witness :
  let a := ch_abs (rq_channel (sv_requests srv_answered)) in
  answered 5 a + open 5 a ≤ asked 5 a ∧ answered 5 a = 1.
Proof.
  split; [exact (server_never_overanswers srv_env srv_env_ok srv_bound srv_b0 0 srv_answered 5 srv_fresh srv_serves)|].
  vm_compute. reflexivity.
Defined.

(** The server with the request waiting to be read. *)
Definition srv_waiting : Requests srv_channel := sv_requests (env_server (srv_request 5) srv_s0).

Lemma srv_waiting_inv : ch_inv (rq_channel srv_waiting).
Proof. exact srv_binv_b0. Qed.

(** Its deadline is not far. *)
Lemma srv_near : ServerFrame.timely (T:=srv_T) 1 (rq_channel srv_waiting).
Proof.
  apply logged_yields_only, MemChannel.unbounded_yields_only. simpl. constructor; [|constructor].
  intros H. vm_compute in H. discriminate H.
Qed.

(** A request that is due in three years. *)
Definition srv_far : ClientMessage Z :=
  ClientRequest (MkRequest (MkContext (3 * 365 * 86400 * nanos_per_sec) trace_context_default) 5 41%Z).

Lemma far_deadline_panics_server_witness :
  poll_next_loop (T:=srv_T) srv_rng srv_span srv_active 1 srv_bound (client_sends srv_far srv_b0) = Panicked FarDeadline.
Proof.
  refine (far_deadline_panics_server (T:=srv_T) srv_rng srv_span srv_active 1 7 (client_sends srv_far srv_b0) _
    (MkRequest (MkContext (3 * 365 * 86400 * nanos_per_sec) trace_context_default) 5 41%Z) srv_binv_b0 _ _ _).
  - apply surjective_pairing.
  - vm_compute. reflexivity.
  - vm_compute. reflexivity.
Defined.

Lemma requests_poll_sound_witness : poll_next_requests srv_bound 1 srv_waiting ≠ Panicked Unexpected.
Proof. exact (proj1 (requests_poll_sound srv_bound 1 srv_waiting srv_waiting_inv)). Defined.

Lemma requests_poll_returns_witness : ∃ res q', poll_next_requests srv_bound 1 srv_waiting = Done (res, q').
Proof.
  refine (requests_poll_returns srv_bound 1 srv_waiting srv_waiting_inv srv_near _). vm_compute. lia.
Defined.

(** Its handler, once the client has canceled the request. *)
Definition srv_served : ServerSystem.Server srv_channel := poll_server 1 (env_server (srv_request 5) srv_s0).
Definition srv_canceled : ServerSystem.Server srv_channel :=
  poll_server 2 (env_server (ClientCancel trace_context_default 5) srv_served).
Definition srv_handler : Handler unit Z Z :=
  MkHandler (MkInFlightRequest (MkRequest (MkContext 100 (MkTraceContext (MkTraceId 0) (MkSpanId 7) Unsampled)) 5 41%Z)
    0 (MkResponseGuard 5 true) tt) Serving None.

Lemma handler_ends_once_witness :
  sv_handlers srv_canceled = [srv_handler] ∧
  h_stage (poll_handler (Ready (Ok 42%Z)) srv_handler (sv_requests srv_canceled)).1 = Completed ∧
  queued (poll_handler (Ready (Ok 42%Z)) srv_handler (sv_requests srv_canceled)).2 = queued (sv_requests srv_canceled).
Proof.
  split; [vm_compute; reflexivity|].
  destruct (handler_ends_once (Ready (Ok 42%Z)) srv_handler (sv_requests srv_canceled)) as [Ha _]; [by left|].
  destruct Ha as (H1 & H2 & _); [vm_compute; reflexivity|]. by split.
Defined.

Definition srv_b1 : channel srv_channel := client_sends (srv_request 5) srv_b0.

Lemma base_poll_next_refines_witness :
  poll_next_loop srv_rng srv_span srv_active 1 srv_bound srv_b1 ≠ Panicked Unexpected.
Proof. exact (proj1 (base_poll_next_refines (T:=srv_T) srv_rng srv_span srv_active 1 srv_bound srv_b1 srv_binv_b0)). Defined.

Lemma base_start_send_spec_witness :
  ∃ res b', start_send (T:=srv_T) (MkResponse 5 (Ok 42%Z)) srv_b1 = Done (res, b') ∧ b' = srv_b1 ∧ res = Ok tt.
Proof.
  destruct (base_start_send_spec (T:=srv_T) (MkResponse 5 (Ok 42%Z)) srv_b1 srv_binv_b0) as (res & b' & H1 & _ & _ & H2).
  exists res, b'. split; [exact H1|exact H2].
Defined.

Lemma base_poll_next_returns_witness :
  ∃ r b', poll_next_loop srv_rng srv_span srv_active 1 srv_bound srv_b1 = Done (r, b') ∧ base_work b' ≤ base_work (T:=srv_T) srv_b1.
Proof.
  refine (base_poll_next_returns (T:=srv_T) srv_rng srv_span srv_active 1 srv_bound srv_b1 srv_binv_b0 srv_near _). vm_compute. lia.
Defined.

(** With nothing to read, the poll is pending. *)
Lemma srv_idle_pending :
  match poll_next_loop (T:=srv_T) srv_rng srv_span srv_active 1 srv_bound srv_b0 with Done (Pending, _) => True | _ => False end.
Proof. vm_compute. exact I. Qed.

Lemma base_poll_next_quiescent_witness :
  ∃ b', poll_next_loop (T:=srv_T) srv_rng srv_span srv_active 1 srv_bound srv_b0 = Done (Pending, b') ∧
    quiescent (T:=srv_T) 1 srv_b0 b'.
Proof.
  pose proof srv_idle_pending as Hp. pose proof (base_poll_next_quiescent (T:=srv_T) srv_rng srv_span srv_active 1 srv_bound srv_b0) as Hq.
  destruct (poll_next_loop (T:=srv_T) srv_rng srv_span srv_active 1 srv_bound srv_b0) as [[[r|] b']| |] eqn:Hi; [done| |done|done].
  exists b'. split; [done|]. by apply (Hq Pending b' srv_binv_b0 eq_refl); left.
Defined.
End ServerProps.
