(* ===== verification/Throttling.v ===== *)
(** * What a throttled channel does with the requests it reads

    [MaxRequests] around a [BaseChannel], request by request: each request that a poll
    reads is handed out, answered with the throttling error under its own id, or was a
    repetition of an id in flight, which [BaseChannel] drops. *)
From S2P Require Import Prelude Interfaces RefModels Trace Wire TimerTable Transport Cancellations ServerInFlight ServerChannel ServerSpec ServerRefine ServerRequests ServerSystem Limits ServerFrame ServerTermination ServerProps.

Module Throttling.
Export ServerProps.

Section throttling.
Context `{!DelayQueue, !DelayQueueLaws, !Mpsc, !MpscLaws, !Abort, !AbortLaws, !Otel}.
Context {E Span Req Resp Rng : Type}.
Context {T : Transport (Response Resp) (ClientMessage Req) E} `{!TransportLog T}.
Context (gen_u64 : Rng → Z * Rng).
Context (new_span : Request Req → Span) (span_active : Span → OtelContext → option otel_span_context).
Implicit Types b : BaseChannel Span Rng T.

(** ** What a poll of [BaseChannel] reads *)

(** A message that starts nothing: a cancellation, or a request whose id is in flight. *)
Definition refused b (m : ClientMessage Req) : Prop :=
  match m with ClientRequest q => is_Some (b_tracked (abs b) !! id q) | ClientCancel _ _ => True end.

(** From [b] to [b'] the messages [new] were read, none of which started a request, and
    nothing was written. *)
Record reads (new : list (ClientMessage Req)) b b' : Prop := {
  rd_received : b_received (abs b') = b_received (abs b) ++ new;
  rd_sent : b_sent (abs b') = b_sent (abs b);
  rd_tracked : b_tracked (abs b') ⊆ b_tracked (abs b);
  rd_refused : Forall (refused b) new;
}.

Lemma refused_before b b' m : b_tracked (abs b') ⊆ b_tracked (abs b) → refused b' m → refused b m.
Proof. intros Hs. destruct m; [|done]. intros [h Hh]. exists h. by eapply lookup_weaken. Qed.

Lemma reads_trans l1 l2 b1 b2 b3 : reads l1 b1 b2 → reads l2 b2 b3 → reads (l1 ++ l2) b1 b3.
Proof.
  intros [R1 S1 T1 F1] [R2 S2 T2 F2]. split; [by rewrite R2, R1, app_assoc|congruence|by etrans|].
  apply Forall_app. split; [done|]. eapply Forall_impl; [exact F2|]. intros m. by apply refused_before.
Qed.

Lemma reads_silent b b' : bc_transport b' = bc_transport b → shrinks b b' → reads [] b b'.
Proof. intros Ht [Hs _]. split; simpl; rewrite ?Ht, ?app_nil_r; [done|done|exact Hs|constructor]. Qed.

Lemma reads_same b b' : abs b' = abs b → reads [] b b'.
Proof. intros Ha. split; rewrite ?Ha, ?app_nil_r; [done..|constructor]. Qed.

(** What a poll read before it returned [r]: a request it yields is the last one read,
    and the only one that was started. *)
Definition next_reads (now : Z) b (r : Poll (option (Result (TrackedRequest Span Req) (ChannelError.t E)))) b' : Prop :=
  match r with
  | Ready (Some (Ok tr)) => ∃ old q b0, reads old b b0 ∧ start_event now q tr (abs b0) (abs b') ∧
      id (tr_request tr) = id q ∧ message (tr_request tr) = message q
  | _ => ∃ new, reads new b b'
  end.

Lemma next_reads_before now l b b1 r b' : reads l b b1 → next_reads now b1 r b' → next_reads now b r b'.
Proof.
  intros Hr. destruct r as [[[tr|e]|]|]; cbn [next_reads]; [|intros [new Hn]; eexists; by eapply reads_trans..].
  intros (old & q & b0 & Ho & ?). exists (l ++ old), q, b0. split; [by eapply reads_trans|done].
Qed.

Lemma cancel_request_reads tc i b0 b :
  binv b → abs b = log_received (ClientCancel tc i) (abs b0) →
  wp (on_in_flight (λ t ab, SIF.cancel_request t ab i)) (λ _ b', binv b' ∧ reads [ClientCancel tc i] b0 b') b.
Proof.
  intros Hinv Hb. apply (wp_mono _ (λ _ b', (binv b' ∧ shrinks b b') ∧ bc_transport b' = bc_transport b)).
  - apply wp_wlp; [by apply cancel_request_shrinks|]. intros u b'. unfold on_in_flight.
    destruct (SIF.cancel_request _ _ _) as [[[u' t] ab]| |]; [|done..]. by intros [= <- <-].
  - intros u b' [[Hi [Hs _]] Ht]. split; [done|].
    assert (b_received (abs b') = b_received (abs b) ∧ b_sent (abs b') = b_sent (abs b)) as [Hr Hse] by (simpl; by rewrite Ht).
    rewrite Hb in Hr, Hse, Hs. split; [done..|by repeat constructor].
Qed.

Lemma poll_next_reads now n b :
  binv b → wp (poll_next_loop gen_u64 new_span span_active now n) (next_reads now b) b.
Proof.
  revert b. induction n as [|n IH]; intros b Hinv; [done|]. cbn [poll_next_loop].
  apply wp_bind. eapply wp_mono; [by apply poll_cancellation_shrinks|]. intros st1 b1 (Hi1 & S1 & E1 & _).
  apply wp_bind. eapply wp_mono; [by apply (poll_expiration_shrinks now)|]. intros st2 b2 (Hi2 & S2 & E2 & _).
  pose proof (reads_trans _ _ _ _ _ (reads_silent _ _ E1 S1) (reads_silent _ _ E2 S2)) as Hr. clear E1 E2 S1 S2.
  assert (Hloop : ∀ l b3, binv b3 → reads l b2 b3 → wp (poll_next_loop gen_u64 new_span span_active now n) (next_reads now b) b3).
  { intros l b3 Hi3 Hr3. eapply wp_mono; [by apply IH|]. intros r b4. apply (next_reads_before now ([] ++ l)). by eapply reads_trans. }
  assert (Hfin : ∀ st3 l b3, binv b3 → reads l b2 b3 → wp match combine (combine st1 st2) st3 with
      | StReady => poll_next_loop gen_u64 new_span span_active now n
      | StClosed => mret (Ready None) | StPending => mret Pending end (next_reads now b) b3).
  { intros st3 l b3 Hi3 Hr3. destruct (combine _ st3); [by eapply Hloop|apply wp_ret; eexists; by eapply reads_trans..]. }
  apply wp_bind. eapply wp_mono; [apply wp_poll_next_transport|]. intros m b3 (Ei & Ea & Ec & Hm).
  assert (Hi3 : binv b3) by (unfold binv; by rewrite Ei, Ea).
  destruct m as [[[[q|tc i]|e]|]|].
  - apply wp_bind. eapply wp_mono; [by apply (wp_start_request gen_u64 new_span span_active now b2)|].
    intros [tr|[]] b4 [[Hok Hst] Hev].
    + apply wp_ret. destruct Hst as (_ & Hid & Hms & _). exists ([] ++ []), q, b2. by split_and!.
    + apply (Hloop [ClientRequest q]); [apply Hok|]. rewrite Hm in Hev.
      split; rewrite ?Hev; [done..|by repeat constructor].
  - apply wp_bind. eapply wp_mono; [by apply (cancel_request_reads tc i b2)|]. intros u b4 [Hi4 Hr4].
    by apply (Hfin StReady [ClientCancel tc i]).
  - apply wp_ret. eexists. eapply reads_trans; [exact Hr|by apply reads_same].
  - apply (Hfin _ []); [done|]. by split; rewrite ?Hm; rewrite ?app_nil_r; [..|constructor].
  - apply (Hfin _ []); [done|by apply reads_same].
Qed.

(** ** What a poll of [MaxRequests] does with them *)

Definition throttle_response (q : Request Req) : Response Resp := MkResponse (id q) (Err throttle_error).

(** The accounts of a started request, field by field. *)
Ltac view := cbn [b_received b_sent b_tracked set_canceled_view track log_received].
Ltac view_in H := cbn [b_received b_sent b_tracked set_canceled_view track log_received] in H.

(** What became of a request [q] that was among the messages read. *)
Definition disposed b (over : list (Request Req)) (new : list (ClientMessage Req))
    (r : Poll (option (Result (TrackedRequest Span Req) (ChannelError.t E)))) (q : Request Req) : Prop :=
  q ∈ over ∨ is_Some (b_tracked (abs b) !! id q) ∨
  (last new = Some (ClientRequest q) ∧
   ((∃ tr, r = Ready (Some (Ok tr)) ∧ id (tr_request tr) = id q ∧ message (tr_request tr) = message q) ∨
    (∃ e, r = Ready (Some (Err (ChannelError.Write e)))))).

(** The poll read [new], answered [over] with the throttling error, and returned [r]. *)
Record throttles b (over : list (Request Req)) (new : list (ClientMessage Req))
    (r : Poll (option (Result (TrackedRequest Span Req) (ChannelError.t E)))) b' : Prop := {
  th_received : b_received (abs b') = b_received (abs b) ++ new;
  th_sent : b_sent (abs b') = b_sent (abs b) ++ (throttle_response <$> over);
  th_over : sublist (ClientRequest <$> over) new;
  th_disposed : ∀ q, ClientRequest q ∈ new → disposed b over new r q;
  th_tracked : ∀ i, is_Some (b_tracked (abs b') !! i) → is_Some (b_tracked (abs b) !! i) ∨
    ∃ tr, r = Ready (Some (Ok tr)) ∧ i = id (tr_request tr);
}.

Lemma reads_throttles new b r b' : reads new b b' → throttles b [] new r b'.
Proof.
  intros [R S Tr F]. split; rewrite ?app_nil_r; [done|done|apply sublist_nil_l| |].
  - intros q Hq. right. left. rewrite Forall_forall in F. exact (F _ Hq).
  - intros i [h Hh]. left. exists h. by eapply lookup_weaken.
Qed.

Lemma next_reads_throttles now b r b' : next_reads now b r b' → ∃ new, throttles b [] new r b'.
Proof.
  destruct r as [[[tr|e]|]|]; cbn [next_reads]; [|intros [new Hn]; exists new; by apply reads_throttles..].
  intros (old & q & b0 & [R S Tr F] & [_ Hev] & Hid & Hms). exists (old ++ [ClientRequest q]).
  split; rewrite ?Hev; view; rewrite ?app_nil_r; [by rewrite R, app_assoc|done|apply sublist_nil_l|..].
  - intros q' [Hq|Hq%list_elem_of_singleton]%elem_of_app.
    + right. left. rewrite Forall_forall in F. exact (F _ Hq).
    + injection Hq as ->. right. right. rewrite last_snoc. split; [done|]. left. by exists tr.
  - intros i [h Hh]. destruct (decide (i = id q)) as [->|]; [right; by exists tr|].
    rewrite lookup_insert_ne in Hh by done. left. exists h. by eapply lookup_weaken.
Qed.

(** A request over the limit, answered, and the rest of the poll. *)
Lemma throttles_more now b tr b1 b2 over new r b' :
  next_reads now b (Ready (Some (Ok tr))) b1 →
  b_received (abs b2) = b_received (abs b1) →
  b_sent (abs b2) = b_sent (abs b1) ++ [MkResponse (id (tr_request tr)) (Err throttle_error)] →
  b_tracked (abs b2) = delete (id (tr_request tr)) (b_tracked (abs b1)) →
  throttles b2 over new r b' → ∃ over new, throttles b over new r b'.
Proof.
  intros (old & q & b0 & [R S Tr F] & [_ Hev] & Hid & Hms) R2 S2 T2 [R' S' O' D' T'].
  rewrite Hev in R2, S2, T2. view_in R2. view_in S2. view_in T2. rewrite Hid in S2, T2.
  assert (Hin : ∀ i, is_Some (b_tracked (abs b2) !! i) → is_Some (b_tracked (abs b) !! i)).
  { intros i. rewrite T2. intros [h Hh]. destruct (decide (i = id q)) as [->|]; [by rewrite lookup_delete_eq in Hh|].
    rewrite lookup_delete_ne, lookup_insert_ne in Hh by done. exists h. by eapply lookup_weaken. }
  exists (q :: over), (old ++ ClientRequest q :: new). split.
  - by rewrite R', R2, R, <- !app_assoc.
  - by rewrite S', S2, S, <- app_assoc.
  - by apply sublist_inserts_l, sublist_skip.
  - intros q' [Hq|[[= ->]|Hq]%elem_of_cons]%elem_of_app.
    + right. left. rewrite Forall_forall in F. exact (F _ Hq).
    + left. by left.
    + destruct (D' q' Hq) as [?|[?|[Hl ?]]]; [left; by right|right; left; by apply Hin|right; right].
      split; [|done]. by rewrite last_app_cons, last_cons, Hl.
  - intros i [?|?]%T'; [left; by apply Hin|by right].
Qed.
(** The answer could not be written: the poll reports that. *)
Lemma throttles_failed now b tr b1 b2 e :
  next_reads now b (Ready (Some (Ok tr))) b1 →
  b_received (abs b2) = b_received (abs b1) → b_sent (abs b2) = b_sent (abs b1) →
  b_tracked (abs b2) = delete (id (tr_request tr)) (b_tracked (abs b1)) →
  ∃ new, throttles b [] new (Ready (Some (Err (ChannelError.Write e)))) b2.
Proof.
  intros (old & q & b0 & [R S Tr F] & [_ Hev] & Hid & _) R2 S2 T2.
  rewrite Hev in R2, S2, T2. view_in R2. view_in S2. view_in T2. rewrite Hid in T2.
  exists (old ++ [ClientRequest q]). split; rewrite ?app_nil_r.
  - by rewrite R2, R, <- app_assoc.
  - by rewrite S2, S.
  - apply sublist_nil_l.
  - intros q' [Hq|Hq%list_elem_of_singleton]%elem_of_app.
    + right. left. rewrite Forall_forall in F. exact (F _ Hq).
    + injection Hq as ->. right. right. rewrite last_snoc. split; [done|]. right. by exists e.
  - intros i. rewrite T2. intros [h Hh]. left. destruct (decide (i = id q)) as [->|]; [by rewrite lookup_delete_eq in Hh|].
    rewrite lookup_delete_ne, lookup_insert_ne in Hh by done. exists h. by eapply lookup_weaken.
Qed.

(** Answering a request in flight. *)
Lemma answer_started now b tr b1 :
  binv b1 → next_reads now b (Ready (Some (Ok tr))) b1 →
  wp (start_send (MkResponse (id (tr_request tr)) (Err throttle_error))) (λ x b2,
    binv b2 ∧ b_received (abs b2) = b_received (abs b1) ∧
    b_tracked (abs b2) = delete (id (tr_request tr)) (b_tracked (abs b1)) ∧
    b_sent (abs b2) = b_sent (abs b1) ++ (if is_ok x then [MkResponse (id (tr_request tr)) (Err throttle_error)] else []) ∧
    ∀ e, x = Err e → ∃ e', e = ChannelError.Write e') b1.
Proof.
  intros Hinv (old & q & b0 & _ & [_ Hev] & Hid & _).
  assert (Ht : b_tracked (abs b1) !! id (tr_request tr) = Some (tr_abort_registration tr)).
  { rewrite Hev, Hid. view. apply lookup_insert_eq. }
  apply wp_bind, wp_remove_request; [done|..].
  - intros rd s' _ Hinv' Habs. apply wp_bind, wp_base_transport. intros x t (Hs & Hr & _)%log_start_send. apply wp_ret.
    split_and!; [done|exact Hr|exact (f_equal b_tracked Habs)| |by destruct x as [[]|e']; intros ? [= <-]; exists e'].
    simpl in *. rewrite Hs. by destruct x as [[]|].
  - intros Hn%tracked_None. exfalso. revert Hn. cbn [request_id]. by rewrite Ht.
Qed.

(** The inner channel had the last word. *)
Definition told (bound : nat) (now : Z) (max : nat) b' : Prop :=
  (∃ b0, max ≤ SIF.len (bc_in_flight_requests b0) ∧ poll_ready b0 = Done (Pending, b')) ∨
  (∃ b0, poll_next_loop gen_u64 new_span span_active now bound b0 = Done (Pending, b')).

Definition limits (bound : nat) (now : Z) (max : nat) b
    (r : Poll (option (Result (TrackedRequest Span Req) (ChannelError.t E))))
    (s' : MaxRequests (base_channel gen_u64 new_span span_active)) : Prop :=
  (∃ over new, throttles b over new r (inner s')) ∧ (r = Pending → told bound now max (inner s')).

(** Reading one message at the limit. *)
Lemma inner_next_reads bound now (s : MaxRequests (base_channel gen_u64 new_span span_active)) :
  binv (inner s) → wp (on_inner (C:=base_channel gen_u64 new_span span_active) (poll_next_loop gen_u64 new_span span_active now bound)) (λ r s', binv (inner s') ∧ next_reads now (inner s) r (inner s') ∧
    max_in_flight_requests s' = max_in_flight_requests s ∧ (r = Pending → told bound now (max_in_flight_requests s) (inner s'))) s.
Proof.
  intros Hi. apply wp_on_inner. pose proof (poll_next_reads now bound _ Hi) as Hr.
  pose proof (wp_poll_next gen_u64 new_span span_active now bound _ Hi) as Hw. unfold wp in *. simpl.
  destruct (poll_next_loop _ _ _ _ _ _) as [[r b']|[]|] eqn:Hp; [|done..]. split_and!; [apply Hw|exact Hr|done|].
  intros ->. right. by exists (inner s).
Qed.

Lemma inner_ready_reads bound now (s : MaxRequests (base_channel gen_u64 new_span span_active)) :
  binv (inner s) → max_in_flight_requests s ≤ SIF.len (bc_in_flight_requests (inner s)) →
  wp (on_inner (C:=base_channel gen_u64 new_span span_active) poll_ready) (λ p s', binv (inner s') ∧ reads [] (inner s) (inner s') ∧
    max_in_flight_requests s' = max_in_flight_requests s ∧ (p = Pending → told bound now (max_in_flight_requests s) (inner s'))) s.
Proof.
  intros Hi Hmax. apply wp_on_inner. pose proof (wp_base_poll_ready now (inner s) Hi) as Hw.
  assert (Hsame : wlp poll_ready (λ _ b', abs b' = abs (inner s)) (inner s)).
  { apply wlp_bind, wlp_wp, wp_base_transport. intros p t (Hs & Hr & He)%log_poll_ready. apply wlp_ret.
    unfold abs. simpl. by rewrite Hs, Hr, He. }
  unfold wp in *. simpl. destruct (poll_ready (inner s)) as [[p b1]|[]|] eqn:Hp; [|done..].
  split_and!; [apply Hw|by apply reads_same, (Hsame _ _ Hp)|done|]. intros ->. left. by exists (inner s).
Qed.

Lemma throttle_loop_limits bound now n (s : MaxRequests (base_channel gen_u64 new_span span_active)) :
  binv (inner s) → wp (throttle_loop bound now n) (limits bound now (max_in_flight_requests s) (inner s)) s.
Proof.
  revert s. induction n as [|n IH]; intros s Hi; [done|]. cbn [throttle_loop]. apply wp_bind, wp_get. case_bool_decide as Hmax.
  - apply wp_bind. eapply wp_mono; [by apply (inner_ready_reads bound now)|]. intros p s1 (Hi1 & Hr1 & Hm1 & Ht1).
    assert (Hout : ∀ r, (r = Pending → told bound now (max_in_flight_requests s) (inner s1)) →
      limits bound now (max_in_flight_requests s) (inner s) r s1).
    { intros r Ht. split; [|done]. eexists [], _. by eapply reads_throttles. }
    destruct p as [[[]|e]|]; [|by apply wp_ret, Hout|apply wp_ret, Hout; auto].
    apply wp_bind. eapply wp_mono; [by apply (inner_next_reads bound now)|]. intros r s2 (Hi2 & Hr2 & Hm2 & Ht2).
    apply (next_reads_before now _ _ _ _ _ Hr1) in Hr2. rewrite Hm1 in Ht2, Hm2.
    destruct r as [[[tr|e]|]|]; try (apply wp_ret; split; [exists []; by eapply next_reads_throttles|auto]).
    apply wp_bind, wp_on_inner. eapply wp_mono; [by eapply answer_started|]. intros x b3 (Hi3 & R3 & T3 & S3 & E3).
    apply wp_bind, wp_modify. set (s3 := MkMaxRequests _ _).
    assert (Hd : b_received (abs (inner s3)) = b_received (abs (inner s2)) ∧
      b_tracked (abs (inner s3)) = delete (id (tr_request tr)) (b_tracked (abs (inner s2))) ∧
      b_sent (abs (inner s3)) = b_sent (abs b3) ∧ binv (inner s3)) by (by split_and!).
    destruct Hd as (R4 & T4 & S4 & Hi4). rewrite S3 in S4. destruct x as [[]|e].
    + eapply wp_mono; [by apply IH|]. intros r s4 [(over & new & Hth) Ht]. split; [by eapply throttles_more|].
      intros Hr. specialize (Ht Hr). subst s3. simpl in Ht. by rewrite Hm2 in Ht.
    + destruct (E3 e eq_refl) as [e' ->]. apply wp_ret. split; [|done]. exists []. simpl in S4. rewrite app_nil_r in S4.
      by eapply throttles_failed.
  - eapply wp_mono; [by apply inner_next_reads|]. intros r s1 (_ & Hr & _ & Ht). split; [|done].
    exists []. by eapply next_reads_throttles.
Qed.

(** C23: a [BaseChannel] decorated with [MaxRequests] keeps the limit and accounts for
    every request it reads.  A poll hands out a request only while at most the
    configured number is in flight, that request included.  What it writes are
    throttling errors, one for each of some requests it read, under their own ids and
    in their order; and a request it read is one of those, or has an id that was in
    flight (and is dropped), or is the last one read, which is handed out or whose
    throttling error could not be written (the poll reports that error).  No request
    stays in flight that was not, except the one handed out.  And it is pending only
    when the channel inside is: at the limit, because it cannot be written to, or
    because it has nothing to read. *)
Theorem max_requests_limits bound now (s : MaxRequests (base_channel gen_u64 new_span span_active)) :
  binv (inner s) →
  throttle_loop bound now bound s ≠ Panicked Unexpected ∧
  ∀ r s', throttle_loop bound now bound s = Done (r, s') →
    (∀ tr, r = Ready (Some (Ok tr)) → SIF.len (bc_in_flight_requests (inner s')) ≤ max_in_flight_requests s) ∧
    (∃ over new, throttles (inner s) over new r (inner s')) ∧
    (r = Pending → told bound now (max_in_flight_requests s) (inner s')).
Proof.
  intros Hi. pose proof (throttle_loop_limits bound now bound s Hi) as Hl.
  pose proof (wp_throttle_loop bound now bound s Hi) as Hw. unfold wp in *.
  destruct (throttle_loop _ _ _ _) as [[r s']|[]|]; [|done..]. split; [done|]. intros ? ? [= <- <-].
  destruct Hw as [[_ [Hm _]] Hr], Hl as [Hth Ht]. split_and!; [|done|done]. intros tr ->. rewrite <- Hm. apply Hr.
Qed.
End throttling.

(** A limit of zero: the request is read, answered and forgotten, and then there is
    nothing to read. *)
Definition srv_throttled : MaxRequests srv_channel := max_requests_new srv_b1 0.

Lemma max_requests_limits_witness :
  throttle_loop srv_bound 1 srv_bound srv_throttled ≠ Panicked Unexpected ∧
  ∃ s' over new, throttle_loop srv_bound 1 srv_bound srv_throttled = Done (Pending, s') ∧
    throttles (T:=srv_T) (inner srv_throttled) over new Pending (inner s') ∧
    b_sent (ch_abs (inner s')) = [MkResponse 5 (Err throttle_error)].
Proof.
  destruct (max_requests_limits (T:=srv_T) srv_rng srv_span srv_active srv_bound 1 srv_throttled srv_binv_b0) as [Hn Hd].
  split; [exact Hn|]. remember (throttle_loop srv_bound 1 srv_bound srv_throttled) as e eqn:He.
  assert (Hc : match e with Done (Pending, s') => b_sent (ch_abs (inner s')) = [MkResponse 5 (Err throttle_error)] | _ => False end)
    by (subst e; vm_compute; reflexivity).
  destruct e as [[[x|] s']| |]; [destruct Hc| |destruct Hc|destruct Hc].
  destruct (Hd Pending s' (eq_sym He)) as (_ & (over & new & Ht) & _). exists s', over, new.
  split; [reflexivity|]. split; [exact Ht|exact Hc].
Defined.
End Throttling.
