(* ===== verification/ServerWatch.v ===== *)
(** * Keeping watch over the requests being served

    A request handed to a handler stays under the channel's watch: it is tracked with
    its due time until the channel aborts its handler, unless the handler itself
    reports that it is done.  [watched] says so of one request, in terms of the events
    of [ServerSpec]; [ChannelWatch] and [ChannelSettles] are what a channel promises
    about it, which [BaseChannel] and [MaxRequests] keep.  Everything is about ids that
    the client used once: a second request with an id makes the first one's fate
    ambiguous. *)
From S2P Require Import Prelude Interfaces RefModels Trace Wire TimerTable Transport Cancellations ServerInFlight ServerChannel ServerSpec ServerRefine ServerRequests ServerSystem Limits ServerFrame ServerTermination ServerProps.

Module ServerWatch.
Export ServerProps.

(** ** Watched requests *)

Section watched.
Context `{!Abort, !AbortLaws} {Req Resp : Type}.
Implicit Types a : BState Req Resp.

(** A request under watch: its id, the abort state of its handler, its due time. *)
Record Watch := MkWatch { w_id : Z; w_handle : nat; w_due : Z }.
Implicit Types x : Watch.

Definition aborted (h : nat) a : Prop := SIF.is_aborted (b_aborts a) h = true.

(** It was asked, and no message of the client read since cancels it. *)
Definition uncanceled (i : Z) (l : list (ClientMessage Req)) : Prop :=
  ∃ l1 r l2, l = l1 ++ ClientRequest r :: l2 ∧ id r = i ∧ ∀ tc, ClientCancel tc i ∉ l2.

Record tracked_as x a : Prop := {
  ta_tracked : b_tracked a !! w_id x = Some (w_handle x);
  ta_due : b_due a !! w_id x = Some (w_due x);
  ta_queue : w_id x ∉ mv_queue (b_canceled a);
  ta_log : uncanceled (w_id x) (b_received a);
}.

(** The request no longer matters: its id was used again, or its handler is aborted. *)
Definition excused x a : Prop := 2 ≤ asked (w_id x) a ∨ aborted (w_handle x) a.

Definition watched x a : Prop := 1 ≤ asked (w_id x) a ∧ (excused x a ∨ tracked_as x a).

(** Every id on the cancellation queue was used by the client. *)
Definition counted a : Prop := ∀ i, i ∈ mv_queue (b_canceled a) → 1 ≤ asked i a.

Lemma aborted_abort h h' a : aborted h a → is_Some (b_aborts a !! h') → aborted h (abort_handler h' a).
Proof.
  intros Ha Hs. unfold aborted in *. simpl. destruct (decide (h' = h)) as [->|].
  - by apply SIF.is_aborted_abort.
  - by rewrite SIF.is_aborted_abort_ne.
Qed.

Lemma aborted_lookup h a : aborted h a → is_Some (b_aborts a !! h).
Proof. unfold aborted, SIF.is_aborted. by destruct (b_aborts a !! h). Qed.

Lemma alter_abort_mono h h' (ab : gmap nat abort_inner) :
  SIF.is_aborted ab h = true → SIF.is_aborted (SIF.abort h' ab) h = true.
Proof.
  intros Ha. destruct (decide (h' = h)) as [->|]; [|by rewrite SIF.is_aborted_abort_ne].
  apply SIF.is_aborted_abort. revert Ha. unfold SIF.is_aborted. by destruct (ab !! h).
Qed.

Lemma bstep_mono now a a' : bstep now a a' → (∀ i, asked i a ≤ asked i a') ∧ (∀ h, aborted h a → aborted h a').
Proof.
  intros Hs. split.
  - intros i. destruct Hs; try done; unfold asked; simpl; rewrite filter_app, length_app; lia.
  - intros h Ha. destruct Hs as [| |r h' Ht Hn| | | | | | | |]; try done; unfold aborted in *; simpl; try by apply alter_abort_mono.
    unfold SIF.is_aborted in *. destruct (decide (h' = h)) as [->|]; [by rewrite Hn in Ha|by rewrite lookup_insert_ne].
Qed.

Lemma bsteps_mono now a a' : bsteps now a a' → (∀ i, asked i a ≤ asked i a') ∧ (∀ h, aborted h a → aborted h a').
Proof.
  induction 1 as [|a1 a2 a3 Hs _ [A IH]]; [done|]. apply bstep_mono in Hs as [A1 H1].
  split; [intros i; specialize (A i); specialize (A1 i); lia|auto].
Qed.

Lemma excused_steps now x a a' : bsteps now a a' → excused x a → excused x a'.
Proof. intros [A Hm]%bsteps_mono. specialize (A (w_id x)). intros [?|?]; [left; lia|right; auto]. Qed.

Lemma watched_excused x a : 1 ≤ asked (w_id x) a → excused x a → watched x a.
Proof. split; auto. Qed.

(** *** The events of a channel's stream keep requests watched *)

Lemma watched_untrack j a x : j ≠ w_id x → watched x a → watched x (untrack j a).
Proof.
  intros Hj [Ha [?|[]]]; split; [done|by left|done|right]. split; simpl; rewrite ?lookup_delete_ne by done; done.
Qed.

Lemma watched_forget j q a x :
  mv_queue (b_canceled a) = j :: q → watched x a →
  watched x (untrack j (set_canceled_view (mv_set_queue q (b_canceled a)) a)).
Proof.
  intros Hq [Ha [?|[T D N L]]]; split; [done|by left|done|right]. rewrite Hq in N.
  apply not_elem_of_cons in N as [N1 N2]. split; simpl; rewrite ?lookup_delete_ne by done; done.
Qed.

(** A request that is taken off the books is excused when its handler is aborted. *)
Lemma watched_abort j h a x :
  b_tracked a !! j = Some h → is_Some (b_aborts a !! h) → watched x a → watched x (abort_handler h (untrack j a)).
Proof.
  intros Hj Hs [Ha [[?|Hx]|Hx]]; split; [done|left; by left|done|left; right; by apply (aborted_abort _ _ (untrack j a))|done|].
  destruct (decide (j = w_id x)) as [->|Hne].
  - left. right. destruct Hx as [T _ _ _]. rewrite Hj in T. injection T as <-. by apply SIF.is_aborted_abort.
  - right. destruct Hx. split; simpl; rewrite ?lookup_delete_ne by done; done.
Qed.

Lemma uncanceled_app i l m :
  uncanceled i l → (∀ tc, m ≠ ClientCancel tc i) → uncanceled i (l ++ [m]).
Proof.
  intros (l1 & r & l2 & -> & Hi & Hn) Hm. exists l1, r, (l2 ++ [m]). split_and!; [by rewrite <- app_assoc|done|].
  intros tc [?|<-%list_elem_of_singleton]%elem_of_app; [by eapply Hn|by eapply Hm].
Qed.

(** Reading a message that does not cancel it. *)
Lemma watched_log m a x : (∀ tc, m ≠ ClientCancel tc (w_id x)) → watched x a → watched x (log_received m a).
Proof.
  intros Hm [Ha [[?|?]|[]]]; (split; [rewrite asked_app; lia|]).
  - left. left. rewrite asked_app. lia.
  - left. by right.
  - right. split; [done..|]. by apply uncanceled_app.
Qed.

(** A cancellation of a request that is not tracked. *)
Lemma watched_cancel_ignored tc j a x :
  b_tracked a !! j = None → watched x a → watched x (log_received (ClientCancel tc j) a).
Proof.
  intros Hj Hx. destruct (decide (j = w_id x)) as [->|]; [|apply watched_log; [congruence|done]].
  destruct Hx as [Ha [[?|?]|[T _ _ _]]]; [..|congruence]; (split; [rewrite asked_app; lia|]).
  - left. left. rewrite asked_app. lia.
  - left. by right.
Qed.

(** A cancellation that aborts the handler. *)
Lemma watched_cancel tc j h a x :
  b_tracked a !! j = Some h → is_Some (b_aborts a !! h) → watched x a →
  watched x (abort_handler h (untrack j (log_received (ClientCancel tc j) a))).
Proof.
  intros Hj Hs Hx. destruct (decide (j = w_id x)) as [->|].
  - destruct Hx as [Ha Hx]. pose proof (asked_app (w_id x) a (ClientCancel tc (w_id x))) as Hl. simpl in Hl.
    apply watched_excused; [change (1 ≤ asked (w_id x) (log_received (ClientCancel tc (w_id x)) a)); lia|].
    destruct Hx as [[?|Hx]|[T _ _ _]]; [left|right; by apply (aborted_abort _ _ (untrack (w_id x) a))|].
    { change (2 ≤ asked (w_id x) (log_received (ClientCancel tc (w_id x)) a)). lia. }
    right. rewrite Hj in T. injection T as <-. by apply SIF.is_aborted_abort.
  - eapply watched_abort; [done|done|]. apply watched_log; [congruence|done].
Qed.

(** Another request is started. *)
Lemma watched_start r h due v a x :
  mv_queue v = mv_queue (b_canceled a) → b_aborts a !! h = None → watched x a →
  watched x (set_canceled_view v (track (id r) h due (log_received (ClientRequest r) a))).
Proof.
  intros Hv Hn Hx. destruct (decide (id r = w_id x)) as [E|].
  { destruct Hx as [Ha _]. pose proof (asked_app (w_id x) a (ClientRequest r)) as Hl. simpl in Hl. rewrite bool_decide_true in Hl by done.
    split; [|left; left]; [change (1 ≤ asked (w_id x) (log_received (ClientRequest r) a))|
      change (2 ≤ asked (w_id x) (log_received (ClientRequest r) a))]; lia. }
  assert (Hl : watched x (log_received (ClientRequest r) a)) by by apply watched_log.
  destruct Hl as [Ha [[?|Hb]|[T D N L]]]; (split; [done|]); [left; by left|left; right|right].
  - unfold aborted, SIF.is_aborted in *. simpl. destruct (decide (h = w_handle x)) as [->|]; [|by rewrite lookup_insert_ne].
    simpl in Hb. by rewrite Hn in Hb.
  - split; simpl in *; rewrite ?lookup_insert_ne by done; rewrite ?Hv; done.
Qed.

(** The request just started is watched, unless its id was used before. *)
Lemma watched_started r h due v a :
  mv_queue v = mv_queue (b_canceled a) → counted a →
  watched (MkWatch (id r) h due) (set_canceled_view v (track (id r) h due (log_received (ClientRequest r) a))).
Proof.
  intros Hv Hc. assert (Hasked : asked (id r) (log_received (ClientRequest r) a) = S (asked (id r) a)).
  { rewrite asked_app. simpl. rewrite bool_decide_true by done. lia. }
  split; [change (1 ≤ asked (id r) (log_received (ClientRequest r) a)); lia|].
  destruct (decide (1 ≤ asked (id r) a)) as [Htwo|Hfirst].
  { left. left. change (2 ≤ asked (id r) (log_received (ClientRequest r) a)). lia. }
  right. split; simpl; rewrite ?lookup_insert_eq; [done|done| |].
  - rewrite Hv. intros Hi%Hc. done.
  - exists (b_received a), r, []. split_and!; [done|done|]. by intros tc ?%elem_of_nil.
Qed.

(** *** What a step of a channel does to all of them *)

Definition upholds a a' : Prop := (∀ x, watched x a → watched x a') ∧ (counted a → counted a').

(** A step on behalf of the handlers of requests with id [i]. *)
Definition upholds_but (i : Z) a a' : Prop :=
  (∀ x, w_id x ≠ i → watched x a → watched x a') ∧ (counted a → counted a').

Lemma upholds_refl a : upholds a a.
Proof. split; auto. Qed.

Lemma upholds_ended a : upholds a (set_ended a).
Proof. split; [|done]. intros x [Ha [?|[]]]; split; [done|by left|done|by right]. Qed.

Lemma upholds_trans a1 a2 a3 : upholds a1 a2 → upholds a2 a3 → upholds a1 a3.
Proof. intros [W1 C1] [W2 C2]. split; auto. Qed.

Lemma upholds_intro now a a' :
  bsteps now a a' → (∀ x, watched x a → watched x a') →
  mv_queue (b_canceled a') ⊆ mv_queue (b_canceled a) → upholds a a'.
Proof.
  intros [Ha _]%bsteps_mono Hw Hq. split; [done|]. intros Hc i Hi. specialize (Ha i). specialize (Hc i (Hq _ Hi)). lia.
Qed.

(** A request just handed out, by a poll at [now]. *)
Definition taken {Span} (now : Z) (tr : TrackedRequest Span Req) a a' : Prop :=
  asked (id (tr_request tr)) a < asked (id (tr_request tr)) a' ∧
  (counted a →
   watched (MkWatch (id (tr_request tr)) (tr_abort_registration tr)
              (Z.max now (deadline (context (tr_request tr))))) a').

Lemma taken_before {Span} now (tr : TrackedRequest Span Req) a a1 a' :
  bsteps now a a1 → upholds a a1 → taken now tr a1 a' → taken now tr a a'.
Proof.
  intros [Ha _]%bsteps_mono [_ Hc] [Ht Hw]. split; [|by auto]. specialize (Ha (id (tr_request tr))). lia.
Qed.
End watched.

(** ** What a channel promises about the requests it watches *)

Class ChannelWatch `{!Abort} {Span Req Resp Error : Type} (C : Channel Span Req Resp Error) `{!ChannelLaws C} : Prop := {
  watch_aborted h c : ch_is_aborted h c = SIF.is_aborted (b_aborts (ch_abs c)) h;
  watch_poll_next bound now c : ch_inv c →
    wp (ch_poll_next bound now) (λ r c', upholds (ch_abs c) (ch_abs c') ∧
      ∀ tr, r = Ready (Some (Ok tr)) → taken now tr (ch_abs c) (ch_abs c')) c;
  watch_start_send r c : ch_inv c →
    wp (ch_start_send r) (λ _ c', upholds_but (request_id r) (ch_abs c) (ch_abs c')) c;
  watch_guard_drop g c : ch_inv c →
    (∀ x, (g_cancel g = true → w_id x ≠ g_request_id g) → watched x (ch_abs c) → watched x (ch_abs (ch_guard_drop g c))) ∧
    ((g_cancel g = true → 1 ≤ asked (g_request_id g) (ch_abs c)) → counted (ch_abs c) → counted (ch_abs (ch_guard_drop g c)));
}.

(** What a channel that yields nothing promises besides, if timers keep their resolution:
    it is at rest, which means in particular that nothing is overdue, and stays so while
    it is only asked whether it can be written to. *)
Class ChannelSettles `{!DelayQueue, !DelayQueueLaws, !DelayQueuePrompt, !Abort} {Span Req Resp Error : Type}
    (C : Channel Span Req Resp Error) `{!ChannelLaws C} : Type := {
  ch_rests : Z → channel C → Prop;
  settles_poll_next bound now c : ch_inv c →
    wp (ch_poll_next bound now) (λ r c', yields_nothing r → ch_rests now c') c;
  settles_due now c : ch_rests now c → ∀ i due, b_due (ch_abs c) !! i = Some due → (now < due + dq_resolution)%Z;
  settles_poll_ready now c : ch_rests now c → wlp ch_poll_ready (λ _ c', ch_rests now c') c;
  settles_poll_flush now c : ch_rests now c → wlp ch_poll_flush (λ _ c', ch_rests now c') c;
}.

(** *** [BaseChannel] *)

Section base.
Context `{!DelayQueue, !DelayQueueLaws, !Mpsc, !MpscLaws, !Abort, !AbortLaws, !Otel}.
Context {E Span Req Resp Rng : Type}.
Context {T : Transport (Response Resp) (ClientMessage Req) E} `{!TransportLog T}.
Context (gen_u64 : Rng → Z * Rng).
Context (new_span : Request Req → Span) (span_active : Span → OtelContext → option otel_span_context).
Implicit Types b : BaseChannel Span Rng T.

Lemma poll_cancellation_upholds now b :
  binv b → wp poll_cancellation (λ _ b', ok now 0 b b' ∧ upholds (abs b) (abs b')) b.
Proof.
  intros Hinv. eapply wp_mono; [apply wp_and; [by apply (wp_poll_cancellation now)|]|].
  { apply wp_bind, wp_base_canceled. intros r c Hc%Cancellations.poll_next_view.
    instantiate (1 := λ _ b', (∀ x, watched x (abs b) → watched x (abs b')) ∧
      mv_queue (b_canceled (abs b')) ⊆ mv_queue (b_canceled (abs b))).
    destruct r as [[i|]|]; simpl in Hc.
    - destruct Hc as (q & Hq & Hc). apply wp_bind. apply wp_remove_request; [done|..].
      + intros rd s' Hi Hinv' Habs. apply wp_ret. rewrite Habs. split; [|simpl; rewrite Hc, Hq; set_solver].
        intros x Hx. apply (watched_forget i q) in Hx; [|done]. unfold abs. simpl. by rewrite Hc.
      + intros Hi. apply wp_ret. split; [|simpl; rewrite Hc, Hq; set_solver].
        intros x Hx. apply (watched_forget i q) in Hx; [|done]. unfold abs, untrack in *. simpl in *. rewrite Hc.
        rewrite !delete_id in Hx; [done|by apply (SIF.abs_None _ _ _ Hinv)|by rewrite lookup_fmap, Hi].
    - apply wp_ret. destruct Hc as (_ & _ & Hc). unfold abs. simpl. by rewrite Hc.
    - apply wp_ret. unfold abs. simpl. by rewrite Hc. }
  intros r b' [[Hok _] [Hw Hq]]. split; [done|]. eapply upholds_intro; [apply Hok|done|done].
Qed.

Lemma tracked_handle b i h : binv b → b_tracked (abs b) !! i = Some h → is_Some (b_aborts (abs b) !! h).
Proof.
  intros Hinv. simpl. rewrite lookup_fmap. intros (rd & Hi & ->)%fmap_Some. by apply (SIF.inv_handle _ _ _ _ Hinv Hi).
Qed.

Lemma poll_expiration_upholds now b :
  binv b → wp (poll_expiration now) (λ _ b', ok now 0 b b' ∧ upholds (abs b) (abs b')) b.
Proof.
  intros Hinv. eapply wp_mono; [apply wp_and; [by apply (wp_poll_expiration now)|]|].
  { apply wp_bind. destruct (SIF.poll_expired (bc_in_flight_requests b) (bc_aborts b) now) as [[r s'] ab'] eqn:Hp.
    eapply wp_base_in_flight; [exact (f_equal Done Hp)|]. apply wp_ret.
    instantiate (1 := λ _ b', (∀ x, watched x (abs b) → watched x (abs b')) ∧ b_canceled (abs b') = b_canceled (abs b)).
    apply SIF.poll_expired_spec in Hp as [_ Hr]; [|done]. split; [|done]. intros x Hx. destruct r as [[i|]|].
    - destruct Hr as (rd & due & Hi & _ & _ & Hrd & Habs & ->). apply tracked_lookup in Hi.
      apply (watched_abort i (SIF.abort_handle rd)) in Hx; [|done|by eapply tracked_handle].
      unfold abs. simpl. by rewrite Hrd, Habs, fmap_delete.
    - by destruct Hr as (_ & -> & ->), b.
    - destruct Hr as (_ & Hrd & Habs & ->). unfold abs. simpl. by rewrite Hrd, Habs. }
  intros r b' [[Hok _] [Hw Hq]]. split; [done|]. eapply upholds_intro; [apply Hok|done|by rewrite Hq].
Qed.

(** [b0] is the channel before the cancellation was read. *)
Lemma cancel_request_upholds tc i b0 b :
  binv b → abs b = log_received (ClientCancel tc i) (abs b0) →
  wp (on_in_flight (λ t ab, SIF.cancel_request t ab i)) (λ _ b', ∀ x, watched x (abs b0) → watched x (abs b')) b.
Proof.
  intros Hinv Hb. pose proof (SIF.cancel_request_spec _ _ i Hinv) as Hc.
  assert (Htr : b_tracked (abs b0) = b_tracked (abs b)) by by rewrite Hb.
  destruct (SIF.request_data _ !! i) as [rd|] eqn:Hi.
  - destruct Hc as (s' & Hc & Hrd & Habs & Hinv'). eapply wp_base_in_flight; [exact Hc|]. intros x Hx.
    apply tracked_lookup in Hi. apply (watched_cancel tc i (SIF.abort_handle rd)) in Hx; [|by rewrite Htr|].
    + rewrite <- Hb in Hx. unfold abs. simpl. by rewrite Hrd, Habs, fmap_delete.
    + change (b_aborts (abs b0)) with (b_aborts (log_received (ClientCancel tc i) (abs b0))). rewrite <- Hb.
      by eapply tracked_handle.
  - eapply wp_base_in_flight; [exact Hc|]. intros x Hx. apply tracked_None in Hi. rewrite <- Htr in Hi.
    apply (watched_cancel_ignored tc i) in Hx; [|done]. rewrite <- Hb in Hx. by destruct b.
Qed.

Lemma cancel_keeps_queue i b :
  binv b → wp (on_in_flight (λ t ab, SIF.cancel_request t ab i))
    (λ _ b', mv_queue (b_canceled (abs b')) = mv_queue (b_canceled (abs b))) b.
Proof.
  intros Hinv. pose proof (SIF.cancel_request_spec _ _ i Hinv) as Hc.
  destruct (SIF.request_data _ !! i) as [rd|]; [destruct Hc as (s' & Hc & _)|]; by eapply wp_base_in_flight; [exact Hc|].
Qed.

Lemma start_event_upholds now r (tr : TrackedRequest Span Req) (a a' : BState Req Resp) :
  id (tr_request tr) = id r → deadline (context (tr_request tr)) = deadline (context r) →
  start_event now r tr a a' →
  (∀ x, watched x a → watched x a') ∧ mv_queue (b_canceled a') = mv_queue (b_canceled a) ∧ taken now tr a a'.
Proof.
  intros Hi Hd [Hn ->]. split; [|split; [done|split]].
  - intros x Hx. by apply watched_start.
  - rewrite Hi. pose proof (asked_app (id r) a (ClientRequest r)) as Hl. simpl in Hl. rewrite bool_decide_true in Hl by done.
    change (asked (id r) a < asked (id r) (log_received (ClientRequest r) a)). lia.
  - intros Hc. rewrite Hi, Hd. by apply watched_started.
Qed.

Lemma poll_next_upholds now n b :
  binv b → wp (poll_next_loop gen_u64 new_span span_active now n) (λ r b', ok now (yields r) b b' ∧ upholds (abs b) (abs b') ∧
    ∀ tr, r = Ready (Some (Ok tr)) → taken now tr (abs b) (abs b')) b.
Proof.
  revert b. induction n as [|n IH]; intros b Hinv; [done|]. cbn [poll_next_loop].
  apply wp_bind. eapply wp_mono; [by apply (poll_cancellation_upholds now)|]. intros st1 b1 [Hok1 U1].
  apply wp_bind. eapply wp_mono; [apply (poll_expiration_upholds now), Hok1|]. intros st2 b2 [Hok2 U2].
  pose proof (bok_trans _ _ _ _ _ Hok1 Hok2) as Hok. pose proof (upholds_trans _ _ _ U1 U2) as U. clear Hok1 U1 Hok2 U2.
  set (Q := λ r b', ok now (yields r) b b' ∧ upholds (abs b) (abs b') ∧
    ∀ tr, r = Ready (Some (Ok tr)) → taken now tr (abs b) (abs b')).
  assert (Hloop : ∀ b3, ok now 0 b2 b3 → upholds (abs b2) (abs b3) → wp (poll_next_loop gen_u64 new_span span_active now n) Q b3).
  { intros b3 Hok3 U3. pose proof (bok_trans _ _ _ _ _ Hok Hok3) as Hb3. pose proof (upholds_trans _ _ _ U U3) as Ub3.
    eapply wp_mono; [apply IH, Hok3|]. intros r b4 (Hok4 & U4 & Ht4). split_and!; [by eapply bok_trans|by eapply upholds_trans|].
    intros tr Hr. eapply taken_before; [apply Hb3|done|auto]. }
  assert (Hfin : ∀ st3 b3, ok now 0 b2 b3 → upholds (abs b2) (abs b3) → wp match combine (combine st1 st2) st3 with
      | StReady => poll_next_loop gen_u64 new_span span_active now n
      | StClosed => mret (Ready None) | StPending => mret Pending end Q b3).
  { intros st3 b3 Hok3 U3. destruct (combine _ _); [by apply Hloop|apply wp_ret..];
      (split; [by eapply bok_trans|split; [by eapply upholds_trans|done]]). }
  apply wp_bind. eapply wp_mono; [apply wp_poll_next_transport|]. intros m b3 (Ei & Ea & Ec & Hm).
  assert (Hinv3 : binv b3) by (unfold binv; rewrite Ei, Ea; apply Hok).
  destruct m as [[[[r|tc i]|e]|]|].
  - apply wp_bind. eapply wp_mono; [by apply (wp_start_request gen_u64 new_span span_active now b2)|].
    intros [tr|[]] b4 [[Hok4 Hr] Hev].
    + destruct Hr as (_ & Hid & _ & Hdl & _). apply start_event_upholds in Hev as (Hw & Hq & Ht); [|done..].
      assert (U4 : upholds (abs b2) (abs b4)) by (eapply upholds_intro; [apply Hok4|done|by rewrite Hq]).
      apply wp_ret. split_and!; [by eapply bok_trans|by eapply upholds_trans|]. intros ? [= <-].
      by eapply taken_before; [apply Hok|..].
    + apply Hloop; [done|]. eapply upholds_intro; [apply Hok4| |by rewrite Hev, Hm].
      rewrite Hev, Hm. intros x. by apply watched_log.
  - apply wp_bind. eapply wp_mono.
    { apply wp_and; [by apply (cancel_request_upholds tc i b2)|].
      apply wp_and; [by apply (wp_cancel_request now tc i b2)|by apply cancel_keeps_queue]. }
    intros ? b4 (Hw & Hok4 & Hq). apply (Hfin StReady); [done|]. eapply upholds_intro; [apply Hok4|done|].
    by rewrite Hq, Hm.
  - apply wp_ret. assert (ok now 0 b b3) by (eapply bok_trans; [exact Hok|by apply bok_same]).
    split_and!; [done|by rewrite Hm|done].
  - apply Hfin; [by eapply bok_step; [|apply b_end|..]|]. rewrite Hm. by apply upholds_ended.
  - apply Hfin; [by apply bok_same|]. rewrite Hm. by apply upholds_refl.
Qed.

(** Answering a request removes that request only. *)
Lemma start_send_upholds r b :
  binv b → wp (start_send r) (λ _ b', upholds_but (request_id r) (abs b) (abs b')) b.
Proof.
  intros Hinv. apply wp_bind, wp_remove_request; [done|..].
  - intros rd s' Hi Hinv' Habs. apply wp_bind, wp_base_transport. intros res t (_ & Hr & _)%log_start_send. apply wp_ret.
    set (b' := set_transport t _). assert (H' : ∀ x, watched x (untrack (request_id r) (abs b)) → watched x (abs b')).
    { intros x. rewrite <- Habs. intros [Ha [[?|?]|[T1 D1 N1 L1]]]; unfold watched, excused, asked, aborted in *; simpl in *; rewrite Hr; auto.
      split; [done|right]. by split; simpl; rewrite ?Hr. }
    split.
    + intros x Hx Hw. by apply H', watched_untrack.
    + intros Hc i Hi'. unfold asked. simpl. rewrite Hr. by apply (Hc i).
  - intros _. apply wp_ret. split; auto.
Qed.

Lemma guard_drop_upholds g b :
  (∀ x, (g_cancel g = true → w_id x ≠ g_request_id g) → watched x (abs b) → watched x (abs (guard_drop g b))) ∧
  ((g_cancel g = true → 1 ≤ asked (g_request_id g) (abs b)) → counted (abs b) → counted (abs (guard_drop g b))).
Proof.
  assert (Hq : ∀ i, i ∈ mv_queue (b_canceled (abs (guard_drop g b))) →
    i ∈ mv_queue (b_canceled (abs b)) ∨ g_cancel g = true ∧ i = g_request_id g).
  { intros i. simpl. rewrite law_drop_sender. simpl. destruct (g_cancel g); [|auto].
    rewrite Cancellations.cancel_view. destruct (mv_closed _); [auto|]. simpl.
    intros [?|?%list_elem_of_singleton]%elem_of_app; auto. }
  split.
  - intros x Hx [Ha [?|[T1 D1 N1 L1]]]; split; [done|by left|done|right]. split; [done|done| |done].
    intros [?|[Hg Heq]]%Hq; [done|]. by apply Hx.
  - intros Hg Hc i [Hi|[Hg' ->]]%Hq; [by apply (Hc i)|by apply Hg].
Qed.

#[export] Instance base_channel_watch :
  ChannelWatch (base_channel gen_u64 new_span span_active (Resp:=Resp) (T:=T)).
Proof.
  split; [done|..].
  - intros bound now b Hinv. eapply wp_mono; [by apply poll_next_upholds|]. by intros r b' (_ & ? & ?).
  - intros r b Hinv. by apply start_send_upholds.
  - intros g b _. apply guard_drop_upholds.
Qed.

Context `{!DelayQueuePrompt}.

(** [BaseChannel] at rest: the queue of handlers that gave up was received from until it
    gave no more, and nothing is overdue. *)
Definition base_rests (now : Z) b : Prop :=
  exhausted (bc_canceled_requests b) ∧
  ∀ i due, b_due (abs b) !! i = Some due → (now < due + dq_resolution)%Z.

Lemma base_rests_pass (f : transport T → Poll (Result unit E) * transport T) c now b :
  base_rests now b → wlp (p ← on_transport f; mret (poll_map (result_map_err c) p))
    (λ (_ : Poll (Result unit (ChannelError.t E))) b', base_rests now b') b.
Proof. intros Hb. apply wlp_bind, wlp_wp, wp_base_transport. intros r t _. by apply wlp_ret. Qed.

#[export] Program Instance base_channel_settles :
    ChannelSettles (base_channel gen_u64 new_span span_active (Resp:=Resp) (T:=T)) := {| ch_rests := base_rests |}.
Next Obligation.
  intros bound now b Hinv. eapply wp_mono; [by apply poll_next_quiescent|]. intros r b' Hq Hr.
  destruct (Hq Hr) as [_ Hc _ He]. split; [exact Hc|exact He].
Qed.
Next Obligation. by intros now b [_ ?]. Qed.
Next Obligation. intros now b Hb. by apply (base_rests_pass t_poll_ready). Qed.
Next Obligation. intros now b Hb. by apply (base_rests_pass t_poll_flush). Qed.
End base.

(** *** [MaxRequests] *)

Section throttled.
Context `{!Abort, !AbortLaws} {Span Req Resp Error : Type} {C : Channel Span Req Resp Error}.
Context `{!ChannelLaws C, !ChannelWatch C}.
Implicit Types s : MaxRequests C.

Lemma inner_next_watch bound now s :
  mr_inv s → wp (on_inner (ch_poll_next bound now)) (λ r s', mr_inv s' ∧ bsteps now (mr_abs s) (mr_abs s') ∧
    upholds (mr_abs s) (mr_abs s') ∧
    ∀ tr, r = Ready (Some (Ok tr)) → taken now tr (mr_abs s) (mr_abs s') ∧
      tr_response_guard tr = MkResponseGuard (id (tr_request tr)) false) s.
Proof.
  intros Hi. apply wp_on_inner. eapply wp_mono; [apply wp_and; [by apply law_ch_poll_next|by apply (watch_poll_next bound now)]|].
  intros r c' [([Hi' Hs _] & _ & Hr) [Hu Ht]]. split_and!; [done..|]. intros tr ->. split; [by apply Ht|apply Hr].
Qed.

(** A request over the limit is answered at once: the others stay watched. *)
Lemma throttle_watch {A} (k : Result unit Error → M (MaxRequests C) A) Q now s0 s tr :
  mr_inv s → upholds (mr_abs s0) (mr_abs s) → taken now tr (mr_abs s0) (mr_abs s) →
  tr_response_guard tr = MkResponseGuard (id (tr_request tr)) false →
  (∀ x s', mr_inv s' → bsteps now (mr_abs s) (mr_abs s') → upholds (mr_abs s0) (mr_abs s') → wp (k x) Q s') →
  wp (x ← on_inner (ch_start_send (MkResponse (id (tr_request tr)) (Err throttle_error))); _ ← drop_tracked tr; k x) Q s.
Proof.
  intros Hi [W0 C0] [Hask _] Hg Hk. apply wp_bind, wp_on_inner.
  eapply wp_mono; [apply wp_and; [by apply (law_ch_start_send now)|by apply watch_start_send]|].
  intros x c1 [([Hi1 Hs1 _] & _) [W1 C1]]. simpl in *. apply wp_bind, wp_modify.
  destruct (law_ch_guard_drop now (tr_response_guard tr) c1 Hi1) as ([Hi2 Hs2 _] & _).
  destruct (watch_guard_drop (tr_response_guard tr) c1 Hi1) as [W2 C2]. rewrite Hg in W2, C2, Hs2, Hi2 |- *. simpl in *.
  apply Hk; unfold mr_inv, mr_abs in *; simpl; [done|by etrans|]. split; [|by intros Hc; apply C2, C1, C0].
  intros y Hy. apply W2; [done|]. destruct (decide (w_id y = id (tr_request tr))) as [E|]; [|by apply W1, W0].
  pose proof (bsteps_mono _ _ _ Hs1) as [Hm _]. destruct Hy as [Hy _]. specialize (Hm (w_id y)). rewrite <- E in Hask.
  apply watched_excused; [lia|]. left. lia.
Qed.

Lemma throttle_loop_watch bound now n s :
  mr_inv s → wp (throttle_loop bound now n) (λ r s', upholds (mr_abs s) (mr_abs s') ∧
    ∀ tr, r = Ready (Some (Ok tr)) → taken now tr (mr_abs s) (mr_abs s')) s.
Proof.
  revert s. induction n as [|n IH]; intros s Hi; [done|]. cbn [throttle_loop]. apply wp_bind, wp_get. case_bool_decide.
  - apply wp_bind. eapply wp_mono; [by apply (wp_inner_ready now)|]. intros p s1 [[[Hi1 _ _] _] Ha1].
    assert (U1 : upholds (mr_abs s) (mr_abs s1)) by (rewrite Ha1; apply upholds_refl).
    destruct p as [[[]|e]|]; [|by apply wp_ret..].
    apply wp_bind. eapply wp_mono; [by apply (inner_next_watch bound now)|]. intros r s2 (Hi2 & Hs2 & Hu2 & Ht2).
    rewrite Ha1 in Hs2, Hu2, Ht2. destruct r as [[[tr|e]|]|]; try by apply wp_ret.
    destruct (Ht2 tr eq_refl) as [Ht Hg].
    eapply (throttle_watch _ _ now s); [done..|]. intros x s3 Hi3 Hs3 Hu3. destruct x as [[]|e]; [|by apply wp_ret].
    eapply wp_mono; [by apply IH|]. intros r s4 [Hu4 Ht4]. split; [by eapply upholds_trans|]. intros tr' Hr.
    eapply taken_before; [by etrans|done|auto].
  - eapply wp_mono; [by apply (inner_next_watch bound now)|]. intros r s1 (_ & _ & Hu & Ht). split; [done|].
    intros tr Hr. by apply Ht.
Qed.

#[export] Instance max_requests_watch : ChannelWatch (max_requests C).
Proof.
  split.
  - intros h s. exact (watch_aborted h (inner s)).
  - intros bound now s Hi. by apply throttle_loop_watch.
  - intros r s Hi. apply wp_on_inner. exact (watch_start_send r (inner s) Hi).
  - intros g s Hi. exact (watch_guard_drop g (inner s) Hi).
Qed.

Context `{!DelayQueue, !DelayQueueLaws, !DelayQueuePrompt}.

(** The channel can always be written to. *)
Definition always_ready (C : Channel Span Req Resp Error) : Prop :=
  ∀ c c' : channel C, ch_poll_ready c ≠ Done (Pending, c').

Lemma throttle_loop_rests `{!ChannelSettles C} bound now n s :
  always_ready C → mr_inv s → wp (throttle_loop bound now n) (λ r s', yields_nothing r → ch_rests now (inner s')) s.
Proof.
  intros Hr. revert s. induction n as [|n IH]; intros s Hi; [done|]. cbn [throttle_loop]. apply wp_bind, wp_get. case_bool_decide.
  - apply wp_bind. pose proof (wp_inner_ready now s Hi) as Hw. unfold wp in *.
    destruct (on_inner ch_poll_ready s) as [[p s1]| |] eqn:Hp; [|done..]. destruct Hw as [[[Hi1 _ _] _] _].
    destruct p as [[[]|e]|]; [|by intros [?|?]|].
    2:{ unfold on_inner in Hp. destruct (ch_poll_ready (inner s)) as [[p c]| |] eqn:Hc; [|done..]. simplify_eq. by apply Hr in Hc. }
    apply wp_bind, wp_on_inner. eapply wp_mono; [apply wp_and; [by apply law_ch_poll_next|by apply settles_poll_next]|].
    intros r c2 [([Hi2 _ _] & _ & Hh) Hset]. destruct r as [[[tr|e]|]|].
    + eapply (wp_throttle _ _ now); [done|exact Hh|]. intros [[]|e] s3 [[Hi3 _ _] _] _; [by apply IH|].
      apply wp_ret. by intros [?|?].
    + apply wp_ret. by intros [?|?].
    + by apply wp_ret.
    + by apply wp_ret.
  - apply wp_on_inner. eapply wp_mono; [by apply (settles_poll_next bound now)|]. by intros r c'.
Qed.

Lemma wlp_on_inner {A} (m : M (channel C) A) (P : channel C → Prop) s :
  wlp m (λ _ c, P c) (inner s) → wlp (on_inner m) (λ _ s', P (inner s')) s.
Proof. intros Hm a s'. unfold on_inner. destruct (m _) as [[a' c]| |] eqn:E; [|done..]. intros [= <- <-]. exact (Hm _ _ E). Qed.

(** [MaxRequests] settles if the channel can always be written to (see
    [throttled_channel_stalls] for one that cannot). *)
Definition max_requests_settles `{!ChannelSettles C} (Hr : always_ready C) : ChannelSettles (max_requests C) :=
  Build_ChannelSettles _ _ _ _ _ _ _ _ (max_requests C) _ (λ now s, ch_rests now (inner s))
    (λ bound now s Hi, throttle_loop_rests bound now bound s Hr Hi)
    (λ now s, settles_due now (inner s))
    (λ now s Hs, wlp_on_inner _ _ _ (settles_poll_ready now (inner s) Hs))
    (λ now s Hs, wlp_on_inner _ _ _ (settles_poll_flush now (inner s) Hs)).
End throttled.
End ServerWatch.
