(* ===== verification/ServerDeadlines.v ===== *)
(** * Deadlines and cancellations of the requests being served

    A server whose client uses each id once keeps watch over every handler it started
    ([ServerWatch]): a handler whose request was canceled is aborted, and, when a server
    over a [BaseChannel] waits for the client, so is one whose request is overdue, and
    nothing is left to do without the client. *)
From S2P Require Import Prelude Interfaces RefModels Trace Wire TimerTable Transport Cancellations ServerInFlight ServerChannel ServerSpec ServerRefine ServerRequests ServerSystem Limits ServerFrame ServerTermination ServerProps ServerWatch.

Module ServerDeadlines.
Export ServerWatch.

Section requests.
Context `{!Abort, !AbortLaws, !Mpsc, !MpscLaws} {Span Req Resp Error : Type}.
Context {C : Channel Span Req Resp Error} `{!ChannelLaws C, !ChannelWatch C}.
Implicit Types (q : Requests C) (x : Watch).

Definition rq_abs q : BState Req Resp := ch_abs (rq_channel q).

(** ** One poll of [Requests]

    A request stays watched as long as no response to it is queued. *)
Definition rwatched x q : Prop :=
  watched x (rq_abs q) ∧ ∀ r, r ∈ queued q → request_id r = w_id x → excused x (rq_abs q).

Definition rcounted q : Prop :=
  counted (rq_abs q) ∧ ∀ r, r ∈ queued q → 1 ≤ asked (request_id r) (rq_abs q).

Definition rupholds q q' : Prop := (∀ x, rwatched x q → rwatched x q') ∧ (rcounted q → rcounted q').

Lemma rupholds_trans q1 q2 q3 : rupholds q1 q2 → rupholds q2 q3 → rupholds q1 q3.
Proof. intros [W1 C1] [W2 C2]. split; auto. Qed.

Lemma rupholds_intro now q q' :
  bsteps now (rq_abs q) (rq_abs q') → upholds (rq_abs q) (rq_abs q') → queued q' ⊆ queued q → rupholds q q'.
Proof.
  intros Hs [W HC] Hq. split.
  - intros x [Hw Hn]. split; [auto|]. intros r Hr E. eapply excused_steps; [done|]. by eapply Hn; [apply Hq|].
  - intros [Hc Hn]. split; [auto|]. intros r Hr. pose proof (proj1 (bsteps_mono _ _ _ Hs) (request_id r)).
    specialize (Hn r (Hq _ Hr)). lia.
Qed.

Lemma rupholds_same q q' : rq_abs q' = rq_abs q → queued q' ⊆ queued q → rupholds q q'.
Proof. intros Ha Hq. apply (rupholds_intro 0); [rewrite Ha; apply rtc_refl|rewrite Ha; apply upholds_refl|done]. Qed.

(** A request handed out by a poll at [now]. *)
Definition rtaken (now : Z) (ifr : InFlightRequest Span Req) q q' : Prop :=
  asked (id (if_request ifr)) (rq_abs q) < asked (id (if_request ifr)) (rq_abs q') ∧
  if_response_guard ifr = MkResponseGuard (id (if_request ifr)) true ∧
  (rcounted q →
   rwatched (MkWatch (id (if_request ifr)) (if_abort_registration ifr)
               (Z.max now (deadline (context (if_request ifr))))) q').

Lemma rtaken_after now ifr q q1 q' :
  rtaken now ifr q q1 → bsteps now (rq_abs q1) (rq_abs q') → rupholds q1 q' → rtaken now ifr q q'.
Proof.
  intros (Ha & Hg & Hw) Hs [W _]. split_and!; [|done|auto].
  pose proof (proj1 (bsteps_mono _ _ _ Hs) (id (if_request ifr))). lia.
Qed.

Lemma rtaken_before now ifr q q1 q' :
  bsteps now (rq_abs q) (rq_abs q1) → rupholds q q1 → rtaken now ifr q1 q' → rtaken now ifr q q'.
Proof.
  intros Hs [_ HC] (Ha & Hg & Hw). split_and!; [|done|auto].
  pose proof (proj1 (bsteps_mono _ _ _ Hs) (id (if_request ifr))). lia.
Qed.

Lemma read_upholds bound now q :
  ch_inv (rq_channel q) →
  wp (pump_read bound now) (λ r q', rupholds q q' ∧ ∀ ifr, r = Ready (Some (Ok ifr)) → rtaken now ifr q q') q.
Proof.
  intros Hinv. apply wp_bind, wp_on_channel.
  eapply wp_mono; [apply wp_and; [by apply law_ch_poll_next|by apply (watch_poll_next bound now)]|].
  intros r c' [([Hi Hs _] & _ & Hr) [Hu Ht]].
  assert (Hok : ∀ p, mv_queue (mpsc_view p) = mv_queue (mpsc_view (rq_pending_responses q)) → rupholds q (MkRequests c' p)).
  { intros p Hp. apply (rupholds_intro now); [done|done|]. unfold queued. simpl. by rewrite Hp. }
  destruct r as [[[tr|e]|]|]; try (apply wp_ret; by split; [apply Hok|]).
  specialize (Ht tr eq_refl). destruct tr as [req ab sp g]. apply wp_bind, wp_on_responses. intros [] p [= <-]. apply wp_ret.
  assert (Hp : mv_queue (mpsc_view (mpsc_clone_sender (rq_pending_responses q))) = queued q) by by rewrite law_clone_sender.
  split; [by apply Hok|]. intros ? [= <-]. destruct Ht as [Hask Hw], Hr as (_ & Hg & _). simpl in *.
  split_and!; [done|by rewrite Hg|]. intros [Hc Hn]. split; [by apply Hw|]. simpl. unfold queued at 1. simpl. rewrite Hp.
  intros r Hr E. left. simpl. specialize (Hn r Hr). rewrite E in Hn. unfold rq_abs in *. simpl in *. lia.
Qed.

(** Handing the oldest response to the channel. *)
Lemma send_next_upholds q1 q2 r :
  ch_inv (rq_channel q1) → rq_channel q2 = rq_channel q1 → queued q1 = r :: queued q2 →
  wp (on_channel (ch_start_send r)) (λ _ q', rupholds q1 q') q2.
Proof.
  intros Hi Hc Hq. apply wp_on_channel. rewrite Hc.
  eapply wp_mono; [apply wp_and; [by apply (law_ch_start_send 0)|by apply watch_start_send]|].
  intros res c' [([Hi' Hs _] & _) [W HC]].
  assert (Hsub : ∀ y, y ∈ queued (MkRequests c' (rq_pending_responses q2)) → y ∈ queued q1) by (rewrite Hq; by right).
  split.
  - intros x [Hx Hn]. split; [|intros y Hy E; eapply excused_steps; [exact Hs|]; by eapply Hn; [apply Hsub|]].
    destruct (decide (w_id x = request_id r)) as [E|]; [|by apply W].
    apply watched_excused; [|eapply excused_steps; [exact Hs|]; eapply (Hn r); [rewrite Hq; by left|done]].
    pose proof (proj1 (bsteps_mono _ _ _ Hs) (w_id x)). destruct Hx as [Hx _]. unfold rq_abs in *. simpl. lia.
  - intros [Hcn Hn]. split; [by apply HC|]. intros y Hy. specialize (Hn y (Hsub y Hy)).
    pose proof (proj1 (bsteps_mono _ _ _ Hs) (request_id y)). unfold rq_abs in *. simpl. lia.
Qed.

Lemma flush_then_upholds (k : M (Requests C) (Poll (option (Result unit Error)))) q q1 :
  ch_inv (rq_channel q1) → rupholds q q1 → (∀ q2, ∃ res, k q2 = Done (res, q2)) →
  wp (ready? _ ← on_channel ch_poll_flush; k) (λ _ q', rupholds q q') q1.
Proof.
  intros Hi Hu Hk. apply wp_bind. eapply wp_mono; [apply (wp_silent _ 0); [apply law_ch_poll_flush|done]|].
  intros p q2 [[_ _ _ Hq2] Ha2]. assert (rupholds q q2) by (eapply rupholds_trans; [exact Hu|by apply rupholds_same]).
  destruct p as [[u|e]|]; [|by apply wp_ret..]. unfold wp. by destruct (Hk q2) as (res & ->).
Qed.

Lemma write_upholds bound closed q :
  ch_inv (rq_channel q) → wp (pump_write bound closed) (λ _ q', rupholds q q') q.
Proof.
  intros Hinv. apply wp_bind. eapply wp_mono; [by apply (wp_poll_next_response bound 0)|].
  intros res q2 (q1 & [Hi1 _ _ Hq1] & Ha1 & Hc & Hq).
  assert (U1 : rupholds q q1) by by apply rupholds_same.
  assert (Hsame : queued q2 = queued q1 → rupholds q q2).
  { intros E. eapply rupholds_trans; [exact U1|]. apply rupholds_same; [unfold rq_abs; by rewrite Hc|by rewrite E]. }
  destruct res as [[[r|e]|]|].
  - apply wp_bind. eapply wp_mono; [by eapply send_next_upholds|]. intros [[]|e] q3 U3; apply wp_ret; by eapply rupholds_trans.
  - apply wp_ret. by apply Hsame.
  - apply flush_then_upholds; [by rewrite Hc|by apply Hsame|eauto].
  - apply flush_then_upholds; [by rewrite Hc|by apply Hsame|]. intros q3. cbv [mbind M_bind get]. destruct (_ && _); eauto.
Qed.

Lemma write_steps bound closed now q :
  ch_inv (rq_channel q) → wp (pump_write bound closed) (λ res q', ch_inv (rq_channel q') ∧ bsteps now (rq_abs q) (rq_abs q') ∧
    rupholds q q' ∧ (yields_nothing res → rq_abs q' = rq_abs q)) q.
Proof.
  intros Hi. eapply wp_mono; [apply wp_and; [by apply (wp_requests_write bound now closed)|by apply (write_upholds bound closed)]|].
  intros res q' [[[] Ha] Hu]. split_and!; [done..|]. by intros [-> | ->].
Qed.

(** A request that was read and cannot be handed out. *)
Lemma drop_upholds ifr q q1 now :
  ch_inv (rq_channel q1) → rupholds q q1 → rtaken now ifr q q1 → bsteps now (rq_abs q) (rq_abs q1) →
  wp (drop_in_flight ifr) (λ _ q', rupholds q q') q1.
Proof.
  intros Hi [W HC] (Hask & Hg & _) Hs. apply wp_bind, wp_modify, wp_on_responses. intros [] p [= <-]. rewrite Hg.
  destruct (law_ch_guard_drop now (MkResponseGuard (id (if_request ifr)) true) _ Hi) as ([_ Hs2 _] & _).
  destruct (watch_guard_drop (MkResponseGuard (id (if_request ifr)) true) _ Hi) as [W2 C2]. simpl in *.
  pose proof (bsteps_mono _ _ _ Hs2) as [Hm2 _].
  match goal with |- rupholds q ?q' => set (q2 := q') end.
  assert (Hq2 : queued q2 = queued q1) by (unfold queued; simpl; by rewrite law_drop_sender).
  split.
  - intros x Hx. destruct (W x Hx) as [Hx1 Hn1]. split; [|rewrite Hq2; intros r Hr E; eapply excused_steps; [exact Hs2|by eapply Hn1]].
    destruct (decide (w_id x = id (if_request ifr))) as [E|]; [|by apply W2].
    destruct Hx as [[Hx _] _]. rewrite <- E in Hask. specialize (Hm2 (w_id x)). unfold rq_abs in *. simpl in *.
    apply watched_excused; [|left]; simpl; lia.
  - intros [HC1 Hn1]%HC. split; [apply C2; [intros _; unfold rq_abs in *; simpl in *; lia|done]|]. rewrite Hq2. intros r Hr.
    specialize (Hn1 r Hr). specialize (Hm2 (request_id r)). unfold rq_abs in *. simpl in *. lia.
Qed.

Lemma poll_requests_upholds bound now n q :
  ch_inv (rq_channel q) →
  wp (poll_next_requests_loop bound now n) (λ res q',
    rupholds q q' ∧ ∀ ifr, res = Ready (Some (Ok ifr)) → rtaken now ifr q q') q.
Proof.
  revert q. induction n as [|n IH]; intros q Hinv; [done|]. cbn [poll_next_requests_loop]. apply wp_bind.
  eapply wp_mono; [apply wp_and; [by apply (wp_requests_read bound now)|by apply (read_upholds bound now)]|].
  intros read q1 [[[Hi1 Hs1 _ _] _] [U1 T1]].
  assert (Hloop : ∀ q2, ch_inv (rq_channel q2) → bsteps now (rq_abs q) (rq_abs q2) → rupholds q q2 →
    wp (poll_next_requests_loop bound now n) (λ res q', rupholds q q' ∧ ∀ ifr, res = Ready (Some (Ok ifr)) → rtaken now ifr q q') q2).
  { intros q2 Hi2 Hs2 U2. eapply wp_mono; [by apply IH|]. intros res q3 [U3 T3]. split; [by eapply rupholds_trans|].
    intros ifr Hr. eapply rtaken_before; [done|done|auto]. }
  destruct read as [[[ifr|e]|]|]; [|by apply wp_ret| |]; apply wp_bind; (eapply wp_mono; [by apply (write_steps bound _ now)|]);
    intros wr q2 (Hi2 & Hs2 & U2 & _); pose proof (rupholds_trans _ _ _ U1 U2) as U; assert (Hs : bsteps now (rq_abs q) (rq_abs q2)) by (by etrans).
  - pose proof (rtaken_after _ _ _ _ _ (T1 ifr eq_refl) Hs2 U2) as Ht.
    assert (Hok : rupholds q q2 ∧ ∀ ifr', Ready (Some (Ok ifr)) = Ready (Some (Ok (E:=Error) ifr')) → rtaken now ifr' q q2).
    { split; [done|]. by intros ? [= <-]. }
    destruct wr as [[[[]|e]|]|]; try by apply wp_ret.
    apply wp_bind. eapply wp_mono; [by eapply drop_upholds|]. intros [] q3 U3. by apply wp_ret.
  - destruct wr as [[[[]|e]|]|]; [by apply Hloop|by apply wp_ret..].
  - destruct wr as [[[[]|e]|]|]; [by apply Hloop|by apply wp_ret..].
Qed.

(** *** What waiting means *)

Context `{!DelayQueue, !DelayQueueLaws, !DelayQueuePrompt} `{!ChannelSettles C}.

Definition rq_rests (now : Z) q : Prop := ch_rests now (rq_channel q).

Lemma read_settles bound now q :
  ch_inv (rq_channel q) → wp (pump_read bound now) (λ r q', yields_nothing r → rq_rests now q') q.
Proof.
  intros Hinv. apply wp_bind, wp_on_channel. eapply wp_mono; [by apply (settles_poll_next bound now)|].
  intros r c' Hs. destruct r as [[[[req ab sp g]|e]|]|]; [|apply wp_ret; by intros [?|?]|apply wp_ret; intros _; apply Hs; by right|
    apply wp_ret; intros _; apply Hs; by left].
  apply wp_bind, wp_on_responses. intros [] p _. apply wp_ret. by intros [?|?].
Qed.

(** Writing nothing leaves the channel at rest. *)
Lemma wlp_rests {A} (m : M (channel C) A) now q :
  (∀ c, ch_rests now c → wlp m (λ _ c', ch_rests now c') c) → rq_rests now q →
  wlp (on_channel m) (λ _ q', rq_rests now q') q.
Proof.
  intros Hm Hq a q'. unfold on_channel. destruct (m _) as [[a' c]| |] eqn:E; [|done..]. intros [= <- <-]. by eapply Hm.
Qed.

Lemma writeable_rests now n q :
  rq_rests now q → wlp (ensure_writeable_loop n) (λ _ q', rq_rests now q') q.
Proof.
  revert q. induction n as [|n IH]; intros q Hq; [done|]. cbn [ensure_writeable_loop].
  apply wlp_bind. eapply wlp_mono; [by apply wlp_rests; [apply settles_poll_ready|]|]. intros [[[]|e]|] q1 Hq1; [by apply wlp_ret..|].
  apply wlp_bind. eapply wlp_mono; [by apply wlp_rests; [apply settles_poll_flush|]|].
  intros [[u|e]|] q2 Hq2; [by apply IH|by apply wlp_ret..].
Qed.

Lemma response_rests bound now q :
  rq_rests now q → wlp (poll_next_response bound) (λ _ q', rq_rests now q') q.
Proof.
  intros Hq. apply wlp_bind. eapply wlp_mono; [by apply writeable_rests|].
  intros [[[[]|e]|]|] q1 Hq1; [|by apply wlp_ret| |by apply wlp_ret]; apply wlp_bind, wlp_wp, wp_on_responses;
    intros [[y|]|] p _; by apply wlp_ret.
Qed.

Lemma flush_rests (k : M (Requests C) (Poll (option (Result unit Error)))) now q :
  rq_rests now q → (∀ q2, ∃ res, k q2 = Done (res, q2)) →
  wlp (ready? _ ← on_channel ch_poll_flush; k) (λ _ q', rq_rests now q') q.
Proof.
  intros Hq Hk. apply wlp_bind. eapply wlp_mono; [by apply wlp_rests; [apply settles_poll_flush|]|].
  intros [[u|e]|] q2 Hq2; [|by apply wlp_ret..]. intros r q'. destruct (Hk q2) as (res & ->). by intros [= <- <-].
Qed.

Lemma write_rests bound closed now q :
  rq_rests now q → wlp (pump_write bound closed) (λ r q', yields_nothing r → rq_rests now q') q.
Proof.
  intros Hq. apply wlp_bind. eapply wlp_mono; [by apply response_rests|]. intros [[[y|e]|]|] q1 Hq1.
  - apply wlp_bind. eapply wlp_mono; [apply wlp_true|]. intros [[]|e] q2 _; apply wlp_ret; by intros [?|?].
  - by apply wlp_ret.
  - eapply wlp_mono; [by apply flush_rests; [|eauto]|]. done.
  - eapply wlp_mono; [apply flush_rests; [done|]|done]. intros q2. cbv [mbind M_bind get]. destruct (_ && _); eauto.
Qed.

Lemma wlp_channel {A} (m : M (channel C) A) (P : A → Prop) q :
  (∀ c a c', m c = Done (a, c') → P a) →
  wlp (on_channel m) (λ a q', P a ∧ rq_pending_responses q' = rq_pending_responses q) q.
Proof.
  intros Hm a q'. unfold on_channel. destruct (m _) as [[a' c]| |] eqn:E; [|done..]. intros [= <- <-]. split; [by eapply Hm|done].
Qed.

Lemma response_drained bound q :
  always_ready C → wlp (poll_next_response bound) (λ r q', yields_nothing r → exhausted (rq_pending_responses q')) q.
Proof.
  intros Ha. unfold poll_next_response, ensure_writeable. apply wlp_bind. destruct bound as [|n]; [done|]. cbn [ensure_writeable_loop].
  apply wlp_bind. eapply wlp_mono; [apply (wlp_channel _ (λ p, p ≠ Pending))|].
  { intros c a c' Hr ->. by apply Ha in Hr. }
  intros p q1 [Hp _]. destruct p as [[[]|e]|]; [|apply wlp_ret, wlp_ret; by intros [?|?]|done].
  apply wlp_ret, wlp_bind, wlp_wp, wp_on_responses. intros o p2 Hr. simpl.
  destruct o as [[y|]|]; apply wlp_ret; [by intros [?|?]|intros _; by eapply recv_nothing; [|right]|intros _; by eapply recv_nothing; [|left]].
Qed.

Lemma write_drained bound closed q :
  always_ready C → wlp (pump_write bound closed) (λ r q', yields_nothing r → exhausted (rq_pending_responses q')) q.
Proof.
  intros Ha. apply wlp_bind. eapply wlp_mono; [by apply response_drained|]. intros r q1 Hq.
  assert (Hflush : ∀ k : M (Requests C) (Poll (option (Result unit Error))), exhausted (rq_pending_responses q1) →
    (∀ q2, exhausted (rq_pending_responses q2) → wlp k (λ r q', yields_nothing r → exhausted (rq_pending_responses q')) q2) →
    wlp (ready? _ ← on_channel ch_poll_flush; k) (λ r q', yields_nothing r → exhausted (rq_pending_responses q')) q1).
  { intros k Hq1 Hk. apply wlp_bind. eapply wlp_mono; [apply (wlp_channel _ (λ _, True)); done|].
    intros p q2 [_ Hp2]. rewrite <- Hp2 in Hq1. destruct p as [[u|e]|]; [by apply Hk|by apply wlp_ret..]. }
  destruct r as [[[y|e]|]|].
  - apply wlp_bind. eapply wlp_mono; [apply wlp_true|]. intros [[]|e] q2 _; apply wlp_ret; by intros [?|?].
  - apply wlp_ret. by intros [?|?].
  - apply Hflush; [apply Hq; by right|]. intros q2 Hq2. by apply wlp_ret.
  - apply Hflush; [apply Hq; by left|]. intros q2 Hq2. apply wlp_bind, wlp_get. destruct (_ && _); by apply wlp_ret.
Qed.

(** Nothing is left to do without the client. *)
Definition waiting (now : Z) q : Prop := rq_rests now q ∧ (always_ready C → exhausted (rq_pending_responses q)).

Lemma poll_requests_settles bound now n q :
  ch_inv (rq_channel q) → wp (poll_next_requests_loop bound now n) (λ res q', yields_nothing res → waiting now q') q.
Proof.
  revert q. induction n as [|n IH]; intros q Hinv; [done|]. cbn [poll_next_requests_loop]. apply wp_bind.
  eapply wp_mono; [apply wp_and; [by apply (wp_requests_read bound now)|by apply (read_settles bound now)]|].
  intros read q1 [[[Hi1 _ _ _] _] Hr].
  assert (Hw : ∀ closed, wp (pump_write bound closed) (λ res q2, ch_inv (rq_channel q2) ∧
    (rq_rests now q1 → yields_nothing res → waiting now q2)) q1).
  { intros closed. apply wp_wlp.
    - eapply wp_mono; [by apply (write_steps bound closed now)|]. by intros res q2 (? & _).
    - intros res q2 Hd Hrest Hy. split; [by eapply write_rests|]. intros Ha. by eapply write_drained. }
  destruct read as [[[ifr|e]|]|]; [|apply wp_ret; by intros [?|?]| |]; apply wp_bind; (eapply wp_mono; [apply Hw|]);
    intros wr q2 [Hi2 Hd2].
  - destruct wr as [[[[]|e]|]|]; try (apply wp_ret; by intros [?|?]).
  - assert (rq_rests now q1) by (apply Hr; by right).
    destruct wr as [[[[]|e]|]|]; [by apply IH|apply wp_ret; by intros [?|?]|apply wp_ret..]; intros _; apply Hd2;
      first [done|by left|by right].
  - assert (rq_rests now q1) by (apply Hr; by left).
    destruct wr as [[[[]|e]|]|]; [by apply IH|apply wp_ret; by intros [?|?]|apply wp_ret..]; intros _; apply Hd2;
      first [done|by left|by right].
Qed.
End requests.

(** ** The server and its handlers *)

Section handlers.
Context `{!Abort, !AbortLaws, !Mpsc, !MpscLaws} {Span Req Resp Error : Type}.
Context {C : Channel Span Req Resp Error} `{!ChannelLaws C, !ChannelWatch C}.
Implicit Types (q : Requests C) (x : Watch) (h : Handler Span Req Resp).

(** The handler's future has not ended. *)
Definition running h : Prop :=
  match h_stage h with Serving | SendingResponse _ => True | Completed | HandlerDropped => False end.

Definition handler_id h : Z := id (if_request (h_request h)).
Definition armed h : Prop := if_response_guard (h_request h) = MkResponseGuard (handler_id h) true.

(** What a step of a handler may do: it only ever ends its own request. *)
Record tended h q h' q' : Prop := {
  te_request : h_request h' = h_request h;
  te_running : running h' → running h;
  te_watched : ∀ x, rwatched x q → running h' ∨ w_id x ≠ handler_id h → rwatched x q';
  te_counted : 1 ≤ asked (handler_id h) (rq_abs q) → rcounted q → rcounted q';
}.

Lemma tended_refl h q : tended h q h q.
Proof. split; auto. Qed.

Lemma tended_end g h q stage o p :
  ch_inv (rq_channel q) → running h → stage = Completed ∨ stage = HandlerDropped → g_request_id g = handler_id h →
  (∀ r, r ∈ mv_queue (mpsc_view p) → r ∈ queued q ∨ request_id r = handler_id h) →
  tended h q (MkHandler (h_request h) stage o) (guard_drop_in g (MkRequests (rq_channel q) p)).
Proof.
  intros Hi Hr Hst Hg Hp. set (q' := guard_drop_in g _).
  assert (Hq : ∀ r, r ∈ queued q' → r ∈ queued q ∨ request_id r = handler_id h).
  { intros r. unfold queued at 1. simpl. rewrite law_drop_sender. apply Hp. }
  destruct (law_ch_guard_drop 0 g _ Hi) as ([_ Hs _] & _). destruct (watch_guard_drop g _ Hi) as [W HC].
  pose proof (bsteps_mono _ _ _ Hs) as [Hm _]. rewrite Hg in W, HC.
  split; [done|by destruct Hst as [-> | ->]|..].
  - intros x [Hx Hn] [Hrun|Hne]; [by destruct Hst as [-> | ->]|]. split; [by apply W|].
    intros r [Hr'|E]%Hq E'; [|congruence]. eapply excused_steps; [exact Hs|]. by eapply Hn.
  - intros Hask [Hc Hn]. split; [by apply HC|]. intros r [Hr'|E]%Hq.
    + specialize (Hn r Hr'). specialize (Hm (request_id r)). unfold rq_abs in *. simpl. lia.
    + rewrite E. specialize (Hm (handler_id h)). unfold rq_abs in *. simpl. lia.
Qed.

Lemma tended_finish h q p :
  ch_inv (rq_channel q) → running h → armed h →
  (∀ r, r ∈ mv_queue (mpsc_view p) → r ∈ queued q ∨ request_id r = handler_id h) →
  tended h q (finish h (MkRequests (rq_channel q) p)).1 (finish h (MkRequests (rq_channel q) p)).2.
Proof. intros Hi Hr Hg Hp. apply tended_end; [done..|by left|by rewrite Hg|done]. Qed.

Lemma tended_send h o q r :
  ch_inv (rq_channel q) → running h → armed h → request_id r = handler_id h →
  tended h q (send_response (MkHandler (h_request h) (h_stage h) o) r q).1 (send_response (MkHandler (h_request h) (h_stage h) o) r q).2.
Proof.
  intros Hi Hr Hg Hid. unfold send_response. destruct (mpsc_poll_send _ _) as [y p] eqn:Hp. apply law_poll_send in Hp.
  assert (Hfin : (∀ r0, r0 ∈ mv_queue (mpsc_view p) → r0 ∈ queued q ∨ request_id r0 = handler_id h) →
    tended h q (finish (MkHandler (h_request h) (h_stage h) o) (MkRequests (rq_channel q) p)).1
      (finish (MkHandler (h_request h) (h_stage h) o) (MkRequests (rq_channel q) p)).2).
  { intros Hq. simpl. apply (tended_end _ h); [done..|by left|by rewrite Hg|done]. }
  destruct y as [[[]|e]|]; simpl in Hp.
  - apply Hfin. rewrite Hp. simpl. intros r' [?|?%list_elem_of_singleton]%elem_of_app; subst; auto.
  - apply Hfin. destruct Hp as (_ & _ & ->). auto.
  - assert (U : rupholds q (MkRequests (rq_channel q) p)) by (apply rupholds_same; [done|unfold queued; simpl; by rewrite Hp]).
    destruct U as [W HC]. split; simpl; auto.
Qed.

Lemma poll_handler_tended outcome h q :
  ch_inv (rq_channel q) → stage_ok h → armed h → tended h q (poll_handler outcome h q).1 (poll_handler outcome h q).2.
Proof.
  intros Hi Hst Hg. destruct q as [c p]. unfold poll_handler. destruct h as [ifr [|r| |] o]; simpl in *; try apply tended_refl.
  - destruct (ch_is_aborted _ _); [by apply tended_finish; auto|].
    destruct outcome as [m|]; [|apply tended_refl]. by apply (tended_send (MkHandler ifr Serving o) (Some m)).
  - destruct (ch_is_aborted _ _); [by apply tended_finish; auto|].
    apply (tended_send (MkHandler ifr (SendingResponse r) o) o); [done..|]. by destruct Hst.
Qed.

Lemma drop_handler_tended h q :
  ch_inv (rq_channel q) → armed h → tended h q (drop_handler h q).1 (drop_handler h q).2.
Proof.
  intros Hi Hg. destruct q as [c p]. unfold drop_handler. destruct h as [ifr [|r| |] o]; simpl in *; try apply tended_refl;
    (apply (tended_end _ (MkHandler ifr _ o)); [done|done|by right|by rewrite Hg|auto]).
Qed.

(** *** The watch over all handlers *)

(** The client uses each id once. *)
Definition unique (a : BState Req Resp) : Prop := ∀ i, asked i a ≤ 1.

Lemma unique_before now a a' : bsteps now a a' → unique a' → unique a.
Proof. intros [Hm _]%bsteps_mono Hu i. specialize (Hm i). specialize (Hu i). lia. Qed.

Record watch_inv (s : ServerSystem.Server C) : Prop := {
  vi_counted : rcounted (sv_requests s);
  vi_armed : ∀ h, h ∈ sv_handlers s → armed h;
  vi_distinct : unique (rq_abs (sv_requests s)) → ∀ j k h h',
    sv_handlers s !! j = Some h → sv_handlers s !! k = Some h' → handler_id h = handler_id h' → j = k;
  vi_running : unique (rq_abs (sv_requests s)) → ∀ h, h ∈ sv_handlers s → running h →
    ∃ due, (due ≤ Z.max (sv_clock s) (deadline (context (if_request (h_request h)))))%Z ∧
      rwatched (MkWatch (handler_id h) (if_abort_registration (h_request h)) due) (sv_requests s);
}.

Lemma asked_for_asked h (a : BState Req Resp) : asked_for h a → 1 ≤ asked (handler_id h) a.
Proof.
  intros (r & Hr & Hi & _). unfold asked. apply list_elem_of_split in Hr as (l1 & l2 & ->).
  rewrite filter_app, filter_cons. rewrite decide_True; [rewrite length_app; simpl; lia|].
  simpl. by rewrite bool_decide_true.
Qed.

(** Where the only request with an id is. *)
Lemma asked_twice (r r' : Request Req) l l' i :
  id r = i → id r' = i →
  2 ≤ length (filter (λ m, asks i m = true) (ClientRequest r :: l ++ ClientRequest r' :: l')).
Proof.
  intros. assert (∀ r0 : Request Req, id r0 = i → asks i (ClientRequest r0) = true) as Has by (intros; simpl; by rewrite bool_decide_true).
  rewrite filter_cons_True, filter_app, filter_cons_True by auto. simpl. rewrite length_app. simpl. lia.
Qed.

Lemma asked_once_split (l1 l1' : list (ClientMessage Req)) r r' l2 l2' i :
  length (filter (λ m, asks i m = true) (l1 ++ ClientRequest r :: l2)) ≤ 1 →
  id r = i → id r' = i → l1 ++ ClientRequest r :: l2 = l1' ++ ClientRequest r' :: l2' → l1 = l1' ∧ l2 = l2'.
Proof.
  revert l1'. induction l1 as [|m l1 IH]; intros [|m' l1'] Hle Hr Hr' E; injection E as E1 E2.
  - done.
  - subst l2. simpl in Hle. pose proof (asked_twice r r' l1' l2' i Hr Hr'). lia.
  - subst m. simpl in Hle. pose proof (asked_twice r' r l1 l2 i Hr' Hr). lia.
  - subst m'. destruct (IH l1') as [-> ->]; [|done..]. simpl in Hle. rewrite filter_cons in Hle. destruct (decide _); simpl in Hle; lia.
Qed.

Lemma on_handler_watch f k (s : ServerSystem.Server C) :
  (∀ h q, stage_ok h → ch_inv (rq_channel q) → handler_ok h q (f h q).1 (f h q).2) →
  (∀ h q, ch_inv (rq_channel q) → stage_ok h → armed h → tended h q (f h q).1 (f h q).2) →
  server_inv s → watch_inv s → watch_inv (on_handler f k s).
Proof.
  intros Hok Hte [Hi _ _ _ Hh] [Vc Va Vd Vr]. unfold on_handler. destruct (sv_handlers s !! k) as [h|] eqn:Hk; [|done].
  pose proof (list_elem_of_lookup_2 _ _ _ Hk) as Hin. destruct (Hh _ Hin) as [Hst Hask%asked_for_asked].
  specialize (Hok h (sv_requests s) Hst Hi). specialize (Hte h (sv_requests s) Hi Hst (Va _ Hin)).
  destruct (f h (sv_requests s)) as [h' q']. destruct Hok as [_ _ _ _ Fst _ _], Hte as [Tr Tl Tw Tc]. simpl in *.
  assert (Hl : ∀ j hj, <[k:=h']> (sv_handlers s) !! j = Some hj →
    (j = k ∧ hj = h') ∨ (j ≠ k ∧ sv_handlers s !! j = Some hj)).
  { intros j hj Hj. destruct (decide (j = k)) as [->|]; [left|right; by rewrite list_lookup_insert_ne in Hj].
    rewrite list_lookup_insert_eq in Hj by (by eapply lookup_lt_Some). by simplify_eq. }
  assert (Hid : handler_id h' = handler_id h) by (unfold handler_id; by rewrite Tr).
  split; simpl.
  - by apply Tc.
  - intros h1 [j Hj]%list_elem_of_lookup. destruct (Hl _ _ Hj) as [[-> ->]|[_ Hj']].
    + unfold armed. rewrite Tr, Hid. by apply Va.
    + eapply Va, list_elem_of_lookup_2, Hj'.
  - intros Hu%(unique_before _ _ _ (Fst 0%Z)) i j h1 h2 H1' H2' E.
    destruct (Hl _ _ H1') as [[-> ->]|[Hn1 L1]], (Hl _ _ H2') as [[-> ->]|[Hn2 L2]]; [done|..].
    + rewrite Hid in E. eapply (Vd Hu); [exact Hk|exact L2|exact E].
    + rewrite Hid in E. eapply (Vd Hu); [exact L1|exact Hk|exact E].
    + eapply (Vd Hu); [exact L1|exact L2|exact E].
  - intros Hu%(unique_before _ _ _ (Fst 0%Z)) h1 [j Hj]%list_elem_of_lookup Hrun. destruct (Hl _ _ Hj) as [[-> ->]|[Hne Hj']].
    + destruct (Vr Hu h Hin (Tl Hrun)) as (due & Hd & Hw). exists due. rewrite Tr, Hid. split; [done|].
      apply Tw; [done|by left].
    + destruct (Vr Hu h1 (list_elem_of_lookup_2 _ _ _ Hj') Hrun) as (due & Hd & Hw). exists due. split; [done|].
      apply Tw; [done|right]. simpl. intros E. by apply Hne, (Vd Hu _ _ _ _ Hj' Hk).
Qed.

Lemma poll_watch bound now (s : ServerSystem.Server C) res q :
  (sv_clock s ≤ now)%Z → server_inv s → watch_inv s → poll_next_requests bound now (sv_requests s) = Done (res, q) →
  watch_inv (MkServer q (sv_handlers s ++ spawn res) now).
Proof.
  intros Hle [Hi _ _ _ Hh] [Vc Va Vd Vr] Hp.
  destruct (wp_done _ _ _ _ _ (wp_poll_next_requests bound now bound _ Hi) Hp) as [[_ Hs _ _] _].
  destruct (wp_done _ _ _ _ _ (poll_requests_upholds bound now bound _ Hi) Hp) as [[Uw Uc] Ht].
  assert (Hnew : ∀ h, h ∈ spawn (Resp:=Resp) res → rtaken now (h_request h) (sv_requests s) q).
  { intros h Hin. destruct res as [[[ifr|e]|]|]; simpl in Hin; try by apply elem_of_nil in Hin.
    apply list_elem_of_singleton in Hin as ->. by apply Ht. }
  assert (Hone : length (spawn (Resp:=Resp) res) ≤ 1) by (destruct res as [[[]|]|]; simpl; lia).
  assert (Hfresh : unique (rq_abs q) → ∀ h h', h ∈ sv_handlers s → h' ∈ spawn res → handler_id h ≠ handler_id h').
  { intros Hu h h' Hin Hin' E. destruct (Hnew h' Hin') as [Ha _]. destruct (Hh _ Hin) as [_ Hask%asked_for_asked].
    specialize (Hu (handler_id h')). unfold handler_id, rq_abs in *. rewrite E in Hask. lia. }
  split; simpl.
  - auto.
  - intros h [?|Hin]%elem_of_app; [auto|]. by apply Hnew.
  - intros Hu j k h h' Hj Hk E. specialize (Vd (unique_before _ _ _ Hs Hu)).
    apply lookup_app_Some in Hj as [Hj|[Hj1 Hj]], Hk as [|[Hk1 Hk]]; [by eapply Vd|..].
    + by apply (Hfresh Hu h h') in E; [|eapply list_elem_of_lookup_2..].
    + symmetry in E. by apply (Hfresh Hu h' h) in E; [|eapply list_elem_of_lookup_2..].
    + apply lookup_lt_Some in Hj, Hk. lia.
  - intros Hu h [Hin|Hin]%elem_of_app Hrun.
    + destruct (Vr (unique_before _ _ _ Hs Hu) h Hin Hrun) as (due & Hd & Hw). exists due. split; [lia|by apply Uw].
    + destruct (Hnew h Hin) as (_ & _ & Hw). eexists. split; [|by apply Hw]. lia.
Qed.

(** A handler whose request was canceled after it was read is aborted. *)
Lemma watch_canceled (s : ServerSystem.Server C) h l1 r tc l2 :
  watch_inv s → unique (rq_abs (sv_requests s)) → h ∈ sv_handlers s → running h →
  b_received (rq_abs (sv_requests s)) = l1 ++ ClientRequest r :: l2 → id r = handler_id h → ClientCancel tc (id r) ∈ l2 →
  ch_is_aborted (if_abort_registration (h_request h)) (rq_channel (sv_requests s)) = true.
Proof.
  intros [_ _ _ Vr] Hu Hin Hrun Hrec Hid Hcan. destruct (Vr Hu h Hin Hrun) as (due & _ & [[_ [[Htwo|Hab]|Ht]] _]); simpl in *.
  - specialize (Hu (handler_id h)). lia.
  - by rewrite watch_aborted.
  - destruct Ht as [_ _ _ (l1' & r' & l2' & Hrec' & Hid' & Hn)]. simpl in *. exfalso. rewrite Hrec in Hrec'.
    destruct (asked_once_split l1 l1' r r' l2 l2' (handler_id h)) as [_ ->]; [|done..|by eapply Hn; rewrite <- Hid].
    specialize (Hu (handler_id h)). unfold asked in Hu. by rewrite Hrec in Hu.
Qed.

Context (env : channel C → channel C → Prop).
Context (Henv : ∀ c c', env c c' → ch_inv c → ch_inv c' ∧ ch_abs c' = ch_abs c).

Lemma env_watch (s : ServerSystem.Server C) c :
  ch_abs c = rq_abs (sv_requests s) → watch_inv s →
  watch_inv (MkServer (MkRequests c (rq_pending_responses (sv_requests s))) (sv_handlers s) (sv_clock s)).
Proof.
  intros Ha [Vc Va Vd Vr]. set (q' := MkRequests c _). assert (Ha' : rq_abs q' = rq_abs (sv_requests s)) by done.
  assert (U : rupholds (sv_requests s) q') by by apply rupholds_same.
  destruct U as [Uw Uc]. split; cbn [sv_requests sv_handlers sv_clock]; rewrite ?Ha'; auto.
  intros Hu h Hin Hrun. destruct (Vr Hu h Hin Hrun) as (due & ? & ?). eauto.
Qed.

(** A channel to be served, with nothing on its cancellation queue yet. *)
Definition idle_channel (c : channel C) : Prop := fresh_channel c ∧ mv_queue (b_canceled (ch_abs c)) = [].

Lemma serves_watch bound c now (s : ServerSystem.Server C) :
  idle_channel c → serves env bound c now s → server_inv s ∧ watch_inv s.
Proof.
  intros [Hc Hq] (q & Hq0 & Hs). pose proof Hc as (Hbuf & Hi & Hb & Hw). unfold requests in Hq0.
  destruct (law_channel (Response Resp) _ Hbuf) as (p & Hp & Hv). rewrite Hp in Hq0. injection Hq0 as <-.
  assert (Hs0 : server_inv (MkServer (MkRequests c p) [] now)).
  { eapply (fresh_inv env Henv bound); [exact Hc|]. exists (MkRequests c p). unfold requests. rewrite Hp. split; [done|apply rtc_refl]. }
  eapply (rtc_preserves _ (λ s, server_inv s ∧ watch_inv s)); [|exact Hs|].
  - intros s1 s2 Hst [I1 W1]. split; [by eapply serve_step_inv|]. destruct Hst as [now' res q' Hle Hp'|k o|k|c' He].
    + by eapply poll_watch.
    + apply on_handler_watch; [apply poll_handler_ok|intros; by apply poll_handler_tended|done|done].
    + apply on_handler_watch; [apply drop_handler_ok|intros; by apply drop_handler_tended|done|done].
    + apply env_watch; [|done]. apply (Henv _ _ He), I1.
  - split; [done|]. split; simpl.
    + split; unfold rq_abs, queued, counted; simpl; [rewrite Hq|rewrite Hv]; by intros i ?%elem_of_nil.
    + by intros h ?%elem_of_nil.
    + by intros _ j k h h' Hj.
    + by intros _ h ?%elem_of_nil.
Qed.

(** C17: a canceled request is not served any longer: once the server has read a
    cancellation of a request it had read before, the handler of that request, if it
    still runs, is aborted (it ends at its next poll, without a response). *)
Theorem canceled_handler_aborted bound c now (s : ServerSystem.Server C) h l1 r tc l2 :
  idle_channel c → serves env bound c now s → unique (rq_abs (sv_requests s)) →
  h ∈ sv_handlers s → running h →
  b_received (rq_abs (sv_requests s)) = l1 ++ ClientRequest r :: l2 → id r = handler_id h → ClientCancel tc (id r) ∈ l2 →
  ch_is_aborted (if_abort_registration (h_request h)) (rq_channel (sv_requests s)) = true.
Proof.
  intros Hc Hs Hu Hin Hrun Hrec Hid Hcan. destruct (serves_watch _ _ _ _ Hc Hs). by eapply watch_canceled.
Qed.

Context `{!DelayQueue, !DelayQueueLaws, !DelayQueuePrompt} `{!ChannelSettles C}.

(** A handler that is overdue when the server waits is aborted. *)
Lemma watch_overdue bound (s : ServerSystem.Server C) now res q h :
  ch_inv (rq_channel (sv_requests s)) → watch_inv s →
  poll_next_requests bound now (sv_requests s) = Done (res, q) → res = Pending ∨ res = Ready None →
  unique (rq_abs q) → h ∈ sv_handlers s → running h →
  (Z.max (sv_clock s) (deadline (context (if_request (h_request h)))) + dq_resolution ≤ now)%Z →
  ch_is_aborted (if_abort_registration (h_request h)) (rq_channel q) = true.
Proof.
  intros Hi [_ _ _ Vr] Hp Hr Hu Hin Hrun Hover.
  destruct (wp_done _ _ _ _ _ (wp_poll_next_requests bound now bound _ Hi) Hp) as [[_ Hst _ _] _].
  destruct (wp_done _ _ _ _ _ (poll_requests_upholds bound now bound _ Hi) Hp) as [[Uw _] _].
  destruct (wp_done _ _ _ _ _ (poll_requests_settles bound now bound _ Hi) Hp Hr) as [Hrest _].
  pose proof (settles_due _ _ Hrest) as Hdue.
  destruct (Vr (unique_before _ _ _ Hst Hu) h Hin Hrun) as (due & Hd & [[_ [[Htwo|Hab]|Ht]] _]%Uw); simpl in *.
  - specialize (Hu (handler_id h)). lia.
  - by rewrite watch_aborted.
  - destruct Ht as [_ Hd' _ _]. apply Hdue in Hd'. simpl in *. lia.
Qed.
End handlers.

(** ** A served [BaseChannel]

    If timers fire within their resolution ([DelayQueuePrompt]).  A throttled channel
    does not promise as much, see [throttled_channel_stalls] below. *)
Section base.
Context `{!DelayQueue, !DelayQueueLaws, !DelayQueuePrompt, !Mpsc, !MpscLaws, !Abort, !AbortLaws, !Otel}.
Context {E Span Req Resp Rng : Type}.
Context {T : Transport (Response Resp) (ClientMessage Req) E} `{!TransportLog T}.
Context (gen_u64 : Rng → Z * Rng).
Context (new_span : Request Req → Span) (span_active : Span → OtelContext → option otel_span_context).
Implicit Types q : Requests (base_channel gen_u64 new_span span_active (Resp:=Resp) (T:=T)).

(** C18: when [Requests] over a [BaseChannel] is polled and yields nothing, nothing is left
    that it could do alone.  Provided timers fire within their resolution, no request in
    flight is overdue by more than that; the notices of handlers that gave up have been
    taken from their queue until [poll_recv] gave no more; and, if the transport can
    always be written to, so have the responses of the handlers. *)
Theorem requests_poll_settles bound now q res q' :
  binv (rq_channel q) → poll_next_requests bound now q = Done (res, q') → res = Pending ∨ res = Ready None →
  exhausted (bc_canceled_requests (rq_channel q')) ∧
  (∀ i due, SIF.abs (bc_in_flight_requests (rq_channel q')) !! i = Some due → (now < due + dq_resolution)%Z) ∧
  ((∀ (t : transport T) t', t_poll_ready t ≠ (Pending, t')) → exhausted (rq_pending_responses q')).
Proof.
  intros Hi Hp Hr.
  pose proof (poll_requests_settles (C:=base_channel gen_u64 new_span span_active) bound now bound q Hi) as Hw.
  destruct (wp_done _ _ _ _ _ Hw Hp Hr) as [[Hc Hd] Ha]. clear Hw.
  split_and!; [exact Hc|exact Hd|]. intros Hw. apply Ha. intros b b'. simpl. unfold poll_ready, on_transport.
  cbv [mbind M_bind mret M_ret]. destruct (t_poll_ready _) as [[x|] t] eqn:Ht; [done|]. by apply Hw in Ht.
Qed.

Context (env : BaseChannel Span Rng T → BaseChannel Span Rng T → Prop).
Context (Henv : ∀ b b', env b b' → binv b → binv b' ∧ abs b' = abs b).

(** C16: a server over a [BaseChannel] whose client uses each id once enforces deadlines,
    provided timers fire within their resolution: when a poll at [now] yields nothing,
    the handler of every request whose deadline passed by more than that, if it still
    runs, is aborted; a deadline that had passed when the request was read counts from
    the poll that read it. *)
Theorem overdue_handler_aborted bound b now0 (s : ServerSystem.Server (base_channel gen_u64 new_span span_active)) now res q h :
  idle_channel (C:=base_channel gen_u64 new_span span_active) b → serves (C:=base_channel gen_u64 new_span span_active) env bound b now0 s →
  poll_next_requests bound now (sv_requests s) = Done (res, q) → res = Pending ∨ res = Ready None →
  unique (abs (rq_channel q)) → h ∈ sv_handlers s → running h →
  (Z.max (sv_clock s) (deadline (context (if_request (h_request h)))) + dq_resolution ≤ now)%Z →
  SIF.is_aborted (bc_aborts (rq_channel q)) (if_abort_registration (h_request h)) = true.
Proof.
  intros Hc Hs Hp Hr Hu Hin Hrun Hover.
  pose proof (serves_watch (C:=base_channel gen_u64 new_span span_active) env) as Hsw.
  destruct (Hsw Henv _ _ _ _ Hc Hs) as [[Hi _ _ _ _] Hw].
  by eapply (watch_overdue (C:=base_channel gen_u64 new_span span_active) bound s).
Qed.
End base.

(** ** Throttling and deadlines

    [MaxRequests] at its limit first waits until the channel can be written to, and
    only then polls it: while the client does not read, a poll changes nothing, however
    late it is, so neither deadlines nor cancellations are noticed. *)
Section stalled.
Context `{!Mpsc} {Span Req Resp Error : Type} {C : Channel Span Req Resp Error}.

Lemma throttled_channel_stalls bound now max (c : channel C) p :
  max ≤ ch_in_flight_requests c → ch_poll_ready c = Done (Pending, c) → ch_poll_flush c = Done (Pending, c) →
  poll_next_requests (C:=max_requests C) (S bound) now (MkRequests (C:=max_requests C) (max_requests_new c max) p) =
  Done (Pending, MkRequests (C:=max_requests C) (max_requests_new c max) p).
Proof.
  intros Hmax Hr Hf. unfold poll_next_requests. cbn [poll_next_requests_loop].
  unfold pump_read, pump_write, poll_next_response, ensure_writeable, on_channel. cbv [mbind M_bind mret M_ret]. simpl.
  unfold on_inner, get. cbv [mbind M_bind mret M_ret]. simpl. rewrite bool_decide_true by done. 
  simpl. rewrite Hr. simpl. unfold on_channel. simpl. rewrite Hr. simpl. rewrite Hf. simpl. by rewrite Hf.
Qed.
End stalled.

(** ** A server with an overdue handler

    The server of [ServerProps] with the request in flight, polled a second later. *)
Definition srv_late : Z := 1000000000.

Lemma srv_idle : idle_channel srv_b0.
Proof. split; [exact srv_fresh|vm_compute; reflexivity]. Qed.

Lemma srv_served_reached : serves srv_env srv_bound srv_b0 0 srv_served.
Proof.
  exists srv_q0. split; [reflexivity|].
  eapply rtc_l; [apply (serve_env _ _ _ (client_sends (srv_request 5) srv_b0)); by eexists|].
  apply rtc_once, (poll_server_step (env_server (srv_request 5) srv_s0) 1); by vm_compute.
Qed.

Lemma srv_canceled_reached : serves srv_env srv_bound srv_b0 0 srv_canceled.
Proof.
  destruct srv_served_reached as (q & Hq & Hs). exists q. split; [exact Hq|]. eapply rtc_r; [eapply rtc_r; [exact Hs|]|].
  - apply (serve_env _ _ _ (client_sends (ClientCancel trace_context_default 5) (rq_channel (sv_requests srv_served)))). by eexists.
  - apply (poll_server_step (env_server (ClientCancel trace_context_default 5) srv_served) 2); by vm_compute.
Qed.

(** The poll is pending, and the client has used one id. *)
Definition srv_waits (e : Exec (Poll (option (Result (InFlightRequest unit Z) (ChannelError.t MemChannel.ChannelError))) * Requests srv_channel)) : bool :=
  match e with
  | Done (Pending, q) => match b_received (rq_abs q) with [ClientRequest r] => true | _ => false end
  | _ => false
  end.

Lemma srv_late_waits : srv_waits (poll_next_requests srv_bound srv_late (sv_requests srv_served)) = true.
Proof. vm_compute. reflexivity. Qed.

Lemma srv_waits_unique e :
  srv_waits e = true → ∃ q, e = Done (Pending, q) ∧ unique (rq_abs q).
Proof.
  destruct e as [[[r|] q]| |]; [done| |done|done]. unfold srv_waits. intros Hw. exists q. split; [done|]. intros i. unfold asked.
  destruct (b_received (rq_abs q)) as [|[r|] []]; [done| |done..]. cbn. destruct (decide _); simpl; lia.
Qed.

Lemma requests_poll_settles_witness :
  ∃ q', poll_next_requests srv_bound srv_late (sv_requests srv_served) = Done (Pending, q') ∧ queued q' = [] ∧
    ∀ i due, b_due (rq_abs q') !! i = Some due → (srv_late < due + 0)%Z.
Proof.
  destruct (srv_waits_unique _ srv_late_waits) as (q' & Hq & _). exists q'. split; [exact Hq|].
  destruct (requests_poll_settles (T:=srv_T) srv_rng srv_span srv_active srv_bound srv_late (sv_requests srv_served) Pending q'
    (si_inv _ (fresh_inv srv_env srv_env_ok _ _ _ _ srv_fresh srv_served_reached)) Hq (or_introl eq_refl)) as (_ & Hd & Hr).
  split; [apply ref_exhausted, Hr; by intros t t'|exact Hd].
Defined.

Lemma srv_served_handler : srv_handler ∈ sv_handlers srv_served.
Proof. assert (Hh : sv_handlers srv_served = [srv_handler]) by (vm_compute; reflexivity). rewrite Hh. by left. Qed.

Lemma overdue_handler_aborted_witness :
  ∃ q', poll_next_requests srv_bound srv_late (sv_requests srv_served) = Done (Pending, q') ∧
    SIF.is_aborted (bc_aborts (rq_channel q')) (if_abort_registration (h_request srv_handler)) = true.
Proof.
  destruct (srv_waits_unique _ srv_late_waits) as (q' & Hq & Hu). exists q'. split; [exact Hq|].
  refine (overdue_handler_aborted (T:=srv_T) srv_rng srv_span srv_active srv_env srv_env_ok srv_bound srv_b0 0 srv_served
    srv_late Pending q' srv_handler srv_idle srv_served_reached Hq (or_introl eq_refl) Hu _ I _).
  - exact srv_served_handler.
  - vm_compute. discriminate.
Defined.

Lemma canceled_handler_aborted_witness :
  ch_is_aborted (if_abort_registration (h_request srv_handler)) (rq_channel (sv_requests srv_canceled)) = true.
Proof.
  assert (Hr : b_received (rq_abs (sv_requests srv_canceled)) = [srv_request 5; ClientCancel trace_context_default 5])
    by (vm_compute; reflexivity).
  refine (canceled_handler_aborted srv_env srv_env_ok srv_bound srv_b0 0 srv_canceled srv_handler [] _ trace_context_default
    [ClientCancel trace_context_default 5] srv_idle srv_canceled_reached _ _ I Hr eq_refl _).
  - intros i. unfold asked. rewrite Hr. cbn. destruct (decide _); simpl; lia.
  - assert (Hh : sv_handlers srv_canceled = [srv_handler]) by (vm_compute; reflexivity). rewrite Hh. by left.
  - by left.
Defined.
End ServerDeadlines.
