(* ===== verification/ChannelsPerKey.v ===== *)
(** * Channels per key (tarpc/src/server/limits/channels_per_key.rs)

    [MaxChannelsPerKey] sheds new channels by key.  All channels of a key share one
    [Tracker], counted by its [Arc]; when the last of them is dropped the tracker sends
    its key to the listener, which forgets the key.  The trackers are a shared heap:
    strong counts are changed both by the listener and by whoever drops a channel, on any
    thread.  Dropping a channel is therefore two steps: the count goes down, and, if it
    reached zero, the tracker is dropped, later, which sends the key. *)
From S2P Require Import Prelude Interfaces RefModels Transport.

Module ChannelsPerKey.

Section model.
Context `{!Mpsc} {S Chan K : Type} `{!EqDecision K, !Countable K}.

(** The inner stream of channels (fused), and the closure that gives a channel its key:
    [None] when it panics. *)
Context (listener_poll_next : S → Poll (option Chan) * S) (keymaker : Chan → option K).

(** An [Arc<Tracker>]: [tk_strong] is its strong count; [tk_dropped] says that the
    tracker has been dropped, which happens some time after the count reached zero. *)
Record Tracker := MkTracker {
  tk_key : K;
  tk_strong : nat;
  tk_dropped : bool;
}.

Record MaxChannelsPerKey := MkMaxChannelsPerKey {
  mc_listener : S;
  mc_channels_per_key : Z;
  (** Shared with the trackers. *)
  mc_dropped_keys : mpsc K;
  (** [Weak] references. *)
  mc_key_counts : gmap K nat;
  mc_trackers : gmap nat Tracker;
}.

(** A yielded channel owns one strong reference to its tracker. *)
Record TrackedChannel := MkTrackedChannel {
  tc_inner : Chan;
  tc_tracker : nat;
}.

Definition set_listener l (s : MaxChannelsPerKey) : MaxChannelsPerKey :=
  MkMaxChannelsPerKey l (mc_channels_per_key s) (mc_dropped_keys s) (mc_key_counts s) (mc_trackers s).
Definition set_dropped d (s : MaxChannelsPerKey) : MaxChannelsPerKey :=
  MkMaxChannelsPerKey (mc_listener s) (mc_channels_per_key s) d (mc_key_counts s) (mc_trackers s).
Definition set_counts kc (s : MaxChannelsPerKey) : MaxChannelsPerKey :=
  MkMaxChannelsPerKey (mc_listener s) (mc_channels_per_key s) (mc_dropped_keys s) kc (mc_trackers s).
Definition set_trackers tk (s : MaxChannelsPerKey) : MaxChannelsPerKey :=
  MkMaxChannelsPerKey (mc_listener s) (mc_channels_per_key s) (mc_dropped_keys s) (mc_key_counts s) tk.

(** [MaxChannelsPerKey::new]. *)
Definition new (listener : S) (channels_per_key : Z) : MaxChannelsPerKey :=
  MkMaxChannelsPerKey listener channels_per_key mpsc_unbounded_channel ∅ ∅.

(** [Weak::strong_count]. *)
Definition strong_count (t : nat) (s : MaxChannelsPerKey) : nat :=
  match mc_trackers s !! t with Some tk => tk_strong tk | None => 0 end.

(** [Arc::new(Tracker { .. })], with [Arc::downgrade] of it stored for its key. *)
Definition new_tracker (key : K) (s : MaxChannelsPerKey) : nat * MaxChannelsPerKey :=
  let t := fresh (dom (mc_trackers s)) in
  (t, set_dropped (mpsc_clone_sender (mc_dropped_keys s))
        (set_counts (<[key := t]> (mc_key_counts s))
          (set_trackers (<[t := MkTracker key 1 false]> (mc_trackers s)) s))).

(** [Weak::upgrade]. *)
Definition upgrade (t : nat) (s : MaxChannelsPerKey) : option (nat * MaxChannelsPerKey) :=
  match mc_trackers s !! t with
  | Some (MkTracker key (Datatypes.S n) d) =>
      Some (t, set_trackers (<[t := MkTracker key (Datatypes.S (Datatypes.S n)) d]> (mc_trackers s)) s)
  | _ => None
  end.

Definition increment_channels_for_key (key : K) (s : MaxChannelsPerKey) : Result nat K * MaxChannelsPerKey :=
  match mc_key_counts s !! key with
  | None => let '(t, s) := new_tracker key s in (Ok t, s)
  | Some t =>
      let count := strong_count t s in
      if bool_decide (mc_channels_per_key s ≤ Z.of_nat count)%Z then (Err key, s)
      else
        match upgrade t s with
        | Some (t, s) => (Ok t, s)
        | None => let '(t, s) := new_tracker key s in (Ok t, s)
        end
  end.

Definition handle_new_channel (stream : Chan) : M MaxChannelsPerKey (Result TrackedChannel K) := λ s,
  match keymaker stream with
  | Some key =>
      match increment_channels_for_key key s with
      | (Ok tracker, s) => Done (Ok (MkTrackedChannel stream tracker), s)
      | (Err key, s) => Done (Err key, s)
      end
  | None => Panicked Unexpected
  end.

Definition poll_listener : M MaxChannelsPerKey (Poll (option (Result TrackedChannel K))) := λ s,
  let '(p, l) := listener_poll_next (mc_listener s) in
  let s := set_listener l s in
  match p with
  | Pending => Done (Pending, s)
  | Ready (Some codec) => (r ← handle_new_channel codec; mret (Ready (Some r))) s
  | Ready None => Done (Ready None, s)
  end.

Definition poll_closed_channels : M MaxChannelsPerKey (Poll unit) := λ s,
  let '(p, d) := mpsc_poll_recv (mc_dropped_keys s) in
  let s := set_dropped d s in
  match p with
  | Pending => Done (Pending, s)
  | Ready (Some key) => Done (Ready tt, set_counts (delete key (mc_key_counts s)) s)
  | Ready None => Panicked Unexpected
  end.

(** [Stream::poll_next]. *)
Fixpoint poll_next_loop (n : nat) : M MaxChannelsPerKey (Poll (option TrackedChannel)) :=
  match n with
  | 0 => no_fuel
  | Datatypes.S n =>
      listened ← poll_listener;
      closed ← poll_closed_channels;
      match listened, closed with
      | Ready (Some (Ok channel)), _ => mret (Ready (Some channel))
      | Ready (Some (Err _)), _ => poll_next_loop n
      | _, Ready _ => poll_next_loop n
      | Pending, Pending => mret Pending
      | Ready None, Pending => mret (Ready None)
      end
  end.

(** Dropping a [TrackedChannel]: its reference goes. *)
Definition release_channel (t : nat) (s : MaxChannelsPerKey) : MaxChannelsPerKey :=
  match mc_trackers s !! t with
  | Some (MkTracker key (Datatypes.S n) d) => set_trackers (<[t := MkTracker key n d]> (mc_trackers s)) s
  | _ => s
  end.

(** [Drop for Tracker], run by whoever dropped the last reference: it sends the key, and
    its sender goes. *)
Definition tracker_drop (t : nat) (s : MaxChannelsPerKey) : MaxChannelsPerKey :=
  match mc_trackers s !! t with
  | Some (MkTracker key 0 false) =>
      set_dropped (mpsc_drop_sender (snd (mpsc_unbounded_send (mc_dropped_keys s) key)))
        (set_trackers (<[t := MkTracker key 0 true]> (mc_trackers s)) s)
  | _ => s
  end.

(** Both, when nothing happens in between. *)
Definition drop_channel (t : nat) (s : MaxChannelsPerKey) : MaxChannelsPerKey :=
  tracker_drop t (release_channel t s).

(** The channels of a key that are open: the strong references to its trackers. *)
Definition open_channels (key : K) (s : MaxChannelsPerKey) : nat :=
  map_fold (λ _ tk n, if bool_decide (tk_key tk = key) then tk_strong tk + n else n) 0 (mc_trackers s).

(** A listener in use: polls, and channels and trackers being dropped, in any order. *)
Inductive limit_step (bound : nat) (s : MaxChannelsPerKey) : MaxChannelsPerKey → Prop :=
| limit_poll r s' : poll_next_loop bound s = Done (r, s') → limit_step bound s s'
| limit_release t : limit_step bound s (release_channel t s)
| limit_drop t : limit_step bound s (tracker_drop t s).
End model.

Arguments MaxChannelsPerKey {_} S K {_ _}.
Arguments Tracker K : clear implicits.
Arguments TrackedChannel Chan : clear implicits.

(** ** Its invariants *)

Section invariants.
Context `{!Mpsc, !MpscLaws} {S Chan K : Type} `{!EqDecision K, !Countable K}.
Context (listener_poll_next : S → Poll (option Chan) * S) (keymaker : Chan → option K).
Implicit Types s : MaxChannelsPerKey S K.

(** A tracker that has not been dropped, and has its sender. *)
Definition is_live (x : nat * Tracker K) : Prop := tk_dropped x.2 = false.
#[local] Instance is_live_dec x : Decision (is_live x) := decide_rel eq _ _.
Definition live_trackers s : gmap nat (Tracker K) := filter is_live (mc_trackers s).
Definition dropped s : list K := mv_queue (mpsc_view (mc_dropped_keys s)).

Record wf s : Prop := {
  wf_senders : mv_senders (mpsc_view (mc_dropped_keys s)) = Datatypes.S (size (live_trackers s));
  wf_closed : mv_closed (mpsc_view (mc_dropped_keys s)) = false;
  wf_counts : ∀ k t, mc_key_counts s !! k = Some t → ∃ tk, mc_trackers s !! t = Some tk ∧ tk_key tk = k;
  wf_limit : ∀ t tk, mc_trackers s !! t = Some tk → (Z.of_nat (tk_strong tk) ≤ Z.max 1 (mc_channels_per_key s))%Z;
  wf_dropped : ∀ t tk, mc_trackers s !! t = Some tk → tk_dropped tk = true → tk_strong tk = 0;
}.

(** The listener is going to be told to forget [k]: the notice is queued, or a tracker
    of [k] lost its last reference and is yet to send it. *)
Definition forgetting (k : K) s : Prop :=
  k ∈ dropped s ∨ ∃ t, mc_trackers s !! t = Some (MkTracker k 0 false).

(** Every channel that is open is counted under its key. *)
Definition registered s : Prop :=
  ∀ t tk, mc_trackers s !! t = Some tk → 0 < tk_strong tk → mc_key_counts s !! tk_key tk = Some t.

(** And no key is about to be forgotten while it has a channel. *)
Definition settled s : Prop :=
  registered s ∧ ∀ t tk, mc_trackers s !! t = Some tk → 0 < tk_strong tk → ¬ forgetting (tk_key tk) s.

Lemma new_wf l n : wf (new l n).
Proof.
  split; simpl; [|by rewrite law_unbounded_channel|done|done|done]. rewrite law_unbounded_channel. simpl.
  unfold live_trackers. simpl. by rewrite map_filter_empty.
Qed.

Lemma new_settled l n : settled (new l n).
Proof. split; by intros t tk. Qed.

(** *** A new tracker *)

Lemma new_tracker_fresh s : mc_trackers s !! fresh (dom (mc_trackers s)) = None.
Proof. apply not_elem_of_dom, is_fresh. Qed.

Lemma new_tracker_wf k s : wf s → wf (new_tracker k s).2.
Proof.
  intros [Hs Hc Hk Hl Hd]. pose proof (new_tracker_fresh s) as Hf. split; simpl.
  - rewrite law_clone_sender. simpl. rewrite Hs. unfold live_trackers. simpl.
    rewrite map_filter_insert_True by done.
    rewrite map_size_insert_None; [done|]. apply map_lookup_filter_None. by left.
  - by rewrite law_clone_sender.
  - intros j t. destruct (decide (j = k)) as [->|Hne].
    + rewrite lookup_insert_eq. intros [= <-]. rewrite lookup_insert_eq. eauto.
    + rewrite lookup_insert_ne by done. intros (tk & Ht & ?)%Hk. exists tk. split; [|done].
      rewrite lookup_insert_ne; [done|]. intros E. by rewrite E, Ht in Hf.
  - intros t tk [[<- <-]|[_ ?]]%lookup_insert_Some; [simpl; lia|by eapply Hl].
  - intros t tk [[<- <-]|[_ ?]]%lookup_insert_Some; [done|by eapply Hd].
Qed.

Lemma forgetting_new j k s : forgetting j (new_tracker k s).2 → forgetting j s.
Proof.
  unfold forgetting, dropped. simpl. rewrite law_clone_sender. simpl. intros [?|[t Ht]]; [by left|right].
  apply lookup_insert_Some in Ht as [[_ ?]|[_ ?]]; [done|eauto].
Qed.

Lemma new_tracker_settled k s :
  settled s → ¬ forgetting k s → (∀ t, mc_key_counts s !! k = Some t → strong_count t s = 0) → settled (new_tracker k s).2.
Proof.
  intros [Hr Hn] Hk Hdead. split; intros t tk; simpl; intros [[<- <-]|[Hne Ht]]%lookup_insert_Some Hl.
  - simpl. by rewrite lookup_insert_eq.
  - rewrite lookup_insert_ne; [by apply Hr|]. intros E. pose proof (Hr t tk Ht Hl) as Hc. rewrite <- E in Hc.
    specialize (Hdead t Hc). unfold strong_count in Hdead. rewrite Ht in Hdead. lia.
  - by intros ?%forgetting_new.
  - intros ?%forgetting_new. by apply (Hn t tk).
Qed.

(** *** The references to a tracker *)

Lemma upgrade_inv t s t' s' :
  upgrade t s = Some (t', s') → ∃ k n d, t' = t ∧ mc_trackers s !! t = Some (MkTracker k (Datatypes.S n) d) ∧
    s' = set_trackers (<[t := MkTracker k (Datatypes.S (Datatypes.S n)) d]> (mc_trackers s)) s.
Proof. unfold upgrade. destruct (mc_trackers s !! t) as [[k [|n] d]|]; intros; simplify_eq. by exists k, n, d. Qed.

Lemma strong_zero t s : upgrade t s = None → strong_count t s = 0.
Proof. unfold upgrade, strong_count. by destruct (mc_trackers s !! t) as [[k [|n] d]|]. Qed.

(** Changing the strong count of a tracker in use. *)
Lemma recount_wf t k n m d s :
  wf s → mc_trackers s !! t = Some (MkTracker k (Datatypes.S n) d) →
  (Z.of_nat m ≤ Z.max 1 (mc_channels_per_key s))%Z →
  wf (set_trackers (<[t := MkTracker k m d]> (mc_trackers s)) s).
Proof.
  intros [Hs Hc Hk Hl Hd] Ht Hm. assert (d = false) as ->.
  { destruct d; [|done]. by specialize (Hd _ _ Ht eq_refl). }
  split; simpl; [|done|..].
  - rewrite Hs. unfold live_trackers. simpl. rewrite map_filter_insert_True by done.
    rewrite map_size_insert_Some; [done|]. exists (MkTracker k (Datatypes.S n) false). by apply map_lookup_filter_Some.
  - intros j t' (tk & Ht' & E)%Hk. destruct (decide (t' = t)) as [->|Hne].
    + rewrite lookup_insert_eq. simplify_eq/=. eauto.
    + rewrite lookup_insert_ne by done. eauto.
  - intros t' tk [[<- <-]|[_ ?]]%lookup_insert_Some; [done|by eapply Hl].
  - intros t' tk [[<- <-]|[_ ?]]%lookup_insert_Some; [done|by eapply Hd].
Qed.

(** While it stays in use. *)
Lemma recount_settled t k n m d s :
  settled s → mc_trackers s !! t = Some (MkTracker k (Datatypes.S n) d) →
  settled (set_trackers (<[t := MkTracker k (Datatypes.S m) d]> (mc_trackers s)) s).
Proof.
  intros [Hr Hn] Ht. set (s' := set_trackers _ s).
  assert (Hf : ∀ j, forgetting j s' → forgetting j s).
  { intros j [?|[t' Ht']]; [by left|right]. simpl in Ht'. apply lookup_insert_Some in Ht' as [[_ ?]|[_ ?]]; [done|eauto]. }
  split; intros t' tk; simpl; intros [[<- <-]|[_ Ht']]%lookup_insert_Some Hl.
  - apply (Hr t _ Ht). simpl. lia.
  - by apply Hr.
  - intros ?%Hf. apply (Hn t _ Ht); [simpl; lia|done].
  - intros ?%Hf. by apply (Hn t' tk).
Qed.

(** *** The operations *)

Lemma increment_wf k s : wf s → wf (increment_channels_for_key k s).2.
Proof.
  intros Hw. unfold increment_channels_for_key. destruct (mc_key_counts s !! k) as [t|]; [|by apply new_tracker_wf].
  case_bool_decide as Hc; [done|]. destruct (upgrade t s) as [[t' s']|] eqn:Hu; [|by apply new_tracker_wf].
  apply upgrade_inv in Hu as (k' & n & d & -> & Ht & ->). eapply recount_wf; [done|done|].
  unfold strong_count in Hc. rewrite Ht in Hc. simpl in Hc. lia.
Qed.

Lemma increment_settled k s : settled s → ¬ forgetting k s → settled (increment_channels_for_key k s).2.
Proof.
  intros Hst Hk. unfold increment_channels_for_key. destruct (mc_key_counts s !! k) as [t|] eqn:Ht.
  2: { apply new_tracker_settled; [done|done|]. by rewrite Ht. }
  case_bool_decide as Hc; [done|]. destruct (upgrade t s) as [[t' s']|] eqn:Hu.
  - apply upgrade_inv in Hu as (k' & n & d & -> & Ht' & ->). by eapply recount_settled.
  - apply new_tracker_settled; [done|done|]. rewrite Ht. intros t' [= <-]. by apply strong_zero.
Qed.

(** What the listener keeps to. *)
Definition same_setup s s' : Prop :=
  mc_listener s' = mc_listener s ∧ mc_channels_per_key s' = mc_channels_per_key s ∧ dropped s' = dropped s.

Lemma increment_same k s : same_setup s (increment_channels_for_key k s).2.
Proof.
  assert (Hn : same_setup s (new_tracker k s).2).
  { split_and!; [done..|]. unfold dropped. simpl. by rewrite law_clone_sender. }
  unfold increment_channels_for_key. destruct (_ !! _) as [t|]; [|exact Hn]. case_bool_decide; [done|].
  destruct (upgrade _ _) as [[t' s']|] eqn:Hu; [|exact Hn]. by apply upgrade_inv in Hu as (? & ? & ? & _ & _ & ->).
Qed.

Lemma handle_new_channel_inv c s r s' :
  handle_new_channel keymaker c s = Done (r, s') →
  ∃ k, keymaker c = Some k ∧ s' = (increment_channels_for_key k s).2 ∧
    r = match (increment_channels_for_key k s).1 with Ok t => Ok (MkTrackedChannel c t) | Err e => Err e end.
Proof.
  unfold handle_new_channel. destruct (keymaker c) as [k|]; [|done]. exists k. split; [done|].
  by destruct (increment_channels_for_key k s) as [[t|e] s1]; simplify_eq/=.
Qed.

(** The key is forgotten; the panic of [unreachable!] is not reached, because the
    listener holds a sender itself. *)
Lemma poll_closed_wf s :
  wf s → wp poll_closed_channels (λ r s', wf s' ∧ mc_listener s' = mc_listener s ∧
    match r with
    | Ready _ => ∃ k, dropped s = k :: dropped s' ∧ mc_key_counts s' = delete k (mc_key_counts s)
    | Pending => dropped s' = dropped s ∧ mc_key_counts s' = mc_key_counts s
    end ∧ mc_trackers s' = mc_trackers s ∧ mc_channels_per_key s' = mc_channels_per_key s) s.
Proof.
  intros [Hs Hc Hk Hl Hd]. unfold wp, poll_closed_channels. destruct (mpsc_poll_recv _) as [p d] eqn:Hp.
  apply law_poll_recv in Hp. destruct p as [[k|]|]; simpl in Hp.
  - destruct Hp as (q & Hq & Hv). unfold dropped. simpl. rewrite Hq, Hv. simpl. split_and!; [|eauto..].
    split; simpl; rewrite ?Hv; [done|done| |done|done]. intros j t [_ Hj]%lookup_delete_Some. by apply Hk.
  - destruct Hp as (_ & [Hp|Hp] & _); [by rewrite Hs in Hp|by rewrite Hc in Hp].
  - unfold dropped. simpl. rewrite Hp. split_and!; [|done..]. split; simpl; by rewrite ?Hp.
Qed.

Lemma poll_closed_settled s r s' : wf s → settled s → poll_closed_channels s = Done (r, s') → settled s'.
Proof.
  intros Hw [Hreg Hn] Hp. destruct (wp_done _ _ _ _ _ (poll_closed_wf s Hw) Hp) as (_ & _ & Hr & Ht & _).
  assert (Hsub : ∀ j, forgetting j s' → forgetting j s).
  { intros j [Hj|[t Hj]]; [left|right; exists t; by rewrite <- Ht].
    destruct r; [destruct Hr as (k & -> & _); by right|by destruct Hr as [<- _]]. }
  split; intros t tk Htk Hl; rewrite Ht in Htk.
  - pose proof (Hreg t tk Htk Hl) as Hc. destruct r as [[]|]; [|by destruct Hr as [_ ->]].
    destruct Hr as (k & Hk & ->). rewrite lookup_delete_ne; [done|]. intros ->.
    apply (Hn t tk Htk Hl). left. rewrite Hk. by left.
  - intros ?%Hsub. by apply (Hn t tk).
Qed.

(** Dropping a channel counts down. *)
Lemma release_wf t s : wf s → wf (release_channel t s).
Proof.
  intros Hw. unfold release_channel. destruct (mc_trackers s !! t) as [[k [|n] d]|] eqn:Ht; [done| |done].
  pose proof (wf_limit _ Hw _ _ Ht) as Hl. simpl in Hl. eapply recount_wf; [done|done|lia].
Qed.

Lemma release_settled t s : wf s → settled s → settled (release_channel t s).
Proof.
  intros Hw Hst. unfold release_channel. destruct (mc_trackers s !! t) as [[k [|[|n]] d]|] eqn:Ht; [done| |by eapply recount_settled|done].
  destruct Hst as [Hr Hn]. pose proof (Hr t _ Ht ltac:(simpl; lia)) as Hkt. simpl in Hkt.
  assert (Hother : ∀ t' tk, t ≠ t' → mc_trackers s !! t' = Some tk → 0 < tk_strong tk → tk_key tk ≠ k).
  { intros t' tk Hne Ht' Hl E. pose proof (Hr t' tk Ht' Hl) as Hc. rewrite E, Hkt in Hc. congruence. }
  split; intros t' tk; simpl; intros [[<- <-]|[Hne Ht']]%lookup_insert_Some Hl; [simpl in Hl; lia|by apply Hr|simpl in Hl; lia|].
  pose proof (Hother t' tk Hne Ht' Hl) as Hk. intros [?|[t'' Hf]]; [by apply (Hn t' tk Ht' Hl); left|].
  simpl in Hf. apply lookup_insert_Some in Hf as [[_ E]|[_ Hf]]; [congruence|].
  apply (Hn t' tk Ht' Hl). right. eauto.
Qed.

(** The tracker announces its key. *)
Lemma tracker_drop_wf t s : wf s → wf (tracker_drop t s).
Proof.
  intros Hw. unfold tracker_drop. destruct (mc_trackers s !! t) as [[k [|n] [|]]|] eqn:Ht; try done.
  destruct Hw as [Hs Hc Hk Hl Hd].
  destruct (law_unbounded_send_open _ _ k Hc) as (d & -> & Hv). split; simpl; rewrite ?law_drop_sender, ?Hv; simpl.
  - rewrite Hs. unfold live_trackers. simpl.
    rewrite map_filter_insert_False by done. rewrite map_filter_delete.
    apply (gmap_size_delete_Some _ t (MkTracker k 0 false)). by apply map_lookup_filter_Some.
  - done.
  - intros j t' (tk & Ht' & E)%Hk. destruct (decide (t' = t)) as [->|Hne].
    + rewrite lookup_insert_eq. simplify_eq/=. eauto.
    + rewrite lookup_insert_ne by done. eauto.
  - intros t' tk [[<- <-]|[_ ?]]%lookup_insert_Some; [simpl; lia|by eapply Hl].
  - intros t' tk [[<- <-]|[_ ?]]%lookup_insert_Some; [done|by eapply Hd].
Qed.

Lemma tracker_drop_settled t s : wf s → settled s → settled (tracker_drop t s).
Proof.
  intros Hw [Hr Hn]. unfold tracker_drop. destruct (mc_trackers s !! t) as [[k [|n] [|]]|] eqn:Ht; try done.
  destruct (law_unbounded_send_open _ _ k (wf_closed _ Hw)) as (d & Hs & Hv). rewrite Hs. set (s' := set_dropped _ _).
  assert (Hf : ∀ j, forgetting j s' → forgetting j s).
  { intros j. unfold forgetting, dropped at 1. simpl. rewrite law_drop_sender, Hv. simpl. intros [Hj|[t' Hj]].
    - apply elem_of_app in Hj as [?|Hj]; [by left|]. apply list_elem_of_singleton in Hj as ->. right. eauto.
    - apply lookup_insert_Some in Hj as [[_ ?]|[_ ?]]; [done|right; eauto]. }
  split; intros t' tk; simpl; intros [[<- <-]|[Hne Ht']]%lookup_insert_Some Hl; [simpl in Hl; lia|by apply Hr|simpl in Hl; lia|].
  intros ?%Hf. by apply (Hn t' tk).
Qed.

Lemma drop_channel_wf t s : wf s → wf (drop_channel t s).
Proof. intros Hw. by apply tracker_drop_wf, release_wf. Qed.

(** *** How many channels of a key are open *)

Lemma open_channels_bound k s n :
  (∀ t tk, mc_trackers s !! t = Some tk → tk_strong tk ≤ n) →
  (∀ t1 t2 tk1 tk2, mc_trackers s !! t1 = Some tk1 → mc_trackers s !! t2 = Some tk2 →
     tk_key tk1 = k → tk_key tk2 = k → 0 < tk_strong tk1 → 0 < tk_strong tk2 → t1 = t2) →
  open_channels k s ≤ n.
Proof.
  unfold open_channels. generalize (mc_trackers s). intros m.
  pose (P (r : nat) (m : gmap nat (Tracker K)) :=
    (∀ t tk, m !! t = Some tk → tk_strong tk ≤ n) →
    (∀ t1 t2 tk1 tk2, m !! t1 = Some tk1 → m !! t2 = Some tk2 →
       tk_key tk1 = k → tk_key tk2 = k → 0 < tk_strong tk1 → 0 < tk_strong tk2 → t1 = t2) →
    r ≤ n ∧ ((∀ t tk, m !! t = Some tk → tk_key tk = k → tk_strong tk = 0) → r = 0)).
  enough (Hp : P (map_fold (λ _ tk n, if bool_decide (tk_key tk = k) then tk_strong tk + n else n) 0 m) m).
  { intros H1' H2'. by apply Hp. }
  apply (map_fold_weak_ind P); unfold P; clear; [split; lia|]. intros t tk m r Ht IH Hn Hu.
  assert (Hm : ∀ t' tk', m !! t' = Some tk' → <[t := tk]> m !! t' = Some tk').
  { intros t' tk' Ht'. rewrite lookup_insert_ne; [done|]. intros <-. congruence. }
  destruct IH as [IHn IH0]; [by intros; eapply Hn, Hm|by intros; eapply Hu; eauto|].
  assert (Hhd : <[t := tk]> m !! t = Some tk) by apply lookup_insert_eq.
  case_bool_decide as Hk; [|split; [done|intros H0'; apply IH0; eauto]].
  destruct (decide (tk_strong tk = 0)) as [Hz|Hnz].
  { rewrite Hz. simpl. split; [done|]. intros H0'. apply IH0. eauto. }
  assert (r = 0) as ->.
  { apply IH0. intros t' tk' Ht' Hk'. destruct (decide (tk_strong tk' = 0)) as [|Hnz']; [done|].
    assert (t' = t) as ->; [|congruence]. eapply Hu; eauto; lia. }
  rewrite Nat.add_0_r. split; [by eapply Hn|]. intros H0'. by eapply H0'.
Qed.

Lemma registered_open_channels k s :
  wf s → registered s → (Z.of_nat (open_channels k s) ≤ Z.max 1 (mc_channels_per_key s))%Z.
Proof.
  intros Hw Hst. pose proof (open_channels_bound k s (Z.to_nat (Z.max 1 (mc_channels_per_key s)))) as Hb.
  cut (open_channels k s ≤ Z.to_nat (Z.max 1 (mc_channels_per_key s))); [lia|]. apply Hb.
  - intros t tk Ht. pose proof (wf_limit _ Hw _ _ Ht). lia.
  - intros t1 t2 tk1 tk2 H1' H2' E1 E2 L1 L2. pose proof (Hst _ _ H1' L1) as C1. pose proof (Hst _ _ H2' L2) as C2. congruence.
Qed.
End invariants.

(** ** Theorems *)

Section theorems.
Context `{!Mpsc, !MpscLaws} {S Chan K : Type} `{!EqDecision K, !Countable K}.
Context (listener_poll_next : S → Poll (option Chan) * S) (keymaker : Chan → option K).
Implicit Types s : MaxChannelsPerKey S K.

Lemma poll_listener_wf s :
  wf s → wlp (poll_listener listener_poll_next keymaker)
    (λ _ s', wf s' ∧ mc_channels_per_key s' = mc_channels_per_key s) s.
Proof.
  intros Hw r s'. unfold poll_listener. destruct (listener_poll_next _) as [p l].
  assert (Hl : wf (set_listener l s)) by (destruct Hw; by split).
  destruct p as [[c|]|]; [|by intros [= <- <-]..]. cbv [mbind M_bind mret M_ret].
  destruct (handle_new_channel _ _ _) as [[r' s1]| |] eqn:Hh; [|done..]. intros [= <- <-].
  apply handle_new_channel_inv in Hh as (k & _ & -> & _). split; [by apply increment_wf|].
  by destruct (increment_same k (set_listener l s)) as (_ & -> & _).
Qed.

Lemma wlp_poll_next_loop n s :
  wf s → wlp (poll_next_loop listener_poll_next keymaker n) (λ _ s', wf s' ∧ mc_channels_per_key s' = mc_channels_per_key s) s.
Proof.
  revert s. induction n as [|n IH]; intros s Hw; [done|]. cbn [poll_next_loop]. apply wlp_bind.
  eapply wlp_mono; [by apply poll_listener_wf|]. intros r s1 [Hw1 E1].
  apply wlp_bind. eapply wlp_mono; [by apply wlp_wp, poll_closed_wf|]. intros c s2 (Hw2 & _ & _ & _ & E2).
  assert (Hloop : wlp (poll_next_loop listener_poll_next keymaker n)
    (λ _ s', wf s' ∧ mc_channels_per_key s' = mc_channels_per_key s) s2).
  { eapply wlp_mono; [by apply IH|]. intros ? s3 [? ?]. split; [done|congruence]. }
  assert (wf s2 ∧ mc_channels_per_key s2 = mc_channels_per_key s) by (split; [done|congruence]).
  destruct r as [[[ch|e]|]|], c as [[]|]; try done; by apply wlp_ret.
Qed.

Lemma limit_step_wf bound s s' :
  limit_step listener_poll_next keymaker bound s s' → wf s → wf s' ∧ mc_channels_per_key s' = mc_channels_per_key s.
Proof.
  destruct 1 as [r s' Hp|t|t]; intros Hw.
  - by eapply wlp_poll_next_loop.
  - split; [by apply release_wf|]. unfold release_channel. by destruct (_ !! _) as [[k [|n] d]|].
  - split; [by apply tracker_drop_wf|]. unfold tracker_drop. by destruct (_ !! _) as [[k [|n] []]|].
Qed.

(** The only panic is that of the closure that makes the keys. *)
Lemma poll_next_panics n s p :
  wf s → poll_next_loop listener_poll_next keymaker n s = Panicked p → ∃ c, keymaker c = None.
Proof.
  revert s. induction n as [|n IH]; intros s Hw; [done|]. cbn [poll_next_loop]. cbv [mbind M_bind].
  destruct (poll_listener _ _ s) as [[r s1]|p'|] eqn:Hl.
  - destruct (poll_listener_wf s Hw _ _ Hl) as [Hw1 _]. pose proof (poll_closed_wf s1 Hw1) as Hc. unfold wp in Hc.
    assert (Hf : poll_closed_channels s1 ≠ Panicked FarDeadline).
    { unfold poll_closed_channels. by destruct (mpsc_poll_recv _) as [[[k|]|] d]. }
    destruct (poll_closed_channels s1) as [[c s2]|[]|]; [|done..]. destruct Hc as [Hw2 _].
    destruct r as [[[ch|e]|]|], c as [[]|]; try done; by apply IH.
  - intros _. revert Hl. unfold poll_listener. destruct (listener_poll_next _) as [[[c|]|] l]; [|done..].
    cbv [mbind M_bind mret M_ret]. unfold handle_new_channel. exists c. destruct (keymaker c); [|done].
    by destruct (increment_channels_for_key _ _) as [[] ?].
  - done.
Qed.

(** C38: whatever happens to a listener with per-key limits, it does not panic unless the
    closure that makes the keys does, and no tracker is ever shared by more channels than
    the limit allows (or one, if the limit is zero). *)
Theorem tracker_never_over_limit bound l n s :
  rtc (limit_step listener_poll_next keymaker bound) (new l n) s →
  (∀ p, poll_next_loop listener_poll_next keymaker bound s = Panicked p → ∃ c, keymaker c = None) ∧
  ∀ t, (Z.of_nat (strong_count t s) ≤ Z.max 1 n)%Z.
Proof.
  intros Hs. assert (Hw : wf s ∧ mc_channels_per_key s = n).
  { eapply (rtc_preserves _ (λ s, wf s ∧ mc_channels_per_key s = n)); [|exact Hs|by split; [apply new_wf|]].
    intros s1 s2 H12 [Hw1 <-]. by eapply limit_step_wf. }
  destruct Hw as [Hw <-]. split; [intros p; by apply poll_next_panics|].
  intros t. unfold strong_count. destruct (mc_trackers s !! t) eqn:Ht; [by eapply wf_limit|lia].
Qed.

(** The same listener, one operation at a time, when no channel arrives whose key the
    listener is still going to be told to forget. *)
Inductive calm_step s : MaxChannelsPerKey S K → Prop :=
| calm_channel c r s' :
    (∀ k, keymaker c = Some k → ¬ forgetting k s) → handle_new_channel keymaker c s = Done (r, s') → calm_step s s'
| calm_closed r s' : poll_closed_channels s = Done (r, s') → calm_step s s'
| calm_release t : calm_step s (release_channel t s)
| calm_drop t : calm_step s (tracker_drop t s).

Lemma calm_step_inv s s' :
  calm_step s s' → wf s ∧ settled s → (wf s' ∧ settled s') ∧ mc_channels_per_key s' = mc_channels_per_key s.
Proof.
  intros Hs [Hw Hst]. destruct Hs as [c r s' Hc Hh|r s' Hp|t|t].
  - apply handle_new_channel_inv in Hh as (k & Hk & -> & _).
    split; [split; [by apply increment_wf|by apply increment_settled; [|apply Hc]]|].
    by destruct (increment_same k s) as (_ & -> & _).
  - destruct (wp_done _ _ _ _ _ (poll_closed_wf s Hw) Hp) as (Hw' & _ & _ & _ & Hn). split; [|done]. split; [done|].
    exact (poll_closed_settled s r s' Hw Hst Hp).
  - split; [split; [by apply release_wf|by apply release_settled]|].
    unfold release_channel. by destruct (_ !! _) as [[k [|n] d]|].
  - split; [split; [by apply tracker_drop_wf|by apply tracker_drop_settled]|].
    unfold tracker_drop. by destruct (_ !! _) as [[k [|n] []]|].
Qed.

(** C25: a listener with a per-key limit keeps it: no key ever has more channels open
    than the limit (or one, if the limit is zero), provided no new channel of a key
    arrives between the moment the last reference to that key's tracker goes (which may
    be on another thread, and before the notice is sent) and the moment the listener has
    processed the notice. *)
Theorem channels_per_key_limit l n s k :
  rtc calm_step (new l n) s → (Z.of_nat (open_channels k s) ≤ Z.max 1 n)%Z.
Proof.
  intros Hs. assert (Hw : (wf s ∧ settled s) ∧ mc_channels_per_key s = n).
  { eapply (rtc_preserves _ (λ s, (wf s ∧ settled s) ∧ mc_channels_per_key s = n)); [|exact Hs|].
    - intros s1 s2 H12 [Hw1 <-]. by apply calm_step_inv.
    - split; [|done]. split; [apply new_wf|apply new_settled]. }
  destruct Hw as [[Hw [Hr _]] <-]. by apply registered_open_channels.
Qed.

(** *** Its polls end *)

Context (arrivals : S → nat).
Context (Harrivals : ∀ l p l', listener_poll_next l = (p, l') →
  match p with Ready (Some _) => arrivals l' < arrivals l | _ => arrivals l' ≤ arrivals l end).

Definition limit_work s : nat := arrivals (mc_listener s) + length (dropped s).

Lemma total_poll_listener s :
  wf s → total (poll_listener listener_poll_next keymaker) (λ r s1, wf s1 ∧
    limit_work s1 + match r with Ready (Some _) => 1 | _ => 0 end ≤ limit_work s) s.
Proof.
  intros Hw. pose proof (poll_listener_wf s Hw) as Hl. unfold total, wlp in *. revert Hl. unfold poll_listener.
  destruct (listener_poll_next (mc_listener s)) as [p l] eqn:Hp. apply Harrivals in Hp. unfold limit_work.
  destruct p as [[c|]|]; cbv [mbind M_bind mret M_ret]; [|intros Hl; destruct (Hl _ _ eq_refl); split; [done|unfold dropped; simpl in *; lia]..].
  destruct (handle_new_channel _ _ _) as [[r s1]| |] eqn:Hh; [|done|].
  - intros Hl. destruct (Hl _ _ eq_refl) as [? _]. split; [done|].
    apply handle_new_channel_inv in Hh as (k & _ & -> & _). destruct (increment_same k (set_listener l s)) as (-> & _ & ->).
    unfold dropped. simpl. lia.
  - revert Hh. unfold handle_new_channel. destruct (keymaker c); [|done]. by destruct (increment_channels_for_key _ _) as [[] ?].
Qed.

Lemma total_poll_next n s :
  wf s → limit_work s < n → total (poll_next_loop listener_poll_next keymaker n) (λ _ _, True) s.
Proof.
  revert s. induction n as [|n IH]; intros s Hw Hn; [lia|]. cbn [poll_next_loop]. apply total_bind.
  eapply total_mono; [by apply total_poll_listener|]. intros r s1 [Hw1 W1].
  apply total_bind. assert (Ht : terminates poll_closed_channels s1).
  { unfold terminates, poll_closed_channels. by destruct (mpsc_poll_recv _) as [[[k|]|] d]. }
  eapply total_mono; [apply (total_wp _ _ _ Ht), (poll_closed_wf s1 Hw1)|]. intros c s2 (Hw2 & El & Hc & _ & _).
  assert (W2 : limit_work s2 + match c with Ready _ => 1 | _ => 0 end ≤ limit_work s1).
  { unfold limit_work. rewrite El. destruct c as [u|]; [destruct Hc as (k & -> & _); simpl; lia|destruct Hc as [-> _]; lia]. }
  destruct r as [[[ch|e]|]|], c as [[]|]; try done; (apply IH; [done|simpl in *; lia]).
Qed.

(** C39: polling the listener returns, when the stream of channels has a bounded number
    of channels ready and every channel has a key: each round of the loop takes a channel
    or a dropped key. *)
Theorem limit_poll_returns n s :
  (∀ c, is_Some (keymaker c)) → wf s → limit_work s < n →
  ∃ r s', poll_next_loop listener_poll_next keymaker n s = Done (r, s').
Proof.
  intros Hk Hw Hn. pose proof (total_poll_next n s Hw Hn) as Ht. unfold total in *.
  destruct (poll_next_loop _ _ _ _) as [[r s']|p|] eqn:Hp; [eauto| |done].
  destruct (poll_next_panics _ _ _ Hw Hp) as [c Hc]. destruct (Hk c) as [? E]. congruence.
Qed.
End theorems.

(** ** A listener with a limit of one

    Channels are numbers, all of the same key. *)

Definition demo_listener (l : list Z) : Poll (option Z) * list Z :=
  match l with [] => (Pending, []) | c :: l => (Ready (Some c), l) end.
Definition demo_key (_ : Z) : option unit := Some tt.
Definition demo_new (l : list Z) : MaxChannelsPerKey (list Z) unit := new l 1.
Definition demo_poll (s : MaxChannelsPerKey (list Z) unit) : MaxChannelsPerKey (list Z) unit :=
  match poll_next_loop demo_listener demo_key 8 s with Done (_, s') => s' | _ => s end.

Lemma demo_poll_step s :
  match poll_next_loop demo_listener demo_key 8 s with Done _ => true | _ => false end = true →
  limit_step demo_listener demo_key 8 s (demo_poll s).
Proof.
  unfold demo_poll. destruct (poll_next_loop _ _ _ _) as [[r s']| |] eqn:Hp; [|done..]. intros _. by eapply limit_poll.
Qed.

(** A channel is accepted and dropped; the next one arrives before the notification is
    processed, and so does one more. *)
Definition demo_raced : MaxChannelsPerKey (list Z) unit :=
  demo_poll (demo_poll (drop_channel 0 (demo_poll (demo_new [1; 2; 3]%Z)))).

(** C27: the limit can be exceeded.  The listener polls for new channels before it polls
    for dropped keys, so a channel that arrives after the last channel of its key was
    dropped gets a new tracker before the notification of the old one is read; that
    notification then removes the new tracker, and the next channel of the key starts
    counting from zero.  With a limit of one, two channels of a key are open. *)
Theorem channels_per_key_limit_exceeded :
  rtc (limit_step demo_listener demo_key 8) (demo_new [1; 2; 3]%Z) demo_raced ∧
  mc_channels_per_key demo_raced = 1%Z ∧ open_channels tt demo_raced = 2.
Proof.
  split_and!; [|by vm_compute..].
  eapply rtc_l; [by apply demo_poll_step; vm_compute|].
  eapply rtc_l; [apply (limit_release _ _ _ _ 0)|].
  eapply rtc_l; [apply (limit_drop _ _ _ _ 0)|].
  eapply rtc_l; [by apply demo_poll_step; vm_compute|].
  eapply rtc_once. by apply demo_poll_step; vm_compute.
Qed.

Lemma tracker_never_over_limit_witness :
  (Z.of_nat (strong_count 0 (demo_poll (demo_new [1; 2]%Z))) ≤ Z.max 1 1)%Z.
Proof.
  refine (proj2 (tracker_never_over_limit demo_listener demo_key 8 [1; 2]%Z 1 _ _) _).
  apply rtc_once. apply demo_poll_step. vm_compute. reflexivity.
Defined.

(** A channel is taken and dropped, its key is forgotten, and another one is taken. *)
Definition demo_take (s : MaxChannelsPerKey (list Z) unit) : MaxChannelsPerKey (list Z) unit :=
  match handle_new_channel demo_key 1%Z s with Done (_, s') => s' | _ => s end.
Definition demo_forget (s : MaxChannelsPerKey (list Z) unit) : MaxChannelsPerKey (list Z) unit :=
  match poll_closed_channels s with Done (_, s') => s' | _ => s end.
Definition demo_calm : MaxChannelsPerKey (list Z) unit :=
  demo_take (demo_forget (tracker_drop 0 (release_channel 0 (demo_take (demo_new []))))).

(** No tracker is between its last reference and its notice. *)
Definition demo_still (s : MaxChannelsPerKey (list Z) unit) : bool :=
  bool_decide (dropped s = []) &&
  forallb (λ x, bool_decide (0 < tk_strong x.2) || tk_dropped x.2) (map_to_list (mc_trackers s)).

Lemma demo_still_calm s k : demo_still s = true → ¬ forgetting k s.
Proof.
  intros [Hd%bool_decide_eq_true Hf]%andb_prop [Hk|[t Ht]]; [rewrite Hd in Hk; by apply elem_of_nil in Hk|].
  rewrite forallb_forall in Hf. apply elem_of_map_to_list in Ht.
  specialize (Hf (t, MkTracker k 0 false)). rewrite <- list_elem_of_In in Hf. by specialize (Hf Ht).
Qed.

Lemma demo_take_calm s :
  demo_still s = true → match handle_new_channel demo_key 1%Z s with Done _ => true | _ => false end = true →
  calm_step demo_key s (demo_take s).
Proof.
  intros Hs. unfold demo_take. destruct (handle_new_channel _ _ _) as [[r s']| |] eqn:Hh; [|done..]. intros _.
  eapply calm_channel; [|exact Hh]. intros k _. by apply demo_still_calm.
Qed.

Lemma channels_per_key_limit_witness :
  open_channels tt demo_calm = 1 ∧ (Z.of_nat (open_channels tt demo_calm) ≤ Z.max 1 1)%Z.
Proof.
  split; [vm_compute; reflexivity|]. refine (channels_per_key_limit demo_key [] 1 demo_calm tt _). unfold demo_calm.
  eapply rtc_l; [apply demo_take_calm; vm_compute; reflexivity|].
  eapply rtc_l; [apply (calm_release _ _ 0)|]. eapply rtc_l; [apply (calm_drop _ _ 0)|].
  eapply rtc_l; [|apply rtc_once, demo_take_calm; vm_compute; reflexivity].
  unfold demo_forget. destruct (poll_closed_channels _) as [[r s']| |] eqn:Hp; [by eapply calm_closed|vm_compute in Hp; discriminate Hp..].
Defined.

Lemma limit_poll_returns_witness :
  ∃ r s', poll_next_loop demo_listener demo_key 8 (demo_new [1; 2]%Z) = Done (r, s').
Proof.
  refine (limit_poll_returns demo_listener demo_key (length (A:=Z)) _ 8 (demo_new [1; 2]%Z) _ (new_wf _ _) _).
  - intros [|c l] p l' [= <- <-]; simpl; lia.
  - intros c. by eexists.
  - vm_compute. lia.
Defined.
End ChannelsPerKey.
