(* ===== verification/Hooks.v ===== *)
(** * Service functions and request hooks (tarpc/src/server.rs: [Serve], [ServeFn];
      tarpc/src/server/request_hook.rs and request_hook/*.rs)

    A service function is run to completion on a world [W] of everything it can
    touch, a hook's own state included; [await] is sequencing.  The hooks that run
    before a request may change its context, and stop it with an error. *)
From S2P Require Import Prelude Interfaces RefModels Trace Wire.

Module Hooks.

Section model.
Context {W Req Resp : Type}.

(** The traits [Serve], [BeforeRequest] and [AfterRequest]: a [&mut] argument is
    returned. *)
Definition Serve : Type := Context → Req → M W (Result Resp ServerError).
Definition BeforeRequest : Type := Context → Req → M W (Result unit ServerError * Context).
Definition AfterRequest : Type := Context → Result Resp ServerError → M W (Result Resp ServerError * Context).

(** [serve(f)] and [ServeFn]. *)
Record ServeFn := MkServeFn { f : Context → Req → M W (Result Resp ServerError) }.
Definition serve (g : Context → Req → M W (Result Resp ServerError)) : ServeFn := MkServeFn g.
Definition serve_fn_serve (s : ServeFn) : Serve := λ ctx req, f s ctx req.

(** [HookThenServe]. *)
Record HookThenServe := MkHookThenServe {
  hts_serve : Serve;
  hts_hook : BeforeRequest;
}.
Definition hook_then_serve_new (s : Serve) (hook : BeforeRequest) : HookThenServe := MkHookThenServe s hook.
Definition hook_then_serve (self : HookThenServe) : Serve := λ ctx req,
  x ← hts_hook self ctx req;
  match x with
  | (Err e, _) => mret (Err e)
  | (Ok _, ctx) => hts_serve self ctx req
  end.

(** [ServeThenHook]. *)
Record ServeThenHook := MkServeThenHook {
  sth_serve : Serve;
  sth_hook : AfterRequest;
}.
Definition serve_then_hook_new (s : Serve) (hook : AfterRequest) : ServeThenHook := MkServeThenHook s hook.
Definition serve_then_hook (self : ServeThenHook) : Serve := λ ctx req,
  resp ← sth_serve self ctx req;
  x ← sth_hook self ctx resp;
  mret x.1.

(** [HookThenServeThenHook]: one hook, with both traits. *)
Record HookThenServeThenHook := MkHookThenServeThenHook {
  htsth_serve : Serve;
  htsth_before : BeforeRequest;
  htsth_after : AfterRequest;
}.
Definition hook_then_serve_then_hook_new (s : Serve) (hook : BeforeRequest * AfterRequest) : HookThenServeThenHook :=
  MkHookThenServeThenHook s hook.1 hook.2.
Definition hook_then_serve_then_hook (self : HookThenServeThenHook) : Serve := λ ctx req,
  x ← htsth_before self ctx req;
  match x with
  | (Err e, _) => mret (Err e)
  | (Ok _, ctx) =>
      resp ← htsth_serve self ctx req;
      y ← htsth_after self ctx resp;
      mret y.1
  end.

(** The provided methods of [RequestHook]. *)
Definition request_hook_before (self : Serve) (hook : BeforeRequest) : Serve :=
  hook_then_serve (hook_then_serve_new self hook).
Definition request_hook_after (self : Serve) (hook : AfterRequest) : Serve :=
  serve_then_hook (serve_then_hook_new self hook).
Definition request_hook_before_and_after (self : Serve) (hook : BeforeRequest * AfterRequest) : Serve :=
  hook_then_serve_then_hook (hook_then_serve_then_hook_new self hook).

(** [BeforeRequestNil] and [BeforeRequestCons]: a list of hooks. *)
Inductive BeforeRequestList :=
| BeforeRequestNil
| BeforeRequestCons (first : BeforeRequest) (rest : BeforeRequestList).

(** [before()], [BeforeRequest::before], [then] and [serving] of the two. *)
Definition before : BeforeRequestList := BeforeRequestNil.

Fixpoint list_before (l : BeforeRequestList) : BeforeRequest := λ ctx req,
  match l with
  | BeforeRequestNil => mret (Ok tt, ctx)
  | BeforeRequestCons first rest =>
      x ← first ctx req;
      match x with
      | (Err e, ctx) => mret (Err e, ctx)
      | (Ok _, ctx) =>
          y ← list_before rest ctx req;
          match y with
          | (Err e, ctx) => mret (Err e, ctx)
          | (Ok _, ctx) => mret (Ok tt, ctx)
          end
      end
  end.

Fixpoint list_then (l : BeforeRequestList) (next : BeforeRequest) : BeforeRequestList :=
  match l with
  | BeforeRequestNil => BeforeRequestCons next BeforeRequestNil
  | BeforeRequestCons first rest => BeforeRequestCons first (list_then rest next)
  end.

Definition list_serving (l : BeforeRequestList) (s : Serve) : Serve :=
  match l with
  | BeforeRequestNil => s
  | BeforeRequestCons _ _ => hook_then_serve (hook_then_serve_new s (list_before l))
  end.
End model.

Arguments Serve W Req Resp : clear implicits.
Arguments BeforeRequest W Req : clear implicits.
Arguments AfterRequest W Resp : clear implicits.
Arguments BeforeRequestList W Req : clear implicits.

(** ** What hooks promise *)

Section theorems.
Context {W Req Resp : Type}.
Implicit Types (s : Serve W Req Resp) (hs : list (BeforeRequest W Req)).

(** The reference: run the hooks one after another, each on the context the one
    before left, up to the first that refuses the request. *)
Inductive hooks_run (req : Req) : list (BeforeRequest W Req) → Context → W → Result Context ServerError → W → Prop :=
| hooks_done ctx w : hooks_run req [] ctx w (Ok ctx) w
| hooks_refuse h hs ctx w e ctx' w' :
    h ctx req w = Done ((Err e, ctx'), w') → hooks_run req (h :: hs) ctx w (Err e) w'
| hooks_next h hs ctx w ctx' w' r w'' :
    h ctx req w = Done ((Ok tt, ctx'), w') → hooks_run req hs ctx' w' r w'' →
    hooks_run req (h :: hs) ctx w r w''.

(** The list built by [before().then(h1).then(h2)...]. *)
Definition then_all hs : BeforeRequestList W Req := foldl list_then before hs.
Fixpoint of_list hs : BeforeRequestList W Req :=
  match hs with [] => BeforeRequestNil | h :: hs => BeforeRequestCons h (of_list hs) end.

Lemma then_of_list hs h : list_then (of_list hs) h = of_list (hs ++ [h]).
Proof. induction hs as [|h' hs IH]; [done|]. simpl. by rewrite IH. Qed.

Lemma then_all_of_list hs : then_all hs = of_list hs.
Proof.
  unfold then_all. change before with (of_list []). rewrite <- (app_nil_l hs) at 2.
  generalize (@nil (BeforeRequest W Req)). induction hs as [|h hs IH]; intros hs0; simpl.
  - by rewrite app_nil_r.
  - rewrite then_of_list, IH. by rewrite <- app_assoc.
Qed.

Lemma list_before_run req hs ctx w r w' :
  hooks_run req hs ctx w r w' →
  ∃ ctx', list_before (of_list hs) ctx req w = Done ((match r with Ok _ => Ok tt | Err e => Err e end, ctx'), w') ∧
    match r with Ok c => c = ctx' | Err _ => True end.
Proof.
  induction 1 as [ctx w|h hs ctx w e ctx' w' Hh|h hs ctx w ctx' w' r w'' Hh Hr IH]; cbn [of_list list_before].
  - by exists ctx.
  - exists ctx'. cbv [mbind M_bind mret M_ret]. by rewrite Hh.
  - destruct IH as (c & IH & Hc). exists c. cbv [mbind M_bind mret M_ret]. rewrite Hh, IH. by destruct r.
Qed.

(** C31: hooks added with [then] run in the order they were added, each seeing the
    context the previous one left; the first that returns an error ends the request
    with that error, and neither the later hooks nor the service run; when all pass,
    the service runs once, with the context the hooks left. *)
Theorem hooks_run_in_order hs s ctx req w r w' :
  hooks_run req hs ctx w r w' →
  list_serving (then_all hs) s ctx req w =
    match r with
    | Ok ctx' => s ctx' req w'
    | Err e => Done (Err e, w')
    end.
Proof.
  intros Hr. rewrite then_all_of_list. destruct hs as [|h hs]; [by inversion Hr|].
  change (list_serving (of_list (h :: hs)) s) with (hook_then_serve (hook_then_serve_new s (list_before (of_list (h :: hs))))).
  apply list_before_run in Hr as (ctx' & Hr & Hc). unfold hook_then_serve. cbv [mbind M_bind mret M_ret].
  change (hts_hook (hook_then_serve_new s (list_before (of_list (h :: hs))))) with (list_before (of_list (h :: hs))).
  rewrite Hr. destruct r as [c|e]; [by subst|done].
Qed.

(** A hook that runs before and after a request behaves as that hook put after the
    service and then before the result: the after part runs exactly when the before
    part accepted the request, on the context it left, and decides the response, also
    of a failed request. *)
Theorem before_and_after_composes s (hook : BeforeRequest W Req * AfterRequest W Resp) ctx req w :
  request_hook_before_and_after s hook ctx req w =
    request_hook_before (request_hook_after s hook.2) hook.1 ctx req w ∧
  (∀ ctx1 w1 resp w2 resp' ctx2 w3,
     hook.1 ctx req w = Done ((Ok tt, ctx1), w1) → s ctx1 req w1 = Done (resp, w2) →
     hook.2 ctx1 resp w2 = Done ((resp', ctx2), w3) →
     request_hook_before_and_after s hook ctx req w = Done (resp', w3)) ∧
  (∀ e ctx1 w1, hook.1 ctx req w = Done ((Err e, ctx1), w1) →
     request_hook_before_and_after s hook ctx req w = Done (Err e, w1)).
Proof.
  unfold request_hook_before_and_after, request_hook_before, request_hook_after, hook_then_serve_then_hook,
    hook_then_serve, serve_then_hook. simpl. cbv [mbind M_bind mret M_ret]. split_and!.
  - done.
  - intros * H1 H2 H3. by rewrite H1, H2, H3.
  - intros * H1. by rewrite H1.
Qed.
End theorems.

(** ** The test [before_request_list] of request_hook/before.rs: the world is the cell [i] *)

Definition count_hook (expected : Z) : BeforeRequest Z Z := λ ctx _ i,
  if bool_decide (i = expected) then Done ((Ok tt, ctx), (expected + 1)%Z) else Panicked Unexpected.
Definition add_one : Serve Z Z Z := serve_fn_serve (serve (λ _ i, mret (Ok (i + 1)%Z))).

Lemma hooks_run_in_order_witness :
  list_serving (then_all [count_hook 0; count_hook 1]) add_one (MkContext 10 trace_context_default) 1%Z 0%Z = Done (Ok 2%Z, 2%Z).
Proof.
  refine (hooks_run_in_order [count_hook 0; count_hook 1] add_one (MkContext 10 trace_context_default) 1%Z 0%Z
    (Ok (MkContext 10 trace_context_default)) 2%Z _).
  eapply hooks_next; [reflexivity|]. eapply hooks_next; [reflexivity|]. apply hooks_done.
Defined.
End Hooks.
