(* ===== verification/Stubs.v ===== *)
(** * Stubs (tarpc/src/client/stub.rs and client/stub/*.rs)

    A stub calls a service; load balancers and retries are stubs made of stubs.  A call
    is run to completion on a world [W]: whatever the stubs it calls can touch.  A
    [RoundRobin] adds the counter its clones share. *)
From S2P Require Import Prelude Interfaces RefModels Trace Wire ClientInFlight ClientDispatch Hooks.

Module Stubs.

Section model.
Context {W Req Resp Dyn : Type}.

Abbreviation RpcResult := (Result Resp (RpcError.t Dyn)).

(** The trait [Stub]. *)
Definition Stub (W Req : Type) : Type := Context → Req → M W RpcResult.

(** [Stub for S] where [S] serves requests itself. *)
Definition serve_stub (s : Hooks.Serve W Req Resp) : Stub W Req := λ ctx req,
  r ← s ctx req; mret (result_map_err RpcError.Server r).

(** ** load_balance.rs: round robin *)

(** [AtomicCycle]: the elements and the shared counter, a [usize]. *)
Record Cycle (T : Type) := MkCycle {
  elements : list T;
  next_index : Z;
}.
Arguments MkCycle {T} _ _.
Arguments elements {T} _.
Arguments next_index {T} _.

Definition cycle_new {T} (elements : list T) : Cycle T := MkCycle elements 0.

(** [State::next]: an empty [Vec] panics on the remainder by zero. *)
Definition cycle_next {T} : M (Cycle T) T := λ c,
  let '(next, n') := fetch_add_one (next_index c) in
  let c' := MkCycle (elements c) n' in
  if bool_decide (length (elements c) = 0) then Panicked Unexpected
  else match elements c !! Z.to_nat (next mod Z.of_nat (length (elements c)))%Z with
       | Some x => Done (x, c')
       | None => Panicked Unexpected
       end.

(** [RoundRobin::new] and [call]. *)
Definition round_robin_new (stubs : list (Stub W Req)) : Cycle (Stub W Req) := cycle_new stubs.
Definition round_robin_call (ctx : Context) (request : Req) : M (Cycle (Stub W Req) * W) RpcResult := λ '(c, w),
  match cycle_next c with
  | Done (next, c) =>
      match next ctx request w with
      | Done (r, w) => Done (r, (c, w))
      | Panicked p => Panicked p
      | OutOfFuel => OutOfFuel
      end
  | Panicked p => Panicked p
  | OutOfFuel => OutOfFuel
  end.

(** ** load_balance.rs: consistent hashing *)

Record ConsistentHash := MkConsistentHash {
  stubs : list (Stub W Req);
  stubs_len : Z;
  hasher : Req → Z;
}.

(** [with_hasher]: the length must fit in a [u64]; [hash_one] is the hasher's. *)
Definition with_hasher (ss : list (Stub W Req)) (hash_one : Req → Z) : Result ConsistentHash unit :=
  let len := Z.of_nat (length ss) in
  if bool_decide (len < u64_modulus)%Z then Ok (MkConsistentHash ss len hash_one) else Err tt.

(** [ConsistentHash::new]: the hasher is a random one. *)
Definition consistent_hash_new (ss : list (Stub W Req)) (random_state : Req → Z) : Result ConsistentHash unit :=
  let len := Z.of_nat (length ss) in
  if bool_decide (len < u64_modulus)%Z then Ok (MkConsistentHash ss len random_state) else Err tt.

Definition consistent_hash_call (self : ConsistentHash) : Stub W Req := λ ctx request w,
  if bool_decide (stubs_len self = 0%Z) then Panicked Unexpected
  else
    let index := (hasher self request mod stubs_len self)%Z in
    if bool_decide (index < u64_modulus)%Z then
      match stubs self !! Z.to_nat index with
      | Some next => next ctx request w
      | None => Panicked Unexpected
      end
    else Panicked Unexpected.

(** ** retry.rs

    The attempts are counted by a [u32]; the iterator overflows on its way to its last
    value.  (With overflow checks; without them it would wrap.) *)
Fixpoint retry_loop (should_retry : RpcResult → Z → bool) (stub : Stub W Req)
    (ctx : Context) (request : Req) (i : Z) (n : nat) : M W RpcResult :=
  match n with
  | 0 => no_fuel
  | S n =>
      if bool_decide (i = u32_modulus - 1)%Z then panic
      else
        result ← stub ctx request;
        if should_retry result i then retry_loop should_retry stub ctx request (i + 1) n
        else mret result
  end.

Record Retry := MkRetry {
  retry_should_retry : RpcResult → Z → bool;
  retry_stub : Stub W Req;
}.
Definition retry_new (stub : Stub W Req) (should_retry : RpcResult → Z → bool) : Retry := MkRetry should_retry stub.
Definition retry_call (self : Retry) (n : nat) : Stub W Req := λ ctx request,
  retry_loop (retry_should_retry self) (retry_stub self) ctx request 1 n.

(** ** mock.rs *)

Context `{!EqDecision Req, !Countable Req}.

Definition mock_new (responses : list (Req * Resp)) : gmap Req Resp :=
  foldl (λ m '(k, v), <[k := v]> m) ∅ responses.

Definition mock_not_found : ServerError := MkServerError NotFound "mock (request, response) entry not found".

Definition mock_call (responses : gmap Req Resp) : Stub W Req := λ _ request,
  mret (match responses !! request with
        | Some x => Ok x
        | None => Err (RpcError.Server mock_not_found)
        end).
End model.

Arguments Stub Resp Dyn W Req : clear implicits.
Arguments MkCycle {T} _ _.
Arguments elements {T} _.
Arguments next_index {T} _.
Arguments ConsistentHash W Req Resp Dyn : clear implicits.
Arguments Retry W Req Resp Dyn : clear implicits.

(** ** Round robin is fair *)

Section cycle.
Context {T : Type}.
Implicit Types c : Cycle T.

(** The elements the next [n] calls use. *)
Fixpoint picks (n : nat) c : list T :=
  match n with
  | 0 => []
  | S n => match cycle_next c with Done (x, c') => x :: picks n c' | _ => [] end
  end.

Definition cycle_wf c : Prop := elements c ≠ [] ∧ (0 ≤ next_index c < u64_modulus)%Z.

Lemma cycle_next_done c :
  cycle_wf c → ∃ x, elements c !! Z.to_nat (next_index c mod Z.of_nat (length (elements c)))%Z = Some x ∧
    cycle_next c = Done (x, MkCycle (elements c) ((next_index c + 1) mod u64_modulus)%Z).
Proof.
  intros [Hne [H0 _]]. unfold cycle_next. simpl. assert (Hl : length (elements c) ≠ 0) by by destruct (elements c).
  rewrite bool_decide_eq_false_2 by done.
  destruct (elements c !! _) as [x|] eqn:Hx; [eauto|]. exfalso. apply lookup_ge_None in Hx.
  pose proof (Z.mod_pos_bound (next_index c) (Z.of_nat (length (elements c)))). lia.
Qed.

Lemma cycle_next_wf c x c' : cycle_wf c → cycle_next c = Done (x, c') → cycle_wf c' ∧ elements c' = elements c.
Proof.
  intros Hw Hn. destruct (cycle_next_done c Hw) as (y & _ & E). rewrite E in Hn. simplify_eq/=.
  split; [|done]. destruct Hw as [? ?]. split; [done|]. simpl. apply Z.mod_pos_bound. done.
Qed.

Lemma picks_lookup n c i :
  cycle_wf c → i < n → (next_index c + Z.of_nat n ≤ u64_modulus)%Z →
  picks n c !! i = elements c !! Z.to_nat ((next_index c + Z.of_nat i) mod Z.of_nat (length (elements c)))%Z.
Proof.
  revert c i. induction n as [|n IH]; intros c i Hw Hi Hn; [lia|]. simpl.
  destruct (cycle_next_done c Hw) as (x & Hx & E). rewrite E. destruct i as [|i]; simpl.
  - by rewrite Z.add_0_r, Hx.
  - destruct (decide (n = 0)) as [->|Hn0]; [lia|]. pose proof (cycle_next_wf _ _ _ Hw E) as [Hw' _].
    assert (Hm : ((next_index c + 1) mod u64_modulus = next_index c + 1)%Z).
    { apply Z.mod_small. destruct Hw as [_ ?]. lia. }
    rewrite Hm in *. rewrite IH by (done || simpl; lia). simpl. do 3 f_equal. lia.
Qed.

Lemma picks_length n c : cycle_wf c → length (picks n c) = n.
Proof.
  revert c. induction n as [|n IH]; intros c Hw; [done|]. simpl.
  destruct (cycle_next_done c Hw) as (x & _ & E). rewrite E. simpl. f_equal. apply IH. by eapply cycle_next_wf.
Qed.

Lemma rotate_permutation (k : nat) (l : list T) : Permutation (rotate k l) l.
Proof. unfold rotate. rewrite Permutation_app_comm. by rewrite take_drop. Qed.

(** Round robin is fair: as long as the counter does not wrap around, any run of as
    many calls as there are stubs goes through the stubs in order from where the last
    one stopped, and so uses every stub exactly once. *)
Theorem round_robin_fair c :
  cycle_wf c → (next_index c + Z.of_nat (length (elements c)) ≤ u64_modulus)%Z →
  picks (length (elements c)) c = rotate (Z.to_nat (next_index c)) (elements c) ∧
  Permutation (picks (length (elements c)) c) (elements c).
Proof.
  intros Hw Hn. assert (E : picks (length (elements c)) c = rotate (Z.to_nat (next_index c)) (elements c)).
  { apply list_eq_same_length with (length (elements c)); [by rewrite length_rotate|by apply picks_length|].
    intros i x y Hi. rewrite picks_lookup by done. rewrite lookup_rotate_r by done.
    unfold rotate_nat_add. rewrite Z2Nat.id by (destruct Hw as [_ ?]; lia). congruence. }
  split; [done|]. rewrite E. apply rotate_permutation.
Qed.
End cycle.

(** When the counter wraps around, the cycle is interrupted: the call that gets the
    largest index is followed by one that starts over at the first stub, so with three
    stubs the first one is used twice in a row. *)
Theorem round_robin_wraps_unfairly :
  picks 2 (MkCycle [1; 2; 3]%Z (u64_modulus - 1)) = [1; 1]%Z.
Proof. vm_compute. reflexivity. Qed.

Lemma round_robin_fair_witness :
  picks 3 (MkCycle [10; 20; 30]%Z 4) = [20; 30; 10]%Z ∧ Permutation (picks 3 (MkCycle [10; 20; 30]%Z 4)) [10; 20; 30]%Z.
Proof.
  refine (round_robin_fair (MkCycle [10; 20; 30]%Z 4) _ _); [split; [done|vm_compute; split; [discriminate|reflexivity]]|].
  vm_compute. discriminate.
Defined.

(** ** Consistent hashing and retries *)

Section stubs.
Context {W Req Resp Dyn : Type}.
Implicit Types (ss : list (Stub Resp Dyn W Req)) (hash : Req → Z).

(** Consistent hashing neither fails nor panics on a non-empty list of fewer than
    2{^64} stubs, and sends a request to the stub its hash selects: requests with equal
    hashes go to the same stub, whatever was called before. *)
Theorem consistent_hash_selects ss hash :
  ss ≠ [] → (Z.of_nat (length ss) < u64_modulus)%Z →
  ∃ ch, with_hasher ss hash = Ok ch ∧
    ∀ request, ∃ next, ss !! Z.to_nat (hash request mod Z.of_nat (length ss))%Z = Some next ∧
      ∀ ctx w, consistent_hash_call ch ctx request w = next ctx request w.
Proof.
  intros Hne Hlt. unfold with_hasher. rewrite bool_decide_eq_true_2 by done. eexists. split; [done|]. intros request.
  assert (Hl : (0 < Z.of_nat (length ss))%Z) by (destruct ss; simpl; [done|lia]).
  pose proof (Z.mod_pos_bound (hash request) (Z.of_nat (length ss)) Hl) as Hm.
  destruct (lookup_lt_is_Some_2 ss (Z.to_nat (hash request mod Z.of_nat (length ss)))) as [next Hn]; [lia|].
  exists next. split; [done|]. intros ctx w. unfold consistent_hash_call. simpl.
  rewrite bool_decide_eq_false_2 by lia. rewrite bool_decide_eq_true_2 by lia.
  match goal with |- match ?x with _ => _ end = _ => assert (Hx : x = Some next) by exact Hn end. by rewrite Hx.
Qed.

Context (should_retry : Result Resp (RpcError.t Dyn) → Z → bool) (stub : Stub Resp Dyn W Req).
Context (ctx : Context) (request : Req).

(** [n] attempts, the first numbered [i]: all but the last are to be retried. *)
Inductive attempts : nat → Z → W → Result Resp (RpcError.t Dyn) → W → Prop :=
| attempt_last i w r w' :
    stub ctx request w = Done (r, w') → should_retry r i = false → attempts 1 i w r w'
| attempt_again n i w r w' r' w'' :
    stub ctx request w = Done (r, w') → should_retry r i = true → attempts n (i + 1) w' r' w'' →
    attempts (S n) i w r' w''.

Lemma retry_loop_attempts n i w r w' fuel :
  attempts n i w r w' → n ≤ fuel → (i + Z.of_nat n ≤ u32_modulus - 1)%Z →
  retry_loop should_retry stub ctx request i fuel w = Done (r, w').
Proof.
  intros Ha. revert fuel. induction Ha as [i w r w' Hs Hr|n i w r w' r' w'' Hs Hr Ha IH]; intros [|fuel] Hf Hi; try lia;
    cbn [retry_loop]; rewrite bool_decide_eq_false_2 by lia; cbv [mbind M_bind]; rewrite Hs, Hr; [done|].
  apply IH; lia.
Qed.

Lemma retry_loop_sound fuel i w r w' :
  retry_loop should_retry stub ctx request i fuel w = Done (r, w') → ∃ n, n ≤ fuel ∧ attempts n i w r w'.
Proof.
  revert i w. induction fuel as [|fuel IH]; intros i w; cbn [retry_loop]; [done|].
  case_bool_decide; [done|]. cbv [mbind M_bind]. destruct (stub ctx request w) as [[r1 w1]| |] eqn:Hs; [|done..].
  destruct (should_retry r1 i) eqn:Hr.
  - intros (n & ? & Ha)%IH. exists (S n). split; [lia|]. by eapply attempt_again.
  - intros [= <- <-]. exists 1. split; [lia|]. by apply attempt_last.
Qed.

(** C32: a retrying stub calls its stub with the same context and request until the
    first result that is not to be retried, numbering the attempts from one, and
    returns that result; it returns nothing else. *)
Theorem retry_returns_first_accepted w r w' :
  (∀ n fuel, attempts n 1 w r w' → n ≤ fuel → (Z.of_nat n < u32_modulus - 1)%Z →
     retry_call (retry_new stub should_retry) fuel ctx request w = Done (r, w')) ∧
  (∀ fuel, retry_call (retry_new stub should_retry) fuel ctx request w = Done (r, w') →
     ∃ n, n ≤ fuel ∧ attempts n 1 w r w').
Proof.
  split.
  - intros n fuel Ha Hf Hn. apply (retry_loop_attempts n); [done|done|lia].
  - intros fuel. apply retry_loop_sound.
Qed.
End stubs.

(** ** The tests of load_balance.rs and the mock *)

Definition demo_stub (i : Z) : Stub Z unit unit Z := λ _ _, mret (Ok i).
Definition demo_hash (request : Z) : Z := (request + 1)%Z.

Lemma consistent_hash_selects_witness :
  ∃ ch, with_hasher [demo_stub 3; demo_stub 1; demo_stub 2] demo_hash = Ok ch ∧
    ∀ request, ∃ next, [demo_stub 3; demo_stub 1; demo_stub 2] !! Z.to_nat (demo_hash request mod 3)%Z = Some next ∧
      ∀ ctx w, consistent_hash_call ch ctx request w = next ctx request w.
Proof.
  refine (consistent_hash_selects [demo_stub 3; demo_stub 1; demo_stub 2] demo_hash _ _); [done|]. vm_compute. reflexivity.
Defined.

(** [test_cycle]: the first element comes again after the last. *)
Definition test_cycle : list Z := picks 4 (cycle_new [1; 2; 3]%Z).
Example test_cycle_passes : test_cycle = [1; 2; 3; 1]%Z.
Proof. reflexivity. Qed.

(** *** The hasher of [ConsistentHash]'s test

    A hasher is fed the bytes of a value by its [Hash::hash], in one or more writes.  The
    recorder keeps the last write; the fake hasher answers a write it has recorded. *)
Section fake_hasher.
Context {T : Type} (hash : T → list (list Z)).

(** [HashRecorder]: [write] on it, and its content after [to_hash.hash(&mut recorder)]. *)
Definition recorder_write (_ : list Z) (bytes : list Z) : list Z := bytes.
Definition record (to_hash : T) : list Z := foldl recorder_write [] (hash to_hash).

(** [FakeHasherBuilder::new]. *)
Definition fake_hasher_builder_new (fake_hashes : list (T * Z)) : gmap (list Z) Z :=
  foldl (λ recorded_hashes '(to_hash, fake_hash), <[record to_hash := fake_hash]> recorded_hashes) ∅ fake_hashes.

(** [FakeHasher]: the shared table and its output. *)
Record FakeHasher := MkFakeHasher {
  recorded_hashes : gmap (list Z) Z;
  output : Z;
}.
Definition build_hasher (recorded : gmap (list Z) Z) : FakeHasher := MkFakeHasher recorded 0.
Definition fake_write (self : FakeHasher) (bytes : list Z) : FakeHasher :=
  match recorded_hashes self !! bytes with
  | Some hash => MkFakeHasher (recorded_hashes self) hash
  | None => self
  end.
Definition fake_finish (self : FakeHasher) : Z := output self.

(** [BuildHasher::hash_one]. *)
Definition hash_one (recorded : gmap (list Z) Z) (x : T) : Z := fake_finish (foldl fake_write (build_hasher recorded) (hash x)).

Lemma builder_lookup (l : list (T * Z)) (m : gmap (list Z) Z) x h :
  (∀ y h', (y, h') ∈ l → record y = record x → h' = h) →
  (∃ y, (y, h) ∈ l ∧ record y = record x) ∨ m !! record x = Some h →
  foldl (λ (m : gmap (list Z) Z) '(y, h'), <[record y := h']> m) m l !! record x = Some h.
Proof.
  revert m. induction l as [|[y h'] l IH]; intros m Hu Hx; simpl.
  - destruct Hx as [(y & ?%elem_of_nil & _)|]; done.
  - apply IH; [intros z h1 Hz; apply Hu; by right|].
    destruct (decide (record y = record x)) as [E|Hne].
    + right. rewrite E, lookup_insert_eq. f_equal. apply (Hu y); [by left|done].
    + rewrite lookup_insert_ne by done. destruct Hx as [(z & [[= -> ->]|Hz]%elem_of_cons & E)|]; [done|left; eauto|by right].
Qed.

(** The fake hasher gives every value of its table the hash it was told, if its values
    are hashed by one write and different values write different bytes. *)
Lemma fake_hasher_answers (l : list (T * Z)) x h :
  (∀ y, ∃ bytes, hash y = [bytes]) → (∀ y h', (y, h') ∈ l → hash y = hash x → h' = h) → (x, h) ∈ l →
  hash_one (fake_hasher_builder_new l) x = h.
Proof.
  intros Hw Hu Hx. assert (Hrec : ∀ y, hash y = [record y]) by (intros y; unfold record; by destruct (Hw y) as [b ->]).
  unfold hash_one. rewrite Hrec. simpl. unfold fake_write. simpl. unfold fake_hasher_builder_new.
  rewrite (builder_lookup l ∅ x h); [done| |left; eauto]. intros y h' Hy E. apply (Hu y h' Hy). by rewrite !Hrec, E.
Qed.
End fake_hasher.

(** [Hash for char] writes its code point as a [u32], least significant byte first. *)
Definition hash_char (c : Z) : list (list Z) :=
  [map (λ k, Z.land (Z.shiftr c (8 * k)) 255) [0; 1; 2; 3]%Z].

(** [test]: 'a', 'b' and 'c' hash to 1, 2 and 3, so they go to the second, third and
    first mock, in both rounds. *)
Definition test_mock (v : Z) : Stub Z unit unit Z := mock_call (mock_new [(97, v); (98, v); (99, v)]%Z).
Definition test_hashing : list (Exec (Result Z (RpcError.t unit) * unit)) :=
  match with_hasher [test_mock 3; test_mock 1; test_mock 2]
          (hash_one hash_char (fake_hasher_builder_new hash_char [(97, 1); (98, 2); (99, 3)]%Z)) with
  | Ok stub => map (λ c, consistent_hash_call stub (MkContext 10 trace_context_default) c tt) [97; 98; 99; 97; 98; 99]%Z
  | Err _ => []
  end.
Example test_hashing_passes : test_hashing = map (λ v, Done (Ok v, tt)) [1; 2; 3; 1; 2; 3]%Z.
Proof. vm_compute. reflexivity. Qed.
End Stubs.
