(* ===== verification/Plugins.v ===== *)
(** * The service macro (plugins/src/lib.rs): input

    [#[tarpc::service]] turns a trait into a client and a server.  syn has parsed its
    input into the structures below; modelled here are the checks the macro makes on
    them, the derives and the names it chooses; [Codegen] has the code it generates.
    Spans of error messages are left out. *)
From S2P Require Import Prelude.
From stdpp Require Import pretty strings.
From Stdlib Require Import Ascii.

Module Plugins.

(** ** Parsed input *)

(** [Ident]: [r#] identifiers are raw. *)
Record Ident := MkIdent { id_raw : bool; id_name : string }.
Definition ident_to_string (i : Ident) : string := if id_raw i then ("r#" ++ id_name i)%string else id_name i.
Definition unraw (i : Ident) : Ident := MkIdent false (id_name i).
Definition ident_is (i : Ident) (s : string) : bool := String.eqb (ident_to_string i) s.

(** [syn::Error]: one message, or several combined. *)
Definition Error : Type := list string.

(** [extend_errors!]. *)
Definition extend_errors {A} (errors : Result A Error) (e : string) : Result A Error :=
  match errors with
  | Ok _ => Err [e]
  | Err es => Err (es ++ [e])
  end.

(** [PatIdent]: [ref mut i @ p], of which only the identifier is required; the
    subpattern as its tokens. *)
Record IdentPat := MkIdentPat {
  by_ref : bool;
  mutability : bool;
  pat_ident : Ident;
  subpat : option string;
}.
(** A pattern that is nothing but an identifier. *)
Definition plain (i : Ident) : IdentPat := MkIdentPat false false i None.
Definition is_plain (p : IdentPat) : bool := negb (by_ref p) && negb (mutability p) && bool_decide (subpat p = None).

Inductive Pat := PatIdent (p : IdentPat) | PatOther.
Inductive FnArg (Ty : Type) := Typed (pat : Pat) (ty : Ty) | Receiver.
Arguments Typed {Ty} _ _.
Arguments Receiver {Ty}.

(** [PatType] whose pattern is a [PatIdent]. *)
Record PatType (Ty : Type) := MkPatType { pat : IdentPat; ty : Ty }.
Arguments MkPatType {Ty} _ _.
Arguments pat {Ty} _.
Arguments ty {Ty} _.

Inductive Style := Outer | Inner.
(** An attribute: its style, whether its meta is a list, its path if it is one identifier,
    and the rest of its tokens. *)
Record Attribute := MkAttribute {
  at_style : Style;
  at_is_list : bool;
  at_path : option string;
  at_tokens : string;
}.

Record RpcMethod (Ty : Type) := MkRpcMethod {
  rpc_attrs : list Attribute;
  rpc_ident : Ident;
  rpc_args : list (PatType Ty);
  rpc_output : option Ty;
}.
Arguments MkRpcMethod {Ty} _ _ _ _.
Arguments rpc_attrs {Ty} _.
Arguments rpc_ident {Ty} _.
Arguments rpc_args {Ty} _.
Arguments rpc_output {Ty} _.

Record Service (Ty : Type) := MkService {
  sv_attrs : list Attribute;
  (** The tokens of the visibility. *)
  sv_vis : string;
  sv_ident : Ident;
  sv_rpcs : list (RpcMethod Ty);
}.
Arguments MkService {Ty} _ _ _ _.
Arguments sv_attrs {Ty} _.
Arguments sv_vis {Ty} _.
Arguments sv_ident {Ty} _.
Arguments sv_rpcs {Ty} _.

Section parse.
Context {Ty : Type}.

(** [Parse for RpcMethod], after the tokens: only typed arguments whose pattern is a
    [PatIdent] are allowed. *)
Fixpoint collect_args (args : list (FnArg Ty)) (acc : list (PatType Ty)) (errors : Result unit Error)
    : list (PatType Ty) * Result unit Error :=
  match args with
  | [] => (acc, errors)
  | Typed (PatIdent p) t :: args => collect_args args (acc ++ [MkPatType p t]) errors
  | Typed PatOther _ :: args => collect_args args acc (extend_errors errors "patterns aren't allowed in RPC args")
  | Receiver :: args => collect_args args acc (extend_errors errors "method args cannot start with self")
  end.

Definition parse_rpc_method (attrs : list Attribute) (ident : Ident) (args : list (FnArg Ty)) (output : option Ty)
    : Result (RpcMethod Ty) Error :=
  let '(args, errors) := collect_args args [] (Ok tt) in
  match errors with
  | Err e => Err e
  | Ok _ => Ok (MkRpcMethod attrs ident args output)
  end.

(** [Parse for Service], after the tokens: two method names are taken. *)
Definition check_ident (service : Ident) (errors : Result unit Error) (rpc : RpcMethod Ty) : Result unit Error :=
  let errors :=
    if ident_is (rpc_ident rpc) "new"
    then extend_errors errors ("method name conflicts with generated fn `" ++ ident_to_string (unraw service) ++ "Client::new`")%string
    else errors in
  if ident_is (rpc_ident rpc) "serve"
  then extend_errors errors ("method name conflicts with generated fn `" ++ ident_to_string service ++ "::serve`")%string
  else errors.

Definition parse_service (attrs : list Attribute) (vis : string) (ident : Ident) (rpcs : list (RpcMethod Ty)) : Result (Service Ty) Error :=
  match foldl (check_ident ident) (Ok tt) rpcs with
  | Err e => Err e
  | Ok _ => Ok (MkService attrs vis ident rpcs)
  end.

(** [collect_cfg_attrs]. *)
Definition is_cfg (a : Attribute) : bool :=
  match at_style a with
  | Outer => at_is_list a && match at_path a with Some p => String.eqb p "cfg" | None => false end
  | Inner => false
  end.
Definition collect_cfg_attrs (rpcs : list (RpcMethod Ty)) : list (list Attribute) :=
  map (λ rpc, List.filter is_cfg (rpc_attrs rpc)) rpcs.
End parse.

(** *** The arguments of the attribute *)

Inductive Lit := LitBool (value : bool) | LitOther.
Inductive Expr := ExprArray (elems : list Expr) | ExprLit (lit : Lit) | ExprPath (path : string) | ExprOther.
Record MetaNameValue := MkMetaNameValue { mn_path : list string; mn_value : Expr }.

Inductive Derive := Explicit (paths : list string) | Serde (value : bool).
Record DeriveMeta := MkDeriveMeta { derive : option Derive; warnings : list string }.
Definition derive_meta_default : DeriveMeta := MkDeriveMeta None [].

Definition with_derives (new : list string) (self : DeriveMeta) : DeriveMeta :=
  match derive self with
  | Some (Explicit old) => MkDeriveMeta (Some (Explicit (old ++ new))) (warnings self)
  | _ => MkDeriveMeta (Some (Explicit new)) (warnings self)
  end.

Section derive_meta.
(** [cfg!(feature = serde1)]. *)
Context (serde1 : bool).

Definition unsupported : string := "tarpc::service does not support this meta item".

(** The loop over the items: the result so far and the items kept. *)
Record MetaState := MkMetaState {
  ms_result : Result DeriveMeta Error;
  ms_derives : nat;
  ms_derive_serde : nat;
  ms_has_derive_serde : bool;
  ms_has_explicit_derives : bool;
}.

(** The paths of an array, errors for the other elements. *)
Fixpoint collect_paths (elems : list Expr) (result : Result DeriveMeta Error) : list string * Result DeriveMeta Error :=
  match elems with
  | [] => ([], result)
  | ExprPath p :: elems => let '(ps, result) := collect_paths elems result in (p :: ps, result)
  | _ :: elems => collect_paths elems (extend_errors result "Expected Path or Type")
  end.

Definition meta_item (s : MetaState) (meta : MetaNameValue) : MetaState :=
  let unsupported_item :=
    MkMetaState (extend_errors (ms_result s) unsupported) (ms_derives s) (ms_derive_serde s)
      (ms_has_derive_serde s) (ms_has_explicit_derives s) in
  match mn_path meta with
  | [segment] =>
      if String.eqb segment "derive" then
        match mn_value meta with
        | ExprArray elems =>
            let '(paths, result) := collect_paths elems (ms_result s) in
            MkMetaState (result_map (with_derives paths) result) (S (ms_derives s)) (ms_derive_serde s)
              (ms_has_derive_serde s) true
        | _ => MkMetaState (extend_errors (ms_result s) unsupported) (ms_derives s) (ms_derive_serde s)
                 (ms_has_derive_serde s) true
        end
      else if String.eqb segment "derive_serde" then
        match mn_value meta with
        | ExprLit lit =>
            let result :=
              match lit with
              | LitBool true =>
                  if serde1 then result_map (λ d, MkDeriveMeta (Some (Serde true)) (warnings d)) (ms_result s)
                  else extend_errors (ms_result s) "To enable serde, first enable the `serde1` feature of tarpc"
              | LitBool false => result_map (λ d, MkDeriveMeta (Some (Serde false)) (warnings d)) (ms_result s)
              | LitOther => extend_errors (ms_result s) "`derive_serde` expects a value of type `bool`"
              end in
            MkMetaState result (ms_derives s) (S (ms_derive_serde s)) true (ms_has_explicit_derives s)
        | _ => MkMetaState (extend_errors (ms_result s) "expected literal") (ms_derives s) (ms_derive_serde s)
                 true (ms_has_explicit_derives s)
        end
      else unsupported_item
  | _ => unsupported_item
  end.

Definition deprecation : string := "The form `tarpc::service(derive_serde = true)` is deprecated.".

(** One error for each occurrence of an item that may appear once only. *)
Definition repeated (what : string) (n : nat) (result : Result DeriveMeta Error) : Result DeriveMeta Error :=
  if bool_decide (1 < n)
  then foldl (λ r (i : nat), extend_errors r (what ++ " appears more than once (occurrence #" ++ pretty (i + 1) ++ ")")%string)
         result (seq 0 n)
  else result.

(** [Parse for DeriveMeta]. *)
Definition parse_derive_meta (items : list MetaNameValue) : Result DeriveMeta Error :=
  let s := foldl meta_item (MkMetaState (Ok derive_meta_default) 0 0 false false) items in
  let result := ms_result s in
  let result :=
    if ms_has_derive_serde s then result_map (λ d, MkDeriveMeta (derive d) (warnings d ++ [deprecation])) result
    else result in
  let result :=
    if ms_has_explicit_derives s && ms_has_derive_serde s
    then extend_errors result "tarpc does not support `derive_serde` and `derive` at the same time" else result in
  let result := repeated "`derive_serde`" (ms_derive_serde s) result in
  repeated "`derive`" (ms_derives s) result.

(** The derives of the generated enums: [None] adds no attribute. *)
Inductive DeriveAttr := DerivePaths (paths : list string) | DeriveSerde.
Definition derives_of (d : option Derive) : option DeriveAttr :=
  match d with
  | Some (Explicit paths) => match paths with [] => None | _ => Some (DerivePaths paths) end
  | Some (Serde serde) => if serde then Some DeriveSerde else None
  | None => if serde1 then Some DeriveSerde else None
  end.
End derive_meta.

(** ** Names *)

(** ASCII letters; identifiers with other letters follow Unicode's case mapping. *)
Definition is_lower (c : ascii) : bool := (97 <=? nat_of_ascii c)%nat && (nat_of_ascii c <=? 122)%nat.
Definition is_upper (c : ascii) : bool := (65 <=? nat_of_ascii c)%nat && (nat_of_ascii c <=? 90)%nat.
Definition to_uppercase (c : ascii) : ascii := if is_lower c then ascii_of_nat (nat_of_ascii c - 32) else c.
Definition to_lowercase (c : ascii) : ascii := if is_upper c then ascii_of_nat (nat_of_ascii c + 32) else c.
Definition underscore : ascii := "_"%char.

(** The loop of [snake_to_camel]. *)
Fixpoint camel_loop (last_char_was_underscore : bool) (s : string) : string :=
  match s with
  | EmptyString => EmptyString
  | String c s =>
      if Ascii.eqb c underscore then camel_loop true s
      else if last_char_was_underscore then String (to_uppercase c) (camel_loop false s)
      else String (to_lowercase c) (camel_loop false s)
  end.
Definition snake_to_camel (ident_str : string) : string := camel_loop true ident_str.

(** ** Theorems *)

Section theorems.
Context {Ty : Type}.

(** *** Parsing *)

Lemma extend_errors_err {A} (r : Result A Error) e : ∃ es, extend_errors r e = Err es.
Proof. destruct r; simpl; eauto. Qed.

Definition ident_arg (a : FnArg Ty) : option (PatType Ty) :=
  match a with Typed (PatIdent p) t => Some (MkPatType p t) | _ => None end.

Lemma collect_args_spec (args : list (FnArg Ty)) acc errors :
  (collect_args args acc errors).1 = acc ++ omap ident_arg args ∧
  ((collect_args args acc errors).2 = Ok tt ↔ errors = Ok tt ∧ Forall (λ a, is_Some (ident_arg a)) args).
Proof.
  revert acc errors. induction args as [|a args IH]; intros acc errors; cbn [collect_args].
  - rewrite app_nil_r. split; [done|]. split; [|by intros [? _]]. intros E. by split; [|constructor].
  - destruct a as [[i|] t|]; simpl.
    + destruct (IH (acc ++ [MkPatType i t]) errors) as [-> ->]. rewrite <- app_assoc. split; [done|].
      rewrite Forall_cons. naive_solver.
    + destruct (IH acc (extend_errors errors "patterns aren't allowed in RPC args")) as [-> ->]. split; [done|].
      rewrite Forall_cons. destruct (extend_errors_err errors "patterns aren't allowed in RPC args") as [es ->].
      simpl. split; [by intros [? _]|intros (_ & [? ?] & _); done].
    + destruct (IH acc (extend_errors errors "method args cannot start with self")) as [-> ->]. split; [done|].
      rewrite Forall_cons. destruct (extend_errors_err errors "method args cannot start with self") as [es ->].
      simpl. split; [by intros [? _]|intros (_ & [? ?] & _); done].
Qed.

Lemma foldl_check_ident_err ident (rpcs : list (RpcMethod Ty)) e :
  ∃ e', foldl (check_ident ident) (Err e) rpcs = Err e'.
Proof.
  revert e. induction rpcs as [|r rpcs IH]; intros e; simpl; [eauto|]. unfold check_ident.
  destruct (ident_is (rpc_ident r) "new"), (ident_is (rpc_ident r) "serve"); simpl; apply IH.
Qed.

(** The macro accepts a method exactly when all its arguments are typed and bound by an
    identifier ([mut x] included), and keeps them in order; it accepts a trait exactly when none of its
    methods is named like one of the functions it generates. *)
Theorem service_parse_accepts attrs vis ident (rpcs : list (RpcMethod Ty)) mattrs mident (args : list (FnArg Ty)) output :
  (∀ rpc, parse_rpc_method mattrs mident args output = Ok rpc ↔
     Forall (λ a, is_Some (ident_arg a)) args ∧ rpc = MkRpcMethod mattrs mident (omap ident_arg args) output) ∧
  (∀ sv, parse_service attrs vis ident rpcs = Ok sv ↔
     Forall (λ rpc, ident_is (rpc_ident rpc) "new" = false ∧ ident_is (rpc_ident rpc) "serve" = false) rpcs ∧
     sv = MkService attrs vis ident rpcs).
Proof.
  split.
  - intros rpc. unfold parse_rpc_method. destruct (collect_args_spec args [] (Ok tt)) as [E1 E2].
    destruct (collect_args args [] (Ok tt)) as [acc errors]. simpl in *. subst acc.
    destruct errors as [[]|e]; [|split; [done|intros [? _]; by destruct E2 as [_ E2]; discriminate E2]].
    split; [intros [= <-]; split; [by apply E2|done]|by intros [_ ->]].
  - intros sv. unfold parse_service.
    assert (Hf : match foldl (check_ident ident) (Ok tt) rpcs with Ok _ => true | Err _ => false end = true ↔
      Forall (λ rpc, ident_is (rpc_ident rpc) "new" = false ∧ ident_is (rpc_ident rpc) "serve" = false) rpcs).
    { induction rpcs as [|r rpcs IH]; simpl; [by split; [constructor|]|]. rewrite Forall_cons, <- IH. clear IH.
      unfold check_ident at 2. destruct (ident_is (rpc_ident r) "new"), (ident_is (rpc_ident r) "serve"); simpl;
        try (edestruct foldl_check_ident_err as [e' ->]; naive_solver). naive_solver. }
    destruct (foldl _ _ _); naive_solver.
Qed.
End theorems.

(** *** The attribute's arguments *)

Section derive_meta_theorems.
Context (serde1 : bool).

Lemma collect_paths_ok elems r ps d : collect_paths elems r = (ps, Ok d) ↔ r = Ok d ∧ elems = map ExprPath ps.
Proof.
  revert r ps. induction elems as [|e elems IH]; intros r ps; cbn [collect_paths].
  - split; [by intros [= <- ->]|]. intros [-> E]. by destruct ps.
  - assert (Hbad : collect_paths elems (extend_errors r "Expected Path or Type") ≠ (ps, Ok d)).
    { intros [E _]%IH. destruct (extend_errors_err r "Expected Path or Type") as [es E']. by rewrite E' in E. }
    destruct e as [es|l|path|]; try (split; [done|]; intros [_ E]; by destruct ps).
    destruct (collect_paths elems r) as [ps' r'] eqn:Hc. split.
    + intros [= <- ->]. apply IH in Hc as [-> ->]. done.
    + intros [-> E]. destruct ps as [|p ps]; simplify_eq/=.
      assert (collect_paths (map ExprPath ps) (Ok d) = (ps, Ok d)) as E by by apply IH.
      rewrite E in Hc. by simplify_eq.
Qed.

(** An item that keeps the result good is one of the two that are supported. *)
Definition good_item (m : MetaNameValue) (d d' : DeriveMeta) : Prop :=
  (∃ ps, m = MkMetaNameValue ["derive"] (ExprArray (map ExprPath ps)) ∧ d' = with_derives ps d) ∨
  (∃ b, m = MkMetaNameValue ["derive_serde"] (ExprLit (LitBool b)) ∧ (b = true → serde1 = true) ∧
     d' = MkDeriveMeta (Some (Serde b)) (warnings d)).

Lemma meta_item_ok st m d' :
  ms_result (meta_item serde1 st m) = Ok d' → ∃ d, ms_result st = Ok d ∧ good_item m d d'.
Proof.
  assert (Hext : ∀ e, extend_errors (ms_result st) e ≠ Ok d').
  { intros e E. destruct (extend_errors_err (ms_result st) e) as [es E']. by rewrite E' in E. }
  unfold meta_item. destruct m as [[|seg [|? ?]] v]; simpl; try (intros E; by apply Hext in E).
  destruct (String.eqb_spec seg "derive") as [->|_].
  { destruct v as [elems|l|p|]; simpl; try (intros E; by apply Hext in E).
    destruct (collect_paths elems (ms_result st)) as [ps r] eqn:Hc. simpl. destruct r as [d|]; [|done].
    simpl. intros [= <-]. apply collect_paths_ok in Hc as [-> ->]. exists d. split; [done|]. left. by exists ps. }
  destruct (String.eqb_spec seg "derive_serde") as [->|_]; [|intros E; by apply Hext in E].
  destruct v as [elems|l|p|]; simpl; try (intros E; by apply Hext in E).
  destruct l as [[]|]; try (intros E; by apply Hext in E).
  - destruct serde1 eqn:Hs; [|intros E; by apply Hext in E]. destruct (ms_result st) as [d|]; [|done]. intros [= <-].
    exists d. split; [done|]. right. by exists true.
  - destruct (ms_result st) as [d|]; [|done]. intros [= <-]. exists d. split; [done|]. right. by exists false.
Qed.

(** Every item kept is counted, and flagged. *)
Record counted (st : MetaState) (n : nat) : Prop := {
  ct_total : ms_derives st + ms_derive_serde st = n;
  ct_serde : 0 < ms_derive_serde st → ms_has_derive_serde st = true;
  ct_derive : 0 < ms_derives st → ms_has_explicit_derives st = true;
}.

Lemma meta_item_counted st m d d' n :
  good_item m d d' → counted st n → counted (meta_item serde1 st m) (S n).
Proof.
  intros Hg [C1 C2 C3]. unfold meta_item. destruct Hg as [(ps & -> & _)|(b & -> & _)]; simpl.
  - destruct (collect_paths _ _). split; simpl; [lia|done|done].
  - split; simpl; [lia|done|done].
Qed.

Lemma foldl_meta_counted items st n d' :
  counted st n → ms_result (foldl (meta_item serde1) st items) = Ok d' →
  counted (foldl (meta_item serde1) st items) (length items + n) ∧ ∃ d, ms_result st = Ok d.
Proof.
  revert st n. induction items as [|m items IH]; intros st n Hc; simpl; [eauto|]. intros Hr.
  assert (Hm : ∃ d1, ms_result (meta_item serde1 st m) = Ok d1).
  { clear IH Hc. revert Hr. generalize (meta_item serde1 st m). induction items as [|m' items IH]; intros st'; simpl; [eauto|].
    intros (d1 & Hd1)%IH. by apply meta_item_ok in Hd1 as (d & -> & _); eauto. }
  destruct Hm as [d1 Hm]. pose proof Hm as Hm'. apply meta_item_ok in Hm' as (d & Hd & Hg).
  destruct (IH _ _ (meta_item_counted _ _ _ _ _ Hg Hc) Hr) as [Hc' _]. split; [|eauto].
  by replace (S (length items + n)) with (length items + S n) by lia.
Qed.

Lemma repeated_ok what n r d : repeated what n r = Ok d → n ≤ 1 ∧ r = Ok d.
Proof.
  unfold repeated. case_bool_decide as Hn; [|intros ->; split; [lia|done]]. destruct n as [|n]; [lia|]. cbn [seq foldl].
  intros E. exfalso. revert E. destruct (extend_errors_err r (what ++ " appears more than once (occurrence #" ++ pretty (0 + 1) ++ ")")%string) as [es ->].
  generalize (seq 1 n) es. intros l. induction l as [|i l IH]; intros es'; simpl; [done|apply IH].
Qed.

(** The attribute accepts exactly four forms: no argument; one [derive] with a list
    of paths; [derive_serde = true], when the [serde1] feature is on; and
    [derive_serde = false].  Anything repeated, mixed or else is an error. *)
Theorem derive_meta_accepts items d :
  parse_derive_meta serde1 items = Ok d ↔
    (items = [] ∧ d = derive_meta_default) ∨
    (∃ ps, items = [MkMetaNameValue ["derive"] (ExprArray (map ExprPath ps))] ∧ d = MkDeriveMeta (Some (Explicit ps)) []) ∨
    (∃ b, items = [MkMetaNameValue ["derive_serde"] (ExprLit (LitBool b))] ∧ (b = true → serde1 = true) ∧
       d = MkDeriveMeta (Some (Serde b)) [deprecation]).
Proof.
  split.
  - unfold parse_derive_meta. set (st0 := MkMetaState (Ok derive_meta_default) 0 0 false false).
    intros [Hn1 [Hn2 H]%repeated_ok]%repeated_ok.
    set (st := foldl (meta_item serde1) st0 items) in *.
    destruct (ms_has_explicit_derives st && ms_has_derive_serde st) eqn:Hboth.
    { match type of H with extend_errors ?r ?e = _ => destruct (extend_errors_err r e) as [es E] end. by rewrite E in H. }
    assert (Hr : ∃ d1, ms_result st = Ok d1).
    { destruct (ms_has_derive_serde st), (ms_result st); simpl in H; simplify_eq; eauto. }
    destruct Hr as [d1 Hr].
    destruct (foldl_meta_counted items st0 0 d1) as [[C1 C2 C3] _]; [by split; simpl; [|lia..]|done|]. fold st in C1, C2, C3.
    assert (length items ≤ 1).
    { destruct (ms_derives st) as [|[|]], (ms_derive_serde st) as [|[|]]; try lia.
      rewrite C2, C3 in Hboth by lia. done. }
    destruct items as [|m [|? ?]]; [left; by simplify_eq/=| |simpl in *; lia]. right.
    assert (Hst : st = meta_item serde1 st0 m) by done.
    assert (Hm := Hr). rewrite Hst in Hm. apply meta_item_ok in Hm as (d0 & E0 & Hg). injection E0 as <-.
    destruct Hg as [(ps & -> & ->)|(b & -> & Hb & ->)]; [left|right].
    + exists ps. split; [done|]. rewrite Hr in H.
      assert (Hs : ms_has_derive_serde st = false) by (rewrite Hst; unfold meta_item; simpl; by destruct (collect_paths _ _)).
      rewrite Hs in H. simpl in H. by simplify_eq.
    + exists b. split_and!; [done|done|]. rewrite Hr in H.
      assert (Hs : ms_has_derive_serde st = true) by (rewrite Hst; done). rewrite Hs in H. simpl in H. by simplify_eq.
  - intros [[-> ->]|[(ps & -> & ->)|(b & -> & Hb & ->)]]; [done| |].
    + unfold parse_derive_meta. simpl. unfold meta_item. simpl.
      assert (collect_paths (map ExprPath ps) (Ok derive_meta_default) = (ps, Ok derive_meta_default)) as -> by by apply collect_paths_ok.
      done.
    + unfold parse_derive_meta. simpl. unfold meta_item. simpl. destruct b; [rewrite Hb by done|]; done.
Qed.
End derive_meta_theorems.

(** *** Names *)

Fixpoint without_underscores (s : string) : string :=
  match s with
  | EmptyString => EmptyString
  | String c s => if Ascii.eqb c underscore then without_underscores s else String c (without_underscores s)
  end.
Fixpoint lowercase (s : string) : string :=
  match s with EmptyString => EmptyString | String c s => String (to_lowercase c) (lowercase s) end.

Lemma case_facts c :
  to_lowercase (to_uppercase c) = to_lowercase c ∧ to_lowercase (to_lowercase c) = to_lowercase c ∧
  Ascii.eqb (to_uppercase c) underscore = Ascii.eqb c underscore ∧
  Ascii.eqb (to_lowercase c) underscore = Ascii.eqb c underscore.
Proof. by destruct c as [[] [] [] [] [] [] [] []]; vm_compute. Qed.

(** A variant's name is the method's name without its underscores, letter for
    letter up to case, and has no underscore itself. *)
Theorem snake_to_camel_letters s :
  lowercase (snake_to_camel s) = lowercase (without_underscores s) ∧
  without_underscores (snake_to_camel s) = snake_to_camel s.
Proof.
  unfold snake_to_camel. generalize true. induction s as [|c s IH]; intros b; [done|]. simpl.
  destruct (case_facts c) as (C1 & C2 & C3 & C4). destruct (Ascii.eqb c underscore) eqn:Hc; [apply IH|].
  destruct (IH false) as [I1 I2]. destruct b; simpl; rewrite ?C3, ?C4, ?C1, ?C2, I1, I2; done.
Qed.
End Plugins.
