(* ===== verification/Codegen.v ===== *)
(** * The service macro (plugins/src/lib.rs): generated code

    [ServiceGenerator] emits the items of a service: the trait, the server's dispatch, the
    enums of requests and responses and the client.  Here the items are syntax trees
    in place of tokens, one constructor per [quote!] block, with the bodies the
    program runs as expressions; [eval] runs them, [active] strips what [cfg] attributes
    switch off, and [accepted] are the rules of Rust on names that the generated code
    must satisfy to compile.  The theorems say when the macro itself panics, what it
    leaves to the compiler to reject, and that code the compiler accepts does what the
    service's author expects. *)
From S2P Require Import Prelude Interfaces RefModels Trace Wire ClientInFlight ClientDispatch Hooks Stubs Plugins.
From stdpp Require Import strings.
From Stdlib Require Import Ascii.

Module Codegen.
Export Plugins.

(** ** Names *)

Definition is_digit (c : ascii) : bool := (48 <=? nat_of_ascii c)%nat && (nat_of_ascii c <=? 57)%nat.

(** [Ident::new] on letters, digits and underscores of an identifier (ASCII ones, as
    everywhere in this model): it panics when they do not make one. *)
Definition ident_new (s : string) : Exec Ident :=
  match s with
  | EmptyString => Panicked Unexpected
  | String c _ => if is_digit c then Panicked Unexpected else Done (MkIdent false s)
  end.

(** The name a pattern binds. *)
Definition pat_name (p : IdentPat) : string := id_name (pat_ident p).

(** [format_ident!] with one identifier: [r#] is stripped. *)
Definition format_ident (before : string) (i : Ident) (after : string) : Ident :=
  MkIdent false (before ++ id_name i ++ after).

(** ** Code *)

Inductive Expr :=
| EVar (x : string)
| EField (e : Expr) (field : string)
| EString (s : string)
| ELet (x : string) (e body : Expr)
(** [Enum::Variant { f, ... }] *)
| EStruct (enum variant : Ident) (fields : list IdentPat)
(** [Enum::Variant(e)] *)
| ETuple (enum variant : Ident) (e : Expr)
| EOk (e : Expr)
(** [Service::method(self, ctx, arg, ...).await] *)
| EMethod (service method : Ident) (self ctx : Expr) (args : list IdentPat)
(** [stub.call(ctx, request)] *)
| ECall (stub ctx request : Expr)
(** [future.await?] *)
| ETry (future : Expr)
(** [match e { Enum::Variant(x) => body, _ => unreachable!() }] *)
| EMatch (e : Expr) (enum variant : Ident) (x : string) (body : Expr).

(** A [match] arm on a struct variant: its attributes, the fields it binds. *)
Record Arm := MkArm { arm_attrs : list Attribute; arm_variant : Ident; arm_fields : list IdentPat; arm_body : Expr }.

Section syntax.
Context {Ty : Type}.

Record Fn := MkFn {
  fn_attrs : list Attribute;
  fn_ident : Ident;
  (** The name of the parameter of type [Context], after [self]. *)
  fn_context : string;
  fn_args : list (PatType Ty);
  fn_output : Ty;
  (** A function of a trait has no body. *)
  fn_body : option Expr;
}.

Inductive Fields := Named (fields : list (PatType Ty)) | Unnamed (t : Ty).
Record Variant := MkVariant { var_attrs : list Attribute; var_ident : Ident; var_fields : Fields }.

Inductive Item :=
(** The trait, whose [serve] makes the given struct. *)
| TraitService (attrs : list Attribute) (vis : string) (ident : Ident) (fns : list Fn) (serve : Ident)
| TraitStub (doc vis : string) (ident request response : Ident)
| ImplStub (ident request response : Ident)
| StructServer (vis : string) (ident : Ident)
| ImplServe (server service request response : Ident) (arms : list Arm)
| Enum (derives : option DeriveAttr) (vis : string) (ident : Ident) (variants : list Variant)
| ImplRequestName (request : Ident) (arms : list Arm)
| StructClient (vis : string) (ident request response : Ident)
| ImplNew (client : Ident) (vis : string) (request response : Ident)
| ImplFrom (client request response : Ident)
| ImplMethods (client request response : Ident) (vis : string) (fns : list Fn)
| Warning (tokens : string).

(** ** The generator *)

Record ServiceGenerator := MkServiceGenerator {
  service_ident : Ident;
  client_stub_ident : Ident;
  server_ident : Ident;
  client_ident : Ident;
  request_ident : Ident;
  response_ident : Ident;
  vis : string;
  attrs : list Attribute;
  rpcs : list (RpcMethod Ty);
  camel_case_idents : list Ident;
  method_idents : list Ident;
  request_names : list string;
  method_attrs : list (list Attribute);
  method_cfgs : list (list Attribute);
  args : list (list (PatType Ty));
  return_types : list Ty;
  arg_pats : list (list IdentPat);
  derives : option DeriveAttr;
  gen_warnings : list string;
}.

Implicit Types g : ServiceGenerator.

(** [#( ... )*]: the lists are iterated in step. *)
Definition repeat3 {A B C D} (f : A → B → C → D) (l : list A) (k : list B) (m : list C) : list D :=
  zip_with (λ a bc, f a bc.1 bc.2) l (zip k m).
Definition repeat4 {A B C D E} (f : A → B → C → D → E) (l : list A) (k : list B) (m : list C) (n : list D) : list E :=
  zip_with (λ a bcd, f a bcd.1 bcd.2.1 bcd.2.2) l (zip k (zip m n)).

Definition trait_service g : list Item :=
  let rpc_fns := zip_with (λ rpc output,
    MkFn (rpc_attrs rpc) (rpc_ident rpc) "context" (rpc_args rpc) output None) (rpcs g) (return_types g) in
  let stub_doc := ("The stub trait for service [`" ++ ident_to_string (service_ident g) ++ "`].")%string in
  [TraitService (attrs g) (vis g) (service_ident g) rpc_fns (server_ident g);
   TraitStub stub_doc (vis g) (client_stub_ident g) (request_ident g) (response_ident g);
   ImplStub (client_stub_ident g) (request_ident g) (response_ident g)].

Definition struct_server g : list Item := [StructServer (vis g) (server_ident g)].

Definition impl_serve_for_server g : list Item :=
  [ImplServe (server_ident g) (service_ident g) (request_ident g) (response_ident g)
     (repeat4 (λ method_cfgs camel_case_ident arg_pats method_ident,
        MkArm method_cfgs camel_case_ident arg_pats
          (EOk (ETuple (response_ident g) camel_case_ident
             (EMethod (service_ident g) method_ident (EField (EVar "self") "service") (EVar "ctx") arg_pats))))
        (method_cfgs g) (camel_case_idents g) (arg_pats g) (method_idents g))].

Definition enum_request g : list Item :=
  [Enum (derives g) (vis g) (request_ident g)
     (repeat3 (λ method_cfgs camel_case_ident args, MkVariant method_cfgs camel_case_ident (Named args))
        (method_cfgs g) (camel_case_idents g) (args g));
   ImplRequestName (request_ident g)
     (repeat3 (λ method_cfgs camel_case_ident request_name, MkArm method_cfgs camel_case_ident [] (EString request_name))
        (method_cfgs g) (camel_case_idents g) (request_names g))].

Definition enum_response g : list Item :=
  [Enum (derives g) (vis g) (response_ident g)
     (zip_with (λ camel_case_ident return_type, MkVariant [] camel_case_ident (Unnamed return_type))
        (camel_case_idents g) (return_types g))].

Definition struct_client g : list Item :=
  [StructClient (vis g) (client_ident g) (request_ident g) (response_ident g)].

Definition impl_client_new g : list Item :=
  [ImplNew (client_ident g) (vis g) (request_ident g) (response_ident g);
   ImplFrom (client_ident g) (request_ident g) (response_ident g)].

Definition client_body g (camel_case_ident : Ident) (arg_pats : list IdentPat) : Expr :=
  ELet "request" (EStruct (request_ident g) camel_case_ident arg_pats)
    (ELet "resp" (ECall (EField (EVar "self") "0") (EVar "ctx") (EVar "request"))
       (EMatch (ETry (EVar "resp")) (response_ident g) camel_case_ident "msg" (EOk (EVar "msg")))).

Definition impl_client_rpc_methods g : list Item :=
  [ImplMethods (client_ident g) (request_ident g) (response_ident g) (vis g)
     (repeat4 (λ method_attrs method_ident args_output arg_pats_camel,
        MkFn method_attrs method_ident "ctx" args_output.1 args_output.2
          (Some (client_body g arg_pats_camel.2 arg_pats_camel.1)))
        (method_attrs g) (method_idents g) (zip (args g) (return_types g)) (zip (arg_pats g) (camel_case_idents g)))].

Definition emit_warnings g : list Item := map Warning (gen_warnings g).

(** [ToTokens for ServiceGenerator]. *)
Definition to_tokens g : list Item :=
  concat [trait_service g; struct_server g; impl_serve_for_server g; enum_request g; enum_response g;
          struct_client g; impl_client_new g; impl_client_rpc_methods g; emit_warnings g].

Section service.
(** [cfg!(feature = serde1)], and the type of a method with no return type. *)
Context (serde1 : bool) (unit_type : Ty).

Definition return_type (rpc : RpcMethod Ty) : Ty :=
  match rpc_output rpc with Some t => t | None => unit_type end.

(** [service], once its input is parsed. *)
Definition generator (derive_meta : DeriveMeta) (sv : Service Ty) : Exec ServiceGenerator :=
  let rpcs := sv_rpcs sv in
  let ident := sv_ident sv in
  let camel_case_fn_names := map (λ rpc, snake_to_camel (ident_to_string (unraw (rpc_ident rpc)))) rpcs in
  let args := map rpc_args rpcs in
  let methods := map rpc_ident rpcs in
  let request_names := map (λ m, (ident_to_string ident ++ "." ++ ident_to_string m)%string) methods in
  camel_case_idents ← mapM ident_new camel_case_fn_names;
  Done (MkServiceGenerator ident (format_ident "" ident "Stub") (format_ident "Serve" ident "")
    (format_ident "" ident "Client") (format_ident "" ident "Request") (format_ident "" ident "Response")
    (sv_vis sv) (sv_attrs sv) rpcs camel_case_idents methods request_names (map rpc_attrs rpcs)
    (collect_cfg_attrs rpcs) args (map return_type rpcs) (map (map pat) args)
    (derives_of serde1 (derive derive_meta)) (warnings derive_meta)).

(** The macro: the errors of its attribute, those of its input, or the items. *)
Definition service (attr : Result DeriveMeta Error) (input : Result (Service Ty) Error)
    : Exec (Result (list Item) Error) :=
  match attr, input with
  | Err e, _ => Done (Err e)
  | Ok _, Err e => Done (Err e)
  | Ok derive_meta, Ok sv => g ← generator derive_meta sv; Done (Ok (to_tokens g))
  end.
End service.
End syntax.

Arguments Fn Ty : clear implicits.
Arguments Variant Ty : clear implicits.
Arguments Item Ty : clear implicits.
Arguments ServiceGenerator Ty : clear implicits.

(** [derive_serde]: the attribute put in front of an item. *)
Definition derive_serde {A} (item : list DeriveAttr * A) : list DeriveAttr * A := (DeriveSerde :: item.1, item.2).
(** ** What the compiler makes of it *)

Section semantics.
Context {Ty : Type} (cfg_on : Attribute → bool).

(** An item, arm, variant or function is kept if all of its [cfg]s hold. *)
Definition active (attrs : list Attribute) : bool := forallb (λ a, negb (is_cfg a) || cfg_on a) attrs.

(** Rules on names.  Parameters of a function, fields of a variant, variants of an enum, and functions of
    a trait or of a type are distinct; the client has [new], and the trait [serve].  A
    variant is not called [Self], and a field is a plain identifier, even where a [cfg]
    switches the variant off, because the code is parsed before; and the type parameter
    [S] of the server must not hide the trait. *)
Definition distinct (names : list string) : bool := bool_decide (NoDup names).
Definition arg_names (args : list (PatType Ty)) : list string := map (λ a, pat_name (pat a)) args.
Definition fn_ok (f : Fn Ty) : bool := distinct ("self"%string :: fn_context f :: arg_names (fn_args f)).
Definition fns_ok (taken : string) (fns : list (Fn Ty)) : bool :=
  let fns := List.filter (λ f, active (fn_attrs f)) fns in
  forallb fn_ok fns && distinct (taken :: map (λ f, id_name (fn_ident f)) fns).
Definition variant_ok (v : Variant Ty) : bool :=
  match var_fields v with Named fields => distinct (arg_names fields) | Unnamed _ => true end.
Definition variant_parses (v : Variant Ty) : bool :=
  negb (String.eqb (id_name (var_ident v)) "Self") &&
  match var_fields v with Named fields => forallb (λ a, is_plain (pat a)) fields | Unnamed _ => true end.
Definition variants_ok (vs : list (Variant Ty)) : bool :=
  forallb variant_parses vs &&
  let vs := List.filter (λ v, active (var_attrs v)) vs in
  forallb variant_ok vs && distinct (map (λ v, id_name (var_ident v)) vs).
Definition item_ok (i : Item Ty) : bool :=
  match i with
  | TraitService _ _ _ fns _ => fns_ok "serve" fns
  | ImplServe _ service _ _ _ => negb (String.eqb (id_name service) "S")
  | Enum _ _ _ vs => variants_ok vs
  | ImplMethods _ _ _ _ fns => fns_ok "new" fns
  | _ => true
  end.
Definition accepted (items : list (Item Ty)) : bool := forallb item_ok items.

(** *** Running it

    Arguments and results of methods are of any type [V]; a service implements each
    method as a function of the context and the arguments. *)
Context {V W Dyn : Type}.

Record Request := MkRequest { rq_variant : string; rq_fields : list (string * V) }.
Record Response := MkResponse { rs_variant : string; rs_value : V }.
Definition Implementation : Type := string → Context → list V → M W V.
Abbreviation Stub := (Stubs.Stub Response Dyn W Request).

Inductive Value :=
| VService
| VServer
| VStub
| VClient
| VContext (c : Context)
| VArg (v : V)
| VString (s : string)
| VRequest (r : Request)
| VResponse (r : Response)
| VFuture (f : M W (Result Response (RpcError.t Dyn)))
| VOk (v : Value)
| VErr (e : RpcError.t Dyn).

(** An expression has a value, or returns from its function, or makes no sense. *)
Inductive Flow := Val (v : Value) | Return (v : Value) | IllTyped.
Definition flow_bind (m : M W Flow) (f : Value → M W Flow) : M W Flow :=
  x ← m; match x with Val v => f v | Return v => mret (Return v) | IllTyped => mret IllTyped end.

(** The innermost binding comes first. *)
Definition Env : Type := list (string * Value).
Definition env_lookup (env : Env) (x : string) : option Value :=
  snd <$> List.find (λ b, String.eqb b.1 x) env.
Definition env_arg (env : Env) (x : IdentPat) : option V :=
  match env_lookup env (pat_name x) with Some (VArg v) => Some v | _ => None end.
Definition env_args (env : Env) (xs : list IdentPat) : option (list V) := mapM (env_arg env) xs.

Context (imp : Implementation) (stub : Stub).

Fixpoint eval (env : Env) (e : Expr) : M W Flow :=
  match e with
  | EVar x => mret match env_lookup env x with Some v => Val v | None => IllTyped end
  | EField e field =>
      flow_bind (eval env e) (λ v, mret
        match v with
        | VServer => if String.eqb field "service" then Val VService else IllTyped
        | VClient => if String.eqb field "0" then Val VStub else IllTyped
        | _ => IllTyped
        end)
  | EString s => mret (Val (VString s))
  | ELet x e body => flow_bind (eval env e) (λ v, eval ((x, v) :: env) body)
  | EStruct _ variant fields => mret
      match env_args env fields with
      | Some vs => Val (VRequest (MkRequest (id_name variant) (zip (map pat_name fields) vs)))
      | None => IllTyped
      end
  | ETuple _ variant e =>
      flow_bind (eval env e) (λ v, mret
        match v with VArg v => Val (VResponse (MkResponse (id_name variant) v)) | _ => IllTyped end)
  | EOk e => flow_bind (eval env e) (λ v, mret (Val (VOk v)))
  | EMethod _ method self ctx args =>
      flow_bind (eval env self) (λ self,
        flow_bind (eval env ctx) (λ ctx,
          match self, ctx, env_args env args with
          | VService, VContext c, Some vs => v ← imp (id_name method) c vs; mret (Val (VArg v))
          | _, _, _ => mret IllTyped
          end))
  | ECall self ctx request =>
      flow_bind (eval env self) (λ self,
        flow_bind (eval env ctx) (λ ctx,
          flow_bind (eval env request) (λ request, mret
            match self, ctx, request with
            | VStub, VContext c, VRequest r => Val (VFuture (stub c r))
            | _, _, _ => IllTyped
            end)))
  | ETry e =>
      flow_bind (eval env e) (λ v,
        match v with
        | VFuture f => r ← f; mret match r with Ok r => Val (VResponse r) | Err e => Return (VErr e) end
        | _ => mret IllTyped
        end)
  | EMatch e _ variant x body =>
      flow_bind (eval env e) (λ v,
        match v with
        | VResponse r => if String.eqb (rs_variant r) (id_name variant)
                         then eval ((x, VArg (rs_value r)) :: env) body else panic
        | _ => mret IllTyped
        end)
  end.
End semantics.

Arguments Request V : clear implicits.
Arguments Response V : clear implicits.
Arguments Implementation V W : clear implicits.

Section run.
Context {Ty V W Dyn : Type} (cfg_on : Attribute → bool).

(** The arm of a [match] that is taken. *)
Definition find_arm (arms : list Arm) (variant : string) : option Arm :=
  List.find (λ a, active cfg_on (arm_attrs a) && String.eqb (id_name (arm_variant a)) variant) arms.

(** Binding the fields of a variant, by name. *)
Definition bind_fields (fields : list IdentPat) (req : Request V) : option (Env (V:=V) (W:=W) (Dyn:=Dyn)) :=
  mapM (λ f, (λ b, (pat_name f, VArg b.2)) <$> List.find (λ b, String.eqb b.1 (pat_name f)) (rq_fields req)) fields.

Definition serve_arms (items : list (Item Ty)) : list Arm :=
  mjoin (map (λ i, match i with ImplServe _ _ _ _ arms => arms | _ => [] end) items).
Definition name_arms (items : list (Item Ty)) : list Arm :=
  mjoin (map (λ i, match i with ImplRequestName _ arms => arms | _ => [] end) items).
Definition client_fns (items : list (Item Ty)) : list (Fn Ty) :=
  mjoin (map (λ i, match i with ImplMethods _ _ _ _ fns => fns | _ => [] end) items).

(** The generated [Serve::serve]; code that makes no sense is given the meaning of a panic. *)
Definition run_serve (items : list (Item Ty)) (imp : Implementation V W) : Hooks.Serve W (Request V) (Response V) :=
  λ ctx req,
  match find_arm (serve_arms items) (rq_variant req) with
  | Some a =>
      match bind_fields (arm_fields a) req with
      | Some bs =>
          x ← eval (Dyn:=Dyn) imp (λ _ _, panic)
                (bs ++ [("self"%string, VServer); ("ctx"%string, VContext ctx); ("req"%string, VRequest req)]) (arm_body a);
          match x with Val (VOk (VResponse r)) => mret (Ok r) | _ => panic end
      | None => panic
      end
  | None => panic
  end.

(** The generated [RequestName::name]. *)
Definition run_name (items : list (Item Ty)) (req : Request V) : option string :=
  match find_arm (name_arms items) (rq_variant req) with
  | Some (MkArm _ _ _ (EString s)) => Some s
  | _ => None
  end.

(** A method of the generated client. *)
Definition run_client (items : list (Item Ty)) (stub : Stubs.Stub (Response V) Dyn W (Request V)) (method : string)
    (ctx : Context) (args : list V) : M W (Result V (RpcError.t Dyn)) :=
  match List.find (λ f, active cfg_on (fn_attrs f) && String.eqb (id_name (fn_ident f)) method) (client_fns items) with
  | Some (MkFn _ _ context ps _ (Some body)) =>
      x ← eval (λ _ _ _, panic) stub
            (("self"%string, VClient) :: (context, VContext ctx) :: zip (arg_names ps) (map VArg args)) body;
      match x with
      | Val (VOk (VArg v)) => mret (Ok v)
      | Return (VErr e) => mret (Err e)
      | _ => panic
      end
  | _ => panic
  end.
End run.
(** ** Theorems *)

Lemma find_map {A B} (p : B → bool) (f : A → B) (l : list A) :
  List.find p (map f l) = f <$> List.find (λ a, p (f a)) l.
Proof. induction l as [|a l IH]; simpl; [done|]. by destruct (p (f a)). Qed.

Lemma find_app {A} (p : A → bool) (l k : list A) :
  List.find p (l ++ k) = match List.find p l with Some x => Some x | None => List.find p k end.
Proof. induction l as [|a l IH]; simpl; [done|]. by destruct (p a). Qed.

Lemma find_unique {A} (p : A → bool) (l : list A) x :
  x ∈ l → p x = true → (∀ y, y ∈ l → p y = true → y = x) → List.find p l = Some x.
Proof.
  intros Hin Hx Hu. destruct (List.find p l) as [y|] eqn:E.
  - apply find_some in E as [Hy%list_elem_of_In Hp]. by rewrite (Hu y).
  - apply list_elem_of_In in Hin. by rewrite (find_none _ _ E _ Hin) in Hx.
Qed.

Lemma NoDup_map_inj {A B} (f : A → B) (l : list A) x y : NoDup (map f l) → x ∈ l → y ∈ l → f x = f y → x = y.
Proof.
  intros Hnd [i Hi]%list_elem_of_lookup [j Hj]%list_elem_of_lookup E.
  assert (i = j) as ->; [|congruence]. eapply NoDup_lookup; [exact Hnd|..]; rewrite list_lookup_fmap.
  - by rewrite Hi.
  - rewrite Hj. simpl. by rewrite E.
Qed.

Lemma zip_map {A B C} (f : A → B) (h : A → C) (l : list A) : zip (map f l) (map h l) = map (λ a, (f a, h a)) l.
Proof. induction l as [|a l IH]; simpl; [done|]. by rewrite IH. Qed.
Lemma zip_with_map {A B C D} (k : B → C → D) (f : A → B) (h : A → C) (l : list A) :
  zip_with k (map f l) (map h l) = map (λ a, k (f a) (h a)) l.
Proof. induction l as [|a l IH]; simpl; [done|]. by rewrite IH. Qed.

Section generator.
Context {Ty : Type} (serde1 : bool) (unit_type : Ty) (dm : DeriveMeta) (sv : Service Ty).
Implicit Types (g : ServiceGenerator Ty) (rpc : RpcMethod Ty).

Definition name rpc : string := id_name (rpc_ident rpc).
Definition camel rpc : string := snake_to_camel (name rpc).

(** A name the macro can make a variant of. *)
Definition has_variant (s : string) : bool :=
  match without_underscores s with EmptyString => false | String c _ => negb (is_digit c) end.

Lemma digit_case c : is_digit (to_uppercase c) = is_digit c ∧ is_digit (to_lowercase c) = is_digit c.
Proof. by destruct c as [[] [] [] [] [] [] [] []]; vm_compute. Qed.

Lemma ident_new_camel s :
  ident_new (snake_to_camel s) = if has_variant s then Done (MkIdent false (snake_to_camel s)) else Panicked Unexpected.
Proof.
  unfold snake_to_camel, has_variant. generalize true. induction s as [|c s IH]; intros b; [done|]. cbn [camel_loop without_underscores].
  destruct (Ascii.eqb c underscore); [apply IH|]. destruct (digit_case c) as [Hu Hl].
  destruct b; simpl; rewrite ?Hu, ?Hl; by destruct (is_digit c).
Qed.

Lemma mapM_camel (l : list (RpcMethod Ty)) :
  mapM ident_new (map camel l) =
    if forallb (λ rpc, has_variant (name rpc)) l then Done (map (λ rpc, MkIdent false (camel rpc)) l) else Panicked Unexpected.
Proof.
  induction l as [|rpc l IH]; [done|]. cbn [map mapM forallb]. rewrite IH.
  change (ident_new (camel rpc)) with (ident_new (snake_to_camel (name rpc))). rewrite ident_new_camel.
  destruct (has_variant (name rpc)); [|done]. by destruct (forallb _ l).
Qed.

(** The generator, field by field, when the macro does not panic. *)
Definition generated : ServiceGenerator Ty :=
  let i := sv_ident sv in
  MkServiceGenerator i (format_ident "" i "Stub") (format_ident "Serve" i "") (format_ident "" i "Client")
    (format_ident "" i "Request") (format_ident "" i "Response") (sv_vis sv) (sv_attrs sv) (sv_rpcs sv)
    (map (λ rpc, MkIdent false (camel rpc)) (sv_rpcs sv)) (map rpc_ident (sv_rpcs sv))
    (map (λ m, (ident_to_string i ++ "." ++ ident_to_string m)%string) (map rpc_ident (sv_rpcs sv)))
    (map rpc_attrs (sv_rpcs sv)) (collect_cfg_attrs (sv_rpcs sv)) (map rpc_args (sv_rpcs sv))
    (map (return_type unit_type) (sv_rpcs sv)) (map (map pat) (map rpc_args (sv_rpcs sv)))
    (derives_of serde1 (derive dm)) (warnings dm).

Lemma generator_eq :
  generator serde1 unit_type dm sv =
    if forallb (λ rpc, has_variant (name rpc)) (sv_rpcs sv) then Done generated else Panicked Unexpected.
Proof.
  unfold generator. change (map (λ rpc, snake_to_camel _) (sv_rpcs sv)) with (map camel (sv_rpcs sv)).
  rewrite mapM_camel. by destruct (forallb _ _).
Qed.

(** C30: given a trait that parses, the macro generates code for it unless a method's name
    has nothing but underscores in front of a digit or of its end: then it panics,
    because what is left is not a name for a variant.  (Names are ASCII identifiers.) *)
Theorem macro_panics_iff :
  (∀ p, service serde1 unit_type (Ok dm) (Ok sv) = Panicked p ↔
     p = Unexpected ∧ ∃ rpc, rpc ∈ sv_rpcs sv ∧
       match without_underscores (id_name (rpc_ident rpc)) with EmptyString => True | String c _ => is_digit c = true end) ∧
  service serde1 unit_type (Ok dm) (Ok sv) ≠ OutOfFuel.
Proof.
  unfold service. rewrite generator_eq. cbv [mbind exec_bind].
  destruct (forallb _ _) eqn:Hf; (split; [|done]); intros p.
  - split; [done|]. intros (_ & rpc & Hin & Hbad). rewrite forallb_forall in Hf.
    apply list_elem_of_In, Hf in Hin. unfold has_variant, name in Hin. destruct (without_underscores _); [done|].
    by rewrite Hbad in Hin.
  - split; [|by intros [-> _]]. intros [= <-]. split; [done|].
    assert (Hex : existsb (λ rpc, negb (has_variant (name rpc))) (sv_rpcs sv) = true).
    { revert Hf. induction (sv_rpcs sv) as [|r l IH]; simpl; [done|]. by destruct (has_variant (name r)). }
    apply existsb_exists in Hex as (rpc & Hin%list_elem_of_In & Hb). exists rpc. split; [done|].
    unfold has_variant, name in Hb. destruct (without_underscores _); [done|]. by destruct (is_digit _).
Qed.

(** *** The emitted lists *)

Lemma collect_items {A} (f : Item Ty → list A) g :
  (∀ w, f (Warning w) = []) →
  mjoin (map f (to_tokens g)) =
    mjoin (map f (trait_service g ++ struct_server g ++ impl_serve_for_server g ++ enum_request g ++ enum_response g ++
      struct_client g ++ impl_client_new g ++ impl_client_rpc_methods g)).
Proof.
  intros Hw. unfold to_tokens. simpl. unfold emit_warnings. do 11 f_equal.
  rewrite app_nil_r, map_map. f_equal. induction (gen_warnings g) as [|w l IH]; simpl; [done|]. by rewrite Hw, IH.
Qed.

Definition serve_arm rpc : Arm :=
  MkArm (List.filter is_cfg (rpc_attrs rpc)) (MkIdent false (camel rpc)) (map pat (rpc_args rpc))
    (EOk (ETuple (response_ident generated) (MkIdent false (camel rpc))
       (EMethod (sv_ident sv) (rpc_ident rpc) (EField (EVar "self") "service") (EVar "ctx") (map pat (rpc_args rpc))))).
Definition name_arm rpc : Arm :=
  MkArm (List.filter is_cfg (rpc_attrs rpc)) (MkIdent false (camel rpc)) []
    (EString (ident_to_string (sv_ident sv) ++ "." ++ ident_to_string (rpc_ident rpc))).
Definition client_fn rpc : Fn Ty :=
  MkFn (rpc_attrs rpc) (rpc_ident rpc) "ctx" (rpc_args rpc) (return_type unit_type rpc)
    (Some (client_body generated (MkIdent false (camel rpc)) (map pat (rpc_args rpc)))).
Definition trait_fn rpc : Fn Ty :=
  MkFn (rpc_attrs rpc) (rpc_ident rpc) "context" (rpc_args rpc) (return_type unit_type rpc) None.
Definition request_variant rpc : Variant Ty :=
  MkVariant (List.filter is_cfg (rpc_attrs rpc)) (MkIdent false (camel rpc)) (Named (rpc_args rpc)).
Definition response_variant rpc : Variant Ty :=
  MkVariant [] (MkIdent false (camel rpc)) (Unnamed (return_type unit_type rpc)).

Lemma serve_arms_generated : serve_arms (to_tokens generated) = map serve_arm (sv_rpcs sv).
Proof.
  unfold serve_arms. rewrite collect_items by done. simpl. rewrite app_nil_r. unfold repeat4, collect_cfg_attrs.
  by rewrite map_map, !zip_map, zip_with_map.
Qed.
Lemma name_arms_generated : name_arms (to_tokens generated) = map name_arm (sv_rpcs sv).
Proof.
  unfold name_arms. rewrite collect_items by done. simpl. rewrite app_nil_r. unfold repeat3, collect_cfg_attrs.
  by rewrite map_map, !zip_map, zip_with_map.
Qed.
Lemma client_fns_generated : client_fns (to_tokens generated) = map client_fn (sv_rpcs sv).
Proof.
  unfold client_fns. rewrite collect_items by done. simpl. rewrite app_nil_r. unfold repeat4.
  by rewrite map_map, !zip_map, zip_with_map.
Qed.
Lemma service_done items :
  service serde1 unit_type (Ok dm) (Ok sv) = Done (Ok items) → items = to_tokens generated.
Proof.
  unfold service. rewrite generator_eq. cbv [mbind exec_bind]. destruct (forallb _ _); [|done]. by intros [= <-].
Qed.

(** *** What is left to the compiler *)

Context (cfg_on : Attribute → bool).

Lemma active_cfgs attrs : active cfg_on (List.filter is_cfg attrs) = active cfg_on attrs.
Proof.
  induction attrs as [|a attrs IH]; simpl; [done|]. destruct (is_cfg a) eqn:E; simpl; [by rewrite E, IH|done].
Qed.

Lemma filter_map {A B} (p : B → bool) (f : A → B) (l : list A) :
  List.filter p (map f l) = map f (List.filter (λ a, p (f a)) l).
Proof. induction l as [|a l IH]; simpl; [done|]. rewrite IH. by destruct (p (f a)). Qed.

(** The methods that are not switched off. *)
Definition active_rpcs : list (RpcMethod Ty) := List.filter (λ rpc, active cfg_on (rpc_attrs rpc)) (sv_rpcs sv).

Lemma active_rpcs_elem rpc : rpc ∈ active_rpcs ↔ rpc ∈ sv_rpcs sv ∧ active cfg_on (rpc_attrs rpc) = true.
Proof. unfold active_rpcs. by rewrite !list_elem_of_In, filter_In. Qed.


Lemma fns_ok_map taken (F : RpcMethod Ty → Fn Ty) :
  (∀ rpc, fn_attrs (F rpc) = rpc_attrs rpc ∧ fn_ident (F rpc) = rpc_ident rpc) →
  fns_ok cfg_on taken (map F (sv_rpcs sv)) = true ↔
    Forall (λ rpc, fn_ok (F rpc) = true) active_rpcs ∧ NoDup (taken :: map name active_rpcs).
Proof.
  intros HF. unfold fns_ok. rewrite filter_map, map_map.
  rewrite (filter_ext _ (λ rpc, active cfg_on (rpc_attrs rpc))) by (intros rpc; by destruct (HF rpc) as [-> _]).
  rewrite andb_true_iff, forallb_forall. unfold distinct. rewrite bool_decide_eq_true. fold active_rpcs.
  rewrite (map_ext (λ x, id_name (fn_ident (F x))) name) by (intros rpc; by destruct (HF rpc) as [_ ->]).
  rewrite Forall_forall. apply and_iff_compat_r. split.
  - intros Hf rpc Hin. apply Hf, in_map. by apply list_elem_of_In.
  - intros Hf x (rpc & <- & Hin)%in_map_iff. apply Hf. by apply list_elem_of_In.
Qed.

Lemma accepted_generated :
  accepted cfg_on (to_tokens generated) =
    fns_ok cfg_on "serve" (map trait_fn (sv_rpcs sv)) && negb (String.eqb (id_name (sv_ident sv)) "S") && variants_ok cfg_on (map request_variant (sv_rpcs sv)) &&
    variants_ok cfg_on (map response_variant (sv_rpcs sv)) && fns_ok cfg_on "new" (map client_fn (sv_rpcs sv)).
Proof.
  assert (Hw : ∀ l, forallb (item_ok (Ty:=Ty) cfg_on) (map Warning l ++ []) = true)
    by (intros l; rewrite app_nil_r; induction l as [|x l IH]; [done|exact IH]).
  unfold accepted, to_tokens. cbn [concat app trait_service struct_server impl_serve_for_server enum_request enum_response
    struct_client impl_client_new impl_client_rpc_methods forallb item_ok]. unfold emit_warnings. rewrite Hw.
  simpl. unfold repeat3, repeat4, collect_cfg_attrs. rewrite map_map, !zip_map, !zip_with_map.
  assert (Ht : zip_with (λ rpc output, MkFn (rpc_attrs rpc) (rpc_ident rpc) "context" (rpc_args rpc) output None)
    (sv_rpcs sv) (map (return_type unit_type) (sv_rpcs sv)) = map trait_fn (sv_rpcs sv)).
  { induction (sv_rpcs sv) as [|r l IH]; simpl; [done|]. by rewrite IH. }
  rewrite Ht, andb_true_r, !andb_assoc. done.
Qed.

Lemma forallb_Forall {A} (p : A → bool) (l : list A) : forallb p l = true ↔ Forall (λ a, p a = true) l.
Proof. induction l as [|a l IH]; simpl; [by split; [constructor|]|]. by rewrite andb_true_iff, Forall_cons, IH. Qed.

Lemma forallb_map {A B} (p : B → bool) (f : A → B) (l : list A) : forallb p (map f l) = forallb (λ a, p (f a)) l.
Proof. induction l as [|a l IH]; simpl; [done|]. by rewrite IH. Qed.

Lemma not_Self s : negb (String.eqb s "Self") = true ↔ s ≠ "Self"%string.
Proof. rewrite negb_true_iff. apply String.eqb_neq. Qed.


Lemma variants_ok_response :
  variants_ok cfg_on (map response_variant (sv_rpcs sv)) = true ↔
    Forall (λ rpc, camel rpc ≠ "Self"%string) (sv_rpcs sv) ∧ NoDup (map camel (sv_rpcs sv)).
Proof.
  unfold variants_ok. rewrite filter_map, map_map. simpl.
  assert (Hall : List.filter (λ _ : RpcMethod Ty, true) (sv_rpcs sv) = sv_rpcs sv)
    by (induction (sv_rpcs sv) as [|r l IH]; simpl; congruence).
  rewrite Hall, !andb_true_iff, !forallb_map, !forallb_Forall. unfold distinct. rewrite bool_decide_eq_true.
  assert (Hf : Forall (λ rpc, variant_ok (response_variant rpc) = true) (sv_rpcs sv)) by by apply Forall_true.
  assert (Hp : Forall (λ rpc, variant_parses (response_variant rpc) = true) (sv_rpcs sv) ↔
    Forall (λ rpc, camel rpc ≠ "Self"%string) (sv_rpcs sv)).
  { apply Forall_iff. intros rpc. unfold variant_parses. simpl. by rewrite andb_true_r, not_Self. }
  rewrite Hp. tauto.
Qed.

End generator.
(** *** Running the generated code *)

Lemma find_zip {B} (names : list string) (vs : list B) pre post :
  NoDup names → length names = length vs → (∀ x, x ∈ names → List.find (λ b, String.eqb b.1 x) pre = None) →
  Forall2 (λ x v, List.find (λ b, String.eqb b.1 x) (pre ++ zip names vs ++ post) = Some (x, v)) names vs.
Proof.
  revert vs pre. induction names as [|x names IH]; intros [|v vs] pre Hnd Hlen Hpre; try done.
  apply NoDup_cons in Hnd as [Hx Hnd]. simpl in Hlen. constructor.
  - rewrite find_app, (Hpre x) by by left. simpl. by rewrite String.eqb_refl.
  - replace (pre ++ zip (x :: names) (v :: vs) ++ post) with ((pre ++ [(x, v)]) ++ zip names vs ++ post)
      by by rewrite <- app_assoc.
    apply IH; [done|lia|]. intros y Hy. rewrite find_app, (Hpre y) by by right. simpl.
    destruct (String.eqb_spec x y) as [->|]; [done|done].
Qed.

Section running.
Context {Ty V W Dyn : Type} (serde1 : bool) (unit_type : Ty) (dm : DeriveMeta) (sv : Service Ty).
Context (cfg_on : Attribute → bool) (items : list (Item Ty)).
Context (Hitems : service serde1 unit_type (Ok dm) (Ok sv) = Done (Ok items)) (Haccepted : accepted cfg_on items = true).
Context (rpc : RpcMethod Ty) (Hin : rpc ∈ sv_rpcs sv) (Hactive : active cfg_on (rpc_attrs rpc) = true).
Context (args : list V) (Hargs : length args = length (rpc_args rpc)).
Implicit Types (imp : Implementation V W) (stub : Stubs.Stub (Response V) Dyn W (Request V)).

(** The request the client makes. *)
Definition call_request : Request V := MkRequest (camel rpc) (zip (arg_names (rpc_args rpc)) args).

Lemma names_ok :
  NoDup (map camel (sv_rpcs sv)) ∧ NoDup (arg_names (rpc_args rpc)) ∧
  ("self"%string ∉ arg_names (rpc_args rpc)) ∧ ("ctx"%string ∉ arg_names (rpc_args rpc)).
Proof.
  pose proof Haccepted as Ha. rewrite (service_done _ _ _ _ _ Hitems), accepted_generated, !andb_true_iff in Ha.
  destruct Ha as [[_ [_ Hc]%variants_ok_response] Hf].
  apply (fns_ok_map _ _ _ (client_fn serde1 unit_type dm sv)) in Hf as [Hf _]; [|done]. rewrite Forall_forall in Hf.
  assert (Hrpc : rpc ∈ active_rpcs sv cfg_on) by by apply active_rpcs_elem.
  apply Hf, bool_decide_eq_true in Hrpc. simpl in Hrpc. apply NoDup_cons in Hrpc as [[_ Hs]%not_elem_of_cons Hrpc].
  by apply NoDup_cons in Hrpc as [? ?].
Qed.

Lemma camel_unique r : r ∈ sv_rpcs sv → camel r = camel rpc → r = rpc.
Proof. intros Hr E. by eapply (NoDup_map_inj camel); [apply names_ok|..]. Qed.

Lemma find_arm_generated (F : RpcMethod Ty → Arm) :
  (∀ r, arm_attrs (F r) = List.filter is_cfg (rpc_attrs r) ∧ arm_variant (F r) = MkIdent false (camel r)) →
  find_arm cfg_on (map F (sv_rpcs sv)) (camel rpc) = Some (F rpc).
Proof.
  intros HF. unfold find_arm. rewrite find_map.
  rewrite (find_unique _ (sv_rpcs sv) rpc); [done|done|..].
  - destruct (HF rpc) as [-> ->]. rewrite active_cfgs, Hactive. simpl. by rewrite String.eqb_refl.
  - intros r Hr. destruct (HF r) as [_ ->]. simpl. intros [_ ?%String.eqb_eq]%andb_true_iff. by apply camel_unique.
Qed.

Lemma arg_idents : arg_names (rpc_args rpc) = map pat_name (map pat (rpc_args rpc)).
Proof. unfold arg_names. by rewrite map_map. Qed.

Lemma env_args_bound pre post :
  (∀ x, x ∈ arg_names (rpc_args rpc) → List.find (λ b, String.eqb b.1 x) pre = None) →
  env_args (W:=W) (Dyn:=Dyn) (pre ++ zip (arg_names (rpc_args rpc)) (map VArg args) ++ post) (map pat (rpc_args rpc)) = Some args.
Proof.
  intros Hpre. apply mapM_Some. destruct names_ok as (_ & Hnd & _).
  pose proof (find_zip (arg_names (rpc_args rpc)) (map (VArg (W:=W) (Dyn:=Dyn)) args) pre post Hnd) as Hf.
  specialize (Hf ltac:(unfold arg_names; by rewrite !length_map) Hpre). set (env := pre ++ _) in *. clearbody env.
  unfold env_arg, env_lookup. rewrite arg_idents in Hf. apply Forall2_fmap_l, (Forall2_fmap_r VArg) in Hf.
  eapply Forall2_impl; [exact Hf|]. simpl. by intros x v ->.
Qed.

Lemma run_client_spec stub ctx w :
  run_client cfg_on items stub (name rpc) ctx args w =
    match stub ctx call_request w with
    | Done (Ok r, w') => if String.eqb (rs_variant r) (camel rpc) then Done (Ok (rs_value r), w') else Panicked Unexpected
    | Done (Err e, w') => Done (Err e, w')
    | Panicked p => Panicked p
    | OutOfFuel => OutOfFuel
    end.
Proof.
  unfold run_client. rewrite (service_done _ _ _ _ _ Hitems), client_fns_generated, find_map.
  rewrite (find_unique _ (sv_rpcs sv) rpc); [|done| |].
  - simpl. cbv [mbind M_bind flow_bind mret M_ret]. simpl.
    set (env := ("self"%string, VClient) :: ("ctx"%string, VContext ctx) :: zip _ _).
    assert (Henv : env_args env (map pat (rpc_args rpc)) = Some args).
    { pose proof (env_args_bound [("self"%string, VClient); ("ctx"%string, VContext ctx)] []) as He.
      rewrite app_nil_r in He. apply He. destruct names_ok as (_ & _ & Hs & Hc). intros x Hx. cbn [List.find fst].
      destruct (String.eqb_spec "self" x) as [<-|_]; [by destruct Hs|]. by destruct (String.eqb_spec "ctx" x) as [<-|_]; [destruct Hc|]. }
    rewrite Henv. unfold call_request. rewrite arg_idents.
    destruct (stub _ _ w) as [[[r|e] w']| |]; [|done..]. simpl. by destruct (String.eqb _ _).
  - simpl. rewrite Hactive. simpl. by rewrite String.eqb_refl.
  - intros r Hr. simpl. intros [_ E%String.eqb_eq]%andb_true_iff. apply camel_unique; [done|]. unfold camel, name. by rewrite E.
Qed.

Lemma bind_fields_request :
  bind_fields (W:=W) (Dyn:=Dyn) (map pat (rpc_args rpc)) call_request = Some (zip (arg_names (rpc_args rpc)) (map VArg args)).
Proof.
  unfold bind_fields. apply mapM_Some. simpl. destruct names_ok as (_ & Hnd & _).
  pose proof (find_zip (arg_names (rpc_args rpc)) args [] [] Hnd) as Hf. simpl in Hf. rewrite app_nil_r in Hf.
  specialize (Hf ltac:(unfold arg_names; by rewrite length_map) (λ _ _, eq_refl)).
  set (fields := zip (arg_names (rpc_args rpc)) args) in *. clearbody fields. revert Hf. clear.
  unfold arg_names. generalize (rpc_args rpc). induction args as [|v vs IH]; intros [|a l] Hf; simpl in *; try by inversion Hf.
  apply Forall2_cons in Hf as [Ha Hf]. constructor; [by rewrite Ha|]. by apply IH.
Qed.

Lemma run_serve_spec imp ctx w :
  run_serve (Dyn:=Dyn) cfg_on items imp ctx call_request w =
    match imp (name rpc) ctx args w with
    | Done (v, w') => Done (Ok (MkResponse (camel rpc) v), w')
    | Panicked p => Panicked p
    | OutOfFuel => OutOfFuel
    end.
Proof.
  unfold run_serve. rewrite (service_done _ _ _ _ _ Hitems), serve_arms_generated. simpl.
  rewrite (find_arm_generated (serve_arm serde1 unit_type dm sv)) by done. cbn [serve_arm arm_fields arm_body].
  rewrite bind_fields_request. set (post := [_; _; _]). pose proof (env_args_bound [] post (λ _ _, eq_refl)) as Henv.
  simpl in Henv.
  assert (Hlook : ∀ x v, x ∉ arg_names (rpc_args rpc) → env_lookup post x = Some v →
    env_lookup (zip (arg_names (rpc_args rpc)) (map VArg args) ++ post) x = Some v).
  { intros x v Hx Hp. unfold env_lookup. rewrite find_app. destruct (List.find _ (zip _ _)) as [[y u]|] eqn:E; [|done].
    apply find_some in E as [Hy%list_elem_of_In E%String.eqb_eq]. simpl in E. subst y. apply elem_of_zip_l in Hy. done. }
  destruct names_ok as (_ & _ & Hs & Hc).
  cbv [mbind M_bind flow_bind mret M_ret]. simpl.
  rewrite (Hlook "self"%string VServer), (Hlook "ctx"%string (VContext ctx)) by done. simpl. rewrite Henv.
  cbv [mbind M_bind flow_bind mret M_ret]. change (id_name (rpc_ident rpc)) with (name rpc). by destruct (imp (name rpc) ctx args w) as [[v w']| |].
Qed.

(** C28: code the compiler accepts does what the author of the service expects.  Calling a
    method of the generated client on a stub that serves requests with the generated
    dispatch runs exactly that method of the service, with the same context and
    arguments, and returns its result; the request is reported under the name of the
    service and of the method.  With any other stub, errors are passed on and a response
    of the method's own variant is unwrapped. *)
Theorem generated_code_calls_method imp stub ctx w :
  run_client cfg_on items (Stubs.serve_stub (Dyn:=Dyn) (run_serve (Dyn:=Dyn) cfg_on items imp)) (name rpc) ctx args w =
    match imp (name rpc) ctx args w with
    | Done (v, w') => Done (Ok v, w')
    | Panicked p => Panicked p
    | OutOfFuel => OutOfFuel
    end ∧
  run_name cfg_on items call_request = Some (ident_to_string (sv_ident sv) ++ "." ++ ident_to_string (rpc_ident rpc))%string ∧
  (∀ e w', stub ctx call_request w = Done (Err e, w') →
     run_client cfg_on items stub (name rpc) ctx args w = Done (Err e, w')) ∧
  (∀ v w', stub ctx call_request w = Done (Ok (MkResponse (camel rpc) v), w') →
     run_client cfg_on items stub (name rpc) ctx args w = Done (Ok v, w')).
Proof.
  split_and!.
  - rewrite run_client_spec. unfold Stubs.serve_stub. cbv [mbind M_bind mret M_ret]. rewrite run_serve_spec.
    destruct (imp _ _ _ _) as [[v w']| |]; [|done..]. simpl. by rewrite String.eqb_refl.
  - unfold run_name. rewrite (service_done _ _ _ _ _ Hitems), name_arms_generated. simpl.
    by rewrite (find_arm_generated (name_arm sv)).
  - intros e w' E. by rewrite run_client_spec, E.
  - intros v w' E. rewrite run_client_spec, E. simpl. by rewrite String.eqb_refl.
Qed.
End running.
(** ** A service with two methods *)

Definition demo_service : Service string :=
  MkService [] "pub" (MkIdent false "World")
    [MkRpcMethod [] (MkIdent false "hello") [MkPatType (plain (MkIdent false "name")) "String"%string] (Some "String"%string);
     MkRpcMethod [] (MkIdent false "say_bye") [MkPatType (plain (MkIdent false "a")) "i64"%string; MkPatType (plain (MkIdent false "b")) "i64"%string] None].
Definition demo_say_bye : RpcMethod string :=
  MkRpcMethod [] (MkIdent false "say_bye") [MkPatType (plain (MkIdent false "a")) "i64"%string; MkPatType (plain (MkIdent false "b")) "i64"%string] None.
Definition demo_imp : Implementation Z unit := λ m _ args,
  mret (if String.eqb m "say_bye" then foldl Z.sub 10%Z args else 7%Z).
Definition demo_items : list (Item string) :=
  match service true "()"%string (Ok derive_meta_default) (Ok demo_service) with Done (Ok items) => items | _ => [] end.

Lemma demo_items_done : service true "()"%string (Ok derive_meta_default) (Ok demo_service) = Done (Ok demo_items).
Proof. vm_compute. reflexivity. Qed.

(** Methods the macro lets pass and the compiler does not. *)
Definition demo_rejected (method : string) (p : IdentPat) : bool :=
  match service true "()"%string (Ok derive_meta_default)
          (Ok (MkService [] "pub" (MkIdent false "World") [MkRpcMethod [] (MkIdent false method) [MkPatType p "u8"%string] None])) with
  | Done (Ok items) => negb (accepted (λ _, true) items)
  | _ => false
  end.

Example generated_code_rejected :
  demo_rejected "self_" (plain (MkIdent false "x")) && demo_rejected "f" (MkIdentPat false true (MkIdent false "x") None) = true ∧
  demo_rejected "f" (plain (MkIdent false "x")) = false.
Proof. split; vm_compute; reflexivity. Qed.


Lemma generated_code_calls_method_witness :
  run_client (λ _, true) demo_items (Stubs.serve_stub (Dyn:=unit) (run_serve (Dyn:=unit) (λ _, true) demo_items demo_imp)) "say_bye"
    (MkContext 10 trace_context_default) [1; 2]%Z tt = Done (Ok 7%Z, tt).
Proof.
  refine (proj1 (generated_code_calls_method true "()"%string derive_meta_default demo_service (λ _, true) demo_items demo_items_done
    _ demo_say_bye _ _ [1; 2]%Z _ demo_imp (λ _ _, panic) (MkContext 10 trace_context_default) tt)).
  - vm_compute. reflexivity.
  - apply list_elem_of_further, list_elem_of_here.
  - reflexivity.
  - reflexivity.
Defined.
End Codegen.
