(* ===== verification/MacroTests.v ===== *)
(** * The service macro: the repository's tests

    plugins/tests/service.rs, plugins/tests/server.rs and tarpc/tests/compile_fail: each
    test's trait, the code the macro makes of it, and whether it compiles; where the
    compiler is expected to fail, the macro's message.  At the end, traits the macro
    takes but cannot handle. *)
From S2P Require Import Prelude Plugins Codegen.

Module MacroTests.
Export Codegen.

Local Open Scope string_scope.

(** ** Writing traits *)

Definition idn (s : string) : Ident := MkIdent false s.
Definition raw (s : string) : Ident := MkIdent true s.
Definition arg (i : Ident) (t : string) : FnArg string := Typed (PatIdent (plain i)) t.

(** A method before it is parsed. *)
Record Method := MkMethod {
  m_attrs : list Attribute;
  m_ident : Ident;
  m_args : list (FnArg string);
  m_output : option string;
}.
Definition fn (i : Ident) (args : list (FnArg string)) (output : option string) : Method := MkMethod [] i args output.

(** [Parse for Service], methods first: the first method that does not parse is the error. *)
Fixpoint parse_methods (ms : list Method) : Result (list (RpcMethod string)) Error :=
  match ms with
  | [] => Ok []
  | m :: ms =>
      match parse_rpc_method (m_attrs m) (m_ident m) (m_args m) (m_output m) with
      | Err e => Err e
      | Ok rpc => match parse_methods ms with Err e => Err e | Ok rpcs => Ok (rpc :: rpcs) end
      end
  end.
Definition parse_trait (ident : Ident) (ms : list Method) : Result (Service string) Error :=
  match parse_methods ms with Err e => Err e | Ok rpcs => parse_service [] "" ident rpcs end.

(** [#[tarpc::service(meta)] trait ident { ms }] *)
Definition expand (serde1 : bool) (meta : list MetaNameValue) (ident : Ident) (ms : list Method)
    : Exec (Result (list (Item string)) Error) :=
  service serde1 "()" (parse_derive_meta serde1 meta) (parse_trait ident ms).

Definition compiles (cfg_on : Attribute → bool) (x : Exec (Result (list (Item string)) Error)) : bool :=
  match x with Done (Ok items) => accepted cfg_on items | _ => false end.

(** The enums, with the variants that are left: what the tests can name. *)
Definition enums (cfg_on : Attribute → bool) (x : Exec (Result (list (Item string)) Error))
    : list (string * option DeriveAttr * list string) :=
  match x with
  | Done (Ok items) => mjoin (map (λ i,
      match i with
      | Enum d _ e vs => [(id_name e, d, map (λ v, id_name (var_ident v)) (List.filter (λ v, active cfg_on (var_attrs v)) vs))]
      | _ => []
      end) items)
  | _ => []
  end.
Definition warns (x : Exec (Result (list (Item string)) Error)) : list string :=
  match x with
  | Done (Ok items) => mjoin (map (λ i, match i with Warning w => [w] | _ => [] end) items)
  | _ => []
  end.

Definition all_on (_ : Attribute) : bool := true.

(** ** plugins/tests/service.rs *)

Definition att_service_trait : list Method :=
  [fn (idn "two_part") [arg (idn "s") "String"; arg (idn "i") "i32"] (Some "(String, i32)");
   fn (idn "bar") [arg (idn "s") "String"] (Some "String");
   fn (idn "baz") [] None].

Example att_service_trait_compiles :
  compiles all_on (expand true [] (idn "Foo") att_service_trait) = true ∧
  enums all_on (expand true [] (idn "Foo") att_service_trait) =
    [("FooRequest", Some DeriveSerde, ["TwoPart"; "Bar"; "Baz"]);
     ("FooResponse", Some DeriveSerde, ["TwoPart"; "Bar"; "Baz"])].
Proof. split; vm_compute; reflexivity. Qed.

Definition raw_idents : list Method :=
  [fn (raw "await") [arg (raw "struct") "r#yield"; arg (raw "enum") "i32"] (Some "(r#yield, i32)");
   fn (raw "fn") [arg (raw "impl") "r#yield"] (Some "r#yield");
   fn (raw "async") [] None].

Example raw_idents_compile :
  compiles all_on (expand true [] (raw "trait") raw_idents) = true ∧
  enums all_on (expand true [] (raw "trait") raw_idents) =
    [("traitRequest", Some DeriveSerde, ["Await"; "Fn"; "Async"]);
     ("traitResponse", Some DeriveSerde, ["Await"; "Fn"; "Async"])].
Proof. split; vm_compute; reflexivity. Qed.

Definition cfg_not_test : Attribute := MkAttribute Outer true (Some "cfg") "not(test)".
Definition cfg_test : Attribute := MkAttribute Outer true (Some "cfg") "test".
(** The configuration of a test. *)
Definition testing (a : Attribute) : bool := String.eqb (at_tokens a) "test".

Definition service_with_cfg_rpc : list Method :=
  [fn (idn "foo") [] None; MkMethod [cfg_not_test] (idn "bar") [arg (idn "s") "String"] (Some "String")].

(** It compiles, and no request of the method that is switched off can be made; its
    response is still there. *)
Example service_with_cfg_rpc_compiles :
  compiles testing (expand true [] (idn "Foo") service_with_cfg_rpc) = true ∧
  enums testing (expand true [] (idn "Foo") service_with_cfg_rpc) =
    [("FooRequest", Some DeriveSerde, ["Foo"]); ("FooResponse", Some DeriveSerde, ["Foo"; "Bar"])].
Proof. split; vm_compute; reflexivity. Qed.

Definition doc_attr : Attribute := MkAttribute Outer false (Some "doc") "attr".
Definition syntax : list Method :=
  [MkMethod [MkAttribute Outer true (Some "deny") "warnings"; MkAttribute Outer true (Some "allow") "non_snake_case"]
     (idn "TestCamelCaseDoesntConflict") [] None;
   fn (idn "hello") [] (Some "String");
   MkMethod [doc_attr] (idn "attr") [arg (idn "s") "String"] (Some "String");
   fn (idn "no_args_no_return") [] None;
   fn (idn "no_args") [] (Some "()");
   fn (idn "one_arg") [arg (idn "one") "String"] (Some "i32");
   fn (idn "two_args_no_return") [arg (idn "one") "String"; arg (idn "two") "u64"] None;
   fn (idn "two_args") [arg (idn "one") "String"; arg (idn "two") "u64"] (Some "String");
   fn (idn "no_args_ret_error") [] (Some "i32");
   fn (idn "one_arg_ret_error") [arg (idn "one") "String"] (Some "String");
   fn (idn "no_arg_implicit_return_error") [] None;
   MkMethod [doc_attr] (idn "one_arg_implicit_return_error") [arg (idn "one") "String"] None].

Example syntax_compiles : compiles all_on (expand true [] (idn "Syntax") syntax) = true.
Proof. vm_compute. reflexivity. Qed.

(** plugins/tests/server.rs: the same three traits, without implementations. *)
Definition server_tests : list (Ident * list Method) :=
  [(idn "Foo", att_service_trait); (raw "trait", raw_idents); (idn "Syntax", syntax)].
Example server_tests_compile :
  forallb (λ '(i, ms), compiles all_on (expand true [] i ms)) server_tests = true.
Proof. vm_compute. reflexivity. Qed.

(** The tests of [snake_to_camel] in plugins/src/lib.rs. *)
Definition snake_to_camel_tests : list (string * string) :=
  [("abc_def", "AbcDef"); ("abc_def_", "AbcDef"); ("_abc_def", "AbcDef"); ("abc__def", "AbcDef"); ("aBc_dEf", "AbcDef")].
Example snake_to_camel_tests_pass : forallb (λ '(s, c), String.eqb (snake_to_camel s) c) snake_to_camel_tests = true.
Proof. vm_compute. reflexivity. Qed.

Definition foo_trait : list Method := [fn (idn "foo") [] None].
Definition derive_serde_is (b : bool) : MetaNameValue := MkMetaNameValue ["derive_serde"] (ExprLit (LitBool b)).

Definition custom_derives : Exec (Result (list (Item string)) Error) :=
  expand true [MkMetaNameValue ["derive"] (ExprArray [ExprPath "Clone"; ExprPath "Hash"])] (idn "Foo") foo_trait.
Example custom_derives_are_derived :
  enums all_on custom_derives =
    [("FooRequest", Some (DerivePaths ["Clone"; "Hash"]), ["Foo"]); ("FooResponse", Some (DerivePaths ["Clone"; "Hash"]), ["Foo"])].
Proof. vm_compute. reflexivity. Qed.

Definition implicit_serde : Exec (Result (list (Item string)) Error) := expand true [] (idn "Foo") foo_trait.
Definition explicit_serde : Exec (Result (list (Item string)) Error) := expand true [derive_serde_is true] (idn "Foo") foo_trait.
Example serde_is_derived : enums all_on implicit_serde = enums all_on explicit_serde ∧
  enums all_on implicit_serde = [("FooRequest", Some DeriveSerde, ["Foo"]); ("FooResponse", Some DeriveSerde, ["Foo"])] ∧
  warns implicit_serde = [] ∧ warns explicit_serde = [deprecation].
Proof. split_and!; vm_compute; reflexivity. Qed.

(** ** tarpc/tests/compile_fail *)

Definition tarpc_service_fn_new : list Method := [fn (idn "new") [] None].
Definition tarpc_service_fn_serve : list Method := [fn (idn "serve") [] None].
Definition tarpc_service_arg_pat : list Method := [fn (idn "pat") [Typed PatOther "(u8, u32)"] None].
Definition tarpc_service_derive_serde : list MetaNameValue := [MkMetaNameValue ["derive_serde"] ExprOther].
Definition incompatible : list MetaNameValue :=
  [MkMetaNameValue ["derive"] (ExprArray [ExprPath "Clone"]); derive_serde_is true].

Example compile_fail_messages :
  expand true [] (idn "World") tarpc_service_fn_new = Done (Err ["method name conflicts with generated fn `WorldClient::new`"]) ∧
  expand true [] (idn "World") tarpc_service_fn_serve = Done (Err ["method name conflicts with generated fn `World::serve`"]) ∧
  expand true [] (idn "World") tarpc_service_arg_pat = Done (Err ["patterns aren't allowed in RPC args"]) ∧
  expand true tarpc_service_derive_serde (idn "World") [fn (idn "hello") [] None] = Done (Err ["expected literal"]) ∧
  expand true incompatible (idn "Foo") foo_trait =
    Done (Err ["tarpc does not support `derive_serde` and `derive` at the same time"]) ∧
  expand false [derive_serde_is true] (idn "Foo") foo_trait =
    Done (Err ["To enable serde, first enable the `serde1` feature of tarpc"]).
Proof. split_and!; vm_compute; reflexivity. Qed.

(** Without the feature, and when it is opted out of, nothing is derived. *)
Definition no_implicit_serde_without_feature : Exec (Result (list (Item string)) Error) := expand false [] (idn "Foo") foo_trait.
Definition opt_out_serde : Exec (Result (list (Item string)) Error) := expand true [derive_serde_is false] (idn "Foo") foo_trait.
Example serde_is_not_derived :
  enums all_on no_implicit_serde_without_feature = [("FooRequest", None, ["Foo"]); ("FooResponse", None, ["Foo"])] ∧
  enums all_on opt_out_serde = [("FooRequest", None, ["Foo"]); ("FooResponse", None, ["Foo"])].
Proof. split; vm_compute; reflexivity. Qed.

(** ** Traits the macro takes but cannot handle *)

(** One of two methods of the same name is always switched off, and the request enum has
    one variant; but the response enum has both. *)
Definition cfg_alternatives : list Method :=
  [MkMethod [cfg_test] (idn "foo") [] (Some "u8"); MkMethod [cfg_not_test] (idn "foo") [] (Some "u16")].
Example cfg_alternatives_clash :
  enums testing (expand true [] (idn "Foo") cfg_alternatives) =
    [("FooRequest", Some DeriveSerde, ["Foo"]); ("FooResponse", Some DeriveSerde, ["Foo"; "Foo"])] ∧
  compiles testing (expand true [] (idn "Foo") cfg_alternatives) = false.
Proof. split; vm_compute; reflexivity. Qed.

Example names_clash :
  compiles all_on (expand true [] (idn "Foo") [fn (idn "get_it") [] None; fn (idn "get__it") [] None]) = false ∧
  compiles all_on (expand true [] (idn "Foo") [fn (idn "foo") [arg (idn "ctx") "u8"] None]) = false ∧
  compiles all_on (expand true [] (idn "Foo") [fn (raw "new") [] None]) = false.
Proof. split_and!; vm_compute; reflexivity. Qed.

Example digits_panic :
  expand true [] (idn "Foo") [fn (idn "_1") [] None] = Panicked Unexpected ∧
  expand true [] (idn "Foo") [fn (idn "__") [] None] = Panicked Unexpected.
Proof. split; vm_compute; reflexivity. Qed.
End MacroTests.
