(* ===== verification/Incoming.v ===== *)
(** * Streams of channels (tarpc/src/server/incoming.rs, the decorator of
      server/limits/channels_per_key.rs)

    A [TrackedChannel] passes everything on to the channel inside and holds its
    tracker; so what is proved of servers holds of channels under both limits. *)
From S2P Require Import Prelude Interfaces RefModels Trace Wire TimerTable Transport Cancellations ServerInFlight ServerChannel ServerSpec ServerRefine ServerRequests ServerSystem Limits ServerTermination ServerProps ChannelsPerKey.

Module Incoming.
Export Limits.

(** ** [TrackedChannel] as a channel *)

Section tracked.
Context {Span Req Resp Error : Type} {C : Channel Span Req Resp Error}.

Abbreviation Tracked := (ChannelsPerKey.TrackedChannel (channel C)).

Definition inner_pin_mut {A} (m : M (channel C) A) : M Tracked A := λ s,
  match m (ChannelsPerKey.tc_inner s) with
  | Done (a, c) => Done (a, ChannelsPerKey.MkTrackedChannel c (ChannelsPerKey.tc_tracker s))
  | Panicked p => Panicked p
  | OutOfFuel => OutOfFuel
  end.

#[export] Instance tracked_channel : Channel Span Req Resp Error := {|
  channel := Tracked;
  ch_poll_next bound now := inner_pin_mut (ch_poll_next bound now);
  ch_poll_ready := inner_pin_mut ch_poll_ready;
  ch_start_send r := inner_pin_mut (ch_start_send r);
  ch_poll_flush := inner_pin_mut ch_poll_flush;
  ch_poll_close := inner_pin_mut ch_poll_close;
  ch_config s := ch_config (ChannelsPerKey.tc_inner s);
  ch_in_flight_requests s := ch_in_flight_requests (ChannelsPerKey.tc_inner s);
  ch_guard_drop g s := ChannelsPerKey.MkTrackedChannel (ch_guard_drop g (ChannelsPerKey.tc_inner s)) (ChannelsPerKey.tc_tracker s);
  ch_is_aborted h s := ch_is_aborted h (ChannelsPerKey.tc_inner s);
|}.
End tracked.

Arguments tracked_channel {_ _ _ _} C.

Section tracked_laws.
Context `{!Abort} {Span Req Resp Error : Type} {C : Channel Span Req Resp Error} `{!ChannelLaws C}.

Lemma wp_inner_pin_mut {A} (m : M (channel C) A) Q s :
  wp m (λ a c, Q a (ChannelsPerKey.MkTrackedChannel c (ChannelsPerKey.tc_tracker s))) (ChannelsPerKey.tc_inner s) →
  wp (inner_pin_mut m) Q s.
Proof. unfold wp, inner_pin_mut. by destruct (m _) as [[a c]| |]. Qed.

#[export] Program Instance tracked_channel_laws : ChannelLaws (tracked_channel C) := {|
  ch_inv s := ch_inv (ChannelsPerKey.tc_inner s);
  ch_abs s := ch_abs (ChannelsPerKey.tc_inner s);
  ch_own_response := ch_own_response (C:=C);
|}.
Next Obligation.
  intros bound now s Hi. apply wp_inner_pin_mut. eapply wp_mono; [exact (law_ch_poll_next (C:=C) bound now _ Hi)|].
  intros r c' ([? ? ?] & Ho & Hr). split; [by split|]. by split.
Qed.
Next Obligation. intros s Hi. apply wp_inner_pin_mut. exact (law_ch_poll_ready (C:=C) _ Hi). Qed.
Next Obligation. intros s Hi. apply wp_inner_pin_mut. exact (law_ch_poll_flush (C:=C) _ Hi). Qed.
Next Obligation. intros s Hi. apply wp_inner_pin_mut. exact (law_ch_poll_close (C:=C) _ Hi). Qed.
Next Obligation.
  intros now r s Hi. apply wp_inner_pin_mut. eapply wp_mono; [exact (law_ch_start_send (C:=C) now r _ Hi)|].
  intros res c' ([? ? ?] & Ht & Hs). split; [by split|]. by split.
Qed.
Next Obligation. intros s Hi. exact (law_ch_in_flight (C:=C) _ Hi). Qed.
Next Obligation.
  intros now g s Hi. destruct (law_ch_guard_drop (C:=C) now g _ Hi) as ([? ? ?] & ? & ? & ? & ?). split; [by split|done].
Qed.
End tracked_laws.

(** ** [Incoming]: the limits as methods of a stream of channels *)

Section incoming.
Context `{!Mpsc} {Span Req Resp Error : Type} {C : Channel Span Req Resp Error}.

Definition max_channels_per_key {S K} `{!EqDecision K, !Countable K} (self : S) (n : Z)
    : ChannelsPerKey.MaxChannelsPerKey S K := ChannelsPerKey.new self n.

(** The stream returned by [max_concurrent_requests_per_channel], and [MaxRequestsPerChannel::new]. *)
Record MaxRequestsPerChannel (S : Type) := MkMaxRequestsPerChannel {
  mrc_inner : S;
  mrc_max_in_flight_requests : nat;
}.
Arguments MkMaxRequestsPerChannel {S} _ _.
Arguments mrc_inner {S} _.
Arguments mrc_max_in_flight_requests {S} _.

Definition max_requests_per_channel_new {S} (inner : S) (max : nat) : MaxRequestsPerChannel S :=
  MkMaxRequestsPerChannel inner max.
Definition max_concurrent_requests_per_channel {S} (self : S) (n : nat) : MaxRequestsPerChannel S :=
  max_requests_per_channel_new self n.

(** [Stream for MaxRequestsPerChannel]. *)
Definition max_requests_per_channel_next {S} (poll_next : S → Poll (option (channel C)) * S)
    (self : MaxRequestsPerChannel S) : Poll (option (MaxRequests C)) * MaxRequestsPerChannel S :=
  let '(p, s) := max_requests_per_channel_poll_next poll_next (mrc_max_in_flight_requests self) (mrc_inner self) in
  (p, MkMaxRequestsPerChannel s (mrc_max_in_flight_requests self)).

(** [Channel::max_concurrent_requests] and [Incoming::execute]: each channel becomes the
    [Requests] that serve it. *)
Definition max_concurrent_requests (self : channel C) (limit : nat) : MaxRequests C := max_requests_new self limit.
Definition execute {S} (poll_next : S → Poll (option (channel C)) * S) (s : S) : Exec (Poll (option (Requests C)) * S) :=
  let '(p, s) := poll_next s in
  match p with
  | Ready (Some c) => q ← requests c; Done (Ready (Some q), s)
  | Ready None => Done (Ready None, s)
  | Pending => Done (Pending, s)
  end.
End incoming.

Arguments MaxRequestsPerChannel S : clear implicits.

(** A channel under both limits, tracked by key and throttled, keeps the promise of a
    server channel: it hands out a request only while at most the configured number is
    in flight, and does not panic. *)
Theorem tracked_throttled_limits `{!Abort} {Span Req Resp Error : Type} {C : Channel Span Req Resp Error}
    `{!ChannelLaws C} bound now (s : channel (tracked_channel (max_requests C))) :
  ch_inv s →
  wp (ch_poll_next bound now) (λ r s',
    ch_inv s' ∧ bsteps now (ch_abs s) (ch_abs s') ∧
    ∀ tr, r = Ready (Some (Ok tr)) →
      ch_in_flight_requests s' ≤ max_in_flight_requests (ChannelsPerKey.tc_inner s)) s.
Proof.
  intros Hi. apply wp_inner_pin_mut. eapply wp_mono; [by apply (wp_throttle_loop (C:=C) bound now bound)|].
  intros r c' [[[Hi' Hs _] [Hm _]] Hr]. split_and!; [done|done|]. intros tr ->. destruct Hr as [_ Hr]. rewrite Hm in Hr. exact Hr.
Qed.

(** A limit of one, and a request waiting. *)
Definition demo_limited : channel (tracked_channel (max_requests ServerProps.srv_channel)) :=
  ChannelsPerKey.MkTrackedChannel (max_requests_new ServerProps.srv_b1 1) 0.

Lemma tracked_throttled_limits_witness :
  wp (ch_poll_next 8 1) (λ r s',
    ch_inv s' ∧ bsteps 1 (ch_abs demo_limited) (ch_abs s') ∧
    ∀ tr, r = Ready (Some (Ok tr)) → ch_in_flight_requests s' ≤ 1) demo_limited.
Proof. exact (tracked_throttled_limits 8 1 demo_limited ServerProps.srv_binv_b0). Defined.
End Incoming.
