(* ===== verification/SpawnIncoming.v ===== *)
(** * Serving many connections (tarpc/src/server/incoming.rs: [spawn_incoming];
      tarpc/src/server.rs: [Requests::execute])

    [spawn_incoming] spawns a task for every channel of a stream, which spawns a task for
    every request of its channel; when a channel's stream of requests ends, or fails, its
    task ends and the channel is dropped, while its handlers are still running.  The
    tasks run in any order.  What is proved of one server then holds of each connection,
    during its life and after. *)
From S2P Require Import Prelude Interfaces RefModels Trace Wire TimerTable Transport Cancellations ServerInFlight ServerChannel ServerSpec ServerRefine ServerRequests ServerSystem Limits ServerFrame ServerTermination ServerProps ChannelsPerKey Incoming.

Module SpawnIncoming.
Export ServerProps Incoming.

(** ** Dropping a channel *)

Section drop.
Context `{!Abort} {Span Req Resp Error : Type}.

(** What was read and written, and what is in flight, is the same. *)
Definition same_logs (a a' : BState Req Resp) : Prop :=
  b_tracked a' = b_tracked a ∧ b_sent a' = b_sent a ∧ b_received a' = b_received a.

(** Dropping a channel aborts the handlers of the requests in flight; the guards of
    handlers that end later find nobody listening. *)
Class ChannelDrop (C : Channel Span Req Resp Error) `{!ChannelLaws C} : Type := {
  ch_drop : channel C → channel C;
  law_drop_logs c : same_logs (ch_abs c) (ch_abs (ch_drop c));
  law_drop_aborts c i h : ch_inv c → b_tracked (ch_abs c) !! i = Some h → ch_is_aborted h (ch_drop c) = true;
  law_release_logs g c : same_logs (ch_abs c) (ch_abs (ch_guard_drop g c));
  law_release_aborts g h c : ch_is_aborted h (ch_guard_drop g c) = ch_is_aborted h c;
}.
End drop.

#[export] Hint Mode ChannelDrop - - - - - ! - : typeclass_instances.

Section base_drop.
Context `{!DelayQueue, !DelayQueueLaws, !Mpsc, !MpscLaws, !Abort, !AbortLaws, !Otel}.
Context {E Span Req Resp Rng : Type}.
Context {T : Transport (Response Resp) (ClientMessage Req) E} `{!TransportLog T}.
Context (gen_u64 : Rng → Z * Rng).
Context (new_span : Request Req → Span) (span_active : Span → OtelContext → option otel_span_context).

(** Dropping a [BaseChannel] drops its table, and the receiver of its cancellations. *)
Definition base_drop (b : BaseChannel Span Rng T) : BaseChannel Span Rng T :=
  set_canceled (mpsc_close (bc_canceled_requests b))
    (set_in_flight (bc_in_flight_requests b) (SIF.drop (bc_in_flight_requests b) (bc_aborts b)) b).
#[export] Program Instance base_channel_drop :
    ChannelDrop (base_channel gen_u64 new_span span_active (Resp:=Resp) (T:=T)) := {|
  ch_drop := base_drop;
|}.
Next Obligation. by intros b. Qed.
Next Obligation.
  intros b i h Hi Ht. simpl in *. rewrite lookup_fmap in Ht. destruct (_ !! i) as [rd|] eqn:Hrd; [|done].
  injection Ht as <-. apply (SIF.abort_all_spec (SIF.request_data (bc_in_flight_requests b)) (bc_aborts b)).
  - destruct (ow_live _ _ _ _ (SIF.inv_owners _ _ Hi) _ _ Hrd) as (v & ? & _). eauto.
  - right. by exists i, rd.
Qed.
Next Obligation. by intros g b. Qed.
Next Obligation. by intros g h b. Qed.
End base_drop.

Section decorated_drop.
Context `{!Abort} {Span Req Resp Error : Type} {C : Channel Span Req Resp Error} `{!ChannelLaws C, !ChannelDrop C}.

#[export] Program Instance max_requests_drop : ChannelDrop (max_requests C) := {|
  ch_drop s := MkMaxRequests (max_in_flight_requests s) (ch_drop (inner s));
|}.
Next Obligation. intros s. exact (law_drop_logs (C:=C) (inner s)). Qed.
Next Obligation. intros s i h. exact (law_drop_aborts (C:=C) (inner s) i h). Qed.
Next Obligation. intros g s. exact (law_release_logs (C:=C) g (inner s)). Qed.
Next Obligation. intros g h s. exact (law_release_aborts (C:=C) g h (inner s)). Qed.

(** Its tracker is dropped with it: see [ChannelsPerKey.drop_channel]. *)
#[export] Program Instance tracked_drop : ChannelDrop (tracked_channel C) := {|
  ch_drop s := ChannelsPerKey.MkTrackedChannel (ch_drop (ChannelsPerKey.tc_inner s)) (ChannelsPerKey.tc_tracker s);
|}.
Next Obligation. intros s. exact (law_drop_logs (C:=C) (ChannelsPerKey.tc_inner s)). Qed.
Next Obligation. intros s i h. exact (law_drop_aborts (C:=C) (ChannelsPerKey.tc_inner s) i h). Qed.
Next Obligation. intros g s. exact (law_release_logs (C:=C) g (ChannelsPerKey.tc_inner s)). Qed.
Next Obligation. intros g h s. exact (law_release_aborts (C:=C) g h (ChannelsPerKey.tc_inner s)). Qed.
End decorated_drop.

(** ** Model *)

Section model.
Context `{!Abort, !Mpsc, !MpscLaws} {Span Req Resp Error : Type}.
Context {C : Channel Span Req Resp Error} `{!ChannelLaws C, !ChannelDrop C}.
Context {S : Type} (poll_next : S → Poll (option (channel C)) * S).
Context (env : channel C → channel C → Prop).

(** [Requests::execute]: the stream stops at the first error. *)
Definition execute_next (bound : nat) (now : Z) : M (Requests C) (Poll (option (Handler Span Req Resp))) :=
  r ← poll_next_requests bound now;
  mret match r with
       | Ready (Some (Ok request)) => Ready (Some (MkHandler request Serving None))
       | Ready (Some (Err _)) => Ready None
       | Ready None => Ready None
       | Pending => Pending
       end.

(** [Channel::execute]. *)
Definition channel_execute (c : channel C) : Exec (Requests C) := requests c.

(** A connection: its channel's task and its requests' tasks. *)
Record Connection := MkConnection {
  cn_server : ServerSystem.Server C;
  (** Whether the channel's task is still running. *)
  cn_running : bool;
}.

(** The task of [spawn_incoming] and the tasks it spawned. *)
Record Spawned := MkSpawned {
  sp_incoming : S;
  sp_accepting : bool;
  sp_connections : list Connection;
}.

Definition start (s : S) : Spawned := MkSpawned s true [].

(** The channel's task ends: the channel and the receiver of responses are dropped. *)
Definition drop_requests (q : Requests C) : Requests C :=
  MkRequests (ch_drop (rq_channel q)) (mpsc_close (rq_pending_responses q)).

(** An iteration of the inner loop. *)
Definition serve_connection (bound : nat) (now : Z) (c : Connection) : Exec Connection :=
  if cn_running c then
    x ← execute_next bound now (sv_requests (cn_server c));
    let hs := sv_handlers (cn_server c) in
    Done match x with
         | (Ready (Some request), q) => MkConnection (MkServer q (hs ++ [request]) now) true
         | (Ready None, q) => MkConnection (MkServer (drop_requests q) hs now) false
         | (Pending, q) => MkConnection (MkServer q hs now) true
         end
  else Done c.

(** An iteration of the outer loop, at time [now]. *)
Definition accept (now : Z) (s : Spawned) : Exec Spawned :=
  if sp_accepting s then
    x ← execute poll_next (sp_incoming s);
    Done match x with
         | (Ready (Some q), i) => MkSpawned i true (sp_connections s ++ [MkConnection (MkServer q [] now) true])
         | (Ready None, i) => MkSpawned i false (sp_connections s)
         | (Pending, i) => MkSpawned i true (sp_connections s)
         end
  else Done s.

Definition set_connection (k : nat) (c : Connection) (s : Spawned) : Spawned :=
  MkSpawned (sp_incoming s) (sp_accepting s) (<[k := c]> (sp_connections s)).

Inductive spawn_step (bound : nat) (s : Spawned) : Spawned → Prop :=
| spawn_accept now s' : accept now s = Done s' → spawn_step bound s s'
| spawn_serve k c now c' :
    sp_connections s !! k = Some c → (sv_clock (cn_server c) ≤ now)%Z → serve_connection bound now c = Done c' →
    spawn_step bound s (set_connection k c' s)
| spawn_poll_handler k c j outcome :
    sp_connections s !! k = Some c →
    spawn_step bound s (set_connection k (MkConnection (on_handler (poll_handler outcome) j (cn_server c)) (cn_running c)) s)
| spawn_drop_handler k c j :
    sp_connections s !! k = Some c →
    spawn_step bound s (set_connection k (MkConnection (on_handler drop_handler j (cn_server c)) (cn_running c)) s)
| spawn_env k c c' :
    sp_connections s !! k = Some c → cn_running c = true → env (rq_channel (sv_requests (cn_server c))) c' →
    spawn_step bound s (set_connection k (MkConnection (MkServer (MkRequests c' (rq_pending_responses (sv_requests (cn_server c))))
      (sv_handlers (cn_server c)) (sv_clock (cn_server c))) true) s).

Definition spawned (bound : nat) (i : S) : Spawned → Prop := rtc (spawn_step bound) (start i).

(** ** Invariant *)

(** What holds of a connection also after its channel is gone. *)
Record settled (s : ServerSystem.Server C) : Prop := {
  st_balanced : balanced (ch_abs (rq_channel (sv_requests s)));
  st_written r : r ∈ written (sv_requests s) → ch_own_response r ∨ made (sv_handlers s) r;
  st_handlers h : h ∈ sv_handlers s → stage_ok h ∧ asked_for h (ch_abs (rq_channel (sv_requests s)));
}.

Definition connection_ok (c : Connection) : Prop :=
  settled (cn_server c) ∧ (cn_running c = true → server_inv (cn_server c)).

Lemma server_inv_settled s : server_inv s → settled s.
Proof. intros []. by split. Qed.

Lemma same_logs_balanced (a a' : BState Req Resp) : same_logs a a' → balanced a → balanced a'.
Proof. intros (Ht & Hs & Hr) Hb i. unfold answered, open, asked. rewrite Ht, Hs, Hr. apply Hb. Qed.

Lemma settled_logs s q' :
  same_logs (ch_abs (rq_channel (sv_requests s))) (ch_abs (rq_channel q')) → settled s →
  settled (MkServer q' (sv_handlers s) (sv_clock s)).
Proof.
  intros Hl [Hb Hw Hh]. split; simpl; [by eapply same_logs_balanced|..]; destruct Hl as (_ & Hs & Hr).
  - unfold written. rewrite Hs. apply Hw.
  - unfold asked_for. rewrite Hr. apply Hh.
Qed.
(** A step of a handler, on a channel of which nothing is known. *)
Record handler_frame (h : Handler Span Req Resp) (q : Requests C) (h' : Handler Span Req Resp) (q' : Requests C) : Prop := {
  hf_request : h_request h' = h_request h;
  hf_stage : stage_ok h';
  hf_outcome o : h_outcome h = Some o → h_outcome h' = Some o;
  hf_logs : same_logs (ch_abs (rq_channel q)) (ch_abs (rq_channel q'));
}.

Lemma finish_frame h q : stage_ok h → handler_frame h q (finish h q).1 (finish h q).2.
Proof. intros Hst. split; simpl; [done|done|done|apply law_release_logs]. Qed.

Lemma send_response_frame h r q :
  request_id r = id (if_request (h_request h)) → h_outcome h = Some (response_message r) →
  handler_frame h q (send_response h r q).1 (send_response h r q).2.
Proof.
  intros Hi Ho. unfold send_response. destruct (mpsc_poll_send _ _) as [[x|] p]; simpl.
  - split; simpl; [done|done|done|apply law_release_logs].
  - split; simpl; [done|done|done|done].
Qed.

Lemma poll_handler_frame outcome h q :
  stage_ok h → handler_frame h q (poll_handler outcome h q).1 (poll_handler outcome h q).2.
Proof.
  intros Hst. assert (Hrefl : handler_frame h q h q) by by split.
  unfold poll_handler. destruct (h_stage h) as [|r| |] eqn:Hs; try done; (destruct (ch_is_aborted _ _); [by apply finish_frame|]);
    unfold stage_ok in Hst; rewrite Hs in Hst.
  - destruct outcome as [o|]; [|done].
    destruct (send_response_frame (MkHandler (h_request h) Serving (Some o)) (MkResponse (id (if_request (h_request h))) o) q)
      as [Hr Hst' Ho Hl]; [done..|]. split; [done|done|by rewrite Hst|done].
  - destruct Hst. by apply send_response_frame.
Qed.

Lemma drop_handler_frame h q : stage_ok h → handler_frame h q (drop_handler h q).1 (drop_handler h q).2.
Proof.
  intros Hst. unfold drop_handler. destruct (h_stage h); try by split.
  all: split; simpl; [done|done|done|apply law_release_logs].
Qed.

Lemma on_handler_settled f k s :
  (∀ h q, stage_ok h → handler_frame h q (f h q).1 (f h q).2) → settled s → settled (on_handler f k s).
Proof.
  intros Hf Hs. unfold on_handler. destruct (sv_handlers s !! k) as [h|] eqn:Hk; [|done].
  pose proof (list_elem_of_lookup_2 _ _ _ Hk) as Hin. destruct (st_handlers _ Hs _ Hin) as [Hst Hask].
  specialize (Hf h (sv_requests s) Hst). destruct (f h (sv_requests s)) as [h' q']. destruct Hf as [Fr Fs Fo Fl]. simpl in *.
  destruct (settled_logs s q' Fl Hs) as [Hb Hw Hh]. simpl in *. split; simpl; [done|..].
  - intros r [?|?]%Hw; [by left|right]. by eapply made_insert.
  - intros h1 Hh1. apply list_elem_of_lookup in Hh1 as [j Hj]. destruct (decide (j = k)) as [->|].
    + rewrite list_lookup_insert_eq in Hj by (by eapply lookup_lt_Some). simplify_eq. split; [done|].
      destruct (Hh h) as [_ (r & Hr & E)]; [done|]. exists r. by rewrite Fr.
    + rewrite list_lookup_insert_ne in Hj by done. by eapply Hh, list_elem_of_lookup_2.
Qed.

Lemma connection_handler f k c :
  (∀ h q, stage_ok h → handler_frame h q (f h q).1 (f h q).2) →
  (∀ h q, stage_ok h → ch_inv (rq_channel q) → handler_ok h q (f h q).1 (f h q).2) →
  connection_ok c → connection_ok (MkConnection (on_handler f k (cn_server c)) (cn_running c)).
Proof.
  intros Hf Hf' [Hs Hr]. split; simpl; [by apply on_handler_settled|]. intros Hrun. apply on_handler_inv; auto.
Qed.

Lemma serve_connection_ok bound now c c' : connection_ok c → serve_connection bound now c = Done c' → connection_ok c'.
Proof.
  intros [Hs Hr]. unfold serve_connection. destruct (cn_running c) eqn:Hrun; [|intros [= <-]; split; [done|by rewrite Hrun]].
  specialize (Hr eq_refl). unfold execute_next. cbv [mbind exec_bind M_bind mret M_ret].
  destruct (poll_next_requests bound now (sv_requests (cn_server c))) as [[res q]| |] eqn:Hp; [|done..].
  pose proof (poll_inv bound now _ res q Hr Hp) as Hi.
  assert (Hend : spawn (Resp:=Resp) res = [] → connection_ok (MkConnection (MkServer (drop_requests q) (sv_handlers (cn_server c)) now) false)).
  { intros E. rewrite E, app_nil_r in Hi. split; [|done].
    apply (settled_logs (MkServer q (sv_handlers (cn_server c)) now)); [apply law_drop_logs|by apply server_inv_settled]. }
  destruct res as [[[ifr|e]|]|]; intros [= <-]; [|by apply Hend..|];
    simpl in Hi; rewrite ?app_nil_r in Hi; (split; [by apply server_inv_settled|done]).
Qed.

(** The channels the stream yields are new. *)
Context (I : S → Prop).
Context (Hstream : ∀ i p i', I i → poll_next i = (p, i') → I i' ∧ ∀ c, p = Ready (Some c) → fresh_channel c).
Context (Henv : ∀ c c', env c c' → ch_inv c → ch_inv c' ∧ ch_abs c' = ch_abs c).

Definition spawned_ok (s : Spawned) : Prop := I (sp_incoming s) ∧ Forall connection_ok (sp_connections s).

Lemma accept_ok now s s' : spawned_ok s → accept now s = Done s' → spawned_ok s'.
Proof.
  intros [Hi Hc]. unfold accept. destruct (sp_accepting s); [|by intros [= <-]]. unfold execute.
  destruct (poll_next (sp_incoming s)) as [p i] eqn:Hp. destruct (Hstream _ _ _ Hi Hp) as [Hi' Hfresh].
  destruct p as [[c|]|]; cbv [mbind exec_bind]; [|by intros [= <-]..].
  destruct (requests c) as [q| |] eqn:Hq; [|done..]. intros [= <-]. split; [done|]. simpl.
  apply Forall_app. split; [done|]. constructor; [|done].
  assert (server_inv (MkServer q [] now)).
  { apply (fresh_inv (λ _ _, False) (λ _ _ f, match f with end) 0 c now); [by apply Hfresh|]. exists q. split; [done|apply rtc_refl]. }
  split; [by apply server_inv_settled|done].
Qed.

Lemma set_connection_ok k c s : spawned_ok s → connection_ok c → spawned_ok (set_connection k c s).
Proof. intros [Hi Hc] Hok. split; [done|]. by apply Forall_insert. Qed.

Lemma spawn_step_ok bound s s' : spawn_step bound s s' → spawned_ok s → spawned_ok s'.
Proof.
  intros Hst Hs. assert (Hk : ∀ k c, sp_connections s !! k = Some c → connection_ok c).
  { intros k c Hk. by eapply Forall_lookup_1; [apply Hs|]. }
  destruct Hst as [now s' Ha|k c now c' Hc Hle Hserve|k c j o Hc|k c j Hc|k c c' Hc Hrun He].
  - by eapply accept_ok.
  - apply set_connection_ok; [done|]. eapply serve_connection_ok, Hserve. eauto.
  - apply set_connection_ok; [done|]. apply connection_handler; eauto using poll_handler_frame, poll_handler_ok.
  - apply set_connection_ok; [done|]. apply connection_handler; eauto using drop_handler_frame, drop_handler_ok.
  - apply set_connection_ok; [done|]. destruct (Hk _ _ Hc) as [_ Hr]. specialize (Hr Hrun).
    assert (server_inv (MkServer (MkRequests c' (rq_pending_responses (sv_requests (cn_server c)))) (sv_handlers (cn_server c)) (sv_clock (cn_server c)))).
    { eapply (serve_step_inv env Henv 0); [by apply serve_env|done]. }
    split; [by apply server_inv_settled|done].
Qed.

Lemma spawned_inv bound i s : I i → spawned bound i s → spawned_ok s.
Proof.
  intros Hi Hs. eapply (rtc_preserves _ spawned_ok); [apply spawn_step_ok|exact Hs|]. by split; [|constructor].
Qed.

(** C6: a server of many connections keeps them apart.  However the tasks of
    [spawn_incoming] are scheduled, at any time and for every connection, ended ones
    included: every response written on the connection was made by its channel or is
    exactly what the service function returned for a request that came with that id and
    message on that same connection, and no id is answered on a connection more often
    than it was asked there. *)
Theorem spawn_incoming_sound bound i s k c :
  I i → spawned bound i s → sp_connections s !! k = Some c →
  let q := sv_requests (cn_server c) in
  let a := ch_abs (rq_channel q) in
  (∀ r, r ∈ written q → ch_own_response r ∨
     ∃ j h req, sv_handlers (cn_server c) !! j = Some h ∧ h_outcome h = Some (response_message r) ∧
       ClientRequest req ∈ b_received a ∧ id req = request_id r ∧ message (if_request (h_request h)) = message req) ∧
  ∀ n, answered n a + open n a ≤ asked n a.
Proof.
  intros Hi Hs Hk q a.
  pose proof (spawned_inv _ _ _ Hi Hs) as Hok.
  destruct (Forall_lookup_1 _ _ _ _ (proj2 Hok) Hk) as [[Hb Hw Hh] _]. split; [|exact Hb].
  intros r Hr. destruct (Hw _ Hr) as [?|(j & h & Hj & Hid & Ho)]; [auto|right].
  destruct (Hh h) as [_ (req & Hreq & E & Hm)]; [by eapply list_elem_of_lookup_2|].
  exists j, h, req. split_and!; [done..|congruence|done].
Qed.

(** C7: a connection whose stream of requests ended or failed is cleaned up: its task
    stops, and the handlers of the requests that were in flight at that moment end at
    their next poll without sending anything. *)
Theorem ended_connection_aborts bound now c c' :
  connection_ok c → cn_running c = true → serve_connection bound now c = Done c' → cn_running c' = false →
  sv_handlers (cn_server c') = sv_handlers (cn_server c) ∧
  (∀ n now', serve_connection n now' c' = Done c') ∧
  ∀ h outcome i q, poll_next_requests bound now (sv_requests (cn_server c)) = Done (i, q) →
    b_tracked (ch_abs (rq_channel q)) !! id (if_request (h_request h)) = Some (if_abort_registration (h_request h)) →
    h_stage h = Serving ∨ (∃ r, h_stage h = SendingResponse r) →
    h_stage (poll_handler outcome h (sv_requests (cn_server c'))).1 = Completed ∧
    queued (poll_handler outcome h (sv_requests (cn_server c'))).2 = queued (sv_requests (cn_server c')).
Proof.
  intros [_ Hr] Hrun. specialize (Hr Hrun). unfold serve_connection at 1. rewrite Hrun. unfold execute_next. cbv [mbind exec_bind M_bind mret M_ret].
  destruct (poll_next_requests bound now (sv_requests (cn_server c))) as [[res q]| |] eqn:Hp; [|done..].
  pose proof (poll_inv bound now _ res q Hr Hp) as Hi.
  destruct res as [[[ifr|e]|]|]; intros [= <-]; try done; intros _;
    (split_and!; [done|done|]); intros h o i q0 [= <- <-] Ht Hst; simpl;
    pose proof (law_drop_aborts _ _ _ (si_inv _ Hi) Ht) as Hab; simpl in Hab;
    unfold poll_handler; destruct Hst as [->|[r ->]]; simpl; rewrite Hab; (split; [done|]);
    unfold queued; simpl; by rewrite law_drop_sender.
Qed.
End model.

Arguments Connection {_ _ _ _ _} C.
Arguments Spawned {_ _ _ _ _} C S.

(** ** Two connections

    The client of the first sends two requests and goes away when the first of them has
    been answered but the answer has not been written. *)

#[export] Instance srv_channel_drop : ChannelDrop srv_channel := base_channel_drop (T:=srv_T) srv_rng srv_span srv_active.

Definition two_next (l : list (channel srv_channel)) : Poll (option (channel srv_channel)) * list (channel srv_channel) :=
  match l with c :: l => (Ready (Some c), l) | [] => (Pending, []) end.
Definition two : list (channel srv_channel) := [srv_b0; srv_b0].

Definition client_gone (b : channel srv_channel) : channel srv_channel :=
  let t := bc_transport b in
  let c := lg_inner t in
  let c' := MemChannel.MkUnboundedChannel (MemChannel.rx c) (mpsc_close (MemChannel.tx c)) in
  set_transport (@MkLogged _ _ _ srv_inner c' (lg_sent t) (lg_received t) (lg_ended t) : transport srv_T) b.
Definition two_env (b b' : channel srv_channel) : Prop := srv_env b b' ∨ b' = client_gone b.

Lemma two_env_ok b b' : two_env b b' → ch_inv b → ch_inv b' ∧ ch_abs b' = ch_abs b.
Proof. intros [He| ->] Hi; [by apply srv_env_ok|by split]. Qed.

Lemma two_stream l p l' :
  Forall fresh_channel l → two_next l = (p, l') → Forall fresh_channel l' ∧ ∀ c, p = Ready (Some c) → fresh_channel c.
Proof.
  destruct l as [|c l]; intros Hf [= <- <-]; [by split; [constructor|]|]. apply Forall_cons in Hf as [Hc Hl].
  split; [done|]. by intros ? [= <-].
Qed.

Abbreviation Two := (Spawned srv_channel (list (channel srv_channel))).
Definition accept_at (s : Two) : Two := match accept two_next 0 s with Done s' => s' | _ => s end.
Definition at_connection (f : Connection srv_channel → Connection srv_channel) (s : Two) : Two :=
  match sp_connections s !! 0 with Some c => set_connection 0 (f c) s | None => s end.
Definition serve_at (now : Z) : Two → Two :=
  at_connection (λ c, match serve_connection srv_bound now c with Done c' => c' | _ => c end).
Definition env_at (f : channel srv_channel → channel srv_channel) : Two → Two :=
  at_connection (λ c, MkConnection (MkServer (MkRequests (f (rq_channel (sv_requests (cn_server c))))
    (rq_pending_responses (sv_requests (cn_server c)))) (sv_handlers (cn_server c)) (sv_clock (cn_server c))) true).
Definition handle_at (o : Poll (Result Z ServerError)) : Two → Two :=
  at_connection (λ c, MkConnection (on_handler (poll_handler o) 0 (cn_server c)) (cn_running c)).

(** Both requests are being served, and the first answer is queued. *)
Definition two_queued : Two :=
  handle_at (Ready (Ok 42%Z)) (serve_at 2 (env_at (client_sends (srv_request 6)) (serve_at 1 (env_at (client_sends (srv_request 5))
    (accept_at (accept_at (start two))))))).
(** The first answer is written. *)
Definition two_answered : Two := serve_at 3 two_queued.
(** Or its client is gone. *)
Definition two_gone : Two := env_at client_gone two_queued.

Lemma accept_at_step s :
  match accept two_next 0 s with Done _ => True | _ => False end → spawn_step two_next two_env srv_bound s (accept_at s).
Proof. intros Hd. unfold accept_at. destruct (accept _ _ _) eqn:E; [|done..]. by eapply spawn_accept. Qed.

Lemma serve_at_step now s :
  match sp_connections s !! 0 with
  | Some c => (sv_clock (cn_server c) ≤ now)%Z ∧ match serve_connection srv_bound now c with Done _ => True | _ => False end
  | None => False
  end → spawn_step two_next two_env srv_bound s (serve_at now s).
Proof.
  unfold serve_at, at_connection. destruct (sp_connections s !! 0) as [c|] eqn:Hc; [|done]. intros [Hle Hd].
  destruct (serve_connection _ _ _) eqn:E; [|done..]. by eapply spawn_serve.
Qed.

Lemma env_at_step f s :
  (∀ b, two_env b (f b)) → match sp_connections s !! 0 with Some c => cn_running c = true | None => False end →
  spawn_step two_next two_env srv_bound s (env_at f s).
Proof.
  unfold env_at, at_connection. destruct (sp_connections s !! 0) as [c|] eqn:Hc; [|done]. intros Hf Hr. by apply spawn_env.
Qed.

Lemma handle_at_step o s :
  match sp_connections s !! 0 with Some _ => True | None => False end → spawn_step two_next two_env srv_bound s (handle_at o s).
Proof.
  unfold handle_at, at_connection. destruct (sp_connections s !! 0) as [c|] eqn:Hc; [|done]. intros _. by apply spawn_poll_handler.
Qed.

Lemma two_queued_spawned : spawned two_next two_env srv_bound two two_queued.
Proof.
  unfold two_queued. eapply rtc_r; [|apply handle_at_step; by vm_compute].
  eapply rtc_r; [|apply serve_at_step; by vm_compute].
  eapply rtc_r; [|apply env_at_step; [by left; eexists|by vm_compute]].
  eapply rtc_r; [|apply serve_at_step; by vm_compute].
  eapply rtc_r; [|apply env_at_step; [by left; eexists|by vm_compute]].
  eapply rtc_r; [|apply accept_at_step; by vm_compute].
  apply rtc_once, accept_at_step. by vm_compute.
Qed.

Lemma two_fresh : Forall fresh_channel two.
Proof. repeat constructor; apply srv_fresh. Qed.

Definition first_connection (s : Two) : Connection srv_channel :=
  match sp_connections s with c :: _ => c | [] => MkConnection srv_s0 false end.

Lemma first_connection_lookup s :
  match sp_connections s with [] => False | _ => True end → sp_connections s !! 0 = Some (first_connection s).
Proof. unfold first_connection. by destruct (sp_connections s). Qed.

Lemma spawn_incoming_sound_witness :
  let q := sv_requests (cn_server (first_connection two_answered)) in
  written q = [srv_response] ∧
  answered 5 (ch_abs (rq_channel q)) + open 5 (ch_abs (rq_channel q)) ≤ asked 5 (ch_abs (rq_channel q)).
Proof.
  split; [vm_compute; reflexivity|].
  assert (Hs : spawned two_next two_env srv_bound two two_answered)
    by (unfold two_answered; eapply rtc_r; [exact two_queued_spawned|apply serve_at_step; by vm_compute]).
  assert (Hk : sp_connections two_answered !! 0 = Some (first_connection two_answered))
    by (apply first_connection_lookup; vm_compute; exact I).
  revert Hk. generalize (first_connection two_answered). intros c Hk.
  exact (proj2 (spawn_incoming_sound two_next two_env (Forall fresh_channel) two_stream two_env_ok srv_bound two two_answered 0
    c two_fresh Hs Hk) 5%Z).
Defined.

Lemma two_gone_ok : connection_ok (first_connection two_gone).
Proof.
  eapply (Forall_lookup_1 _ _ 0); [|apply first_connection_lookup; vm_compute; exact I].
  apply (spawned_inv two_next two_env (Forall fresh_channel) two_stream two_env_ok srv_bound two); [exact two_fresh|].
  unfold two_gone. eapply rtc_r; [exact two_queued_spawned|apply env_at_step; [by right|by vm_compute]].
Qed.

Definition two_ended : Connection srv_channel :=
  match serve_connection srv_bound 3 (first_connection two_gone) with Done c => c | _ => first_connection two_gone end.

Lemma ended_connection_aborts_witness :
  sv_handlers (cn_server two_ended) = sv_handlers (cn_server (first_connection two_gone)) ∧
  length (sv_handlers (cn_server two_ended)) = 2.
Proof.
  split; [|vm_compute; reflexivity].
  assert (Hr : cn_running (first_connection two_gone) = true) by (vm_compute; reflexivity).
  assert (He : serve_connection srv_bound 3 (first_connection two_gone) = Done two_ended).
  { assert (Hs : match serve_connection srv_bound 3 (first_connection two_gone) with Done _ => True | _ => False end)
      by (vm_compute; exact I).
    unfold two_ended. destruct (serve_connection srv_bound 3 (first_connection two_gone)); [reflexivity|destruct Hs..]. }
  assert (Hd : cn_running two_ended = false) by (vm_compute; reflexivity).
  exact (proj1 (ended_connection_aborts srv_bound 3 _ _ two_gone_ok Hr He Hd)).
Defined.
End SpawnIncoming.
