(* ===== verification/ExampleServer.v ===== *)
(** * The example server (example-service/src/server.rs)

    The connections of a listener, limited to one per IP address, at most ten of them
    served at once: the pipeline of [main] puts together the stream of channels, the
    limit per key ([ChannelsPerKey]), the serving of one connection ([SpawnIncoming])
    and [buffer_unordered].  Of the latter its contract is modelled: it takes a future
    from its stream only while fewer than the given number are in progress, and drops a
    future that has completed.  When the future of a connection completes, its tracked
    channel is dropped, and with it a reference to the tracker of its address; this is
    one step, because the connections are polled by the task that polls the listener.
    The address of a peer is asked for twice, and unwrapped: when the operating system
    does not give it any more (the client has reset the connection), the task panics. *)
From S2P Require Import Prelude Interfaces RefModels Trace Wire TimerTable Transport Cancellations ServerInFlight ServerChannel ServerSpec ServerRefine ServerRequests ServerSystem Limits ServerFrame ServerTermination ServerProps ChannelsPerKey Incoming SpawnIncoming.

Module ExampleServer.
Export SpawnIncoming.
Import ChannelsPerKey.

Section model.
Context `{!Abort, !Mpsc, !MpscLaws} {Span Req Resp Error : Type}.
Context {C : Channel Span Req Resp Error} `{!ChannelLaws C, !ChannelDrop C}.

(** The connections that were accepted, each made a channel; the address of a channel's
    peer; and its IP address. *)
Context {S Addr Ip : Type} `{!EqDecision Ip, !Countable Ip}.
Context (channels_next : S → Poll (option (channel C)) * S) (peer_addr : channel C → Addr) (ip : Addr → Ip).
Context (env : channel C → channel C → Prop).

(** A connection with the server made for it, [HelloServer]. *)
Record Served := MkServed {
  sd_addr : Addr;
  sd_connection : Connection (tracked_channel C);
}.

Record Main := MkMain {
  mn_limit : MaxChannelsPerKey S Ip;
  (** Whether the stream may have more channels. *)
  mn_listening : bool;
  mn_served : list Served;
}.

Definition channels_per_ip : Z := 1.
Definition max_connections : nat := 10.

Definition main_start (listener : S) : Main := MkMain (max_channels_per_key listener channels_per_ip) true [].

Definition is_running (d : Served) : Prop := cn_running (sd_connection d) = true.
#[export] Instance is_running_dec d : Decision (is_running d) := decide_rel eq _ _.

(** The futures [buffer_unordered] holds. *)
Definition in_progress (m : Main) : nat := length (filter is_running (mn_served m)).

(** [peer_addr()] of a channel's socket, when [connected] says of which channels the
    operating system gives the address at that moment. *)
Definition ask_peer_addr (connected : channel C → bool) (c : channel C) : option Addr :=
  if connected c then Some (peer_addr c) else None.

(** The closure given to [max_channels_per_key]. *)
Definition ip_of_peer (connected : channel C → bool) (c : channel C) : option Ip :=
  ip <$> ask_peer_addr connected c.

(** The next connection is taken from the stream, if there is room for it; [connected]
    and [connected'] are for the two times its address is asked for. *)
Definition take_connection (bound : nat) (now : Z) (connected connected' : channel C → bool) (m : Main) : Exec Main :=
  if mn_listening m && bool_decide (in_progress m < max_connections) then
    x ← poll_next_loop channels_next (ip_of_peer connected) bound (mn_limit m);
    match x with
    | (Ready (Some channel), l) =>
        server ← expect (ask_peer_addr connected' (tc_inner channel));
        q ← channel_execute (C:=tracked_channel C) channel;
        Done (MkMain l true (mn_served m ++ [MkServed server (MkConnection (MkServer q [] now) true)]))
    | (Ready None, l) => Done (MkMain l false (mn_served m))
    | (Pending, l) => Done (MkMain l true (mn_served m))
    end
  else Done m.

Definition tracker_of (d : Served) : nat := tc_tracker (rq_channel (sv_requests (cn_server (sd_connection d)))).

(** The future of a connection is polled; if it completes, its channel is dropped. *)
Definition poll_served (bound : nat) (now : Z) (k : nat) (m : Main) : Exec Main :=
  match mn_served m !! k with
  | Some d =>
      c ← serve_connection bound now (sd_connection d);
      let d' := MkServed (sd_addr d) c in
      let l := if cn_running (sd_connection d) && negb (cn_running c) then drop_channel (tracker_of d') (mn_limit m) else mn_limit m in
      Done (MkMain l (mn_listening m) (<[k := d']> (mn_served m)))
  | None => Done m
  end.

(** A task of a request, spawned by [for_each(spawn)], is polled or dropped. *)
Definition on_served (f : Connection (tracked_channel C) → Connection (tracked_channel C)) (k : nat) (m : Main) : Main :=
  match mn_served m !! k with
  | Some d => MkMain (mn_limit m) (mn_listening m) (<[k := MkServed (sd_addr d) (f (sd_connection d))]> (mn_served m))
  | None => m
  end.

Definition on_task (f : Handler Span Req Resp → Requests (tracked_channel C) → Handler Span Req Resp * Requests (tracked_channel C))
    (j : nat) (c : Connection (tracked_channel C)) : Connection (tracked_channel C) :=
  MkConnection (on_handler f j (cn_server c)) (cn_running c).

(** What the client of a connection and the network do. *)
Definition on_client (c' : channel C) (c : Connection (tracked_channel C)) : Connection (tracked_channel C) :=
  let q := sv_requests (cn_server c) in
  MkConnection (MkServer (MkRequests (C:=tracked_channel C) (MkTrackedChannel c' (tc_tracker (rq_channel q))) (rq_pending_responses q))
    (sv_handlers (cn_server c)) (sv_clock (cn_server c))) (cn_running c).

Inductive main_step (bound : nat) (m : Main) : Main → Prop :=
| main_take now connected connected' m' : take_connection bound now connected connected' m = Done m' → main_step bound m m'
| main_serve k now m' : poll_served bound now k m = Done m' → main_step bound m m'
| main_poll_handler k j outcome : main_step bound m (on_served (on_task (poll_handler outcome) j) k m)
| main_drop_handler k j : main_step bound m (on_served (on_task drop_handler j) k m)
| main_client k d c' :
    mn_served m !! k = Some d → is_running d → env (tc_inner (rq_channel (sv_requests (cn_server (sd_connection d))))) c' →
    main_step bound m (on_served (on_client c') k m).

Definition runs (bound : nat) (listener : S) : Main → Prop := rtc (main_step bound) (main_start listener).
End model.

Arguments Served {_ _ _ _ _} C Addr.
Arguments Main {_ _ _ _ _} C S Addr Ip {_ _}.

(** ** The references to the trackers *)

Section counts.
Context `{!Mpsc, !MpscLaws} {S Chan K : Type} `{!EqDecision K, !Countable K}.
Context (listener_poll_next : S → Poll (option Chan) * S) (keymaker : Chan → option K).
Implicit Types s : MaxChannelsPerKey S K.

Definition key_of (t : nat) s : option K := tk_key <$> mc_trackers s !! t.

(** A channel of key [k] was counted by tracker [t]. *)
Record gained (t : nat) (k : K) s s' : Prop := {
  ga_count t' : strong_count t' s' = strong_count t' s + (if decide (t' = t) then 1 else 0);
  ga_key : key_of t s' = Some k;
  ga_keys t' k' : key_of t' s = Some k' → key_of t' s' = Some k';
}.

Lemma gained_insert t k n s s' :
  (mc_trackers s !! t = None ∧ n = 0 ∨ ∃ d, mc_trackers s !! t = Some (MkTracker k n d)) →
  (∃ d, mc_trackers s' = <[t := MkTracker k (Datatypes.S n) d]> (mc_trackers s)) → gained t k s s'.
Proof.
  intros Ht [d' Hs']. split; unfold strong_count, key_of; rewrite Hs'.
  - intros t'. destruct (decide (t' = t)) as [->|]; [|rewrite lookup_insert_ne by done; lia].
    rewrite lookup_insert_eq. destruct Ht as [[-> ->]|[d ->]]; simpl; lia.
  - by rewrite lookup_insert_eq.
  - intros t' k'. destruct (decide (t' = t)) as [->|]; [|by rewrite lookup_insert_ne].
    rewrite lookup_insert_eq. by destruct Ht as [[-> _]|[d ->]].
Qed.

Lemma increment_gained k s :
  wf s → match increment_channels_for_key k s with
         | (Ok t, s') => gained t k s s'
         | (Err _, s') => s' = s
         end.
Proof.
  intros Hw. assert (Hnew : gained (new_tracker k s).1 k s (new_tracker k s).2).
  { apply (gained_insert _ _ 0); [|by eexists]. left. split; [apply new_tracker_fresh|done]. }
  unfold increment_channels_for_key. destruct (mc_key_counts s !! k) as [t|] eqn:Hk; [|by destruct (new_tracker k s)].
  case_bool_decide; [done|]. destruct (upgrade t s) as [[t' s']|] eqn:Hu; [|by destruct (new_tracker k s)].
  apply upgrade_inv in Hu as (k' & n & d & -> & Ht & ->).
  destruct (wf_counts _ Hw _ _ Hk) as (tk & Ht' & E). rewrite Ht in Ht'. injection Ht' as <-. simpl in E. subst k'.
  apply (gained_insert _ _ (Datatypes.S n)); [right|]; by exists d.
Qed.

(** One poll of the listener counts the channel it yields, and nothing else. *)
Definition counted_channel (r : Poll (option (TrackedChannel Chan))) s s' : Prop :=
  match r with
  | Ready (Some c) => ∃ k, keymaker (tc_inner c) = Some k ∧ gained (tc_tracker c) k s s'
  | _ => mc_trackers s' = mc_trackers s
  end.

Lemma gained_ext t k s1 s2 s1' s2' :
  mc_trackers s2 = mc_trackers s1 → mc_trackers s2' = mc_trackers s1' → gained t k s1 s1' → gained t k s2 s2'.
Proof. intros E E' []. split; unfold strong_count, key_of in *; rewrite ?E, ?E'; done. Qed.

Lemma poll_listener_counts s :
  wf s → wlp (poll_listener listener_poll_next keymaker) (λ r s1,
    match r with
    | Ready (Some (Ok c)) => ∃ k, keymaker (tc_inner c) = Some k ∧ gained (tc_tracker c) k s s1
    | _ => mc_trackers s1 = mc_trackers s
    end) s.
Proof.
  intros Hw r s'. unfold poll_listener. destruct (listener_poll_next _) as [[[c|]|] l]; [|by intros [= <- <-]..].
  cbv [mbind M_bind mret M_ret]. destruct (handle_new_channel _ _ _) as [[r' s1]| |] eqn:Hh; [|done..]. intros [= <- <-].
  assert (Hw' : wf (set_listener l s)) by by destruct Hw.
  apply handle_new_channel_inv in Hh as (k & Hk & -> & ->). pose proof (increment_gained k _ Hw') as Hg.
  destruct (increment_channels_for_key _ _) as [[t|k'] s']; simpl.
  - exists k. split; [done|]. by eapply gained_ext; [| |exact Hg].
  - by subst s'.
Qed.

Lemma wlp_poll_counts n s :
  wf s → wlp (poll_next_loop listener_poll_next keymaker n) (λ r s', counted_channel r s s') s.
Proof.
  revert s. induction n as [|n IH]; intros s Hw; [done|]. cbn [poll_next_loop]. apply wlp_bind. intros r s1 Hl.
  destruct (poll_listener_wf listener_poll_next keymaker s Hw _ _ Hl) as [Hw1 _]. apply (poll_listener_counts s Hw) in Hl.
  apply wlp_bind. eapply wlp_mono; [by apply wlp_wp, poll_closed_wf|]. intros c s2 (Hw2 & _ & _ & Ht2 & _).
  assert (Hloop : mc_trackers s1 = mc_trackers s → wlp (poll_next_loop listener_poll_next keymaker n) (λ r s', counted_channel r s s') s2).
  { intros E. eapply wlp_mono; [by apply IH|]. intros r' s3 Hc. destruct r' as [[ch|]|]; simpl in *; [|congruence..].
    destruct Hc as (k & Hk & Hc). exists k. split; [done|]. eapply gained_ext; [| |exact Hc]; congruence. }
  destruct r as [[[ch|e]|]|]; [|by apply Hloop| |].
  - apply wlp_ret. destruct Hl as (k & Hk & Hl). exists k. split; [done|]. by eapply gained_ext; [| |exact Hl].
  - destruct c as [[]|]; [by apply Hloop|]. apply wlp_ret. simpl. congruence.
  - destruct c as [[]|]; [by apply Hloop|]. apply wlp_ret. simpl. congruence.
Qed.

Lemma drop_counts t s t' :
  strong_count t' (drop_channel t s) = strong_count t' s - (if decide (t' = t) then 1 else 0) ∧
  key_of t' (drop_channel t s) = key_of t' s.
Proof.
  unfold drop_channel, release_channel. destruct (mc_trackers s !! t) as [[k [|n] d]|] eqn:Ht; unfold tracker_drop; simpl;
    rewrite ?Ht, ?lookup_insert_eq; try destruct n; try destruct d; unfold strong_count, key_of; simpl;
    (destruct (decide (t' = t)) as [->|]; [rewrite ?lookup_insert_eq, ?Ht|rewrite ?lookup_insert_ne by done]; simpl; (split; [lia|done])).
Qed.

Lemma drop_keeps t s :
  mc_listener (drop_channel t s) = mc_listener s ∧ mc_channels_per_key (drop_channel t s) = mc_channels_per_key s.
Proof.
  unfold drop_channel, release_channel. destruct (mc_trackers s !! t) as [[? [|] ?]|]; unfold tracker_drop; simpl;
    by destruct (_ !! _) as [[? [|] []]|].
Qed.

(** It yields what the stream inside yielded. *)
Lemma wp_poll_yields (I : S → Prop) (P : Chan → Prop) n s :
  (∀ i p i', I i → listener_poll_next i = (p, i') → I i' ∧ ∀ c, p = Ready (Some c) → P c) →
  I (mc_listener s) →
  wlp (poll_next_loop listener_poll_next keymaker n) (λ r s', I (mc_listener s') ∧ ∀ c, r = Ready (Some c) → P (tc_inner c)) s.
Proof.
  intros HI. revert s. induction n as [|n IH]; intros s Hs; [done|]. cbn [poll_next_loop]. apply wlp_bind.
  intros r s1 E. assert (Hl : I (mc_listener s1) ∧ ∀ c, r = Ready (Some (Ok c)) → P (tc_inner c)).
  { revert E. unfold poll_listener. destruct (listener_poll_next _) as [p l] eqn:Hp. destruct (HI _ _ _ Hs Hp) as [Hl Hc].
    destruct p as [[c|]|]; [|by intros [= <- <-]..]. cbv [mbind M_bind mret M_ret].
    destruct (handle_new_channel _ _ _) as [[r' s']| |] eqn:Hh; [|done..]. intros [= <- <-].
    apply handle_new_channel_inv in Hh as (k & _ & -> & ->). destruct (increment_same k (set_listener l s)) as (-> & _).
    split; [done|]. intros c' [= E]. destruct (_.1) in E; [|done]. injection E as <-. by apply Hc. }
  destruct Hl as [Hl Hc].
  apply wlp_bind. intros c s2 Hcl. assert (Hl2 : I (mc_listener s2)).
  { revert Hcl. unfold poll_closed_channels. destruct (mpsc_poll_recv _) as [[[k|]|] d]; [|done|]; by intros [= <- <-]. }
  destruct r as [[[ch|e]|]|], c as [[]|]; simpl; try (by apply IH); apply wlp_ret; (split; [done|]); try done; intros ? [= <-]; auto.
Qed.
End counts.

(** ** Its invariant *)

Section invariant.
Context `{!Abort, !Mpsc, !MpscLaws} {Span Req Resp Error : Type}.
Context {C : Channel Span Req Resp Error} `{!ChannelLaws C, !ChannelDrop C}.
Context {S Addr Ip : Type} `{!EqDecision Ip, !Countable Ip}.
Context (channels_next : S → Poll (option (channel C)) * S) (peer_addr : channel C → Addr) (ip : Addr → Ip).
Context (env : channel C → channel C → Prop).
Implicit Types (m : Main C S Addr Ip) (d : Served C Addr) (q : Requests (tracked_channel C)).

(** *** A connection keeps its tracker *)

Definition same_tracker q q' : Prop := tc_tracker (rq_channel q') = tc_tracker (rq_channel q).

#[local] Instance same_tracker_preorder : PreOrder same_tracker.
Proof. split; [done|]. intros q1 q2 q3. unfold same_tracker. congruence. Qed.

Lemma tracker_on_channel {A} (m : M (channel C) A) : keeps same_tracker (on_channel (C:=tracked_channel C) (inner_pin_mut m)).
Proof.
  intros q a q'. unfold on_channel, inner_pin_mut. destruct (m _) as [[? ?]| |]; [|done..]. by intros [= <- <-].
Qed.
Lemma tracker_on_responses {A} (f : mpsc (Response Resp) → A * mpsc (Response Resp)) : keeps same_tracker (on_responses f).
Proof. intros q a q'. unfold on_responses. destruct (f _). by intros [= <- <-]. Qed.
Lemma tracker_next bound now : keeps same_tracker (on_channel (ch_poll_next bound now)).
Proof. apply tracker_on_channel. Qed.
Lemma tracker_ready : keeps same_tracker (on_channel ch_poll_ready).
Proof. apply tracker_on_channel. Qed.
Lemma tracker_flush : keeps same_tracker (on_channel ch_poll_flush).
Proof. apply tracker_on_channel. Qed.
Lemma tracker_send r : keeps same_tracker (on_channel (ch_start_send r)).
Proof. apply tracker_on_channel. Qed.
Hint Resolve tracker_on_responses tracker_next tracker_ready tracker_flush tracker_send : tarpc.

Lemma tracker_writeable n : keeps same_tracker (ensure_writeable_loop (C:=tracked_channel C) n).
Proof. induction n as [|n IH]; cbn [ensure_writeable_loop]; keeps. Qed.
Hint Resolve tracker_writeable : tarpc.
Lemma tracker_write bound closed : keeps same_tracker (pump_write (C:=tracked_channel C) bound closed).
Proof. unfold pump_write, poll_next_response, ensure_writeable. keeps. Qed.
Lemma tracker_drop_request r : keeps same_tracker (drop_in_flight (C:=tracked_channel C) r).
Proof. apply keeps_bind; [apply _|by apply keeps_modify|keeps]. Qed.
Hint Resolve tracker_write tracker_drop_request : tarpc.

Lemma tracker_poll bound now n : keeps same_tracker (poll_next_requests_loop (C:=tracked_channel C) bound now n).
Proof. induction n as [|n IH]; cbn [poll_next_requests_loop]; unfold pump_read; keeps. Qed.

Definition conn_tracker (c : Connection (tracked_channel C)) : nat := tc_tracker (rq_channel (sv_requests (cn_server c))).

Lemma serve_tracker bound now (c c' : Connection (tracked_channel C)) :
  serve_connection bound now c = Done c' → conn_tracker c' = conn_tracker c.
Proof.
  unfold serve_connection. destruct (cn_running c); [|by intros [= <-]]. unfold execute_next. cbv [mbind exec_bind M_bind mret M_ret].
  destruct (poll_next_requests bound now _) as [[res q]| |] eqn:Hp; [|done..]. apply tracker_poll in Hp.
  destruct res as [[[ifr|e]|]|]; intros [= <-]; exact Hp.
Qed.

Lemma handler_tracker o h q : same_tracker q (poll_handler o h q).2.
Proof.
  unfold poll_handler. destruct (h_stage h) as [|r| |]; try done; (destruct (ch_is_aborted _ _); [done|]).
  - destruct o as [m|]; [|done]. unfold send_response. by destruct (mpsc_poll_send _ _) as [[]].
  - unfold send_response. by destruct (mpsc_poll_send _ _) as [[]].
Qed.

Lemma dropped_tracker h q : same_tracker q (drop_handler h q).2.
Proof. unfold drop_handler. by destruct (h_stage h). Qed.

Lemma task_tracker f j (c : Connection (tracked_channel C)) :
  (∀ h q, same_tracker q (f h q).2) → conn_tracker (on_task f j c) = conn_tracker c.
Proof.
  intros Hf. unfold conn_tracker, on_task, on_handler. simpl. destruct (sv_handlers _ !! j) as [h|]; [|done].
  specialize (Hf h (sv_requests (cn_server c))). by destruct (f h _).
Qed.

(** *** Counting connections *)

Definition holds (t : nat) d : Prop := is_running d ∧ tracker_of d = t.
#[local] Instance holds_dec t d : Decision (holds t d) := and_dec _ _.

(** The running connections under tracker [t]. *)
Definition holders (t : nat) m : nat := length (filter (holds t) (mn_served m)).

Lemma length_filter_insert (P : Served C Addr → Prop) `{!∀ d, Decision (P d)} (l : list (Served C Addr)) k d d' :
  l !! k = Some d →
  length (filter P (<[k := d']> l)) + (if decide (P d) then 1 else 0) = length (filter P l) + (if decide (P d') then 1 else 0).
Proof.
  intros Hk. rewrite <- (take_drop_middle l k d Hk) at 2. rewrite insert_take_drop by (by eapply lookup_lt_Some).
  rewrite !filter_app, !length_app, !filter_cons. destruct (decide (P d)), (decide (P d')); simpl; lia.
Qed.

Record main_inv m : Prop := {
  mi_wf : wf (mn_limit m);
  mi_limit : mc_channels_per_key (mn_limit m) = channels_per_ip;
  mi_counts t : holders t m = strong_count t (mn_limit m);
  mi_keys d : d ∈ mn_served m → is_running d → key_of (tracker_of d) (mn_limit m) = Some (ip (sd_addr d));
  mi_ok : Forall (λ d, connection_ok (sd_connection d)) (mn_served m);
}.

(** A connection takes a step, and goes on. *)
Lemma main_inv_insert m k d c :
  main_inv m → mn_served m !! k = Some d → cn_running c = cn_running (sd_connection d) →
  conn_tracker c = tracker_of d → connection_ok c →
  main_inv (MkMain (mn_limit m) (mn_listening m) (<[k := MkServed (sd_addr d) c]> (mn_served m))).
Proof.
  intros [Hw Hl Hc Hk Ho] Hd Hrun Htr Hok. set (d' := MkServed (sd_addr d) c).
  assert (Hsame : is_running d' ↔ is_running d) by (unfold is_running; simpl; by rewrite Hrun).
  assert (Htr' : tracker_of d' = tracker_of d) by done.
  split; simpl; [done|done|..].
  - intros t. rewrite <- Hc. unfold holders. simpl. pose proof (length_filter_insert (holds t) _ _ _ d' Hd) as E.
    destruct (decide (holds t d)) as [Hh|Hh], (decide (holds t d')) as [Hh'|Hh']; try lia;
      exfalso; unfold holds in *; rewrite Hsame, Htr' in Hh'; done.
  - intros d1 [j Hj]%list_elem_of_lookup Hrun1. destruct (decide (j = k)) as [->|].
    + rewrite list_lookup_insert_eq in Hj by (by eapply lookup_lt_Some). injection Hj as <-. rewrite Htr'.
      apply (Hk d); [by eapply list_elem_of_lookup_2|by apply Hsame].
    + rewrite list_lookup_insert_ne in Hj by done. by eapply Hk; [eapply list_elem_of_lookup_2|].
  - by apply Forall_insert.
Qed.

(** A connection ends, and its channel is dropped. *)
Lemma main_inv_end m k d c :
  main_inv m → mn_served m !! k = Some d → is_running d → cn_running c = false →
  conn_tracker c = tracker_of d → connection_ok c →
  main_inv (MkMain (drop_channel (conn_tracker c) (mn_limit m)) (mn_listening m) (<[k := MkServed (sd_addr d) c]> (mn_served m))).
Proof.
  intros [Hw Hl Hc Hk Ho] Hd Hrun Hend Htr Hok. set (d' := MkServed (sd_addr d) c).
  assert (Hstop : ¬ is_running d') by (unfold is_running; simpl; by rewrite Hend).
  assert (Hsub : ∀ d1, d1 ∈ <[k := d']> (mn_served m) → is_running d1 → d1 ∈ mn_served m).
  { intros d1 [j Hj]%list_elem_of_lookup Hrun1. destruct (decide (j = k)) as [->|].
    - rewrite list_lookup_insert_eq in Hj by (by eapply lookup_lt_Some). by injection Hj as <-.
    - rewrite list_lookup_insert_ne in Hj by done. by eapply list_elem_of_lookup_2. }
  rewrite Htr. split; simpl.
  - by apply drop_channel_wf.
  - rewrite <- Hl. apply drop_keeps.
  - intros t. destruct (drop_counts (tracker_of d) (mn_limit m) t) as [-> _]. rewrite <- Hc. unfold holders. simpl.
    pose proof (length_filter_insert (holds t) _ _ _ d' Hd) as E.
    rewrite (decide_False (P:=holds t d')) in E by (by intros [? _]).
    destruct (decide (t = tracker_of d)) as [->|]; [rewrite (decide_True (P:=holds _ d)) in E by done|
      rewrite (decide_False (P:=holds _ d)) in E by (by intros [_ ?])]; lia.
  - intros d1 Hd1 Hrun1. destruct (drop_counts (tracker_of d) (mn_limit m) (tracker_of d1)) as [_ ->]. auto.
  - by apply Forall_insert.
Qed.

(** A connection is added. *)
Lemma main_inv_add m l d :
  main_inv m → wf l → mc_channels_per_key l = channels_per_ip → gained (tracker_of d) (ip (sd_addr d)) (mn_limit m) l →
  is_running d → connection_ok (sd_connection d) →
  main_inv (MkMain l true (mn_served m ++ [d])).
Proof.
  intros [Hw Hl Hc Hk Ho] Hw' Hl' [Gc Gk Gs] Hrun Hok. split; simpl; [done|done|..].
  - intros t. rewrite Gc, <- Hc. unfold holders. simpl. rewrite filter_app, length_app, filter_cons, filter_nil.
    destruct (decide (t = tracker_of d)) as [->|]; [rewrite (decide_True (P:=holds _ d)) by done|
      rewrite (decide_False (P:=holds _ d)) by (by intros [_ ?])]; done.
  - intros d1 [Hd1| ->%list_elem_of_singleton]%elem_of_app Hrun1; auto.
  - apply Forall_app. by split; [|constructor].
Qed.

Lemma main_inv_limit m l b :
  main_inv m → wf l → mc_channels_per_key l = channels_per_ip → mc_trackers l = mc_trackers (mn_limit m) →
  main_inv (MkMain l b (mn_served m)).
Proof.
  intros [Hw Hl Hc Hk Ho] Hw' Hl' Ht. split; simpl; try done; unfold strong_count, key_of in *; rewrite Ht; done.
Qed.

Context (I : S → Prop).
Context (Hstream : ∀ i p i', I i → channels_next i = (p, i') → I i' ∧ ∀ c, p = Ready (Some c) → fresh_channel c).
Context (Henv : ∀ c c', env c c' → ch_inv c → ch_inv c' ∧ ch_abs c' = ch_abs c).

Definition main_ok m : Prop := main_inv m ∧ I (mc_listener (mn_limit m)).

(** What the poll of the listener gives. *)
Lemma take_polled bound connected m r l :
  main_ok m → poll_next_loop channels_next (ip_of_peer peer_addr ip connected) bound (mn_limit m) = Done (r, l) →
  wf l ∧ mc_channels_per_key l = channels_per_ip ∧ I (mc_listener l) ∧
  match r with
  | Ready (Some c) => fresh_channel (tc_inner c) ∧ gained (tc_tracker c) (ip (peer_addr (tc_inner c))) (mn_limit m) l
  | _ => mc_trackers l = mc_trackers (mn_limit m)
  end.
Proof.
  intros [Hm Hi] Hp. destruct (wlp_poll_next_loop _ _ bound _ (mi_wf _ Hm) _ _ Hp) as [Hw Hl].
  pose proof (wlp_poll_counts _ _ bound _ (mi_wf _ Hm) _ _ Hp) as Hcount.
  destruct (wp_poll_yields _ _ I fresh_channel bound (mn_limit m) Hstream Hi _ _ Hp) as [Hi' Hfresh].
  rewrite (mi_limit _ Hm) in Hl. split_and!; [done..|]. destruct r as [[c|]|]; [|done..].
  destruct Hcount as (k & Hk & Hg). split; [by apply Hfresh|]. unfold ip_of_peer, ask_peer_addr in Hk.
  destruct (connected (tc_inner c)); [|done]. by injection Hk as <-.
Qed.

Lemma take_ok bound now con con' m m' :
  main_ok m → take_connection channels_next peer_addr ip bound now con con' m = Done m' → main_ok m'.
Proof.
  intros Hok. pose proof Hok as [Hm Hi]. unfold take_connection. destruct (_ && _); [|by intros [= <-]].
  destruct (poll_next_loop channels_next _ bound (mn_limit m)) as [[r l]| |] eqn:Hp; [|done..].
  destruct (take_polled _ _ _ _ _ Hok Hp) as (Hw & Hl & Hi' & Hr). cbv [mbind exec_bind].
  destruct r as [[c|]|]; [|intros [= <-]; by split; [apply main_inv_limit|]..]. destruct Hr as [Hfresh Hg].
  unfold ask_peer_addr. destruct (con' (tc_inner c)); [simpl|done].
  unfold channel_execute. destruct (requests (C:=tracked_channel C) c) as [q| |] eqn:Hq; [|done..]. intros [= <-]. split; [|done].
  assert (Hs : server_inv (C:=tracked_channel C) (MkServer q [] now)).
  { apply (fresh_inv (C:=tracked_channel C) (λ _ _, False) (λ _ _ f, match f with end) 0 c now); [exact Hfresh|].
    exists q. split; [done|apply rtc_refl]. }
  assert (Hqc : rq_channel q = c).
  { revert Hq. unfold requests. cbv [mbind exec_bind]. destruct (mpsc_channel _); [|done..]. by intros [= <-]. }
  apply main_inv_add; [done|done|done| |done|].
  - unfold tracker_of. simpl. rewrite Hqc. exact Hg.
  - split; [by apply server_inv_settled|done].
Qed.

Lemma serve_ok bound now k m m' : main_ok m → poll_served bound now k m = Done m' → main_ok m'.
Proof.
  intros [Hm Hi]. unfold poll_served. destruct (mn_served m !! k) as [d|] eqn:Hd; [|by intros [= <-]]. cbv [mbind exec_bind].
  destruct (serve_connection bound now (sd_connection d)) as [c| |] eqn:Hs; [|done..]. intros [= <-].
  pose proof (Forall_lookup_1 _ _ _ _ (mi_ok _ Hm) Hd) as Hok. pose proof (serve_connection_ok _ _ _ _ Hok Hs) as Hok'.
  pose proof (serve_tracker _ _ _ _ Hs) as Ht.
  destruct (cn_running (sd_connection d)) eqn:Hrun; simpl.
  - destruct (cn_running c) eqn:Hrun'; simpl.
    + split; [|done]. apply main_inv_insert; [done|done|congruence|done|done].
    + split; [by apply (main_inv_end m k d c)|]. simpl. rewrite (proj1 (drop_keeps _ _)). done.
  - unfold serve_connection in Hs. rewrite Hrun in Hs. injection Hs as <-. split; [|done]. by apply main_inv_insert.
Qed.

Lemma on_served_ok f k m :
  (∀ d, mn_served m !! k = Some d → connection_ok (sd_connection d) →
     connection_ok (f (sd_connection d)) ∧ cn_running (f (sd_connection d)) = cn_running (sd_connection d) ∧
     conn_tracker (f (sd_connection d)) = tracker_of d) →
  main_ok m → main_ok (on_served f k m).
Proof.
  intros Hf [Hm Hi]. unfold on_served. destruct (mn_served m !! k) as [d|] eqn:Hd; [|done]. split; [|done].
  destruct (Hf d eq_refl (Forall_lookup_1 _ _ _ _ (mi_ok _ Hm) Hd)) as (? & ? & ?). by apply main_inv_insert.
Qed.

Lemma main_step_ok bound m m' : main_step channels_next peer_addr ip env bound m m' → main_ok m → main_ok m'.
Proof.
  intros Hst Hm. destruct Hst as [now con con' m' Ht|k now m' Hp|k j o|k j|k d c' Hd Hrun He].
  - by eapply take_ok.
  - by eapply serve_ok.
  - apply on_served_ok; [|done]. intros d _ Hok. split_and!; [|done|apply task_tracker, handler_tracker].
    apply connection_handler; [apply poll_handler_frame|apply poll_handler_ok|exact Hok].
  - apply on_served_ok; [|done]. intros d _ Hok. split_and!; [|done|apply task_tracker, dropped_tracker].
    apply connection_handler; [apply drop_handler_frame|apply drop_handler_ok|exact Hok].
  - apply on_served_ok; [|done]. intros d' Hd' [_ Hr]. rewrite Hd in Hd'. injection Hd' as <-. split_and!; [|done|done].
    specialize (Hr Hrun). destruct (Henv _ _ He (si_inv _ Hr)) as [Hi Ha].
    assert (Hs : server_inv (cn_server (on_client c' (sd_connection d)))).
    { destruct Hr as [R1 R2 R3 R4 R5]. split; simpl; unfold written, queued in *; simpl in *; rewrite ?Ha; done. }
    split; [by apply server_inv_settled|done].
Qed.

Lemma runs_ok bound l m : I l → runs channels_next peer_addr ip env bound l m → main_ok m.
Proof.
  intros Hl Hs. eapply (rtc_preserves _ main_ok); [apply main_step_ok|exact Hs|]. split; [|done]. split; simpl; [apply new_wf|done| | |].
  - intros t. unfold strong_count, holders. simpl. by rewrite lookup_empty.
  - by intros d ?%elem_of_nil.
  - constructor.
Qed.

Lemma length_filter_two (P : Served C Addr → Prop) `{!∀ d, Decision (P d)} (l : list (Served C Addr)) i j x y :
  l !! i = Some x → l !! j = Some y → i < j → P x → P y → 2 ≤ length (filter P l).
Proof.
  intros Hi Hj Hij Hx Hy. rewrite <- (take_drop_middle l i x Hi). rewrite filter_app, filter_cons_True, length_app by done. simpl.
  assert (Hin : y ∈ filter P (drop (Datatypes.S i) l)).
  { apply list_elem_of_filter. split; [done|]. apply (list_elem_of_lookup_2 _ (j - Datatypes.S i)). rewrite lookup_drop.
    by replace (Datatypes.S i + (j - Datatypes.S i)) with j by lia. }
  destruct (filter P (drop _ l)); [by apply elem_of_nil in Hin|simpl; lia].
Qed.

(** C26: the example server, however its tasks are scheduled.  Taking a connection from
    the listener panics only because the peer address of a connection, which the code asks
    for twice and unwraps, is not to be had; and as long as every tracker in use is
    registered under its IP address (see [channels_per_key_limit] for when it is, and
    [channels_per_key_limit_exceeded] for when it is not), no two connections in progress
    come from the same IP address. *)
Theorem example_server_limits bound l m :
  I l → runs channels_next peer_addr ip env bound l m →
  (∀ now connected connected' p,
     take_connection channels_next peer_addr ip bound now connected connected' m = Panicked p →
     ∃ c, ask_peer_addr peer_addr connected c = None ∨ ask_peer_addr peer_addr connected' c = None) ∧
  (registered (mn_limit m) → ∀ i j d d', mn_served m !! i = Some d → mn_served m !! j = Some d' →
     is_running d → is_running d' → ip (sd_addr d) = ip (sd_addr d') → i = j).
Proof.
  intros Hl Hs. pose proof (runs_ok _ _ _ Hl Hs) as Hok. pose proof Hok as [Hm _]. split.
  - intros now con con' p. unfold take_connection. destruct (_ && _); [|done]. cbv [mbind exec_bind].
    destruct (poll_next_loop channels_next _ bound (mn_limit m)) as [[r l']|p'|] eqn:Hp; [| |done].
    + destruct (take_polled _ _ _ _ _ Hok Hp) as (_ & _ & _ & Hr). destruct r as [[c|]|]; [|done..].
      destruct (ask_peer_addr _ con' _) as [a|] eqn:Ha; [|intros _; exists (tc_inner c); by right]. simpl.
      destruct Hr as [[Hbuf _] _]. unfold channel_execute, requests.
      destruct (law_channel (Response Resp) _ Hbuf) as (q & Hq & _). simpl. by rewrite Hq.
    + intros _. apply poll_next_panics in Hp as [c Hc]; [|apply Hm]. exists c. left. by apply fmap_None in Hc.
  - intros Hset. assert (Htr : ∀ i d, mn_served m !! i = Some d → is_running d →
      mc_key_counts (mn_limit m) !! ip (sd_addr d) = Some (tracker_of d) ∧ holders (tracker_of d) m ≤ 1).
    { intros i d Hd Hrun. pose proof (mi_keys _ Hm d (list_elem_of_lookup_2 _ _ _ Hd) Hrun) as Hk.
      unfold key_of in Hk. destruct (mc_trackers (mn_limit m) !! tracker_of d) as [tk|] eqn:Ht; [|done]. injection Hk as <-.
      assert (Hc : holders (tracker_of d) m = tk_strong tk) by (rewrite (mi_counts _ Hm); unfold strong_count; by rewrite Ht).
      assert (Hpos : 0 < holders (tracker_of d) m).
      { unfold holders. assert (Hin : d ∈ filter (holds (tracker_of d)) (mn_served m)).
        { apply list_elem_of_filter. split; [done|by eapply list_elem_of_lookup_2]. }
        destruct (filter _ _); [by apply elem_of_nil in Hin|simpl; lia]. }
      split; [apply (Hset _ _ Ht); lia|].
      pose proof (wf_limit _ (mi_wf _ Hm) _ _ Ht) as Hlim. rewrite (mi_limit _ Hm) in Hlim. unfold channels_per_ip in Hlim. lia. }
    intros i j d d' Hd Hd' Hrun Hrun' Hip. destruct (Htr i d Hd Hrun) as [K1 H1'], (Htr j d' Hd' Hrun') as [K2 _].
    rewrite Hip, K2 in K1. injection K1 as Ht. destruct (decide (i = j)) as [|Hne]; [done|exfalso].
    assert (2 ≤ holders (tracker_of d) m); [|lia]. unfold holders. destruct (decide (i < j)) as [?|?].
    + by apply (length_filter_two _ _ i j d d').
    + by apply (length_filter_two _ _ j i d' d); [| |lia| |].
Qed.
End invariant.

(** ** Two connections from one address: the second is shed *)

Definition demo_addr (_ : channel srv_channel) : Z := 7.
Definition demo_connected (_ : channel srv_channel) : bool := true.
Abbreviation DemoMain := (Main srv_channel (list (channel srv_channel)) Z Z).
Definition demo_take (m : DemoMain) : DemoMain :=
  match take_connection two_next demo_addr (λ a, a) 8 0 demo_connected demo_connected m with Done m' => m' | _ => m end.
Definition demo_main : DemoMain := demo_take (demo_take (main_start two)).

Lemma demo_take_step (m : DemoMain) :
  match take_connection two_next demo_addr (λ a, a) 8 0 demo_connected demo_connected m with Done _ => True | _ => False end →
  main_step two_next demo_addr (λ a, a) two_env 8 m (demo_take m).
Proof. intros Hd. unfold demo_take. destruct (take_connection _ _ _ _ _ _ _ _) eqn:E; [|done..]. by eapply main_take. Qed.

Lemma demo_main_runs : runs two_next demo_addr (λ a, a) two_env 8 two demo_main.
Proof. eapply rtc_l; [|apply rtc_once]; apply demo_take_step; by vm_compute. Qed.

Lemma demo_main_registered : registered (mn_limit demo_main).
Proof.
  assert (Ht : mc_trackers (mn_limit demo_main) = {[ 0 := MkTracker 7%Z 1 false ]}) by (vm_compute; reflexivity).
  assert (Hk : mc_key_counts (mn_limit demo_main) !! 7%Z = Some 0) by (vm_compute; reflexivity).
  intros t tk. rewrite Ht. intros [<- <-]%lookup_singleton_Some _. exact Hk.
Qed.

(** A connection that was reset before its address was asked for: the task panics. *)
Definition panics {A} (e : Exec A) : bool := match e with Panicked _ => true | _ => false end.

Example example_server_reset :
  panics (take_connection two_next demo_addr (λ a, a) 8 0 (λ _, false) demo_connected (main_start two)) &&
  panics (take_connection two_next demo_addr (λ a, a) 8 0 demo_connected (λ _, false) (main_start two)) = true.
Proof. vm_compute. reflexivity. Qed.

Lemma example_server_limits_witness :
  in_progress demo_main = 1 ∧
  ∀ i j d d', mn_served demo_main !! i = Some d → mn_served demo_main !! j = Some d' →
    is_running d → is_running d' → sd_addr d = sd_addr d' → i = j.
Proof.
  split; [vm_compute; reflexivity|].
  destruct (example_server_limits two_next demo_addr (λ a, a) two_env (Forall fresh_channel) two_stream two_env_ok
    8 two demo_main two_fresh demo_main_runs) as [_ Hu].
  exact (Hu demo_main_registered).
Defined.
End ExampleServer.
