(* ===== verification/Peers.v ===== *)
(** * In-memory peers (tarpc/src/transport/channel.rs)

    The bounded channel, and that both in-memory transports deliver what is sent, in
    order.  The bounded channel is built on futures' [mpsc], a parameter. *)
From S2P Require Import Prelude Interfaces RefModels Transport.

Module Peers.

(** ** futures::channel::mpsc

    The messages sent and not yet received, the buffer, whether the sender has
    disconnected and whether the receiver is gone.  The buffer does not count the slot
    that the one sender has of its own. *)
Record FMpscView (A : Type) : Type := MkFMpscView {
  fv_queue : list A;
  fv_buffer : nat;
  fv_tx_gone : bool;
  fv_rx_gone : bool;
}.
Arguments MkFMpscView {A} _ _ _ _.
Arguments fv_queue {A} _.
Arguments fv_buffer {A} _.
Arguments fv_tx_gone {A} _.
Arguments fv_rx_gone {A} _.

Class FMpsc (SendError : Type) : Type := {
  fmpsc : Type → Type;
  (** [channel(buffer)]. *)
  fm_channel : ∀ {A}, nat → fmpsc A;
  (** [Sender::poll_ready], [start_send], [poll_flush], [poll_close]. *)
  fm_poll_ready : ∀ {A}, fmpsc A → Poll (Result unit SendError) * fmpsc A;
  fm_start_send : ∀ {A}, A → fmpsc A → Result unit SendError * fmpsc A;
  fm_poll_flush : ∀ {A}, fmpsc A → Poll (Result unit SendError) * fmpsc A;
  fm_poll_close : ∀ {A}, fmpsc A → Poll (Result unit SendError) * fmpsc A;
  (** [Receiver::poll_next]. *)
  fm_poll_next : ∀ {A}, fmpsc A → Poll (option A) * fmpsc A;
}.

(** An item is accepted only while there is room and both ends are there. *)
Definition fsend_allowed {A E} (x : A) (v : FMpscView A) (r : Result unit E) (v' : FMpscView A) : Prop :=
  match r with
  | Ok _ => fv_tx_gone v = false ∧ fv_rx_gone v = false ∧ length (fv_queue v) ≤ fv_buffer v ∧
      v' = MkFMpscView (fv_queue v ++ [x]) (fv_buffer v) false false
  | Err _ => v' = v
  end.

Definition frecv_allowed {A} (v : FMpscView A) (r : Poll (option A)) (v' : FMpscView A) : Prop :=
  match r with
  | Ready (Some x) => ∃ q, fv_queue v = x :: q ∧ v' = MkFMpscView q (fv_buffer v) (fv_tx_gone v) (fv_rx_gone v)
  | Ready None => fv_queue v = [] ∧ fv_tx_gone v = true ∧ v' = v
  | Pending => v' = v
  end.

Class FMpscLaws (SendError : Type) `{FMpsc SendError} : Type := {
  fm_view : ∀ {A}, fmpsc A → FMpscView A;
  law_fm_channel : ∀ A n, fm_view (fm_channel (A:=A) n) = MkFMpscView [] n false false;
  law_fm_poll_ready : ∀ A (c : fmpsc A) r c', fm_poll_ready c = (r, c') → fm_view c' = fm_view c ∧
    (∀ e, r = Ready (Err e) → fv_tx_gone (fm_view c) = true ∨ fv_rx_gone (fm_view c) = true);
  law_fm_start_send : ∀ A (x : A) c r c', fm_start_send x c = (r, c') → fsend_allowed x (fm_view c) r (fm_view c');
  law_fm_poll_flush : ∀ A (c : fmpsc A) r c', fm_poll_flush c = (r, c') → fm_view c' = fm_view c;
  law_fm_poll_close : ∀ A (c : fmpsc A) r c', fm_poll_close c = (r, c') →
    r = Ready (Ok tt) ∧
    fm_view c' = MkFMpscView (fv_queue (fm_view c)) (fv_buffer (fm_view c)) true (fv_rx_gone (fm_view c));
  law_fm_poll_next : ∀ A (c : fmpsc A) r c', fm_poll_next c = (r, c') → frecv_allowed (fm_view c) r (fm_view c');
}.

(** ** [bounded] and [Channel] *)

Section bounded.
Context {SendError : Type} `{!FMpsc SendError}.

(** The boxed source of an error is the channel's error. *)
Inductive ChannelError : Type :=
| Ready_ (source : SendError)
| Send_ (source : SendError)
| Receive_ (source : SendError).

Record Channel (Item SinkItem : Type) : Type := MkChannel {
  rx : fmpsc Item;
  tx : fmpsc SinkItem;
}.
Arguments MkChannel {Item SinkItem} _ _.
Arguments rx {Item SinkItem} _.
Arguments tx {Item SinkItem} _.

Definition bounded {SinkItem Item} (capacity : nat) : Channel SinkItem Item * Channel Item SinkItem :=
  let c1 := fm_channel capacity in
  let c2 := fm_channel capacity in
  (MkChannel c2 c1, MkChannel c1 c2).

(** The other peer of a channel holds the same two objects; [bounded] returns two such peers. *)
Definition peer {Item SinkItem} (c : Channel Item SinkItem) : Channel SinkItem Item := MkChannel (tx c) (rx c).

Lemma bounded_peers {SinkItem Item} (capacity : nat) :
  (bounded (SinkItem:=SinkItem) (Item:=Item) capacity).2 = peer (bounded capacity).1.
Proof. done. Qed.

Context {Item SinkItem : Type}.

Definition poll_next (c : Channel Item SinkItem) : Poll (option (Result Item ChannelError)) * Channel Item SinkItem :=
  let '(r, q) := fm_poll_next (rx c) in (poll_map (option_map Ok) r, MkChannel q (tx c)).

Definition poll_ready (c : Channel Item SinkItem) : Poll (Result unit ChannelError) * Channel Item SinkItem :=
  let '(r, q) := fm_poll_ready (tx c) in (poll_map (result_map_err Ready_) r, MkChannel (rx c) q).

Definition start_send (item : SinkItem) (c : Channel Item SinkItem) : Result unit ChannelError * Channel Item SinkItem :=
  let '(r, q) := fm_start_send item (tx c) in (result_map_err Send_ r, MkChannel (rx c) q).

Definition poll_flush (c : Channel Item SinkItem) : Poll (Result unit ChannelError) * Channel Item SinkItem :=
  let '(r, q) := fm_poll_flush (tx c) in (poll_map (result_map_err Send_) r, MkChannel (rx c) q).

Definition poll_close (c : Channel Item SinkItem) : Poll (Result unit ChannelError) * Channel Item SinkItem :=
  let '(r, q) := fm_poll_close (tx c) in (poll_map (result_map_err Send_) r, MkChannel (rx c) q).

#[export] Instance bounded_transport : Transport SinkItem Item ChannelError := {|
  transport := Channel Item SinkItem;
  t_poll_next := poll_next;
  t_poll_ready := poll_ready;
  t_start_send := start_send;
  t_poll_flush := poll_flush;
  t_poll_close := poll_close;
|}.
End bounded.

Arguments MkChannel {SendError _ Item SinkItem} _ _.
Arguments rx {SendError _ Item SinkItem} _.
Arguments tx {SendError _ Item SinkItem} _.
Arguments Channel SendError {_} Item SinkItem.
Arguments ChannelError SendError : clear implicits.

(** ** Delivery in order *)

Section fifo.
Context {S A E : Type}.
Context (send : A → S → Result unit E * S) (recv : S → Poll (option (Result A E)) * S).

(** A sender, a receiver and what else happens to the two peers, with the logs of what
    was accepted and what was yielded. *)
Context (other : S → S → Prop).

Record Logs := MkLogs { f_state : S; f_sent : list A; f_received : list A }.

Inductive fifo_step (l : Logs) : Logs → Prop :=
| fifo_send x r s' :
    send x (f_state l) = (r, s') →
    fifo_step l (MkLogs s' (f_sent l ++ if is_ok r then [x] else []) (f_received l))
| fifo_recv r s' :
    recv (f_state l) = (r, s') →
    fifo_step l (MkLogs s' (f_sent l) (f_received l ++ match r with Ready (Some (Ok x)) => [x] | _ => [] end))
| fifo_other s' : other (f_state l) s' → fifo_step l (MkLogs s' (f_sent l) (f_received l)).

(** [holds s xs]: the items [xs] are on their way in [s]. *)
Context (holds : S → list A → Prop).
Context (Hsend : ∀ x s r s' xs, holds s xs → send x s = (r, s') → holds s' (xs ++ if is_ok r then [x] else [])).
Context (Hrecv : ∀ s r s' xs, holds s xs → recv s = (r, s') →
  match r with Ready (Some (Ok x)) => ∃ xs', xs = x :: xs' ∧ holds s' xs' | _ => holds s' xs end).
Context (Hother : ∀ s s' xs, holds s xs → other s s' → holds s' xs).

Lemma fifo_delivers s l :
  holds s [] → rtc fifo_step (MkLogs s [] []) l → ∃ xs, f_sent l = f_received l ++ xs ∧ holds (f_state l) xs.
Proof.
  intros Hq Hl. eapply (rtc_preserves _ (λ l, ∃ xs, f_sent l = f_received l ++ xs ∧ holds (f_state l) xs));
    [|exact Hl|by exists []].
  clear Hl. intros l1 l2 [x r s' Hs|r s' Hs|s' Hs] (xs & I & Hxs); simpl.
  - exists (xs ++ if is_ok r then [x] else []). split; [by rewrite I, app_assoc|by eapply Hsend].
  - eapply Hrecv in Hs; [|done]. destruct r as [[[x|]|]|]; try by exists xs; rewrite app_nil_r.
    destruct Hs as (xs' & -> & Hs). exists xs'. by rewrite I, <- app_assoc.
  - exists xs. split; [done|by eapply Hother].
Qed.
End fifo.

Section unbounded.
Context `{!Mpsc, !MpscLaws} {Item SinkItem : Type}.
Abbreviation Peer := (MemChannel.UnboundedChannel Item SinkItem).

(** One peer sends and the other receives, over the objects they share. *)
Definition peer_recv (c : Peer) : Poll (option (Result SinkItem MemChannel.ChannelError)) * Peer :=
  let '(r, c') := MemChannel.poll_next (MemChannel.peer c) in (r, MemChannel.peer c').
(** The other direction, and the operations that move no item. *)
Definition peer_other (c c' : Peer) : Prop := MemChannel.tx c' = MemChannel.tx c.

(** An in-memory transport delivers: whatever else happens on it, what the other peer
    has received is exactly what was accepted for sending, in order, except for what is
    still queued. *)
Theorem unbounded_delivers (l : Logs (S:=Peer) (A:=SinkItem)) :
  rtc (fifo_step MemChannel.start_send peer_recv peer_other) (MkLogs (MemChannel.unbounded).1 [] []) l →
  f_sent l = f_received l ++ mv_queue (mpsc_view (MemChannel.tx (f_state l))).
Proof.
  intros Hl. eapply (fifo_delivers _ _ _ (λ c xs, xs = mv_queue (mpsc_view (MemChannel.tx c)))) in Hl.
  - by destruct Hl as (xs & Hl & ->).
  - intros x c r c' xs -> E. unfold MemChannel.start_send in E. destruct (mv_closed (mpsc_view (MemChannel.tx c))) eqn:Hc.
    + destruct (law_unbounded_send_closed _ _ x Hc) as (q & Hs & Hv). rewrite Hs in E. simplify_eq/=.
      by rewrite Hv, app_nil_r.
    + destruct (law_unbounded_send_open _ _ x Hc) as (q & Hs & Hv). rewrite Hs in E. simplify_eq/=. by rewrite Hv.
  - intros c r c' xs -> E. unfold peer_recv, MemChannel.poll_next in E. simpl in E.
    destruct (mpsc_poll_recv (MemChannel.tx c)) as [p q] eqn:Hp. apply law_poll_recv in Hp. simplify_eq/=.
    destruct p as [[x|]|]; simpl in *.
    + destruct Hp as (q' & -> & ->). by exists q'.
    + by destruct Hp as (_ & _ & ->).
    + by rewrite Hp.
  - intros c c' xs -> E. unfold peer_other in E. by rewrite E.
  - simpl. by rewrite law_unbounded_channel.
Qed.
End unbounded.

Definition demo_peers : MemChannel.UnboundedChannel Z Z := (MemChannel.unbounded).1.
Definition demo_sent : MemChannel.UnboundedChannel Z Z := (MemChannel.start_send 5%Z demo_peers).2.

Lemma unbounded_delivers_witness : [5%Z] = [5%Z] ++ mv_queue (mpsc_view (MemChannel.tx (peer_recv demo_sent).2)).
Proof.
  refine (unbounded_delivers (MkLogs (peer_recv demo_sent).2 [5%Z] [5%Z]) _).
  eapply rtc_l; [apply (fifo_send _ _ _ (MkLogs demo_peers [] []) 5%Z (Ok tt) demo_sent); vm_compute; reflexivity|].
  eapply rtc_once. apply (fifo_recv _ _ _ (MkLogs demo_sent [5%Z] []) (Ready (Some (Ok 5%Z)))). vm_compute. reflexivity.
Defined.

Section bounded_props.
Context {SendError : Type} `{!FMpsc SendError, !FMpscLaws SendError} {Item SinkItem : Type}.
Abbreviation BPeer := (Channel SendError Item SinkItem).

Definition bounded_recv (c : BPeer) : Poll (option (Result SinkItem (ChannelError SendError))) * BPeer :=
  let '(r, c') := poll_next (peer c) in (r, peer c').

(** The operations of the sender that move no item, and whatever happens in the other
    direction or when the receiver is dropped. *)
Inductive bounded_other (c : BPeer) : BPeer → Prop :=
| other_ready r c' : poll_ready c = (r, c') → bounded_other c c'
| other_flush r c' : poll_flush c = (r, c') → bounded_other c c'
| other_close r c' : poll_close c = (r, c') → bounded_other c c'
| other_rx q : bounded_other c (MkChannel q (tx c))
| other_drop q : fv_queue (fm_view q) = fv_queue (fm_view (tx c)) → fv_buffer (fm_view q) = fv_buffer (fm_view (tx c)) →
    bounded_other c (MkChannel (rx c) q).

Definition bounded_holds (n : nat) (c : BPeer) (xs : list SinkItem) : Prop :=
  xs = fv_queue (fm_view (tx c)) ∧ fv_buffer (fm_view (tx c)) = n ∧ length xs ≤ S n.

Lemma bounded_holds_other n c c' xs : bounded_holds n c xs → bounded_other c c' → bounded_holds n c' xs.
Proof.
  intros (-> & Hn & Hl) [r c1 E|r c1 E|r c1 E|q|q Hq Hb].
  - unfold poll_ready in E. destruct (fm_poll_ready _) eqn:Ef. apply law_fm_poll_ready in Ef as [Ef _].
    simplify_eq/=. unfold bounded_holds. simpl. by rewrite Ef.
  - unfold poll_flush in E. destruct (fm_poll_flush _) eqn:Ef. apply law_fm_poll_flush in Ef.
    simplify_eq/=. unfold bounded_holds. simpl. by rewrite Ef.
  - unfold poll_close in E. destruct (fm_poll_close _) eqn:Ef. apply law_fm_poll_close in Ef as [_ Ef].
    simplify_eq/=. unfold bounded_holds. simpl. by rewrite Ef.
  - done.
  - unfold bounded_holds. simpl. by rewrite Hq, Hb.
Qed.

(** The bounded in-memory transport delivers in order too, and never holds more than
    its capacity and the one slot its sender has of its own; once the sender has closed
    it, nothing more is accepted. *)
Lemma bounded_delivers (capacity : nat) (l : Logs (S:=BPeer) (A:=SinkItem)) :
  rtc (fifo_step start_send bounded_recv bounded_other) (MkLogs (bounded capacity).1 [] []) l →
  f_sent l = f_received l ++ fv_queue (fm_view (tx (f_state l))) ∧
  length (fv_queue (fm_view (tx (f_state l)))) ≤ S capacity ∧
  ∀ x, is_ok (start_send x (poll_close (f_state l)).2).1 = false.
Proof.
  intros Hl. eapply (fifo_delivers _ _ _ (bounded_holds capacity)) in Hl.
  - destruct Hl as (xs & Hl & -> & _ & Hlen). split_and!; [done|done|]. intros x. unfold poll_close, start_send.
    destruct (fm_poll_close _) as [r q] eqn:Ec. apply law_fm_poll_close in Ec as [_ Ec]. cbn [snd tx].
    destruct (fm_start_send x q) as [r' q'] eqn:Es. apply law_fm_start_send in Es. rewrite Ec in Es.
    destruct r'; [|done]. by destruct Es as [? _].
  - intros x c r c' xs (-> & Hn & Hl') E. unfold start_send in E. destruct (fm_start_send _ _) as [r1 q] eqn:Es.
    apply law_fm_start_send in Es. simplify_eq/=. unfold bounded_holds. simpl. destruct r1 as [[]|]; simpl in Es |- *.
    + destruct Es as (_ & _ & Hroom & ->). simpl. rewrite length_app. simpl. split_and!; [done|done|lia].
    + by rewrite Es, app_nil_r.
  - intros c r c' xs (-> & Hn & Hl') E. unfold bounded_recv, poll_next in E. simpl in E.
    destruct (fm_poll_next (tx c)) as [p q] eqn:Hp. apply law_fm_poll_next in Hp. simplify_eq/=. unfold bounded_holds. simpl.
    destruct p as [[x|]|]; simpl in *.
    + destruct Hp as (q' & Hq & ->). simpl. exists q'. rewrite Hq in *. simpl in *. split_and!; [done..|lia].
    + by destruct Hp as (_ & _ & ->).
    + by rewrite Hp.
  - intros c c' xs. apply bounded_holds_other.
  - unfold bounded_holds. simpl. rewrite law_fm_channel. simpl. split_and!; [done..|lia].
Qed.
End bounded_props.

(** ** An instance of the channel: a queue *)

#[export] Instance queue_fmpsc : FMpsc unit := {|
  fmpsc := FMpscView;
  fm_channel A n := MkFMpscView [] n false false;
  fm_poll_ready A c :=
    (if fv_tx_gone c || fv_rx_gone c then Ready (Err tt)
     else if bool_decide (length (fv_queue c) ≤ fv_buffer c) then Ready (Ok tt) else Pending, c);
  fm_start_send A x c :=
    if fv_tx_gone c || fv_rx_gone c then (Err tt, c)
    else if bool_decide (length (fv_queue c) ≤ fv_buffer c)
    then (Ok tt, MkFMpscView (fv_queue c ++ [x]) (fv_buffer c) false false) else (Err tt, c);
  fm_poll_flush A c :=
    (if fv_tx_gone c || fv_rx_gone c then Ready (Ok tt)
     else if bool_decide (length (fv_queue c) ≤ fv_buffer c) then Ready (Ok tt) else Pending, c);
  fm_poll_close A c := (Ready (Ok tt), MkFMpscView (fv_queue c) (fv_buffer c) true (fv_rx_gone c));
  fm_poll_next A c :=
    match fv_queue c with
    | x :: q => (Ready (Some x), MkFMpscView q (fv_buffer c) (fv_tx_gone c) (fv_rx_gone c))
    | [] => (if fv_tx_gone c then Ready None else Pending, c)
    end;
|}.

#[export] Program Instance queue_fmpsc_laws : FMpscLaws unit := {| fm_view A c := c |}.
Next Obligation. done. Qed.
Next Obligation.
  intros A c r c' E. simpl in E. destruct (fv_tx_gone c), (fv_rx_gone c); simpl in E; simplify_eq/=; (split; [done|]); auto.
  intros e. case_bool_decide; done.
Qed.
Next Obligation.
  intros A x c r c' E. simpl in E. destruct (fv_tx_gone c) eqn:?, (fv_rx_gone c) eqn:?; simpl in E; simplify_eq/=; try done.
  case_bool_decide; simplify_eq/=; done.
Qed.
Next Obligation. intros A c r c' E. simpl in E. by simplify_eq/=. Qed.
Next Obligation. intros A c r c' E. simpl in E. by simplify_eq/=. Qed.
Next Obligation.
  intros A c r c' E. simpl in E. destruct (fv_queue c) as [|x q] eqn:?; simplify_eq/=; [|by exists q].
  by destruct (fv_tx_gone c') eqn:?.
Qed.

Definition demo_bounded : Channel unit Z Z := (bounded 0).1.

Lemma bounded_delivers_witness :
  [5%Z] = [] ++ [5%Z] ∧ 1 ≤ 1 ∧ ∀ x, is_ok (start_send x (poll_close (start_send 5%Z demo_bounded).2).2).1 = false.
Proof.
  refine (bounded_delivers 0 (MkLogs (start_send 5%Z demo_bounded).2 [5%Z] []) _).
  eapply rtc_once. apply (fifo_send _ _ _ (MkLogs demo_bounded [] []) 5%Z (Ok tt)). vm_compute. reflexivity.
Defined.
End Peers.
