(* ===== verification/Sequential.v ===== *)
(** * Executing requests one after another (tarpc/examples/registry.rs: [FramedJsonRunner])

    The runner of the registry example, as the example in the documentation of
    [InFlightRequest::execute], awaits the execution of each request before it polls the
    stream of requests again.  Its polls are polls of the stream and of one handler, so
    whatever is proved of a connection holds; but while a request is executed the channel
    is not polled, and a runner that waits for room among the queued responses waits for
    ever. *)
From S2P Require Import Prelude Interfaces RefModels Trace Wire TimerTable Transport Cancellations ServerInFlight ServerChannel ServerSpec ServerRefine ServerRequests ServerSystem Limits ServerFrame ServerTermination ServerProps ChannelsPerKey Incoming SpawnIncoming Peers.

Module Sequential.
Export SpawnIncoming.

Section model.
Context `{!Abort, !Mpsc, !MpscLaws} {Span Req Resp Error : Type}.
Context {C : Channel Span Req Resp Error} `{!ChannelLaws C, !ChannelDrop C}.
Context (env : channel C → channel C → Prop).

(** The future of [FramedJsonRunner::run]: its stream of requests, with the requests handed
    out so far, and which of them it awaits. *)
Record Runner := MkRunner {
  rn_connection : Connection C;
  rn_executing : option nat;
}.

(** The start of [run], over the channel that wraps the transport. *)
Definition run (now : Z) (c : channel C) : Exec Runner :=
  q ← requests c; Done (MkRunner (MkConnection (MkServer q [] now) true) None).

Definition is_completed (o : option (Handler Span Req Resp)) : bool :=
  match o with
  | Some h => match h_stage h with Completed | HandlerDropped => true | _ => false end
  | None => true
  end.

(** One poll, when polls of the service function would give [outcome]. *)
Fixpoint run_loop (bound : nat) (now : Z) (outcome : Request Req → Poll (Result Resp ServerError)) (n : nat) (r : Runner) :
    Exec (Poll unit * Runner) :=
  match n with
  | 0 => OutOfFuel
  | S n =>
      let s := cn_server (rn_connection r) in
      match rn_executing r with
      | Some k =>
          let poll h := poll_handler (outcome (if_request (h_request h))) h in
          let s' := on_handler poll k s in
          if is_completed (sv_handlers s' !! k)
          then run_loop bound now outcome n (MkRunner (MkConnection s' true) None)
          else Done (Pending, MkRunner (MkConnection s' true) (Some k))
      | None =>
          '(x, q) ← poll_next_requests bound now (sv_requests s);
          match x with
          | Ready (Some (Ok request)) =>
              let s' := MkServer q (sv_handlers s ++ [MkHandler request Serving None]) now in
              run_loop bound now outcome n (MkRunner (MkConnection s' true) (Some (length (sv_handlers s))))
          | Ready _ => Done (Ready tt, MkRunner (MkConnection (MkServer (drop_requests q) (sv_handlers s) now) false) None)
          | Pending => Done (Pending, MkRunner (MkConnection (MkServer q (sv_handlers s) now) true) None)
          end
      end
  end.

Definition set_channel (c : channel C) (s : ServerSystem.Server C) : ServerSystem.Server C :=
  MkServer (MkRequests c (rq_pending_responses (sv_requests s))) (sv_handlers s) (sv_clock s).

(** The future is polled while it is not finished, and its client acts in between. *)
Inductive run_step (bound n : nat) (r : Runner) : Runner → Prop :=
| step_poll now outcome p r' :
    cn_running (rn_connection r) = true → run_loop bound now outcome n r = Done (p, r') → run_step bound n r r'
| step_env c :
    cn_running (rn_connection r) = true → env (rq_channel (sv_requests (cn_server (rn_connection r)))) c →
    run_step bound n r (MkRunner (MkConnection (set_channel c (cn_server (rn_connection r))) true) (rn_executing r)).

(** ** Its polls are those of a connection *)

(** A connection starts well. *)
Lemma requests_connection_ok (c : channel C) q now :
  fresh_channel c → requests c = Done q → connection_ok (MkConnection (MkServer q [] now) true).
Proof.
  intros Hc Hq. assert (server_inv (MkServer q [] now)).
  { apply (fresh_inv (λ _ _, False) (λ _ _ f, match f with end) 0 c now); [done|]. exists q. split; [done|apply rtc_refl]. }
  split; [by apply server_inv_settled|done].
Qed.

Lemma poll_connection_ok s k outcome :
  connection_ok (MkConnection s true) →
  connection_ok (MkConnection (on_handler (λ h, poll_handler (outcome (if_request (h_request h))) h) k s) true).
Proof.
  intros Hok. apply (connection_handler _ k (MkConnection s true)); [| |done]; intros h q.
  - apply poll_handler_frame.
  - apply poll_handler_ok.
Qed.

Lemma run_loop_ok bound now outcome n r p r' :
  cn_running (rn_connection r) = true → connection_ok (rn_connection r) →
  run_loop bound now outcome n r = Done (p, r') → connection_ok (rn_connection r').
Proof.
  revert r. induction n as [|n IH]; intros [[s run] ex] Hrun Hok; [done|]. simpl in Hrun. subst run.
  cbn [run_loop rn_connection rn_executing cn_server]. destruct ex as [k|].
  - pose proof (poll_connection_ok s k outcome Hok) as Hok'.
    destruct (is_completed _); [by apply IH|]. by intros [= <- <-].
  - pose proof (serve_connection_ok bound now (MkConnection s true)) as Hserve. unfold serve_connection, execute_next in Hserve.
    cbv [mbind exec_bind M_bind mret M_ret] in Hserve |- *. cbn [cn_running cn_server] in Hserve.
    destruct (poll_next_requests bound now (sv_requests s)) as [[x q]| |]; [|done..].
    destruct x as [[[ifr|e]|]|]; [|intros [= <- <-]; by apply Hserve..].
    apply IH; [done|]. by apply Hserve.
Qed.

Context (Henv : ∀ c c', env c c' → ch_inv c → ch_inv c' ∧ ch_abs c' = ch_abs c).

Lemma run_step_ok bound n r r' : run_step bound n r r' → connection_ok (rn_connection r) → connection_ok (rn_connection r').
Proof.
  intros [now outcome p r1 Hrun Hp|c Hrun He] Hok; [by eapply run_loop_ok|]. destruct Hok as [_ Hr]. specialize (Hr Hrun).
  assert (server_inv (set_channel c (cn_server (rn_connection r)))).
  { eapply (serve_step_inv env Henv 0); [by apply serve_env|done]. }
  split; [by apply server_inv_settled|done].
Qed.

(** The runner answers as any server of a channel does. *)
Theorem runner_sound bound n now c r0 r :
  fresh_channel c → run now c = Done r0 → rtc (run_step bound n) r0 r →
  let s := cn_server (rn_connection r) in
  let a := ch_abs (rq_channel (sv_requests s)) in
  (∀ x, x ∈ written (sv_requests s) → ch_own_response x ∨ made (sv_handlers s) x) ∧
  ∀ i, answered i a + open i a ≤ asked i a.
Proof.
  intros Hc Hr Hs s a. unfold run in Hr. cbv [mbind exec_bind] in Hr.
  destruct (requests c) as [q| |] eqn:Hq; [|done..]. injection Hr as <-.
  assert (Hok : connection_ok (rn_connection r)).
  { eapply (rtc_preserves _ (λ r, connection_ok (rn_connection r))); [apply run_step_ok|exact Hs|]. by eapply requests_connection_ok. }
  destruct Hok as [[Hb Hw _] _]. split; [exact Hw|exact Hb].
Qed.

(** ** While it executes a request, it does nothing else *)

(** The runner awaits handler [h], whose response finds no room in the queue. *)
Definition stalled (r : Runner) (k : nat) (h : Handler Span Req Resp) : Prop :=
  let s := cn_server (rn_connection r) in
  cn_running (rn_connection r) = true ∧ rn_executing r = Some k ∧ sv_handlers s !! k = Some h ∧
  ch_is_aborted (if_abort_registration (h_request h)) (rq_channel (sv_requests s)) = false ∧
  ∃ response, h_stage h = SendingResponse response ∧
    mpsc_poll_send (rq_pending_responses (sv_requests s)) response = (Pending, rq_pending_responses (sv_requests s)).

(** The part of the runner that its client does not share. *)
Definition same_server (r r' : Runner) : Prop :=
  let s := cn_server (rn_connection r) in
  let s' := cn_server (rn_connection r') in
  sv_handlers s' = sv_handlers s ∧ rq_pending_responses (sv_requests s') = rq_pending_responses (sv_requests s) ∧
  ch_abs (rq_channel (sv_requests s')) = ch_abs (rq_channel (sv_requests s)).

Context (Hid : ∀ c c' h, env c c' → ch_inv c → ch_is_aborted h c' = ch_is_aborted h c).

Lemma stalled_poll bound now outcome n r k h p r' :
  stalled r k h → run_loop bound now outcome n r = Done (p, r') → p = Pending ∧ r' = r.
Proof.
  intros (Hrun & Hex & Hk & Hab & response & Hst & Hsend) Hp. destruct r as [[[q hs t] run0] ex], n as [|n]; [done|].
  simpl in *. subst run0 ex. unfold on_handler in Hp. simpl in Hp. rewrite Hk in Hp.
  unfold poll_handler in Hp. rewrite Hst, Hab in Hp. unfold send_response in Hp. rewrite Hsend in Hp.
  assert (MkHandler (h_request h) (SendingResponse response) (h_outcome h) = h) as E by (destruct h; simpl in *; by subst).
  rewrite E in Hp. simpl in Hp. rewrite (list_insert_id hs k h Hk) in Hp. rewrite Hk in Hp. simpl in Hp. rewrite Hst in Hp.
  injection Hp as <- <-. split; [done|]. by destruct q.
Qed.

(** While the service function is pending, time may pass the request's deadline and the
    client may cancel it: the runner does not notice. *)
Lemma serving_poll bound now outcome n r k h p r' :
  cn_running (rn_connection r) = true → rn_executing r = Some k → sv_handlers (cn_server (rn_connection r)) !! k = Some h →
  ch_is_aborted (if_abort_registration (h_request h)) (rq_channel (sv_requests (cn_server (rn_connection r)))) = false →
  h_stage h = Serving → outcome (if_request (h_request h)) = Pending →
  run_loop bound now outcome n r = Done (p, r') → p = Pending ∧ r' = r.
Proof.
  intros Hrun Hex Hk Hab Hst Ho Hp. destruct r as [[[q hs t] run0] ex], n as [|n]; [done|].
  simpl in *. subst run0 ex. unfold on_handler in Hp. simpl in Hp. rewrite Hk in Hp.
  unfold poll_handler in Hp. rewrite Hst, Hab, Ho in Hp. simpl in Hp. rewrite (list_insert_id hs k h Hk), Hk in Hp.
  simpl in Hp. rewrite Hst in Hp. by injection Hp as <- <-.
Qed.

(** C8: a runner that executes requests one after another can stop for ever.  Once it
    awaits a handler whose response finds no room among the queued responses, no poll, at
    whatever time, and nothing the client does lets it go on: no queued response is ever
    written, no message read, no deadline noticed and no request abandoned. *)
Theorem stalled_runner_never_recovers bound n r r' k h :
  stalled r k h → connection_ok (rn_connection r) → rtc (run_step bound n) r r' →
  stalled r' k h ∧ same_server r r'.
Proof.
  intros Hst Hok Hs.
  apply (rtc_preserves _ (λ r', (stalled r' k h ∧ connection_ok (rn_connection r')) ∧ same_server r r')) in Hs;
    [by destruct Hs as [[? _] ?]| |done].
  intros r1 r2 Hstep [[Hst1 Hok1] Hsame]. pose proof (run_step_ok _ _ _ _ Hstep Hok1) as Hok2.
  destruct Hstep as [now outcome p r2 Hrun Hp|c Hrun He].
  - by destruct (stalled_poll _ _ _ _ _ _ _ _ _ Hst1 Hp) as [_ ->].
  - destruct Hok1 as [_ Hi]. specialize (Hi Hrun). destruct (Henv _ _ He (si_inv _ Hi)) as [_ Ha].
    destruct Hst1 as (_ & Hex & Hk & Hab & Hresp). split; [split; [|done]|].
    + split_and!; [done|done|done| |done]. simpl. rewrite (Hid _ _ _ He); [done|apply Hi].
    + destruct Hsame as (Hh & Hq & Habs). split_and!; [done|done|]. simpl. by rewrite Ha.
Qed.
End model.

Arguments Runner {_ _ _ _ _} C.

(** ** A client that does not read

    The runner's channel, with its default configuration, over a bounded transport; the
    client writes requests and reads nothing, as one whose connection is slow. *)

#[local] Existing Instance Peers.queue_fmpsc.
Abbreviation ClientEnd := (Peers.Channel unit (Response Z) (ClientMessage Z)).

Definition slow_inner : Transport (Response Z) (ClientMessage Z) (Peers.ChannelError unit) := Peers.bounded_transport.
Definition slow_T : Transport (Response Z) (ClientMessage Z) (Peers.ChannelError unit) := logged slow_inner.
Definition slow_channel : Channel unit Z Z (ChannelError.t (Peers.ChannelError unit)) :=
  base_channel (T:=slow_T) srv_rng srv_span srv_active.
#[export] Instance slow_laws : ChannelLaws slow_channel := base_channel_laws (T:=slow_T) srv_rng srv_span srv_active.
#[export] Instance slow_drop : ChannelDrop slow_channel := base_channel_drop (T:=slow_T) srv_rng srv_span srv_active.

Definition slow_t0 : transport slow_T := @MkLogged _ _ _ slow_inner (Peers.bounded 0).1 [] [] false.
Definition slow_b0 : channel slow_channel := with_defaults (Span:=unit) (T:=slow_T) slow_t0 tt.

Definition on_peer (f : ClientEnd → ClientEnd)
    (b : channel slow_channel) : channel slow_channel :=
  let t := bc_transport b in
  set_transport (@MkLogged _ _ _ slow_inner (Peers.peer (f (Peers.peer (lg_inner t)))) (lg_sent t) (lg_received t) (lg_ended t)
    : transport slow_T) b.
Definition slow_env (b b' : channel slow_channel) : Prop := ∃ f, b' = on_peer f b.

Lemma slow_env_ok b b' : slow_env b b' → ch_inv b → ch_inv b' ∧ ch_abs b' = ch_abs b.
Proof. intros [f ->] Hi. split; [exact Hi|done]. Qed.
Lemma slow_env_aborted b b' h : slow_env b b' → ch_inv b → ch_is_aborted h b' = ch_is_aborted h b.
Proof. by intros [f ->]. Qed.

Definition client_writes (i : Z) (c : ClientEnd) : ClientEnd := (Peers.start_send (srv_request i) c).2.
Definition client_reads (c : ClientEnd) : ClientEnd := (Peers.poll_next c).2.

Definition slow_at (f : ClientEnd → ClientEnd)
    (r : Runner slow_channel) : Runner slow_channel :=
  let s := cn_server (rn_connection r) in
  MkRunner (MkConnection (set_channel (on_peer f (rq_channel (sv_requests s))) s) true) (rn_executing r).
Definition slow_poll (r : Runner slow_channel) : Exec (Runner slow_channel) :=
  '(_, r) ← run_loop srv_bound 1 (λ _, Ready (Ok 42%Z)) srv_bound r; Done r.

Definition still_running (r : Runner slow_channel) : Exec (Runner slow_channel) :=
  if cn_running (rn_connection r) then Done r else OutOfFuel.

(** [n] more requests, each followed by a poll of the runner. *)
Fixpoint slow_requests (n : nat) (r : Runner slow_channel) : Exec (Runner slow_channel) :=
  match n with
  | 0 => Done r
  | S n => r ← slow_requests n r; r ← still_running r; slow_poll (slow_at (client_writes (Z.of_nat n)) r)
  end.

Lemma slow_requests_steps n r0 r : slow_requests n r0 = Done r → rtc (run_step slow_env srv_bound srv_bound) r0 r.
Proof.
  revert r. induction n as [|n IH]; intros r Hr; [by injection Hr as <-|]. cbn [slow_requests] in Hr.
  cbv [mbind exec_bind still_running slow_poll] in Hr. destruct (slow_requests n r0) as [r1| |]; [|done..].
  destruct (cn_running (rn_connection r1)) eqn:Hrun; [|done].
  destruct (run_loop _ _ _ _ _) as [[p r2]| |] eqn:Hp; [|done..]. injection Hr as <-.
  eapply rtc_r; [eapply rtc_r; [by apply IH|apply (step_env _ _ _ r1); [done|by eexists]]|by eapply step_poll].
Qed.

Definition slow_r0 : Runner slow_channel :=
  MkRunner (MkConnection (MkServer (match requests slow_b0 with Done q => q | _ => MkRequests slow_b0 mpsc_unbounded_channel end) [] 0) true) None.
Example slow_start : run 0 slow_b0 = Done slow_r0.
Proof. reflexivity. Qed.
Definition done_or {A} (d : A) (e : Exec A) : A := match e with Done a => a | _ => d end.
(** After a hundred and two requests. *)
Definition slow_stalled : Runner slow_channel := done_or slow_r0 (slow_requests 102 slow_r0).

Lemma slow_fresh : fresh_channel slow_b0.
Proof.
  split_and!; [done|split; [apply timers_ok_new|apply owners_ok_empty]| |done].
  intros i. unfold open. by destruct (_ !! i) eqn:Hi; [destruct i|].
Qed.

Lemma slow_ok n r : slow_requests n slow_r0 = Done r → connection_ok (rn_connection r).
Proof.
  intros Hr. eapply (rtc_preserves _ (λ r, connection_ok (rn_connection r)));
    [apply (run_step_ok slow_env slow_env_ok)|by eapply slow_requests_steps|].
  apply (requests_connection_ok slow_b0); [exact slow_fresh|reflexivity].
Qed.

Definition slow_handler : Handler unit Z Z :=
  done_or (MkHandler (MkInFlightRequest (MkRequest srv_context 0 0%Z) 0 (MkResponseGuard 0 false) tt) Serving None)
    (from_option Done OutOfFuel (sv_handlers (cn_server (rn_connection slow_stalled)) !! 101)).

Lemma slow_stalled_done : slow_requests 102 slow_r0 = Done slow_stalled.
Proof.
  assert (Hs : match slow_requests 102 slow_r0 with Done _ => True | _ => False end) by (vm_compute; exact I).
  unfold slow_stalled, done_or. destruct (slow_requests 102 slow_r0); [reflexivity|destruct Hs..].
Qed.

Lemma slow_is_stalled : stalled slow_stalled 101 slow_handler.
Proof.
  unfold stalled. split_and!; [vm_compute; reflexivity..|]. exists (MkResponse 101 (Ok 42%Z)). split; vm_compute; reflexivity.
Qed.

Definition summary (r : Runner slow_channel) : option nat * nat * nat :=
  let q := sv_requests (cn_server (rn_connection r)) in (rn_executing r, length (queued q), length (written q)).

(** The client reads at last, and the runner is polled again. *)
Definition slow_later : Runner slow_channel := done_or slow_r0 (slow_poll (slow_at client_reads slow_stalled)).

Lemma stalled_runner_never_recovers_witness : stalled slow_later 101 slow_handler ∧ summary slow_later = (Some 101, 100, 1).
Proof.
  split; [|vm_compute; reflexivity].
  assert (Hd : match slow_poll (slow_at client_reads slow_stalled) with Done _ => True | _ => False end) by (vm_compute; exact I).
  assert (Hrun : cn_running (rn_connection slow_stalled) = true) by (vm_compute; reflexivity).
  assert (Hs : rtc (run_step slow_env srv_bound srv_bound) slow_stalled slow_later).
  { revert Hd Hrun. unfold slow_later. generalize slow_stalled. intros r Hd Hrun. unfold slow_poll in *. cbv [mbind exec_bind] in *.
    destruct (run_loop _ _ _ _ _) as [[p r2]| |] eqn:Hp; [|destruct Hd..]. simpl.
    eapply rtc_l; [apply (step_env _ _ _ r); [exact Hrun|by eexists]|]. eapply rtc_once, step_poll; [|exact Hp]. reflexivity. }
  exact (proj1 (stalled_runner_never_recovers slow_env slow_env_ok slow_env_aborted srv_bound srv_bound slow_stalled slow_later
    101 slow_handler slow_is_stalled (slow_ok 102 slow_stalled slow_stalled_done) Hs)).
Defined.

Example runner_keeps_up : (summary <$> (match slow_requests 101 slow_r0 with Done r => Some r | _ => None end)) = Some (None, 100, 1).
Proof. vm_compute. reflexivity. Qed.
End Sequential.
