(* ===== verification/Subscriber.v ===== *)
(** * A subscriber's end of a connection (tarpc/examples/pubsub.rs: [Subscriber::connect])

    A subscriber serves on the connection it opened.  The first request, for its topics,
    is executed before [connect] returns; the others are spawned by a task that ends when
    the subscriber's handle is dropped.  The polls are those of a connection, so what is
    proved of connections holds of a subscriber's. *)
From S2P Require Import Prelude Interfaces RefModels Trace Wire TimerTable Transport Cancellations ServerInFlight ServerChannel ServerSpec ServerRefine ServerRequests ServerSystem Limits ServerFrame ServerTermination ServerProps ChannelsPerKey Incoming SpawnIncoming Peers Sequential.

Module SubscriberConnect.
Export Sequential.

Section model.
Context `{!Abort, !Mpsc, !MpscLaws} {Span Req Resp Error : Type}.
Context {C : Channel Span Req Resp Error} `{!ChannelLaws C, !ChannelDrop C}.
Context (env : channel C → channel C → Prop).
(** The subscriber's methods return at once. *)
Context (service : Request Req → Result Resp ServerError).

Inductive ConnectError :=
| RequestsFailed (e : Error)
(** "Server never initialized the subscriber." *)
| NeverInitialized.

Inductive ConnectStage :=
| AwaitingTopics
| ExecutingTopics (k : nat)
| Connected
| ConnectFailed (e : ConnectError).

(** The connection, how far [connect] is, and whether the handle was dropped. *)
Record Subscribing := MkSubscribing {
  su_connection : Connection C;
  su_stage : ConnectStage;
  su_aborted : bool;
}.

Definition connect_start (now : Z) (c : channel C) : Exec Subscribing :=
  handler ← requests c; Done (MkSubscribing (MkConnection (MkServer handler [] now) true) AwaitingTopics false).

Definition poll_service (h : Handler Span Req Resp) : Requests C → Handler Span Req Resp * Requests C :=
  poll_handler (Ready (service (if_request (h_request h)))) h.

(** A poll of [connect] that executes the first request: connected when it completes. *)
Definition execute_topics (k : nat) (s : ServerSystem.Server C) (aborted : bool) : Poll (Result unit ConnectError) * Subscribing :=
  let s' := on_handler poll_service k s in
  if is_completed (sv_handlers s' !! k) then (Ready (Ok tt), MkSubscribing (MkConnection s' true) Connected aborted)
  else (Pending, MkSubscribing (MkConnection s' true) (ExecutingTopics k) aborted).

Definition connect_failed (q : Requests C) (s : ServerSystem.Server C) (now : Z) (e : ConnectError) :
    Poll (Result unit ConnectError) * Subscribing :=
  (Ready (Err e), MkSubscribing (MkConnection (MkServer (drop_requests q) (sv_handlers s) now) false) (ConnectFailed e) false).

(** A poll of the future of [connect]. *)
Definition connect_poll (bound : nat) (now : Z) (c : Subscribing) : Exec (Poll (Result unit ConnectError) * Subscribing) :=
  let s := cn_server (su_connection c) in
  match su_stage c with
  | AwaitingTopics =>
      '(x, q) ← poll_next_requests bound now (sv_requests s);
      Done match x with
           | Ready (Some (Ok init_topics)) =>
               execute_topics (length (sv_handlers s)) (MkServer q (sv_handlers s ++ [MkHandler init_topics Serving None]) now) (su_aborted c)
           | Ready (Some (Err e)) => connect_failed q s now (RequestsFailed e)
           | Ready None => connect_failed q s now NeverInitialized
           | Pending => (Pending, MkSubscribing (MkConnection (MkServer q (sv_handlers s) now) true) AwaitingTopics (su_aborted c))
           end
  | ExecutingTopics k => Done (execute_topics k s (su_aborted c))
  | Connected => Done (Ready (Ok tt), c)
  | ConnectFailed e => Done (Ready (Err e), c)
  end.

(** [SubscriberHandle::drop]. *)
Definition drop_handle (c : Subscribing) : Subscribing := MkSubscribing (su_connection c) (su_stage c) true.

(** A poll of the task that [connect] spawned: once aborted, it drops its stream. *)
Definition listen_poll (bound : nat) (now : Z) (c : Subscribing) : Exec Subscribing :=
  let cn := su_connection c in
  if su_aborted c && cn_running cn then
    Done (MkSubscribing (MkConnection (MkServer (drop_requests (sv_requests (cn_server cn))) (sv_handlers (cn_server cn))
      (sv_clock (cn_server cn))) false) (su_stage c) true)
  else
    cn ← serve_connection bound now cn; Done (MkSubscribing cn (su_stage c) (su_aborted c)).

Definition with_connection (cn : Connection C) (c : Subscribing) : Subscribing := MkSubscribing cn (su_stage c) (su_aborted c).

Inductive subscriber_step (bound : nat) (c : Subscribing) : Subscribing → Prop :=
| su_connect now r c' :
    cn_running (su_connection c) = true → connect_poll bound now c = Done (r, c') → subscriber_step bound c c'
| su_listen now c' : su_stage c = Connected → listen_poll bound now c = Done c' → subscriber_step bound c c'
| su_poll_handler k :
    su_stage c = Connected →
    subscriber_step bound c (with_connection (MkConnection (on_handler poll_service k (cn_server (su_connection c)))
      (cn_running (su_connection c))) c)
| su_drop_handle : su_stage c = Connected → subscriber_step bound c (drop_handle c)
| su_env ch :
    cn_running (su_connection c) = true → env (rq_channel (sv_requests (cn_server (su_connection c)))) ch →
    subscriber_step bound c (with_connection (MkConnection (set_channel ch (cn_server (su_connection c))) true) c).

(** ** Invariant *)

Lemma poll_service_connection k cn :
  connection_ok cn → connection_ok (MkConnection (on_handler poll_service k (cn_server cn)) (cn_running cn)).
Proof.
  apply (connection_handler _ k cn); intros h q; [apply poll_handler_frame|apply poll_handler_ok].
Qed.

Lemma dropped_connection_ok s :
  settled s → connection_ok (MkConnection (MkServer (drop_requests (sv_requests s)) (sv_handlers s) (sv_clock s)) false).
Proof. intros Hs. split; [|done]. apply settled_logs; [apply law_drop_logs|done]. Qed.

Lemma execute_topics_ok k s aborted :
  connection_ok (MkConnection s true) → connection_ok (su_connection (execute_topics k s aborted).2).
Proof.
  intros Hok. apply (poll_service_connection k) in Hok. unfold execute_topics. by destruct (is_completed _).
Qed.

Lemma connect_poll_ok bound now c r c' :
  cn_running (su_connection c) = true → connection_ok (su_connection c) →
  connect_poll bound now c = Done (r, c') → connection_ok (su_connection c').
Proof.
  destruct c as [[s run] stage ab]. simpl. intros -> Hok. unfold connect_poll. destruct stage as [|k| |e]; simpl.
  - destruct Hok as [_ Hi]. specialize (Hi eq_refl). simpl in Hi. cbv [mbind exec_bind].
    destruct (poll_next_requests bound now (sv_requests s)) as [[x q]| |] eqn:Hp; [|done..].
    pose proof (poll_inv bound now _ x q Hi Hp) as Hi'. pose proof (server_inv_settled _ Hi') as Hst.
    destruct x as [[[ifr|e]|]|]; simpl in Hi', Hst; rewrite ?app_nil_r in Hi', Hst.
    + intros [= E]. change c' with ((r, c').2). rewrite <- E. by apply execute_topics_ok.
    + intros [= <- <-]. by apply (dropped_connection_ok (MkServer q (sv_handlers s) now)).
    + intros [= <- <-]. by apply (dropped_connection_ok (MkServer q (sv_handlers s) now)).
    + by intros [= <- <-].
  - intros [= E]. change c' with ((r, c').2). rewrite <- E. by apply execute_topics_ok.
  - by intros [= <- <-].
  - by intros [= <- <-].
Qed.

Context (Henv : ∀ c c', env c c' → ch_inv c → ch_inv c' ∧ ch_abs c' = ch_abs c).

Lemma subscriber_step_ok bound c c' :
  subscriber_step bound c c' → connection_ok (su_connection c) → connection_ok (su_connection c').
Proof.
  intros [now r c1 Hrun Hp|now c1 _ Hp|k _|_|ch Hrun He] Hok; simpl.
  - by eapply connect_poll_ok.
  - unfold listen_poll in Hp. destruct (_ && _).
    + injection Hp as <-. apply dropped_connection_ok, Hok.
    + cbv [mbind exec_bind] in Hp. destruct (serve_connection _ _ _) as [cn| |] eqn:Hs; [|done..]. injection Hp as <-.
      by eapply serve_connection_ok.
  - by apply poll_service_connection.
  - done.
  - destruct Hok as [_ Hi]. specialize (Hi Hrun).
    assert (server_inv (set_channel ch (cn_server (su_connection c)))) by (eapply (serve_step_inv env Henv 0); [by apply serve_env|done]).
    split; [by apply server_inv_settled|done].
Qed.

(** However its tasks are scheduled, a subscriber answers only what it was asked on its
    connection, with what its methods returned. *)
Theorem subscriber_sound bound now c s0 s :
  fresh_channel c → connect_start now c = Done s0 → rtc (subscriber_step bound) s0 s →
  let sv := cn_server (su_connection s) in
  let a := ch_abs (rq_channel (sv_requests sv)) in
  (∀ x, x ∈ written (sv_requests sv) → ch_own_response x ∨ made (sv_handlers sv) x) ∧
  ∀ i, answered i a + open i a ≤ asked i a.
Proof.
  intros Hc Hs0 Hs sv a. unfold connect_start in Hs0. cbv [mbind exec_bind] in Hs0.
  destruct (requests c) as [q| |] eqn:Hq; [|done..]. injection Hs0 as <-.
  assert (Hok : connection_ok (su_connection s)).
  { eapply (rtc_preserves _ (λ s, connection_ok (su_connection s))); [apply subscriber_step_ok|exact Hs|]. by eapply requests_connection_ok. }
  destruct Hok as [[Hb Hw _] _]. split; [exact Hw|exact Hb].
Qed.

(** When the handle is dropped the task stops at its next poll, whatever its client sent,
    and stays stopped. *)
Lemma dropped_handle_stops bound now c :
  cn_running (su_connection c) = true →
  ∃ c', listen_poll bound now (drop_handle c) = Done c' ∧ cn_running (su_connection c') = false ∧
    ∀ n t, listen_poll n t c' = Done c'.
Proof.
  intros Hrun. unfold listen_poll, drop_handle. simpl. rewrite Hrun. simpl. by eexists.
Qed.
End model.

(** A subscriber asked for its topics answers and is connected; one whose peer closes
    before that fails. *)
Definition client_closes (b : channel srv_channel) : channel srv_channel :=
  let t := bc_transport b in
  let c := lg_inner t in
  let c' := MemChannel.MkUnboundedChannel (mpsc_drop_sender (MemChannel.rx c)) (MemChannel.tx c) in
  set_transport (@MkLogged _ _ _ srv_inner c' (lg_sent t) (lg_received t) (lg_ended t) : transport srv_T) b.

Definition first_poll (f : channel srv_channel → channel srv_channel) : Exec (Poll (Result unit (ConnectError (Error:=ChannelError.t MemChannel.ChannelError))) * nat) :=
  c ← connect_start (C:=srv_channel) 0 srv_b0;
  let s := cn_server (su_connection c) in
  let c := with_connection (MkConnection (set_channel (f (rq_channel (sv_requests s))) s) true) c in
  '(r, c) ← connect_poll (λ req, Ok (message req + 1)%Z) srv_bound 1 c;
  Done (r, length (queued (sv_requests (cn_server (su_connection c))))).
Example subscriber_connects : first_poll (client_sends (srv_request 5)) = Done (Ready (Ok tt), 1).
Proof. vm_compute. reflexivity. Qed.
Example server_never_initialized : first_poll client_closes = Done (Ready (Err NeverInitialized), 0).
Proof. vm_compute. reflexivity. Qed.
End SubscriberConnect.
