(* ===== verification/SerdeTransport.v ===== *)
(** * The transport over a byte stream (tarpc/src/serde_transport.rs)

    The wrapper of tokio-serde's [Framed], which is a parameter together with the codec,
    the framing and the sockets; the futures that connect and the streams that accept, for
    TCP and for Unix sockets; and the path of a temporary socket. *)
From Stdlib Require Import Ascii.
From S2P Require Import Prelude Interfaces Trace Transport.

Module SerdeTransport.

(** ** tokio_serde::Framed over a framed byte stream *)

Class SerdeFramed (serde_framed FramedIo Codec Item SinkItem Error : Type) : Type := {
  sf_new : FramedIo → Codec → serde_framed;
  sf_get_ref : serde_framed → FramedIo;
  sf_poll_next : serde_framed → Poll (option (Result Item Error)) * serde_framed;
  sf_poll_ready : serde_framed → Poll (Result unit Error) * serde_framed;
  sf_start_send : SinkItem → serde_framed → Result unit Error * serde_framed;
  sf_poll_flush : serde_framed → Poll (Result unit Error) * serde_framed;
  sf_poll_close : serde_framed → Poll (Result unit Error) * serde_framed;
}.

(** [std::io::Error]: from the operating system or from [io::Error::other]. *)
Inductive IoError (Error : Type) : Type :=
| Os (code : Z)
| Other (e : Error).
Arguments Os {Error} code.
Arguments Other {Error} e.

(** ** [Transport] *)

Section transport.
Context {serde_framed FramedIo Codec Item SinkItem Error : Type}.
Context {F : SerdeFramed serde_framed FramedIo Codec Item SinkItem Error}.

Record SerdeTransport := MkSerdeTransport { inner : serde_framed }.

Definition get_ref (self : SerdeTransport) : FramedIo := sf_get_ref (inner self).

Definition poll_next (self : SerdeTransport) : Poll (option (Result Item (IoError Error))) * SerdeTransport :=
  let '(r, i) := sf_poll_next (inner self) in
  (poll_map (option_map (result_map_err Other)) r, MkSerdeTransport i).

Definition poll_ready (self : SerdeTransport) : Poll (Result unit (IoError Error)) * SerdeTransport :=
  let '(r, i) := sf_poll_ready (inner self) in (poll_map (result_map_err Other) r, MkSerdeTransport i).

Definition start_send (item : SinkItem) (self : SerdeTransport) : Result unit (IoError Error) * SerdeTransport :=
  let '(r, i) := sf_start_send item (inner self) in (result_map_err Other r, MkSerdeTransport i).

Definition poll_flush (self : SerdeTransport) : Poll (Result unit (IoError Error)) * SerdeTransport :=
  let '(r, i) := sf_poll_flush (inner self) in (poll_map (result_map_err Other) r, MkSerdeTransport i).

Definition poll_close (self : SerdeTransport) : Poll (Result unit (IoError Error)) * SerdeTransport :=
  let '(r, i) := sf_poll_close (inner self) in (poll_map (result_map_err Other) r, MkSerdeTransport i).

Definition new (framed_io : FramedIo) (codec : Codec) : SerdeTransport := MkSerdeTransport (sf_new framed_io codec).

(** [From<(S, Codec)>], with [Framed::new] of the length-delimited codec. *)
Definition from {S} (framed_new : S → FramedIo) (io : S) (codec : Codec) : SerdeTransport := new (framed_new io) codec.

#[export] Instance serde_transport : Transport SinkItem Item (IoError Error) := {|
  transport := SerdeTransport;
  t_poll_next := poll_next;
  t_poll_ready := poll_ready;
  t_start_send := start_send;
  t_poll_flush := poll_flush;
  t_poll_close := poll_close;
|}.
End transport.

Arguments SerdeTransport serde_framed : clear implicits.

(** ** Sockets: connecting and accepting *)

(** What a kind of socket offers: [TcpStream], [TcpListener] and their addresses, or the
    Unix ones. *)
Class Sockets (Addr Config FramedIo IoErr : Type) : Type := {
  socket : Type;
  listener : Type;
  socket_addr : Type;
  bind : Addr → Result listener IoErr;
  listener_local_addr : listener → Result socket_addr IoErr;
  poll_accept : listener → Poll (Result (socket * socket_addr) IoErr) * listener;
  socket_peer_addr : socket → Result socket_addr IoErr;
  socket_local_addr : socket → Result socket_addr IoErr;
  connecting : Type;
  socket_connect : Addr → connecting;
  connecting_poll : connecting → Poll (Result socket IoErr) * connecting;
  (** [LengthDelimitedCodec::builder()], [Builder::new_framed] and [Framed::get_ref]. *)
  builder : Config;
  new_framed : Config → socket → FramedIo;
  framed_get_ref : FramedIo → socket;
}.

Section sockets.
Context {Addr Config serde_framed FramedIo Codec Item SinkItem Error : Type}.
Context `{!Sockets Addr Config FramedIo (IoError Error), !SerdeFramed serde_framed FramedIo Codec Item SinkItem Error}.

Definition peer_addr (self : SerdeTransport serde_framed) : Result socket_addr (IoError Error) :=
  socket_peer_addr (framed_get_ref (sf_get_ref (inner self))).
Definition local_addr (self : SerdeTransport serde_framed) : Result socket_addr (IoError Error) :=
  socket_local_addr (framed_get_ref (sf_get_ref (inner self))).

(** [TcpConnect]; [codec_fn] makes a codec. *)
Record Connect := MkConnect {
  cn_inner : connecting;
  cn_codec_fn : unit → Codec;
  cn_config : Config;
}.

Definition connect (addr : Addr) (codec_fn : unit → Codec) : Connect :=
  MkConnect (socket_connect addr) codec_fn builder.

Definition connect_config_mut (f : Config → Config) (self : Connect) : Connect :=
  MkConnect (cn_inner self) (cn_codec_fn self) (f (cn_config self)).

Definition connect_poll (self : Connect) : Poll (Result (SerdeTransport serde_framed) (IoError Error)) * Connect :=
  let '(r, i) := connecting_poll (cn_inner self) in
  let self := MkConnect i (cn_codec_fn self) (cn_config self) in
  (match r with
   | Pending => Pending
   | Ready (Err e) => Ready (Err e)
   | Ready (Ok io) => Ready (Ok (new (new_framed (cn_config self) io) (cn_codec_fn self tt)))
   end, self).

(** [Incoming]. *)
Record Incoming := MkIncoming {
  in_listener : listener;
  in_local_addr : socket_addr;
  in_codec_fn : unit → Codec;
  in_config : Config;
}.

Definition listen_on (l : listener) (codec_fn : unit → Codec) : Result Incoming (IoError Error) :=
  match listener_local_addr l with
  | Err e => Err e
  | Ok a => Ok (MkIncoming l a codec_fn builder)
  end.

Definition listen (addr : Addr) (codec_fn : unit → Codec) : Result Incoming (IoError Error) :=
  match bind addr with
  | Err e => Err e
  | Ok l => listen_on l codec_fn
  end.

Definition incoming_local_addr (self : Incoming) : socket_addr := in_local_addr self.

Definition incoming_config_mut (f : Config → Config) (self : Incoming) : Incoming :=
  MkIncoming (in_listener self) (in_local_addr self) (in_codec_fn self) (f (in_config self)).

Definition incoming_poll_next (self : Incoming)
    : Poll (option (Result (SerdeTransport serde_framed) (IoError Error))) * Incoming :=
  let '(r, l) := poll_accept (in_listener self) in
  let self := MkIncoming l (in_local_addr self) (in_codec_fn self) (in_config self) in
  (match r with
   | Pending => Pending
   | Ready (Err e) => Ready (Some (Err e))
   | Ready (Ok (conn, _)) => Ready (Some (Ok (new (new_framed (in_config self) conn) (in_codec_fn self tt))))
   end, self).

(** What a server does with a listener: it polls it, and may change the framing that
    later connections get. *)
Inductive ListenOp := PollAccept | SetConfig (f : Config → Config).

Fixpoint listen_run (ops : list ListenOp) (self : Incoming)
    : list (Poll (option (Result (SerdeTransport serde_framed) (IoError Error)))) * Incoming :=
  match ops with
  | [] => ([], self)
  | PollAccept :: ops =>
      let '(r, self) := incoming_poll_next self in
      let '(rs, self) := listen_run ops self in (r :: rs, self)
  | SetConfig f :: ops => listen_run ops (incoming_config_mut f self)
  end.

(** The listener alone, with the framing in force at each outcome. *)
Fixpoint accepts (ops : list ListenOp) (c : Config) (l : listener)
    : list (Config * Poll (Result (socket * socket_addr) (IoError Error))) :=
  match ops with
  | [] => []
  | PollAccept :: ops => let '(r, l) := poll_accept l in (c, r) :: accepts ops c l
  | SetConfig f :: ops => accepts ops (f c) l
  end.

(** An outcome of the listener as an item of the stream. *)
Definition wrapped (codec_fn : unit → Codec) (o : Config * Poll (Result (socket * socket_addr) (IoError Error)))
    : Poll (option (Result (SerdeTransport serde_framed) (IoError Error))) :=
  poll_map (λ r, Some (result_map (λ x, new (new_framed o.1 x.1) (codec_fn tt)) r)) o.2.

(** A listener that was bound reports its address throughout, never ends, and yields for
    each connection accepted, in order, a transport over it with the framing then in force
    and a codec of its own; an error to accept is an item like another. *)
Lemma listen_run_accepts ops addr codec_fn l a :
  bind addr = Ok l → listener_local_addr l = Ok a →
  ∃ self, listen addr codec_fn = Ok self ∧
    (listen_run ops self).1 = wrapped codec_fn <$> accepts ops builder l ∧
    incoming_local_addr (listen_run ops self).2 = a.
Proof.
  intros Hb Ha. unfold listen, listen_on. rewrite Hb, Ha. eexists. split; [done|].
  generalize builder as c. clear Hb Ha. revert l. induction ops as [|[|f] ops IH]; intros l c; [done| |apply IH].
  cbn [listen_run accepts]. unfold incoming_poll_next. cbn [in_listener]. destruct (poll_accept l) as [r l'].
  destruct (IH l' c) as [H1 H2]. cbn in H1, H2 |- *. destruct (listen_run ops _) as [rs self]. cbn in H1, H2 |- *.
  rewrite H1. split; [|done]. f_equal. destruct r as [[[conn ad]|e]|]; done.
Qed.

Lemma listen_fails addr codec_fn e :
  bind addr = Err e ∨ (∃ l, bind addr = Ok l ∧ listener_local_addr l = Err e) → listen addr codec_fn = Err e.
Proof. unfold listen, listen_on. intros [->|(l & -> & ->)]; done. Qed.
End sockets.

(** ** Unix sockets: the same code, with paths for addresses *)

Section unix.
Context {Path Config serde_framed FramedIo Codec Item SinkItem Error : Type}.
Context `{!Sockets Path Config FramedIo (IoError Error), !SerdeFramed serde_framed FramedIo Codec Item SinkItem Error}.

Definition UnixConnect : Type := Connect (Codec:=Codec).
Definition unix_connect (path : Path) (codec_fn : unit → Codec) : UnixConnect := connect path codec_fn.
Definition unix_connect_poll (self : UnixConnect) : Poll (Result (SerdeTransport serde_framed) (IoError Error)) * UnixConnect :=
  connect_poll self.
Definition UnixIncoming : Type := Incoming (Codec:=Codec).
Definition unix_listen_on (l : listener) (codec_fn : unit → Codec) : Result UnixIncoming (IoError Error) :=
  listen_on l codec_fn.
Definition unix_listen (path : Path) (codec_fn : unit → Codec) : Result UnixIncoming (IoError Error) :=
  match bind path with
  | Err e => Err e
  | Ok l => unix_listen_on l codec_fn
  end.
Definition unix_incoming_poll_next (self : UnixIncoming)
    : Poll (option (Result (SerdeTransport serde_framed) (IoError Error))) * UnixIncoming := incoming_poll_next self.
Definition unix_peer_addr (self : SerdeTransport serde_framed) : Result socket_addr (IoError Error) := peer_addr self.
Definition unix_local_addr (self : SerdeTransport serde_framed) : Result socket_addr (IoError Error) := local_addr self.
End unix.
End SerdeTransport.

(** ** The path of a temporary socket (serde_transport.rs, [unix::TempPathBuf]) *)

Module TempPath.

(** [PathBuf::push] on Unix. *)
Fixpoint ends_with_sep (s : string) : bool :=
  match s with
  | "" => false
  | String c "" => bool_decide (c = "/"%char)
  | String _ s => ends_with_sep s
  end.

Definition is_absolute (s : string) : bool :=
  match s with String c _ => bool_decide (c = "/"%char) | "" => false end.

Definition path_push (self path : string) : string :=
  if is_absolute path then path
  else if bool_decide (self = "") || ends_with_sep self then self +:+ path
  else self +:+ "/" +:+ path.

(** [format!("{:016x}", x)] of a [u64]. *)
Fixpoint zeros (n : nat) : string := match n with 0 => "" | S n => String "0"%char (zeros n) end.

Definition format_016x (x : Z) : string :=
  let digits := hex_digits 16 x "" in zeros (16 - String.length digits) +:+ digits.

Section model.
(** [std::env::temp_dir()], and the files that may not be removed. *)
Context (temp_dir : string) (denied : string → bool).

Record TempPathBuf := MkTempPathBuf { path : string }.

Definition new (name : string) : TempPathBuf := MkTempPathBuf (path_push temp_dir name).

(** [random] is what [rand::random::<u64>()] returned. *)
Definition with_random (random : Z) (name : string) : TempPathBuf := new (name +:+ "_" +:+ format_016x random).

Definition as_ref (self : TempPathBuf) : string := path self.

(** [std::fs::remove_file], on the files there are. *)
Definition remove_file (p : string) (files : gset string) : Result unit unit * gset string :=
  if bool_decide (p ∈ files) && negb (denied p) then (Ok tt, files ∖ {[p]}) else (Err tt, files).

Definition drop (self : TempPathBuf) (files : gset string) : gset string := (remove_file (path self) files).2.
End model.

(** *** The digits determine the number *)

Definition digit_value (c : Ascii.ascii) : Z :=
  let n := Z.of_nat (Ascii.nat_of_ascii c) in if bool_decide (n < 58)%Z then n - 48 else n - 87.

Fixpoint hex_value (s : string) (acc : Z) : Z :=
  match s with "" => acc | String c s => hex_value s (16 * acc + digit_value c) end.

Lemma digit_value_hex d : (0 ≤ d < 16)%Z → digit_value (hex_digit d) = d.
Proof.
  intros Hd. assert (d ∈ seqZ 0 16) as Hin by (apply elem_of_seqZ; lia). revert d Hin Hd.
  enough (Forall (λ d, digit_value (hex_digit d) = d) (seqZ 0 16)) as H by (intros; by rewrite Forall_forall in H; apply H).
  apply (bool_decide_unpack _). by vm_compute.
Qed.

Lemma hex_value_hex_digits fuel x s :
  (0 ≤ x < 16 ^ Z.of_nat fuel)%Z → hex_value (hex_digits fuel x s) 0 = hex_value s x.
Proof.
  revert x s. induction fuel as [|fuel IH]; intros x s Hx; [f_equal; simpl in Hx; lia|]. cbn [hex_digits].
  pose proof (Z.div_mod x 16 ltac:(lia)) as Hdm. pose proof (Z.mod_pos_bound x 16 ltac:(lia)) as Hm.
  destruct (Z.eqb_spec (x / 16) 0) as [H0|H0]; [|rewrite IH]; cbn [hex_value]; rewrite ?digit_value_hex by done; [f_equal; lia..|].
  rewrite Nat2Z.inj_succ, Z.pow_succ_r in Hx by lia. split; [apply Z.div_pos; lia|apply Z.div_lt_upper_bound; lia].
Qed.

Lemma hex_value_zeros n s : hex_value (zeros n +:+ s) 0 = hex_value s 0.
Proof. induction n as [|n IH]; [done|]. exact IH. Qed.

Lemma length_hex_digits fuel x s : String.length (hex_digits fuel x s) ≤ fuel + String.length s.
Proof.
  revert x s. induction fuel as [|fuel IH]; intros x s; cbn [hex_digits]; [done|].
  destruct (_ =? _)%Z; [simpl; lia|]. etrans; [apply IH|]. simpl. lia.
Qed.

Lemma length_append s1 s2 : String.length (s1 +:+ s2) = String.length s1 + String.length s2.
Proof. induction s1 as [|c s1 IH]; simpl; [done|]. by rewrite IH. Qed.

Lemma length_zeros n : String.length (zeros n) = n.
Proof. induction n as [|n IH]; simpl; [done|]. by rewrite IH. Qed.

Lemma format_016x_spec x :
  (0 ≤ x < 2 ^ 64)%Z → String.length (format_016x x) = 16 ∧ hex_value (format_016x x) 0 = x.
Proof.
  intros Hx. unfold format_016x. rewrite length_append, length_zeros, hex_value_zeros, hex_value_hex_digits by done.
  pose proof (length_hex_digits 16 x ""). simpl in *. split; [lia|done].
Qed.

Lemma append_inj_r s s1 s2 : s +:+ s1 = s +:+ s2 → s1 = s2.
Proof. induction s as [|c s IH]; simpl; [done|]. intros [= ?]. by apply IH. Qed.

(** A temporary path with a random part is in the temporary directory, its last
    component is the name, an underscore and sixteen hexadecimal digits, and different
    random numbers give different paths; dropping it removes the file of that path, if
    there is one that may be removed, and no other. *)
Theorem temp_path_random (temp_dir name : string) (denied : string → bool) (r1 r2 : Z) (files : gset string) :
  is_absolute name = false → name ≠ "" → ends_with_sep temp_dir = false → temp_dir ≠ "" →
  (0 ≤ r1 < 2 ^ 64)%Z → (0 ≤ r2 < 2 ^ 64)%Z →
  as_ref (with_random temp_dir r1 name) = temp_dir +:+ "/" +:+ name +:+ "_" +:+ format_016x r1 ∧
  String.length (format_016x r1) = 16 ∧
  (as_ref (with_random temp_dir r1 name) = as_ref (with_random temp_dir r2 name) → r1 = r2) ∧
  ∀ p, p ∈ drop denied (with_random temp_dir r1 name) files ↔
    p ∈ files ∧ (p = as_ref (with_random temp_dir r1 name) → denied p = true).
Proof.
  intros Habs Hname Hsep Hdir H1 H2. destruct (format_016x_spec r1 H1) as [Hlen Hv1]. destruct (format_016x_spec r2 H2) as [_ Hv2].
  assert (Hpath : ∀ r, as_ref (with_random temp_dir r name) = temp_dir +:+ "/" +:+ name +:+ "_" +:+ format_016x r).
  { intros r. unfold as_ref, with_random, new, path_push. cbn [path].
    assert (is_absolute (name +:+ "_" +:+ format_016x r) = false) as -> by by destruct name.
    by rewrite bool_decide_false, Hsep by done. }
  split_and!; [done|done|..].
  - rewrite !Hpath. intros Heq. do 4 apply append_inj_r in Heq. congruence.
  - intros p. unfold drop, remove_file. fold (as_ref (with_random temp_dir r1 name)).
    generalize (as_ref (with_random temp_dir r1 name)) as q. intros q.
    destruct (decide (p = q)) as [->|]; case_bool_decide; destruct (denied q); simpl; set_solver.
Qed.

Lemma temp_path_random_witness :
  as_ref (with_random "/tmp" 255 "test") = "/tmp/test_00000000000000ff" ∧
  ∀ p, p ∈ drop (λ _, false) (with_random "/tmp" 255 "test") {["/tmp/test_00000000000000ff"; "/tmp/test"]} ↔
    p ∈ ({["/tmp/test_00000000000000ff"; "/tmp/test"]} : gset string) ∧ (p = "/tmp/test_00000000000000ff" → false = true).
Proof.
  destruct (temp_path_random "/tmp" "test" (λ _, false) 255 256 {["/tmp/test_00000000000000ff"; "/tmp/test"]})
    as (H1 & _ & _ & H2); [done|done|done|done|lia|lia|]. split; [exact H1|exact H2].
Defined.

(** An absolute name is the path itself, outside the temporary directory. *)
Lemma temp_path_absolute (temp_dir name : string) : is_absolute name = true → as_ref (new temp_dir name) = name.
Proof. unfold as_ref, new, path_push. by intros ->. Qed.
End TempPath.
