(* ===== verification/EndToEnd.v ===== *)
(** * Client and server together

    A client and a server joined by the two peers of an in-memory transport
    (tarpc/src/transport/channel.rs): the client's calls and its dispatch, the server's
    [Requests] over a [BaseChannel] and its handlers, taking steps in any order on the two
    queues they share.  What the client's theorems assume of what the server sends, and
    the server's of what the client sends, is discharged by the other side, so the result
    speaks of both: an answer a call returns is the answer the service gave to that very
    call. *)
From S2P Require Import Prelude Interfaces RefModels Trace Wire TimerTable Transport Cancellations ClientInFlight ClientDispatch ClientSpec ClientRefine ClientFrame ClientCalls ClientSafety ClientProps ServerInFlight ServerChannel ServerSpec ServerRefine ServerRequests ServerSystem Limits ServerFrame ServerTermination ServerProps.

Module EndToEnd.

(** ** Two peers

    [R] and [S] are what the other peer has received and sent. *)

Section link.
Context `{!Mpsc, !MpscLaws} {SinkItem Item : Type}.

Definition mem : Transport SinkItem Item MemChannel.ChannelError := logged MemChannel.unbounded_transport.

Record linked (t : transport mem) (R : list SinkItem) (S : list Item) : Prop := {
  lk_out : lg_sent t = R ++ mv_queue (mpsc_view (MemChannel.tx (lg_inner t)));
  lk_in : S = lg_received t ++ mv_queue (mpsc_view (MemChannel.rx (lg_inner t)));
}.

Lemma linked_step (t t' : transport mem) R S : t_step t t' → linked t R S → linked t' R S.
Proof.
  intros Hs [Ho Hi]. destruct Hs as [r t' E|r t' E|x r t' E|r t' E|r t' E]; cbn in E.
  - unfold MemChannel.poll_next in E. destruct (mpsc_poll_recv _) as [p q] eqn:Hp. apply law_poll_recv in Hp.
    destruct p as [[x|]|]; simplify_eq/=; split; simpl; try done.
    + destruct Hp as (q' & -> & ->). by rewrite <- app_assoc.
    + destruct Hp as (_ & _ & ->). by rewrite app_nil_r.
    + by rewrite Hp, app_nil_r.
  - unfold lg_pass, MemChannel.poll_ready in E. by simplify_eq/=.
  - unfold MemChannel.start_send in E. destruct (mv_closed (mpsc_view (MemChannel.tx (lg_inner t)))) eqn:Hc.
    + destruct (law_unbounded_send_closed _ _ x Hc) as (q & Hq & Hv). rewrite Hq in E. simplify_eq/=.
      split; simpl; [|done]. by rewrite Hv, app_nil_r.
    + destruct (law_unbounded_send_open _ _ x Hc) as (q & Hq & Hv). rewrite Hq in E. simplify_eq/=.
      split; simpl; [|done]. by rewrite Hv, Ho, <- app_assoc.
  - unfold lg_pass, MemChannel.poll_flush in E. by simplify_eq/=.
  - unfold lg_pass, MemChannel.poll_close in E. by simplify_eq/=.
Qed.

Lemma linked_steps (t t' : transport mem) R S : t_steps t t' → linked t R S → linked t' R S.
Proof. induction 1; eauto using linked_step. Qed.

(** One peer sees the queues as the other left them. *)
Definition sync (c : MemChannel.UnboundedChannel SinkItem Item) (t : transport mem) : transport mem :=
  @MkLogged _ _ _ MemChannel.unbounded_transport (MemChannel.peer c) (lg_sent t) (lg_received t) (lg_ended t).
End link.

Arguments mem {_} SinkItem Item.

(** ** The network *)

Section net.
Context `{!DelayQueue, !DelayQueueLaws, !Oneshot, !OneshotLaws, !Mpsc, !MpscLaws, !Abort, !AbortLaws, !Otel}.
Context {CSpan SSpan Req Resp CRng SRng : Type}.
Context (client_u64 : CRng → Z * CRng) (server_u64 : SRng → Z * SRng).
Context (new_span : Request Req → SSpan) (span_active : SSpan → OtelContext → option otel_span_context).

Definition mem_error (_ : unit) : Type := MemChannel.ChannelError.
Definition client_T : Transport (ClientMessage Req) (Response Resp) (mem_error tt) := mem (ClientMessage Req) (Response Resp).
Definition server_T : Transport (Response Resp) (ClientMessage Req) MemChannel.ChannelError := mem (Response Resp) (ClientMessage Req).
#[local] Instance client_log : TransportLog client_T := logged_log MemChannel.unbounded_transport.
#[local] Instance server_log : TransportLog server_T := logged_log MemChannel.unbounded_transport.
Definition base : Server.Channel SSpan Req Resp (ChannelError.t MemChannel.ChannelError) :=
  Server.base_channel (T:=server_T) server_u64 new_span span_active.
#[local] Instance base_laws : Requests.ChannelLaws base := Requests.base_channel_laws (T:=server_T) server_u64 new_span span_active.

Abbreviation Client := (Calls.System CSpan client_T).
Abbreviation Server := (ServerSystem.Server base).

(** What the service may answer to a request. *)
Context (service : Request Req → Result Resp ServerError → Prop).

Record Net := MkNet { n_client : Client; n_server : Server }.

Definition client_end (s : Client) : transport client_T := Client.rd_transport (Client.dispatch (Calls.s_world s)).
Definition server_end (s : Server) : transport server_T :=
  Server.bc_transport (Requests.rq_channel (ServerSystem.sv_requests s)).

Definition set_client_end (t : transport client_T) (s : Client) : Client :=
  Calls.MkSystem (Client.set_transport t (Calls.s_world s)) (Calls.s_next_request_id s) (Calls.s_handles s)
    (Calls.s_calls s) (Calls.s_clock s).
Definition set_server_end (t : transport server_T) (s : Server) : Server :=
  let q := ServerSystem.sv_requests s in
  ServerSystem.MkServer (Requests.MkRequests (C:=base) (Server.set_transport t (Requests.rq_channel q : Server.BaseChannel SSpan SRng server_T))
    (Requests.rq_pending_responses q)) (ServerSystem.sv_handlers s) (ServerSystem.sv_clock s).

(** After a step of one side the other side sees the queues as they are now. *)
Definition after_client (s : Client) (n : Net) : Net :=
  MkNet s (set_server_end (sync (lg_inner (client_end s)) (server_end (n_server n))) (n_server n)).
Definition after_server (s : Server) (n : Net) : Net :=
  MkNet (set_client_end (sync (lg_inner (server_end s)) (client_end (n_client n))) (n_client n)) s.

Definition allowed (o : Poll (Result Resp ServerError)) (k : nat) (s : Server) : Prop :=
  ∀ h m, ServerSystem.sv_handlers s !! k = Some h → o = Ready m → service (Requests.if_request (Requests.h_request h)) m.

Inductive net_step (bound : nat) (n : Net) : Net → Prop :=
| net_client s :
    Calls.step client_u64 (λ _ _, False) bound (n_client n) s → net_step bound n (after_client s n)
| net_poll now res q :
    (ServerSystem.sv_clock (n_server n) ≤ now)%Z →
    Requests.poll_next_requests bound now (ServerSystem.sv_requests (n_server n)) = Done (res, q) →
    net_step bound n (after_server
      (ServerSystem.MkServer q (ServerSystem.sv_handlers (n_server n) ++ ServerSystem.spawn res) now) n)
| net_handler k o :
    allowed o k (n_server n) →
    net_step bound n (after_server (ServerSystem.on_handler (Requests.poll_handler o) k (n_server n)) n)
| net_drop k : net_step bound n (after_server (ServerSystem.on_handler Requests.drop_handler k (n_server n)) n).

(** The two ends of [unbounded()], a new client on one and a new server on the other. *)
Definition start (cc : Client.Config) (sc : Server.Config) (rng : SRng) (now : Z) : Exec Net :=
  let '(c1, c2) := MemChannel.unbounded in
  s ← Calls.new_system (T:=client_T) cc (@MkLogged _ _ _ MemChannel.unbounded_transport c1 [] [] false) now;
  q ← Requests.requests (C:=base) (Server.new (T:=server_T) (Span:=SSpan) sc (@MkLogged _ _ _ MemChannel.unbounded_transport c2 [] [] false) rng);
  Done (MkNet s (ServerSystem.MkServer q [] now)).

Definition net_reaches (bound : nat) cc sc rng now (n : Net) : Prop :=
  Safety.config_wf cc ∧ (0 < Server.pending_response_buffer sc)%Z ∧
  (∃ n0, start cc sc rng now = Done n0 ∧ rtc (net_step bound) n0 n) ∧
  (Z.of_nat (length (Calls.s_calls (n_client n))) ≤ u64_modulus)%Z.

(** ** What a step does to its end of the transport *)

Lemma client_step_moves bound (s s' : Client) :
  Calls.step client_u64 (λ _ _, False) bound s s' → t_steps (client_end s) (client_end s').
Proof.
  unfold client_end. destruct 1 as [now r w' _ Hp|t' []|active ctx sp req rng|k|k|k| |].
  - exact (ClientFrame.moves_poll bound now _ _ _ Hp).
  - unfold Calls.call_start. destruct (Calls.call_context _ _ _ _). apply rtc_refl.
  - unfold Calls.on_call. destruct (_ !! k) as [c|]; [|apply rtc_refl].
    assert (Ha : ∀ (c : Calls.Call mem_error CSpan Req Resp) (w : Client.World CSpan client_T), Client.rd_transport (Client.dispatch (Calls.await_response c w).2) = Client.rd_transport (Client.dispatch w)).
    { intros c' w. unfold Calls.await_response, Calls.guard_response. destruct (Calls.store_poll _ _) as [[r|] st]; [|done].
      by destruct r. }
    unfold Calls.poll_call. destruct (Calls.c_stage c); try apply rtc_refl.
    + destruct (mpsc_poll_send _ _) as [[[u|e]|] p]; [| |apply rtc_refl].
      * specialize (Ha c (Client.set_pending p (Calls.s_world s))). destruct (Calls.await_response _ _). simpl in *. rewrite Ha. apply rtc_refl.
      * unfold Calls.guard_drop, Calls.guard_cancel. destruct (Calls.g_cancel _); apply rtc_refl.
    + specialize (Ha c (Calls.s_world s)). destruct (Calls.await_response _ _). simpl in *. rewrite Ha. apply rtc_refl.
  - unfold Calls.on_call. destruct (_ !! k) as [c|]; [|apply rtc_refl]. unfold Calls.drop_call_close.
    destruct (Calls.c_stage c); apply rtc_refl.
  - unfold Calls.on_call. destruct (_ !! k) as [c|]; [|apply rtc_refl]. unfold Calls.drop_call_cancel, Calls.guard_cancel.
    destruct (Calls.c_stage c), (Calls.g_cancel (Calls.c_guard c)); apply rtc_refl.
  - apply rtc_refl.
  - unfold Calls.drop_channel. destruct (Calls.s_handles s); apply rtc_refl.
Qed.

(** *** The server's side *)

Abbreviation RQ := (Requests.Requests base).
Abbreviation BC := (Server.BaseChannel SSpan SRng server_T).

Definition rmoves (q q' : RQ) : Prop := ServerFrame.moves (Requests.rq_channel q : BC) (Requests.rq_channel q' : BC).

Instance requests_moves_preorder : PreOrder rmoves.
Proof. split; [intros q; apply rtc_refl|]. intros q1 q2 q3 Ha Hb. unfold rmoves, ServerFrame.moves, t_steps in *. by etrans. Qed.

Lemma rmoves_on_channel {A} (m : M (Server.channel base) A) :
  keeps (ServerFrame.moves (T:=server_T)) m → keeps rmoves (Requests.on_channel (C:=base) m).
Proof.
  intros Hm q a q' E. unfold Requests.on_channel in E. destruct (m _) as [[a' c]| |] eqn:Em; [|done..].
  injection E as <- <-. exact (Hm _ _ _ Em).
Qed.
Lemma rmoves_on_responses {A} (f : mpsc (Response Resp) → A * mpsc (Response Resp)) :
  keeps rmoves (Requests.on_responses (C:=base) f).
Proof. intros q a q' E. unfold Requests.on_responses in E. destruct (f _). injection E as <- <-. apply rtc_refl. Qed.
Lemma rmoves_next bound now : keeps rmoves (Requests.on_channel (C:=base) (Server.ch_poll_next bound now)).
Proof. apply rmoves_on_channel, ServerFrame.moves_poll_next_loop. Qed.
Lemma rmoves_ready : keeps rmoves (Requests.on_channel (C:=base) Server.ch_poll_ready).
Proof. apply rmoves_on_channel, ServerFrame.moves_base_poll_ready. Qed.
Lemma rmoves_flush : keeps rmoves (Requests.on_channel (C:=base) Server.ch_poll_flush).
Proof. apply rmoves_on_channel, ServerFrame.moves_base_poll_flush. Qed.
Lemma rmoves_send r : keeps rmoves (Requests.on_channel (C:=base) (Server.ch_start_send r)).
Proof. apply rmoves_on_channel, ServerFrame.moves_base_start_send. Qed.
Lemma rmoves_drop r : keeps rmoves (Requests.drop_in_flight (C:=base) r).
Proof.
  apply keeps_bind; [apply _| |intros; apply rmoves_on_responses]. apply keeps_modify. intros q. apply rtc_refl.
Qed.
Hint Resolve rmoves_on_responses rmoves_next rmoves_ready rmoves_flush rmoves_send rmoves_drop : tarpc.

Lemma rmoves_writeable n : keeps rmoves (Requests.ensure_writeable_loop (C:=base) n).
Proof. induction n as [|n IH]; cbn [Requests.ensure_writeable_loop]; keeps. Qed.
Hint Resolve rmoves_writeable : tarpc.
Lemma rmoves_write bound closed : keeps rmoves (Requests.pump_write (C:=base) bound closed).
Proof. unfold Requests.pump_write, Requests.poll_next_response, Requests.ensure_writeable. keeps. Qed.
Hint Resolve rmoves_write : tarpc.

Lemma rmoves_poll bound now : keeps rmoves (Requests.poll_next_requests (C:=base) bound now).
Proof.
  unfold Requests.poll_next_requests. generalize bound at 2 as n. intros n.
  induction n as [|n IH]; cbn [Requests.poll_next_requests_loop]; unfold Requests.pump_read; keeps.
Qed.

Lemma handler_end (f : Requests.Handler SSpan Req Resp → RQ → Requests.Handler SSpan Req Resp * RQ) k (s : Server) :
  (∀ h q, Server.bc_transport (Requests.rq_channel (f h q).2 : BC) = Server.bc_transport (Requests.rq_channel q : BC)) →
  server_end (ServerSystem.on_handler f k s) = server_end s.
Proof.
  intros Hf. unfold server_end, ServerSystem.on_handler. destruct (_ !! k) as [h|]; [|done].
  specialize (Hf h (ServerSystem.sv_requests s)). by destruct (f _ _).
Qed.

Lemma poll_handler_end o (h : Requests.Handler SSpan Req Resp) (q : RQ) :
  Server.bc_transport (Requests.rq_channel (Requests.poll_handler o h q).2 : BC) = Server.bc_transport (Requests.rq_channel q : BC).
Proof.
  unfold Requests.poll_handler, Requests.finish. destruct (Requests.h_stage h); [| |done..];
    (destruct (Server.ch_is_aborted _ _); [done|]).
  - destruct o; [|done]. unfold Requests.send_response. by destruct (mpsc_poll_send _ _) as [[] p].
  - unfold Requests.send_response. by destruct (mpsc_poll_send _ _) as [[] p].
Qed.

Lemma drop_handler_end (h : Requests.Handler SSpan Req Resp) (q : RQ) :
  Server.bc_transport (Requests.rq_channel (Requests.drop_handler h q).2 : BC) = Server.bc_transport (Requests.rq_channel q : BC).
Proof. unfold Requests.drop_handler. by destruct (Requests.h_stage h). Qed.

(** ** The invariant of the network *)

(** What the other side may do to an end: change the queues, but not the logs. *)
Definition client_peer (t t' : transport client_T) : Prop :=
  lg_sent t' = lg_sent t ∧ lg_received t' = lg_received t ∧ lg_ended t' = lg_ended t.
Definition server_env (c c' : Server.channel base) : Prop :=
  ∃ t, c' = Server.set_transport t (c : BC) ∧ let t0 := Server.bc_transport (c : BC) in
    lg_sent t = lg_sent t0 ∧ lg_received t = lg_received t0 ∧ lg_ended t = lg_ended t0.

Lemma client_peer_logs t t' : client_peer t t' → sent t' = sent t ∧ received t' = received t ∧ ended t' = ended t.
Proof. done. Qed.
Lemma server_env_ok c c' : server_env c c' → Requests.ch_inv c → Requests.ch_inv c' ∧ Requests.ch_abs c' = Requests.ch_abs c.
Proof.
  intros (t & -> & Hs & Hr & He) Hi. split; [exact Hi|]. simpl. unfold ServerRefine.abs. simpl. by rewrite Hs, Hr, He.
Qed.

(** A handler's answer is one the service gave to the handler's request. *)
Definition served (h : Requests.Handler SSpan Req Resp) : Prop :=
  ∀ m, Requests.h_outcome h = Some m → service (Requests.if_request (Requests.h_request h)) m.

Record net_inv (bound : nat) cc sc rng now (n : Net) : Prop := {
  ni_shared : lg_inner (server_end (n_server n)) = MemChannel.peer (lg_inner (client_end (n_client n)));
  ni_linked : linked (client_end (n_client n)) (lg_received (server_end (n_server n))) (lg_sent (server_end (n_server n)));
  ni_client : Calls.reachable client_u64 client_peer bound cc
    (@MkLogged _ _ _ MemChannel.unbounded_transport (MemChannel.unbounded).1 [] [] false : transport client_T) now (n_client n);
  ni_server : ServerSystem.serves server_env bound (Server.new (T:=server_T) (Span:=SSpan) sc
    (@MkLogged _ _ _ MemChannel.unbounded_transport (MemChannel.unbounded).2 [] [] false) rng : Server.channel base) now (n_server n);
  ni_served : ∀ h, h ∈ ServerSystem.sv_handlers (n_server n) → served h;
}.

Lemma linked_peer {A B} (t : transport (mem A B)) (u : transport (mem B A)) :
  lg_inner u = MemChannel.peer (lg_inner t) → linked t (lg_received u) (lg_sent u) → linked u (lg_received t) (lg_sent t).
Proof. intros Hp [Ho Hi]. split; rewrite Hp; [exact Hi|exact Ho]. Qed.

Lemma client_step_peer bound (s s' : Client) :
  Calls.step client_u64 (λ _ _, False) bound s s' → Calls.step client_u64 client_peer bound s s'.
Proof. destruct 1; try done; econstructor; eauto. Qed.

Lemma after_client_inv bound cc sc rng now n s :
  Calls.step client_u64 (λ _ _, False) bound (n_client n) s →
  net_inv bound cc sc rng now n → net_inv bound cc sc rng now (after_client s n).
Proof.
  intros Hs [Hsh Hl (s0 & Hn & Hc) (q0 & Hq & Hv) Ho]. split; simpl.
  - done.
  - eapply linked_steps; [by eapply client_step_moves|exact Hl].
  - exists s0. split; [done|]. eapply rtc_r; [exact Hc|by apply client_step_peer].
  - exists q0. split; [done|]. eapply rtc_r; [exact Hv|]. apply ServerSystem.serve_env. by eexists.
  - exact Ho.
Qed.

(** The server took a step to [s], which moved its end. *)
Lemma after_server_inv bound cc sc rng now n s :
  t_steps (server_end (n_server n)) (server_end s) →
  ServerSystem.serve_step server_env bound (n_server n) s → (∀ h, h ∈ ServerSystem.sv_handlers s → served h) →
  net_inv bound cc sc rng now n → net_inv bound cc sc rng now (after_server s n).
Proof.
  intros Ht Hs Ho' [Hsh Hl (s0 & Hn & Hc) (q0 & Hq & Hv) Ho].
  assert (Hp : ∀ A B (c : MemChannel.UnboundedChannel A B), MemChannel.peer (MemChannel.peer c) = c).
  { intros A B [r1 t1]. reflexivity. }
  split; simpl.
  - by rewrite Hp.
  - apply (linked_peer (server_end s)); [done|]. eapply linked_steps; [exact Ht|]. exact (linked_peer _ _ Hsh Hl).
  - exists s0. split; [done|]. eapply rtc_r; [exact Hc|]. by apply Calls.step_peer.
  - exists q0. split; [done|]. eapply rtc_r; [exact Hv|exact Hs].
  - exact Ho'.
Qed.

Lemma served_insert (hs : list (Requests.Handler SSpan Req Resp)) (k : nat) h h' :
  (∀ h, h ∈ hs → served h) → hs !! k = Some h → served h' → ∀ h, h ∈ <[k := h']> hs → served h.
Proof.
  intros Hs Hk Hh h1 [j Hj]%list_elem_of_lookup. destruct (decide (j = k)) as [->|].
  - rewrite list_lookup_insert_eq in Hj by by eapply lookup_lt_Some. by simplify_eq.
  - rewrite list_lookup_insert_ne in Hj by done. by eapply Hs, list_elem_of_lookup_2.
Qed.

Lemma poll_handler_served o h (q : RQ) :
  served h → (∀ m, o = Ready m → service (Requests.if_request (Requests.h_request h)) m) →
  served (Requests.poll_handler o h q).1.
Proof.
  intros Hs Ho. unfold Requests.poll_handler, Requests.finish. destruct (Requests.h_stage h); [| |done..];
    (destruct (Server.ch_is_aborted _ _); [done|]).
  - destruct o as [m|]; [|done]. unfold Requests.send_response, Requests.finish.
    destruct (mpsc_poll_send _ _) as [[] p]; intros m' [= <-]; by apply Ho.
  - unfold Requests.send_response, Requests.finish. by destruct (mpsc_poll_send _ _) as [[] p].
Qed.

Lemma drop_handler_served h (q : RQ) : served h → served (Requests.drop_handler h q).1.
Proof. unfold Requests.drop_handler. by destruct (Requests.h_stage h). Qed.

Lemma net_step_inv bound cc sc rng now n n' :
  net_step bound n n' → net_inv bound cc sc rng now n → net_inv bound cc sc rng now n'.
Proof.
  intros Hs Hi. pose proof (ni_served _ _ _ _ _ _ Hi) as Hsv.
  assert (Hon : ∀ f k, (∀ h q, h ∈ ServerSystem.sv_handlers (n_server n) → ServerSystem.sv_handlers (n_server n) !! k = Some h → served (f h q).1) →
    ∀ h, h ∈ ServerSystem.sv_handlers (ServerSystem.on_handler f k (n_server n)) → served h).
  { intros f k Hf. unfold ServerSystem.on_handler. destruct (_ !! k) as [h|] eqn:Hk; [|done].
    specialize (Hf h (ServerSystem.sv_requests (n_server n)) (list_elem_of_lookup_2 _ _ _ Hk) eq_refl).
    destruct (f _ _) as [h' q']. by eapply served_insert. }
  destruct Hs as [s Hc|now' res q Hle Hp|k o Ho|k].
  - by apply after_client_inv.
  - apply after_server_inv; [exact (rmoves_poll bound now' _ _ _ Hp)|by eapply ServerSystem.serve_poll| |done].
    intros h [?|Hh]%elem_of_app; [by apply Hsv|]. destruct res as [[[ifr|]|]|]; simpl in Hh; try by apply elem_of_nil in Hh.
    by apply list_elem_of_singleton in Hh as ->.
  - apply after_server_inv; [rewrite handler_end by apply poll_handler_end; apply rtc_refl|apply ServerSystem.serve_poll_handler| |done].
    apply Hon. intros h q Hh Hk. apply poll_handler_served; [by apply Hsv|]. intros m. by apply Ho.
  - apply after_server_inv; [rewrite handler_end by apply drop_handler_end; apply rtc_refl|apply ServerSystem.serve_drop_handler| |done].
    apply Hon. intros h q Hh _. by apply drop_handler_served, Hsv.
Qed.

Lemma start_inv bound cc sc rng now n :
  start cc sc rng now = Done n → net_inv bound cc sc rng now n.
Proof.
  unfold start. destruct (MemChannel.unbounded) as [c1 c2] eqn:Hu. intros Hn.
  apply exec_bind_done in Hn as (s & Hs & (q & Hq & [= <-])%exec_bind_done). injection Hu as <- <-.
  pose proof Hs as Hs'. unfold Calls.new_system, Client.new in Hs'. apply exec_bind_done in Hs' as ([w i] & Hw & [= <-]).
  apply exec_bind_done in Hw as (p & Hp & [= <- <-]).
  pose proof Hq as Hq'. unfold Requests.requests in Hq'. apply exec_bind_done in Hq' as (p' & Hp' & [= <-]).
  split; simpl.
  - done.
  - split; simpl; by rewrite law_unbounded_channel.
  - eexists. split; [exact Hs|apply rtc_refl].
  - eexists. split; [exact Hq|apply rtc_refl].
  - by intros h ?%elem_of_nil.
Qed.

Lemma net_reaches_inv bound cc sc rng now n : net_reaches bound cc sc rng now n → net_inv bound cc sc rng now n.
Proof.
  intros (_ & _ & (n0 & H0' & Hs) & _). eapply (rtc_preserves _ (net_inv bound cc sc rng now)); [|exact Hs|by apply start_inv].
  intros ? ?. apply net_step_inv.
Qed.

Lemma net_client_inv bound cc sc rng now n : net_reaches bound cc sc rng now n → Safety.sys_inv (n_client n).
Proof.
  intros Hn. pose proof (net_reaches_inv _ _ _ _ _ _ Hn) as [_ _ Hc _ _]. destruct Hn as (Hcfg & _ & _ & Hlen).
  eapply (ClientProps.reaches_inv client_u64 client_peer client_peer_logs). split_and!; [exact Hcfg| |exact Hc|exact Hlen]. reflexivity.
Qed.

Lemma new_fresh sc (t : transport server_T) rng :
  (0 < Server.pending_response_buffer sc)%Z → lg_sent t = [] →
  ServerProps.fresh_channel (Server.new (T:=server_T) (Span:=SSpan) sc t rng : Server.channel base).
Proof.
  intros Hb Ht. split_and!; [done|split; [apply timers_ok_new|apply owners_ok_empty]| |exact Ht].
  intros i. unfold ServerSpec.answered, ServerSpec.open. simpl. rewrite Ht, fmap_empty, lookup_empty. simpl. lia.
Qed.

Lemma net_server_inv bound cc sc rng now n : net_reaches bound cc sc rng now n → ServerSystem.server_inv (n_server n).
Proof.
  intros Hn. pose proof (net_reaches_inv _ _ _ _ _ _ Hn) as [_ _ _ Hs _]. destruct Hn as (_ & Hb & _).
  refine (ServerProps.fresh_inv server_env server_env_ok bound _ now _ (new_fresh sc _ rng Hb _) Hs). reflexivity.
Qed.

(** A response on its way to the client was given by the service to a request the client
    wrote with that id. *)
Lemma response_served bound cc sc rng now n r :
  net_reaches bound cc sc rng now n → r ∈ lg_received (client_end (n_client n)) →
  ∃ req req', service req (response_message r) ∧ id req = request_id r ∧ message req = message req' ∧
    ClientRequest req' ∈ lg_sent (client_end (n_client n)) ∧ id req' = request_id r.
Proof.
  intros Hn Hr. pose proof (net_reaches_inv _ _ _ _ _ _ Hn) as [_ [Hout Hin] _ _ Hsv].
  destruct (net_server_inv _ _ _ _ _ _ Hn) as [_ _ Hw _ Hh].
  destruct (Hw r) as [[]|(j & h & Hj & Hi & Ho)].
  { change (r ∈ lg_sent (server_end (n_server n))). rewrite Hin. apply elem_of_app. by left. }
  apply list_elem_of_lookup_2 in Hj. destruct (Hh _ Hj) as [_ (req' & Hreq & Hi' & Hm)].
  exists (Requests.if_request (Requests.h_request h)), req'. split_and!; [by apply (Hsv h)|done|done| |congruence].
  rewrite Hout. apply elem_of_app. by left.
Qed.

(** Requests on the wire are told apart by their ids. *)
Lemma wire_request_inj (ms : list (ClientMessage Req)) r1 r2 :
  Safety.wire_ok ms → ClientRequest r1 ∈ ms → ClientRequest r2 ∈ ms → id r1 = id r2 → r1 = r2.
Proof.
  intros [Hn _ _]. induction ms as [|m ms IH]; [by intros ?%elem_of_nil|].
  assert (Hin : ∀ r : Request Req, ClientRequest r ∈ ms → id r ∈ omap Safety.request_id_of ms).
  { intros r Hr. apply list_elem_of_omap. by exists (ClientRequest r). }
  assert (Hn' : NoDup (omap Safety.request_id_of ms)) by (destruct m; simpl in Hn; [by apply NoDup_cons in Hn as [_ ?]|done]).
  intros [E1|E1]%elem_of_cons [E2|E2]%elem_of_cons Hi; [congruence|..|by apply IH]; subst m; simpl in Hn;
    apply NoDup_cons in Hn as [Hx _]; destruct Hx; [rewrite Hi|rewrite <- Hi]; by apply Hin.
Qed.

(** C1: end to end, a call gets its own answer.  Whatever the order in which the calls, the
    dispatch, the server and its handlers take their steps, a call that returns a value or a
    server error returns exactly what the service answered to a request with this call's
    id and this call's message. *)
Theorem end_to_end bound cc sc rng now n k c r :
  net_reaches bound cc sc rng now n → Calls.s_calls (n_client n) !! k = Some c → Calls.c_stage c = Calls.Returned r →
  match r with
  | Ok x => ∃ req, service req (Ok x) ∧ id req = Z.of_nat k ∧ message req = Calls.c_request c
  | Err (RpcError.Server e) => ∃ req, service req (Err e) ∧ id req = Z.of_nat k ∧ message req = Calls.c_request c
  | _ => True
  end.
Proof.
  intros Hn Hk Hst. pose proof (net_client_inv _ _ _ _ _ _ Hn) as [_ _ [Hc Hw] _].
  pose proof (Safety.co_stage _ _ _ _ (Safety.ci_calls _ _ _ _ Hc _ _ Hk)) as Hok.
  unfold Safety.stage_ok in Hok. rewrite Hst in Hok. destruct Hok as [->|Hj]; [done|].
  assert (Hserved : ∀ m, MkResponse (Z.of_nat k) m ∈ lg_received (client_end (n_client n)) →
    Safety.call_message k c ∈ lg_sent (client_end (n_client n)) →
    ∃ req, service req m ∧ id req = Z.of_nat k ∧ message req = Calls.c_request c).
  { intros m Hr Hm. destruct (response_served _ _ _ _ _ _ _ Hn Hr) as (req & req' & Hs & Hi & Hme & Hsent & Hi').
    simpl in *. exists req. split_and!; [done|done|]. rewrite Hme.
    replace req' with (MkRequest (Calls.c_ctx c) (Z.of_nat k) (Calls.c_request c)); [done|].
    eapply wire_request_inj; [apply (Safety.wi_wire _ _ Hw)|exact Hm|exact Hsent|done]. }
  destruct r as [x|[|e|e| |e]]; simpl in Hj; [|done|done|done|done|]; destruct Hj; by apply Hserved.
Qed.
End net.

(** ** A call through the whole stack

    The service adds one; the call asks for 41. *)

Definition demo_u64 (_ : unit) : Z * unit := (7%Z, tt).
Definition demo_span (_ : Request Z) : unit := tt.
Definition demo_active (_ : unit) (_ : OtelContext) : option otel_span_context := None.
Definition demo_service (req : Request Z) (m : Result Z ServerError) : Prop := m = Ok (message req + 1)%Z.
Definition demo_net : Type := Net (CSpan:=unit) (Resp:=Z) demo_u64 demo_span demo_active.
Definition demo_cc : Client.Config := Client.MkConfig 2 1.
Definition demo_sc : Server.Config := Server.config_default.
Definition demo_bound : nat := 8.

Definition run_call (req : Z) (n : demo_net) : demo_net :=
  after_client demo_u64 demo_span demo_active
    (Calls.call_start demo_u64 None (MkContext 100 trace_context_default) tt req tt (n_client _ _ _ n)).1 n.
Definition run_poll_call (k : nat) (n : demo_net) : demo_net :=
  after_client demo_u64 demo_span demo_active (Calls.on_call Calls.poll_call k (n_client _ _ _ n)) n.
Definition run_dispatch (now : Z) (n : demo_net) : demo_net :=
  let s := n_client _ _ _ n in
  match Client.poll demo_bound now (Calls.s_world s) with
  | Done (_, w) => after_client demo_u64 demo_span demo_active
      (Calls.MkSystem w (Calls.s_next_request_id s) (Calls.s_handles s) (Calls.s_calls s) now) n
  | _ => n
  end.
Definition run_server (now : Z) (n : demo_net) : demo_net :=
  match Requests.poll_next_requests demo_bound now (ServerSystem.sv_requests (n_server _ _ _ n)) with
  | Done (res, q) => after_server demo_u64 demo_span demo_active
      (ServerSystem.MkServer q (ServerSystem.sv_handlers (n_server _ _ _ n) ++ ServerSystem.spawn res) now) n
  | _ => n
  end.
Definition run_handler (m : Result Z ServerError) (n : demo_net) : demo_net :=
  after_server demo_u64 demo_span demo_active
    (ServerSystem.on_handler (Requests.poll_handler (Ready m)) 0 (n_server _ _ _ n)) n.

Definition demo_start : Exec demo_net := start demo_u64 demo_span demo_active demo_cc demo_sc tt 0.
Definition demo_n0 : demo_net :=
  match demo_start with
  | Done n => n
  | _ => MkNet _ _ _ ClientProps.demo_s0 (ServerProps.srv_s0 : ServerSystem.Server (base demo_u64 demo_span demo_active))
  end.

Definition demo_sent : demo_net := run_dispatch 1 (run_poll_call 0 (run_call 41 demo_n0)).
Definition demo_answered : demo_net := run_server 3 (run_handler (Ok 42%Z) (run_server 2 demo_sent)).
Definition demo_done : demo_net := run_poll_call 0 (run_dispatch 4 demo_answered).

Abbreviation demo_step := (net_step demo_u64 demo_u64 demo_span demo_active demo_service demo_bound).

Lemma run_dispatch_step now (n : demo_net) :
  (Calls.s_clock (n_client _ _ _ n) ≤ now)%Z →
  match Client.poll demo_bound now (Calls.s_world (n_client _ _ _ n)) with Done _ => True | _ => False end →
  demo_step n (run_dispatch now n).
Proof.
  intros Hle Hd. unfold run_dispatch. destruct (Client.poll _ _ _) as [[r w]| |] eqn:Hp; [|done..].
  apply net_client. by eapply Calls.step_dispatch.
Qed.

Lemma run_server_step now (n : demo_net) :
  (ServerSystem.sv_clock (n_server _ _ _ n) ≤ now)%Z →
  match Requests.poll_next_requests demo_bound now (ServerSystem.sv_requests (n_server _ _ _ n)) with Done _ => True | _ => False end →
  demo_step n (run_server now n).
Proof.
  intros Hle Hd. unfold run_server. destruct (Requests.poll_next_requests _ _ _) as [[r q]| |] eqn:Hp; [|done..].
  by eapply net_poll.
Qed.

Lemma run_call_step req n : demo_step n (run_call req n).
Proof. apply net_client. apply (Calls.step_call_start _ _ _ _ None (MkContext 100 trace_context_default) tt req tt). Qed.
Lemma run_poll_call_step k n : demo_step n (run_poll_call k n).
Proof. apply net_client. apply Calls.step_poll_call. Qed.

Lemma run_handler_step (n : demo_net) :
  (λ h, message (Requests.if_request (Requests.h_request h))) <$> ServerSystem.sv_handlers (n_server _ _ _ n) = [41%Z] →
  demo_step n (run_handler (Ok 42%Z) n).
Proof.
  intros Hh. apply net_handler. intros h m Hk [= <-]. unfold demo_service. do 2 f_equal.
  apply (f_equal (lookup 0)) in Hh. rewrite list_lookup_fmap, Hk in Hh. simpl in Hh. by injection Hh as ->.
Qed.

Lemma demo_done_reaches :
  net_reaches demo_u64 demo_u64 demo_span demo_active demo_service demo_bound demo_cc demo_sc tt 0 demo_done.
Proof.
  split_and!; [by split|done| |by vm_compute]. exists demo_n0. split; [reflexivity|]. unfold demo_done, demo_answered, demo_sent.
  eapply rtc_l; [apply (run_call_step 41)|]. eapply rtc_l; [apply (run_poll_call_step 0)|].
  eapply rtc_l; [apply (run_dispatch_step 1); by vm_compute|]. eapply rtc_l; [apply (run_server_step 2); by vm_compute|].
  eapply rtc_l; [apply run_handler_step; by vm_compute|]. eapply rtc_l; [apply (run_server_step 3); by vm_compute|].
  eapply rtc_l; [apply (run_dispatch_step 4); by vm_compute|]. eapply rtc_once. apply (run_poll_call_step 0).
Qed.

Definition demo_call : Calls.Call mem_error unit Z Z :=
  Calls.MkCall (Calls.MkResponseGuard 0 0 true) (MkContext 100 (MkTraceContext (MkTraceId 0) (MkSpanId 7) Unsampled)) 41%Z
    (Calls.Returned (Ok 42%Z)).

Lemma end_to_end_witness :
  ∃ req, demo_service req (Ok 42%Z) ∧ id req = 0%Z ∧ message req = 41%Z.
Proof.
  refine (end_to_end demo_u64 demo_u64 demo_span demo_active demo_service demo_bound demo_cc demo_sc tt 0 demo_done 0
    demo_call (Ok 42%Z) demo_done_reaches _ _); [vm_compute; reflexivity|reflexivity].
Defined.
End EndToEnd.
