(* ===== verification/EndToEndAborts.v ===== *)
(** * Client and server together: work nobody waits for stops

    The network of [EndToEnd] again.  Once the cancellation of a call that its caller
    dropped is not under way any more, no handler works for it: the client's accounts
    ([ClientAccounts]) say that the cancellation was written unless it was of no use, the
    shared queues that the server has read it, and the server's watch over its handlers
    ([ServerDeadlines]) that it acted on it. *)
From S2P Require Import Prelude Interfaces RefModels Trace Wire TimerTable Transport Cancellations ClientInFlight ClientDispatch ClientSpec ClientRefine ClientFrame ClientCalls ClientSafety ClientProps ClientDeadlines ClientAccounts ServerInFlight ServerChannel ServerSpec ServerRefine ServerRequests ServerSystem Limits ServerFrame ServerTermination ServerProps ServerWatch ServerDeadlines EndToEnd.

Module EndToEndAborts.
Import EndToEnd.

Section net.
Context `{!DelayQueue, !DelayQueueLaws, !Oneshot, !OneshotLaws, !Mpsc, !MpscLaws, !Abort, !AbortLaws, !Otel}.
Context {CSpan SSpan Req Resp CRng SRng : Type}.
Context (client_u64 : CRng → Z * CRng) (server_u64 : SRng → Z * SRng).
Context (new_span : Request Req → SSpan) (span_active : SSpan → OtelContext → option otel_span_context).
Context (service : Request Req → Result Resp ServerError → Prop).

#[local] Existing Instances client_log server_log base_laws.
Abbreviation B := (base (Resp:=Resp) server_u64 new_span span_active).
Abbreviation NET := (Net (CSpan:=CSpan) (Resp:=Resp) server_u64 new_span span_active).
Abbreviation client n := (n_client server_u64 new_span span_active n).
Abbreviation server n := (n_server server_u64 new_span span_active n).
Abbreviation reaches := (net_reaches (CSpan:=CSpan) client_u64 server_u64 new_span span_active service).
Implicit Types n : NET.

#[local] Instance b_watch : ServerWatch.ChannelWatch B :=
  ServerWatch.base_channel_watch (T:=server_T) server_u64 new_span span_active.

(** ** What the server has read *)

Definition server_read n : list (ClientMessage Req) := lg_received (server_end _ _ _ (server n)).
Definition client_sent n : list (ClientMessage Req) := lg_sent (client_end (client n)).

Lemma read_sent bound cc sc rng now n :
  reaches bound cc sc rng now n → ∃ l, client_sent n = server_read n ++ l.
Proof. intros Hn. destruct (net_reaches_inv _ _ _ _ _ _ _ _ _ _ _ Hn) as [_ [Ho _] _ _ _]. eauto. Qed.

Lemma sent_wire bound cc sc rng now n : reaches bound cc sc rng now n → Safety.wire_ok (client_sent n).
Proof. intros Hn. destruct (net_client_inv _ _ _ _ _ _ _ _ _ _ _ Hn) as [_ _ [_ Hw] _]. apply Hw. Qed.

Lemma asks_request_id (i : Z) (l : list (ClientMessage Req)) :
  length (filter (λ m, ServerSpec.asks i m = true) l) = length (filter (i =.) (omap Safety.request_id_of l)).
Proof.
  induction l as [|[r|tc j] l IH]; [done| |by rewrite filter_cons_False]. simpl. rewrite !filter_cons.
  destruct (decide (i = id r)) as [->|Hne].
  - rewrite decide_True by (simpl; by rewrite bool_decide_true). simpl. by rewrite IH.
  - rewrite decide_False by (simpl; rewrite bool_decide_false; congruence). done.
Qed.

Lemma nodup_count (i : Z) l : NoDup l → length (filter (i =.) l) ≤ 1.
Proof.
  induction 1 as [|x l Hx _ IH]; [simpl; lia|]. rewrite filter_cons. case_decide as E; [|done]. subst x. simpl.
  destruct (filter (i =.) l) as [|y l'] eqn:Hf; [simpl; lia|]. destruct Hx.
  assert (Hy : y ∈ filter (i =.) l) by (rewrite Hf; by left). by apply list_elem_of_filter in Hy as [<- ?].
Qed.

Lemma net_unique bound cc sc rng now n :
  reaches bound cc sc rng now n → ServerDeadlines.unique (ServerDeadlines.rq_abs (ServerSystem.sv_requests (server n))).
Proof.
  intros Hn i. destruct (read_sent _ _ _ _ _ _ Hn) as [l Hl], (sent_wire _ _ _ _ _ _ Hn) as [Hnd _ _].
  unfold ServerSpec.asked. change (ServerSpec.b_received _) with (server_read n). rewrite asks_request_id.
  apply nodup_count. rewrite Hl, omap_app in Hnd. by apply NoDup_app in Hnd as [? _].
Qed.

Lemma net_watch bound cc sc rng now n :
  reaches bound cc sc rng now n → ServerSystem.server_inv (server n) ∧ ServerDeadlines.watch_inv (server n).
Proof.
  intros Hn. destruct (net_reaches_inv _ _ _ _ _ _ _ _ _ _ _ Hn) as [_ _ _ Hs _]. destruct Hn as (_ & Hb & _).
  refine (ServerDeadlines.serves_watch _ (server_env_ok server_u64 new_span span_active) bound _ now _ _ Hs).
  split; [by apply new_fresh|]. simpl. by rewrite Cancellations.cancellations_view.
Qed.

(** ** From the dropped call to its handler *)

(** What the client has written and the server has not read. *)
Definition unread n : list (ClientMessage Req) := mv_queue (mpsc_view (MemChannel.tx (lg_inner (client_end (client n))))).

Lemma sent_split bound cc sc rng now n :
  reaches bound cc sc rng now n → client_sent n = server_read n ++ unread n.
Proof. intros Hn. by destruct (net_reaches_inv _ _ _ _ _ _ _ _ _ _ _ Hn) as [_ [Ho _] _ _ _]. Qed.

(** A request the server has read and the client has canceled is canceled after it. *)
Lemma wire_split (ms l : list (ClientMessage Req)) tc i :
  Safety.wire_ok (ms ++ l) → ClientCancel tc i ∈ ms →
  ∃ l1 r l2, ms = l1 ++ ClientRequest r :: l2 ∧ id r = i ∧ ClientCancel tc (id r) ∈ l2.
Proof.
  intros [_ _ Ho] [m Hm]%list_elem_of_lookup. destruct (Ho m tc i) as (m' & r & Hlt & Hr & Hid & _); [by apply lookup_app_l_Some|].
  rewrite lookup_app_l in Hr by (apply lookup_lt_Some in Hm; lia).
  exists (take m' ms), r, (drop (S m') ms). split_and!; [by rewrite take_drop_middle|done|]. rewrite Hid.
  apply (list_elem_of_lookup_2 _ (m - S m')). rewrite lookup_drop. by replace (S m' + (m - S m')) with m by lia.
Qed.

(** A dropped call that is in flight has its cancellation queued. *)
Lemma dropped_not_in_flight bound cc sc rng now n k c :
  reaches bound cc sc rng now n → Calls.s_calls (client n) !! k = Some c → Calls.c_stage c = Calls.Dropped →
  Z.of_nat k ∉ mv_queue (mpsc_view (Client.canceled_requests (Client.dispatch (Calls.s_world (client n))))) →
  CIF.abs (Client.in_flight_requests (Client.dispatch (Calls.s_world (client n)))) !! Z.of_nat k = None.
Proof.
  intros Hn Hk Hst Hq. pose proof (net_client_inv _ _ _ _ _ _ _ _ _ _ _ Hn) as [Ht _ [Hc _] _].
  pose proof (Safety.co_stage _ _ _ _ (Safety.ci_calls _ _ _ _ Hc _ _ Hk)) as Hok. unfold Safety.stage_ok in Hok. rewrite Hst in Hok.
  destruct Hok as [_ Hw]. apply (due_map_None CIF.deadline_key); [exact Ht|]. apply eq_None_not_Some. intros [rd Hrd].
  apply Hq, Hw. exists (Spec.MkWaiting (CIF.ctx rd) (CIF.span rd) (CIF.response_completion rd)). by apply Refine.abs_waiting in Hrd.
Qed.

Lemma net_accounts bound cc sc rng now n :
  reaches bound cc sc rng now n → ClientAccounts.account_inv (client n).
Proof.
  intros Hn. pose proof (net_reaches_inv _ _ _ _ _ _ _ _ _ _ _ Hn) as [_ _ Hc _ _]. destruct Hn as (Hcfg & _ & _ & Hlen).
  eapply (ClientAccounts.account_reachable client_u64 client_peer client_peer_logs). split_and!; [exact Hcfg| |exact Hc|exact Hlen]. reflexivity.
Qed.

(** A handler whose response has gone out, if it still runs, is aborted. *)
Lemma answered_handler_aborted bound cc sc rng now n h x :
  reaches bound cc sc rng now n → h ∈ ServerSystem.sv_handlers (server n) → ServerDeadlines.running h →
  x ∈ lg_sent (server_end _ _ _ (server n)) → request_id x = ServerDeadlines.handler_id h →
  ServerWatch.aborted (Requests.if_abort_registration (Requests.h_request h)) (ServerDeadlines.rq_abs (ServerSystem.sv_requests (server n))).
Proof.
  intros Hn Hin Hrun Hx Hid. destruct (net_watch _ _ _ _ _ _ Hn) as [[_ Hb _ _ _] [_ _ _ Vr]].
  pose proof (net_unique _ _ _ _ _ _ Hn) as Hu. specialize (Vr Hu h Hin Hrun). specialize (Hu (ServerDeadlines.handler_id h)).
  destruct Vr as (due & _ & [[_ [[Htwo|Hab]|[Ht _ _ _]]] _]); cbn [ServerWatch.w_id ServerWatch.w_handle] in *; [lia|done|exfalso].
  specialize (Hb (ServerDeadlines.handler_id h)). unfold ServerSpec.open in Hb.
  change (ServerDeadlines.rq_abs (ServerSystem.sv_requests (server n))) with
    (Requests.ch_abs (Requests.rq_channel (ServerSystem.sv_requests (server n)))) in Ht, Hu. rewrite Ht in Hb.
  apply list_elem_of_split in Hx as (l1 & l2 & Hx). unfold ServerSpec.answered in Hb.
  change (ServerSpec.b_sent _) with (lg_sent (server_end _ _ _ (server n))) in Hb. rewrite Hx, filter_app, length_app, filter_cons_True in Hb.
  - cbn [length] in Hb. unfold ServerSpec.asked in Hu, Hb. lia.
  - by apply bool_decide_eq_true.
Qed.

(** The cancellation of a request, once read, has reached its handler. *)
Lemma cancel_reaches_handler bound cc sc rng now n h tc :
  reaches bound cc sc rng now n → h ∈ ServerSystem.sv_handlers (server n) → ServerDeadlines.running h →
  ClientCancel tc (ServerDeadlines.handler_id h) ∈ server_read n →
  Server.ch_is_aborted (Requests.if_abort_registration (Requests.h_request h))
    (Requests.rq_channel (ServerSystem.sv_requests (server n))) = true.
Proof.
  intros Hn Hin Hrun Hc.
  destruct (wire_split (server_read n) (unread n) tc (ServerDeadlines.handler_id h)) as (l1 & r' & l2 & Hl & Hr' & Hc'); [|done|].
  { rewrite <- (sent_split _ _ _ _ _ _ Hn). by eapply sent_wire. }
  exact (ServerDeadlines.watch_canceled (server n) h l1 r' tc l2 (proj2 (net_watch _ _ _ _ _ _ Hn))
    (net_unique _ _ _ _ _ _ Hn) Hin Hrun Hl Hr' Hc').
Qed.

(** A running handler is aborted, or its timer is set. *)
Lemma handler_watched bound cc sc rng now n h :
  reaches bound cc sc rng now n → h ∈ ServerSystem.sv_handlers (server n) → ServerDeadlines.running h →
  Server.ch_is_aborted (Requests.if_abort_registration (Requests.h_request h))
    (Requests.rq_channel (ServerSystem.sv_requests (server n))) = true ∨
  ∃ due, ServerSpec.b_due (ServerDeadlines.rq_abs (ServerSystem.sv_requests (server n))) !! ServerDeadlines.handler_id h = Some due ∧
    (due ≤ Z.max (ServerSystem.sv_clock (server n)) (deadline (context (Requests.if_request (Requests.h_request h)))))%Z.
Proof.
  intros Hn Hin Hrun. destruct (net_watch _ _ _ _ _ _ Hn) as [_ [_ _ _ Vr]].
  pose proof (net_unique _ _ _ _ _ _ Hn) as Hu. specialize (Vr Hu h Hin Hrun). specialize (Hu (ServerDeadlines.handler_id h)).
  destruct Vr as (due & Hd & [[_ [[Htwo|Hab]|[_ Ht _ _]]] _]); cbn [ServerWatch.w_id ServerWatch.w_handle ServerWatch.w_due] in *.
  - lia.
  - left. by rewrite ServerWatch.watch_aborted.
  - right. by exists due.
Qed.

(** C2: end to end, nobody works for a call that was given up.  In every state the
    client, the server and their shared queues can reach, by whatever interleaving:
    if a call has been dropped, and its cancellation is not on its way any more (neither
    on the client's cancellation queue nor on the wire) and the client's connection has
    not failed, then a handler that still runs for that call is aborted; unless the
    call's deadline has passed at the client, which then needs no cancellation, and in
    that case the server has a timer set for it, due by that deadline or by the server's
    clock. *)
Theorem dropped_call_stops_work bound cc sc rng now n k c h :
  reaches bound cc sc rng now n → Calls.s_calls (client n) !! k = Some c → Calls.c_stage c = Calls.Dropped →
  Client.terminal_error (Client.dispatch (Calls.s_world (client n))) = None →
  Z.of_nat k ∉ mv_queue (mpsc_view (Client.canceled_requests (Client.dispatch (Calls.s_world (client n))))) →
  (∀ tc, ClientCancel tc (Z.of_nat k) ∉ unread n) →
  h ∈ ServerSystem.sv_handlers (server n) → ServerDeadlines.handler_id h = Z.of_nat k → ServerDeadlines.running h →
  Server.ch_is_aborted (Requests.if_abort_registration (Requests.h_request h))
    (Requests.rq_channel (ServerSystem.sv_requests (server n))) = true ∨
  (deadline (Calls.c_ctx c) ≤ Calls.s_clock (client n))%Z ∧
  ∃ due, ServerSpec.b_due (ServerDeadlines.rq_abs (ServerSystem.sv_requests (server n))) !! Z.of_nat k = Some due ∧
    (due ≤ Z.max (ServerSystem.sv_clock (server n)) (deadline (context (Requests.if_request (Requests.h_request h)))))%Z.
Proof.
  intros Hn Hk Hst He Hcq Hun Hin Hid Hrun. destruct (net_watch _ _ _ _ _ _ Hn) as [Hs _].
  destruct (ServerSystem.si_handlers _ Hs h Hin) as [_ (r & Hr & Hidr & _)].
  destruct (net_accounts _ _ _ _ _ _ Hn) as [Hacc Hwr]. pose proof (sent_split _ _ _ _ _ _ Hn) as Hl.
  assert (Hsent : ClientRequest r ∈ client_sent n) by (rewrite Hl; apply elem_of_app; left; exact Hr).
  change (id (Requests.if_request (Requests.h_request h))) with (ServerDeadlines.handler_id h) in Hidr.
  destruct (ClientAccounts.ac_sent _ _ (Hacc He) r Hsent) as [(due & Hd & _)|[[tc Hc]|[(x & Hx & Hxi)|Hdl]]].
  - pose proof (dropped_not_in_flight _ _ _ _ _ _ _ _ Hn Hk Hst Hcq) as Hno.
    rewrite <- Hidr, Hid in Hd. discriminate (eq_trans (eq_sym Hd) Hno).
  - left. eapply (cancel_reaches_handler _ _ _ _ _ n _ tc); [exact Hn|exact Hin|exact Hrun|].
    change (ClientCancel tc (id r) ∈ client_sent n) in Hc. rewrite Hl in Hc. rewrite Hidr.
    apply elem_of_app in Hc as [Hc|Hc]; [exact Hc|]. rewrite <- Hidr, Hid in Hc. by apply Hun in Hc.
  - left. rewrite ServerWatch.watch_aborted. eapply answered_handler_aborted; [exact Hn|exact Hin|exact Hrun| |exact (eq_trans Hxi (eq_sym Hidr))].
    destruct (net_reaches_inv _ _ _ _ _ _ _ _ _ _ _ Hn) as [_ [_ Hi] _ _ _]. rewrite Hi. apply elem_of_app. by left.
  - destruct (handler_watched _ _ _ _ _ _ _ Hn Hin Hrun) as [?|Hd]; [by left|right]. rewrite Hid in Hd. split; [|exact Hd].
    destruct (Hwr r Hsent) as (k' & c' & Hk' & E). injection E as ->.
    assert (k' = k) as -> by (simpl in Hidr; lia). rewrite Hk in Hk'. injection Hk' as <-. exact Hdl.
Qed.
End net.

(** ** A call that is dropped while it is served

    The call of [EndToEnd.demo_sent] has reached its handler when it is dropped. *)

Definition run_drop (n : demo_net) : demo_net :=
  let closed := after_client demo_u64 demo_span demo_active (Calls.on_call Calls.drop_call_close 0 (n_client _ _ _ n)) n in
  after_client demo_u64 demo_span demo_active (Calls.on_call Calls.drop_call_cancel 0 (n_client _ _ _ closed)) closed.
Definition demo_dropped : demo_net := run_drop (run_server 2 demo_sent).

Lemma demo_abandoned_reaches :
  net_reaches demo_u64 demo_u64 demo_span demo_active demo_service demo_bound demo_cc demo_sc tt 0 demo_dropped.
Proof.
  split_and!; [by split|done| |by vm_compute]. exists demo_n0. split; [reflexivity|]. unfold demo_dropped, demo_sent.
  eapply rtc_l; [apply (run_call_step 41)|]. eapply rtc_l; [apply (run_poll_call_step 0)|].
  eapply rtc_l; [apply (run_dispatch_step 1); by vm_compute|]. eapply rtc_l; [apply (run_server_step 2); by vm_compute|].
  eapply rtc_l; [|eapply rtc_once]; apply net_client; [apply Calls.step_drop_close|apply Calls.step_drop_cancel].
Qed.

(** The dispatch writes the cancellation, and the server reads it. *)
Definition demo_cancels : demo_net := run_server 4 (run_dispatch 3 demo_dropped).

Lemma demo_cancels_reaches :
  net_reaches demo_u64 demo_u64 demo_span demo_active demo_service demo_bound demo_cc demo_sc tt 0 demo_cancels.
Proof.
  destruct demo_abandoned_reaches as (? & ? & (n0 & ? & Hr) & ?). split_and!; [done|done| |by vm_compute].
  exists n0. split; [done|]. eapply rtc_r; [eapply rtc_r; [exact Hr|]|].
  - apply (run_dispatch_step 3); by vm_compute.
  - apply (run_server_step 4); by vm_compute.
Qed.

Definition demo_handler : Requests.Handler unit Z Z :=
  match ServerSystem.sv_handlers (n_server _ _ _ demo_cancels) with h :: _ => h | [] => ServerProps.srv_handler end.

Definition demo_dropped_call : Calls.Call mem_error unit Z Z :=
  Calls.MkCall (Calls.MkResponseGuard 0 0 true) (MkContext 100 (MkTraceContext (MkTraceId 0) (MkSpanId 7) Unsampled)) 41%Z Calls.Dropped.

Lemma dropped_call_stops_work_witness :
  Server.ch_is_aborted (Requests.if_abort_registration (Requests.h_request demo_handler))
    (Requests.rq_channel (ServerSystem.sv_requests (n_server _ _ _ demo_cancels))) = true.
Proof.
  destruct (dropped_call_stops_work demo_u64 demo_u64 demo_span demo_active demo_service demo_bound demo_cc demo_sc tt 0
    demo_cancels 0 demo_dropped_call demo_handler demo_cancels_reaches) as [Ha|[Hd _]];
    [vm_compute; reflexivity|reflexivity|vm_compute; reflexivity|..| |vm_compute; reflexivity|vm_compute; exact I|exact Ha|].
  - assert (Hq : mv_queue (mpsc_view (Client.canceled_requests (Client.dispatch (Calls.s_world (n_client _ _ _ demo_cancels))))) = [])
      by (vm_compute; reflexivity). rewrite Hq. apply not_elem_of_nil.
  - assert (Hu : unread demo_u64 demo_span demo_active demo_cancels = []) by (vm_compute; reflexivity).
    intros tc. rewrite Hu. apply not_elem_of_nil.
  - assert (Hh : ServerSystem.sv_handlers (n_server _ _ _ demo_cancels) = [demo_handler]) by (vm_compute; reflexivity). rewrite Hh. by left.
  - vm_compute in Hd. by destruct Hd.
Defined.
End EndToEndAborts.
