(* ===== verification/Integration.v ===== *)
(** * Whole calls (tarpc/src/transport/channel.rs: the test [integration])

    A client and a server on the in-memory transport with the reference queues, run by a
    scheduler that polls each task in turn, as the test does: the call returns what the
    service function gave. *)
From S2P Require Import Prelude Interfaces RefModels Trace Wire TimerTable Transport Cancellations ClientInFlight ClientDispatch ClientCalls ServerInFlight ServerChannel ServerRequests ServerSystem EndToEnd.
From Stdlib Require Import Ascii.
From stdpp Require Import strings.

Module Integration.
Import EndToEnd.

(** ** A scheduler *)

Section run.
Context {Req Resp : Type}.
(** The service function, ready at once. *)
Context (service : Context → Req → Result Resp ServerError).

Definition u64_random (_ : unit) : Z * unit := (7%Z, tt).
Definition no_span (_ : Request Req) : unit := tt.
Definition no_active (_ : unit) (_ : OtelContext) : option otel_span_context := None.
Abbreviation Net := (EndToEnd.Net (CSpan:=unit) (Resp:=Resp) u64_random no_span no_active).
Abbreviation after_client := (EndToEnd.after_client u64_random no_span no_active).
Abbreviation after_server := (EndToEnd.after_server u64_random no_span no_active).
Abbreviation client n := (n_client u64_random no_span no_active n).
Abbreviation server n := (n_server u64_random no_span no_active n).

Definition bound : nat := 8.

(** A poll of the client's call [k], of its dispatch, of the server's [Requests], whose
    request is spawned, and of the server's handlers. *)
Definition poll_call_task (k : nat) (n : Net) : Exec Net := Done (after_client (Calls.on_call Calls.poll_call k (client n)) n).
Definition dispatch_task (now : Z) (n : Net) : Exec Net :=
  let s := client n in
  '(_, w) ← Client.poll bound now (Calls.s_world s);
  Done (after_client (Calls.MkSystem w (Calls.s_next_request_id s) (Calls.s_handles s) (Calls.s_calls s) now) n).
Definition requests_task (now : Z) (n : Net) : Exec Net :=
  let s := server n in
  '(res, q) ← Requests.poll_next_requests bound now (ServerSystem.sv_requests s);
  Done (after_server (ServerSystem.MkServer q (ServerSystem.sv_handlers s ++ ServerSystem.spawn res) now) n).
Definition handler_task (k : nat) (n : Net) : Exec Net :=
  let poll h := Requests.poll_handler (let req := Requests.if_request (Requests.h_request h) in
                                       Ready (service (context req) (message req))) h in
  Done (after_server (ServerSystem.on_handler poll k (server n)) n).

(** The tasks woken, one after the other, by a call until it has its answer. *)
Definition schedule (now : Z) (k : nat) (n : Net) : Exec Net :=
  n ← poll_call_task k n; n ← dispatch_task now n; n ← requests_task now n; n ← handler_task k n;
  n ← requests_task now n; n ← dispatch_task now n; poll_call_task k n.

(** [client.call(ctx, request).await], the [k]th call of the client. *)
Definition await_call (now : Z) (k : nat) (ctx : Context) (request : Req) (n : Net) : Exec Net :=
  schedule now k (after_client (Calls.call_start u64_random None ctx tt request tt (client n)).1 n).

Definition result (k : nat) (n : Net) : option (Calls.Stage (interp:=mem_error) (Span:=unit) (Req:=Req) (Resp:=Resp)) :=
  Calls.c_stage <$> Calls.s_calls (client n) !! k.

(** A client and a server with their default configurations, the server spawned. *)
Definition connected (now : Z) : Exec Net :=
  start u64_random no_span no_active Client.config_default Server.config_default tt now.
End run.

Definition rpc_result {Resp} (r : Result Resp ServerError) : Result Resp (RpcError.t (DynAny mem_error)) :=
  result_map_err RpcError.Server r.

Definition current : Context := MkContext 10000000000 trace_context_default.

(** One call, run to its end: on a new connection with the default configurations, the
    queues and timers of [RefModels] and the clock at zero, polling each task that was
    woken, the call returns what the service function gave for that message, with a
    context of the same deadline and trace. *)
Lemma call_completes {Req Resp : Type} (service : Context → Req → Result Resp ServerError) (request : Req) :
  ∃ ctx, deadline ctx = deadline current ∧ trace_id (trace_context ctx) = trace_id (trace_context current) ∧
    (n0 ← connected (Resp:=Resp) 0; n ← await_call service 0 0 current request n0; Done (result 0 n)) =
      Done (Some (Calls.Returned (rpc_result (service ctx request)))).
Proof.
  exists (MkContext 10000000000 (MkTraceContext (MkTraceId 0) (MkSpanId 7) Unsampled)).
  split_and!; [reflexivity..|]. vm_compute. reflexivity.
Qed.

(** ** The test [integration] *)

(** [str::parse::<u64>]: an optional plus sign and at least one digit, below 2^64. *)
Fixpoint parse_digits (acc : Z) (s : list Ascii.ascii) : option Z :=
  match s with
  | [] => Some acc
  | c :: s =>
      let d := (Z.of_N (Ascii.N_of_ascii c) - 48)%Z in
      if bool_decide (0 ≤ d ≤ 9)%Z then
        let acc := (acc * 10 + d)%Z in
        if bool_decide (acc < u64_modulus)%Z then parse_digits acc s else None
      else None
  end.
Definition parse_u64 (s : string) : option Z :=
  let digits := match String.list_ascii_of_string s with "+"%char :: ((_ :: _) as ds) => ds | ds => ds end in
  match digits with [] => None | ds => parse_digits 0 ds end.

Section integration.
(** The [Debug] form of a string. *)
Context (debug : string → string).

Definition parse_service (_ : Context) (request : string) : Result Z ServerError :=
  match parse_u64 request with
  | Some n => Ok n
  | None => Err (server_error_new InvalidInput (debug request +:+ " is not an int"))
  end.

Definition integration : Exec (option (Calls.Stage (interp:=mem_error)) * option (Calls.Stage (interp:=mem_error))) :=
  n ← connected 0;
  n ← await_call parse_service 0 0 current "123" n;
  n ← await_call parse_service 0 1 current "abc" n;
  Done (result 0 n, result 1 n).

Example integration_passes :
  integration = Done (Some (Calls.Returned (Ok 123%Z)),
    Some (Calls.Returned (Err (RpcError.Server (server_error_new InvalidInput (debug "abc" +:+ " is not an int")))))).
Proof. vm_compute. reflexivity. Qed.
End integration.
End Integration.
