(* ===== verification/PubSub.v ===== *)
(** * The publish/subscribe server (tarpc/examples/pubsub.rs)

    A server that is a tarpc client of its subscribers and a tarpc service of its
    publishers.  Its state is two shared maps behind locks: the topics of each subscriber,
    and for each topic the subscribers to call.  A task panics on a poisoned lock, and a
    panic while a lock is held poisons it.  The tasks of the connections (initialization
    and collection) and the publications interleave at the locks. *)
From S2P Require Import Prelude.

Module PubSub.

Section model.
Context {Addr Client : Type} `{!EqDecision Addr, !Countable Addr}.

(** [Subscriber]: the other end of a connection. *)
Record Subscriber := MkSubscriber {
  local_addr : Addr;
  sub_topics : list string;
}.

Definition topics (self : Subscriber) : list string := sub_topics self.

(** [Subscription], [Publisher]; each map with whether its lock is poisoned. *)
Record Subscription := MkSubscription { sc_topics : list string }.

Record Publisher := MkPublisher {
  clients : gmap Addr Subscription;
  clients_poisoned : bool;
  subscriptions : gmap string (gmap Addr Client);
  subscriptions_poisoned : bool;
}.

Definition publisher_new : Publisher := MkPublisher ∅ false ∅ false.

(** ** [initialize_subscription], at its two locks *)

(** The task continues, or it has panicked. *)
Definition insert_client (a : Addr) (ts : list string) (p : Publisher) : bool * Publisher :=
  if clients_poisoned p then (false, p)
  else (true, MkPublisher (<[a := MkSubscription ts]> (clients p)) false (subscriptions p) (subscriptions_poisoned p)).

(** [subscriptions.entry(topic).or_default().insert(subscriber_addr, subscriber)]. *)
Definition subscribe_topic (a : Addr) (c : Client) (m : gmap string (gmap Addr Client)) (t : string)
    : gmap string (gmap Addr Client) :=
  <[t := <[a := c]> (default ∅ (m !! t))]> m.

Definition subscribe_topics (a : Addr) (c : Client) (ts : list string) (p : Publisher) : bool * Publisher :=
  if subscriptions_poisoned p then (false, p)
  else (true, MkPublisher (clients p) (clients_poisoned p)
          (foldl (subscribe_topic a c) (subscriptions p) ts) false).

(** ** [start_subscriber_gc], once the dispatch has ended and the subscriber is ready *)

(** The loop; it stops where [get_mut(&topic).unwrap()] finds no topic. *)
Fixpoint unsubscribe_topics (a : Addr) (ts : list string) (m : gmap string (gmap Addr Client))
    : bool * gmap string (gmap Addr Client) :=
  match ts with
  | [] => (true, m)
  | t :: ts =>
      match m !! t with
      | None => (false, m)
      | Some subscribers =>
          let subscribers := delete a subscribers in
          unsubscribe_topics a ts
            (if bool_decide (subscribers = ∅) then delete t m else <[t := subscribers]> m)
      end
  end.

(** Both locks are held while the loop runs. *)
Definition subscriber_gc (a : Addr) (p : Publisher) : bool * Publisher :=
  if clients_poisoned p then (false, p)
  else
    match clients p !! a with
    | None => (true, p)
    | Some subscription =>
        let cl := delete a (clients p) in
        if subscriptions_poisoned p then (false, MkPublisher cl true (subscriptions p) true)
        else
          let '(ok, m) := unsubscribe_topics a (sc_topics subscription) (subscriptions p) in
          (ok, MkPublisher cl (negb ok) m (negb ok))
    end.

(** ** [Publisher::publish]: the calls of [receive] it makes, or a panic *)

Definition publish (t message : string) (p : Publisher) : option (list (Client * string * string)) :=
  if subscriptions_poisoned p then None
  else match subscriptions p !! t with
       | None => Some []
       | Some subscribers => Some (map (λ e, (e.2, t, message)) (map_to_list subscribers))
       end.

(** ** The server: its connections and their tasks

    The manager accepts connections one by one: it asks the new one for its topics, enters
    it in the one map and then in the other, and signals that it is ready.  A task per
    connection waits for the dispatch to end and for the signal (or for its sender to be
    dropped by a panic), and collects the connection.  Another task accepts one publisher.
    What these tasks unwrap can make them panic: the address of a new connection's peer,
    the locks, the signal, the entry of a topic, and the accepted publisher. *)

(** How far a connection is: its initialization, and then its collection, after which the
    task that collects it has ended and with it the receiver of the signal. *)
Inductive Phase :=
| Connecting
| Inserted (ts : list string)
| Subscribed (ts : list string)
| NotSubscribed
| InitPanicked
| Collected
| GcPanicked.

Record Conn := MkConn {
  cn_addr : Addr;
  cn_client : Client;
  cn_phase : Phase;
  (** The sender of the signal was used or dropped. *)
  cn_signaled : bool;
}.

Definition set_phase (ph : Phase) (c : Conn) : Conn := MkConn (cn_addr c) (cn_client c) ph (cn_signaled c).
Definition set_signaled (b : bool) (c : Conn) : Conn := MkConn (cn_addr c) (cn_client c) (cn_phase c) b.

Inductive Cause := NoPeerAddr | PoisonedLock | SignalRefused.
Inductive Manager := Accepting | Initializing (k : nat) | Signaling (k : nat) | ManagerPanicked (why : Cause).
Inductive PublisherTask := AwaitingPublisher | ServingPublisher | PublisherPanicked.

Record Sys := MkSys { sy_pub : Publisher; sy_manager : Manager; sy_conns : list Conn; sy_publisher : PublisherTask }.

Definition sys_new : Sys := MkSys publisher_new Accepting [] AwaitingPublisher.

(** The connection has not been collected. *)
Definition live (c : Conn) : bool := match cn_phase c with Collected => false | _ => true end.

(** The task that collects it has not ended: the signal can be received. *)
Definition collecting (c : Conn) : bool := match cn_phase c with Collected | GcPanicked => false | _ => true end.

(** [topics_ok] is what subscribers may answer when they are asked for their topics. *)
Inductive sys_step (topics_ok : list string → Prop) (s : Sys) : Sys → Prop :=
(** [conn.peer_addr().unwrap()]. *)
| sys_accept a c :
    sy_manager s = Accepting →
    sys_step topics_ok s
      (MkSys (sy_pub s) (Initializing (length (sy_conns s))) (sy_conns s ++ [MkConn a c Connecting false]) (sy_publisher s))
| sys_no_peer_addr :
    sy_manager s = Accepting →
    sys_step topics_ok s (MkSys (sy_pub s) (ManagerPanicked NoPeerAddr) (sy_conns s) (sy_publisher s))
(** [initialize_subscription]; a panic drops the sender of the signal. *)
| sys_no_topics k x :
    sy_manager s = Initializing k → sy_conns s !! k = Some x → cn_phase x = Connecting →
    sys_step topics_ok s
      (MkSys (sy_pub s) (Signaling k) (<[k := set_phase NotSubscribed x]> (sy_conns s)) (sy_publisher s))
| sys_topics k x ts ok p :
    sy_manager s = Initializing k → sy_conns s !! k = Some x → cn_phase x = Connecting → topics_ok ts →
    insert_client (cn_addr x) ts (sy_pub s) = (ok, p) →
    sys_step topics_ok s
      (MkSys p (if ok then Initializing k else ManagerPanicked PoisonedLock)
         (<[k := set_signaled (negb ok) (set_phase (if ok then Inserted ts else InitPanicked) x)]> (sy_conns s)) (sy_publisher s))
| sys_subscribe k x ts ok p :
    sy_manager s = Initializing k → sy_conns s !! k = Some x → cn_phase x = Inserted ts →
    subscribe_topics (cn_addr x) (cn_client x) ts (sy_pub s) = (ok, p) →
    sys_step topics_ok s
      (MkSys p (if ok then Signaling k else ManagerPanicked PoisonedLock)
         (<[k := set_signaled (negb ok) (set_phase (if ok then Subscribed ts else InitPanicked) x)]> (sy_conns s)) (sy_publisher s))
(** [ready_tx.send(()).unwrap()]. *)
| sys_signal k x :
    sy_manager s = Signaling k → sy_conns s !! k = Some x →
    sys_step topics_ok s
      (MkSys (sy_pub s) (if collecting x then Accepting else ManagerPanicked SignalRefused)
         (<[k := set_signaled true x]> (sy_conns s)) (sy_publisher s))
(** The task of [start_subscriber_gc], after the dispatch has ended. *)
| sys_collect k x ok p :
    sy_conns s !! k = Some x → collecting x = true → cn_signaled x = true →
    subscriber_gc (cn_addr x) (sy_pub s) = (ok, p) →
    sys_step topics_ok s
      (MkSys p (sy_manager s) (<[k := set_phase (if ok then Collected else GcPanicked) x]> (sy_conns s)) (sy_publisher s))
(** [connecting_publishers.next().await.unwrap().unwrap()]. *)
| sys_publisher (accepted : bool) :
    sy_publisher s = AwaitingPublisher →
    sys_step topics_ok s
      (MkSys (sy_pub s) (sy_manager s) (sy_conns s) (if accepted then ServingPublisher else PublisherPanicked)).

(** No two connections that are still to be collected come from the same address.  (TCP
    frees the port of a connection when its transport is dropped, which is before the
    task collects it.) *)
Definition distinct_addrs (s : Sys) : Prop := NoDup (cn_addr <$> filter live (sy_conns s)).

Definition orderly_step (topics_ok : list string → Prop) (s s' : Sys) : Prop :=
  sys_step topics_ok s s' ∧ distinct_addrs s'.
End model.

Arguments Publisher Addr Client {_ _}.
Arguments Sys Addr Client {_ _}.
Arguments Conn Addr Client : clear implicits.

(** ** The maps *)

Section maps.
Context {Addr Client : Type} `{!EqDecision Addr, !Countable Addr}.
Implicit Types (m : gmap string (gmap Addr Client)) (a : Addr) (c : Client) (t : string).

(** The client that is called for topic [t] at address [a]. *)
Definition sub_at m t a : option Client := m !! t ≫= λ s, s !! a.

(** No topic is kept without subscribers. *)
Definition no_empty m : Prop := ∀ t s, m !! t = Some s → s ≠ ∅.

Lemma subscribe_topic_at a c m t t' a' :
  sub_at (subscribe_topic a c m t) t' a' = if bool_decide (t' = t ∧ a' = a) then Some c else sub_at m t' a'.
Proof.
  unfold sub_at, subscribe_topic. destruct (decide (t' = t)) as [->|].
  - rewrite lookup_insert_eq. simpl. destruct (decide (a' = a)) as [->|].
    + rewrite lookup_insert_eq, bool_decide_true; done.
    + rewrite lookup_insert_ne, bool_decide_false by naive_solver. destruct (m !! t); [done|]. apply lookup_empty.
  - rewrite lookup_insert_ne, bool_decide_false by naive_solver. done.
Qed.

Lemma subscribe_topics_at a c ts m t' a' :
  sub_at (foldl (subscribe_topic a c) m ts) t' a' =
    if bool_decide (t' ∈ ts ∧ a' = a) then Some c else sub_at m t' a'.
Proof.
  revert m. induction ts as [|t ts IH]; intros m; cbn [foldl].
  - rewrite bool_decide_false; [done|]. by intros [?%elem_of_nil _].
  - rewrite IH, subscribe_topic_at. repeat case_bool_decide; try done; set_solver.
Qed.

Lemma subscribe_no_empty a c ts m : no_empty m → no_empty (foldl (subscribe_topic a c) m ts).
Proof.
  revert m. induction ts as [|t ts IH]; intros m Hm; [done|]. apply IH. intros t' s. unfold subscribe_topic.
  rewrite lookup_insert_Some. intros [[_ <-]|[_ ?]]; [apply insert_non_empty|by eapply Hm].
Qed.

(** A subscriber that is in every one of its topics, each named once, is removed from
    them, and nobody else is. *)
Lemma unsubscribe_spec a ts m :
  NoDup ts → no_empty m → (∀ t, t ∈ ts → is_Some (sub_at m t a)) →
  ∃ m', unsubscribe_topics a ts m = (true, m') ∧ no_empty m' ∧
    ∀ t' a', sub_at m' t' a' = if bool_decide (t' ∈ ts ∧ a' = a) then None else sub_at m t' a'.
Proof.
  revert m. induction ts as [|t ts IH]; intros m Hnd Hne Hin; cbn [unsubscribe_topics].
  - exists m. split_and!; [done|done|]. intros t' a'. rewrite bool_decide_false; [done|]. by intros [?%elem_of_nil _].
  - apply NoDup_cons in Hnd as [Ht Hnd]. destruct (Hin t) as [c Hc]; [set_solver|].
    unfold sub_at in Hc. destruct (m !! t) as [s|] eqn:Hs; [|done]. simpl in Hc.
    set (m1 := if bool_decide _ then _ else _).
    assert (Hat : ∀ t' a', sub_at m1 t' a' = if bool_decide (t' = t ∧ a' = a) then None else sub_at m t' a').
    { intros t' a'. unfold m1, sub_at. case_bool_decide as He.
      - destruct (decide (t' = t)) as [->|]; [|rewrite lookup_delete_ne, bool_decide_false by naive_solver; done].
        rewrite lookup_delete_eq, Hs. simpl. case_bool_decide as Ha; [done|].
        assert (Hd : delete a s !! a' = None) by by rewrite He, lookup_empty.
        rewrite lookup_delete_ne in Hd by naive_solver. by rewrite Hd.
      - destruct (decide (t' = t)) as [->|]; [|rewrite lookup_insert_ne, bool_decide_false by naive_solver; done].
        rewrite lookup_insert_eq, Hs. simpl. case_bool_decide as Ha; [destruct Ha as [_ ->]; apply lookup_delete_eq|].
        rewrite lookup_delete_ne by naive_solver. done. }
    destruct (IH m1) as (m' & Hm' & Hne' & Hat'); [done|..].
    + intros t' s'. unfold m1. case_bool_decide as He.
      * intros [_ ?]%lookup_delete_Some. by eapply Hne.
      * rewrite lookup_insert_Some. intros [[_ <-]|[_ ?]]; [done|by eapply Hne].
    + intros t' Ht'. rewrite Hat, bool_decide_false by set_solver. apply Hin. set_solver.
    + exists m'. split_and!; [done|done|]. intros t' a'. rewrite Hat', Hat.
      repeat case_bool_decide; try done; set_solver.
Qed.
End maps.

(** ** The system *)

Section system.
Context {Addr Client : Type} `{!EqDecision Addr, !Countable Addr}.
Implicit Types (p : Publisher Addr Client) (x y : Conn Addr Client) (l : list (Conn Addr Client)) (t : string).

Definition entered x : option (list string) :=
  match cn_phase x with Inserted ts | Subscribed ts => Some ts | _ => None end.

Definition subscribed_to t x : bool :=
  match cn_phase x with Subscribed ts => bool_decide (t ∈ ts) | _ => false end.

(** No task of the connection has panicked, and it names no topic twice. *)
Definition calm x : Prop :=
  cn_phase x ≠ InitPanicked ∧ cn_phase x ≠ GcPanicked ∧ ∀ ts, entered x = Some ts → NoDup ts.

(** The maps hold what the connections have entered in them. *)
Record inv p l : Prop := MkInv {
  inv_clients_lock : clients_poisoned p = false;
  inv_subscriptions_lock : subscriptions_poisoned p = false;
  inv_calm : Forall calm l;
  inv_addrs : NoDup (cn_addr <$> filter live l);
  inv_clients a sub : clients p !! a = Some sub ↔
    Exists (λ x, cn_addr x = a ∧ entered x = Some (sc_topics sub)) l;
  inv_subscriptions t a c : sub_at (subscriptions p) t a = Some c ↔
    Exists (λ x, cn_addr x = a ∧ cn_client x = c ∧ subscribed_to t x) l;
  inv_no_empty : no_empty (subscriptions p);
}.

(** The order of the connections does not matter. *)
#[local] Instance inv_proper : Proper ((=) ==> (≡ₚ) ==> iff) inv.
Proof.
  assert (∀ p l l', l ≡ₚ l' → inv p l → inv p l') as Himp.
  { intros p l l' Hp [H1 H2 H3 H4 H5 H6 H7]. split; [done|done|by rewrite <- Hp|by rewrite <- Hp|..|done].
    - intros a sub. by rewrite H5, Hp.
    - intros t a c. by rewrite H6, Hp. }
  intros p ? <- l l' Hp. split; by apply Himp.
Qed.

Lemma entered_live x ts : entered x = Some ts → live x.
Proof. unfold entered, live. by destruct (cn_phase x). Qed.

Lemma subscribed_live t x : subscribed_to t x → live x.
Proof. unfold subscribed_to, live. by destruct (cn_phase x). Qed.

Lemma subscribed_phase t x ts : cn_phase x = Subscribed ts → subscribed_to t x ↔ t ∈ ts.
Proof. unfold subscribed_to. intros ->. apply bool_decide_spec. Qed.

(** A live connection is the only one at its address. *)
Lemma alone p x l (P : Conn Addr Client → Prop) :
  inv p (x :: l) → live x → (∀ y, P y → cn_addr y = cn_addr x ∧ live y) → ¬ Exists P l.
Proof.
  intros Hi Hx HP (y & Hy & [Ha Hl]%HP)%Exists_exists. pose proof (inv_addrs _ _ Hi) as Hnd.
  rewrite filter_cons_True in Hnd by done. apply NoDup_cons in Hnd as [Hnot _]. apply Hnot.
  rewrite <- Ha. apply list_elem_of_fmap_2, list_elem_of_filter. done.
Qed.

Lemma addrs_set_phase x ph l :
  live x → NoDup (cn_addr <$> filter live (x :: l)) → NoDup (cn_addr <$> filter live (set_phase ph x :: l)).
Proof.
  intros Hx. rewrite filter_cons_True by done. intros Hnd. rewrite filter_cons. case_decide; [done|].
  by apply NoDup_cons in Hnd as [_ ?].
Qed.

Lemma inv_tail_calm p x l : inv p (x :: l) → calm x ∧ Forall calm l.
Proof. intros Hi. by apply Forall_cons, (inv_calm _ _ Hi). Qed.

Lemma inv_accept p l a c :
  inv p l → NoDup (cn_addr <$> filter live (MkConn a c Connecting false :: l)) → inv p (MkConn a c Connecting false :: l).
Proof.
  intros [H1 H2 H3 H4 H5 H6 H7] Ha. split; [done|done|by apply Forall_cons|done|..|done].
  - intros a' sub. rewrite H5, Exists_cons. naive_solver.
  - intros t a' c'. rewrite H6, Exists_cons. naive_solver.
Qed.

(** The signal is not in the maps. *)
Lemma inv_signaled p x l b : inv p (x :: l) → inv p (set_signaled b x :: l).
Proof.
  intros [H1 H2 H3 H4 H5 H6 H7]. split; [done|done|..|done].
  - apply Forall_cons in H3 as [? ?]. by apply Forall_cons.
  - revert H4. rewrite !filter_cons. by destruct (decide (live x)), (decide (live (set_signaled b x))).
  - intros a sub. by rewrite H5, !Exists_cons.
  - intros t a c. by rewrite H6, !Exists_cons.
Qed.

(** A change of phase that enters nothing and leaves nothing. *)
Lemma inv_same p x l ph :
  inv p (x :: l) → live x → entered (set_phase ph x) = entered x →
  (∀ t, subscribed_to t (set_phase ph x) = subscribed_to t x) → calm (set_phase ph x) →
  inv p (set_phase ph x :: l).
Proof.
  intros Hi Hx He Hs Hc. destruct (inv_tail_calm _ _ _ Hi) as [_ Hl]. destruct Hi as [H1 H2 H3 H4 H5 H6 H7]. split; try done.
  - by apply Forall_cons.
  - by apply addrs_set_phase.
  - intros a sub. by rewrite H5, !Exists_cons, He.
  - intros t a c. by rewrite H6, !Exists_cons, Hs.
Qed.

Lemma inv_insert_client p x l ts :
  inv p (x :: l) → cn_phase x = Connecting → NoDup ts →
  ∃ p', insert_client (cn_addr x) ts p = (true, p') ∧ inv p' (set_phase (Inserted ts) x :: l).
Proof.
  intros Hi Hph Hts. assert (Hx : live x) by by unfold live; rewrite Hph.
  assert (He : entered x = None) by by unfold entered; rewrite Hph.
  unfold insert_client. rewrite (inv_clients_lock _ _ Hi). eexists. split; [done|].
  split; cbn [clients subscriptions clients_poisoned subscriptions_poisoned]; [done|apply Hi|..|apply Hi].
  - apply Forall_cons. split; [|by eapply inv_tail_calm]. split_and!; [done|done|]. by intros ? [= <-].
  - apply addrs_set_phase, Hi. done.
  - intros a sub. pose proof (inv_clients _ _ Hi a sub) as Hcl. rewrite Exists_cons in Hcl |- *.
    cbn [clients set_phase cn_addr entered cn_phase]. rewrite lookup_insert_Some.
    destruct (decide (cn_addr x = a)) as [<-|]; [|naive_solver].
    assert (¬ Exists (λ y, cn_addr y = cn_addr x ∧ entered y = Some (sc_topics sub)) l)
      by (eapply alone; [done|done|intros y [? ?%entered_live]; done]).
    split; [naive_solver|]. intros [[_ [= ->]]|?]; [left; by destruct sub|done].
  - intros t a c. pose proof (inv_subscriptions _ _ Hi t a c) as Hs. rewrite Exists_cons in Hs |- *.
    cbn [subscriptions set_phase cn_addr cn_client subscribed_to cn_phase] in *. rewrite Hs.
    unfold subscribed_to at 1. rewrite Hph. done.
Qed.

Lemma inv_subscribe p x l ts :
  inv p (x :: l) → cn_phase x = Inserted ts →
  ∃ p', subscribe_topics (cn_addr x) (cn_client x) ts p = (true, p') ∧ inv p' (set_phase (Subscribed ts) x :: l).
Proof.
  intros Hi Hph. assert (Hx : live x) by by unfold live; rewrite Hph.
  destruct (inv_tail_calm _ _ _ Hi) as [(_ & _ & Hts) Hl].
  assert (He : entered x = Some ts) by by unfold entered; rewrite Hph.
  unfold subscribe_topics. rewrite (inv_subscriptions_lock _ _ Hi). eexists. split; [done|].
  split; cbn [clients subscriptions clients_poisoned subscriptions_poisoned]; [apply Hi|done|..].
  - apply Forall_cons. split; [|done]. split_and!; [done|done|]. by intros ? [= <-]; apply Hts.
  - apply addrs_set_phase, Hi. done.
  - intros a sub. rewrite (inv_clients _ _ Hi a sub), !Exists_cons, He. done.
  - intros t a c. pose proof (inv_subscriptions _ _ Hi t a c) as Hs. rewrite subscribe_topics_at.
    rewrite Exists_cons in Hs |- *. rewrite (subscribed_phase _ (set_phase _ _) ts) by done. cbn [set_phase cn_addr cn_client].
    assert (¬ subscribed_to t x) by (unfold subscribed_to; rewrite Hph; by intros []). case_bool_decide as Hb.
    + destruct Hb as [Ht ->]. split; [naive_solver|]. intros [(_ & -> & _)|Hex]; [done|]. exfalso. revert Hex.
      eapply alone; [done|done|]. intros y (? & _ & ?%subscribed_live). done.
    + rewrite Hs. naive_solver.
  - apply subscribe_no_empty, Hi.
Qed.

Lemma inv_client_at p x l sub :
  inv p (x :: l) → live x → clients p !! cn_addr x = Some sub ↔ entered x = Some (sc_topics sub).
Proof.
  intros Hi Hx. rewrite (inv_clients _ _ Hi), Exists_cons. split; [|naive_solver]. intros [[_ ?]|Hex]; [done|].
  exfalso. revert Hex. eapply alone; [done|done|]. intros y [? ?%entered_live]. done.
Qed.

Lemma inv_gc p x l :
  inv p (x :: l) → collecting x = true → (∀ ts, cn_phase x ≠ Inserted ts) →
  ∃ p', subscriber_gc (cn_addr x) p = (true, p') ∧ inv p' (set_phase Collected x :: l).
Proof.
  intros Hi Hr Hni. assert (Hx : live x) by (unfold live, collecting in *; by destruct (cn_phase x)).
  destruct (inv_tail_calm _ _ _ Hi) as [(Hc1 & Hc2 & Hts) Hl].
  pose proof (λ sub, inv_client_at p x l sub Hi Hx) as Hcl.
  unfold subscriber_gc. rewrite (inv_clients_lock _ _ Hi). 
  assert (Hout : entered x = None → ∃ p', match clients p !! cn_addr x with
      | None => (true, p)
      | Some subscription =>
          if subscriptions_poisoned p then (false, MkPublisher (delete (cn_addr x) (clients p)) true (subscriptions p) true)
          else let '(ok, m) := unsubscribe_topics (cn_addr x) (sc_topics subscription) (subscriptions p) in
               (ok, MkPublisher (delete (cn_addr x) (clients p)) (negb ok) m (negb ok))
      end = (true, p') ∧ inv p' (set_phase Collected x :: l)).
  { intros He. destruct (clients p !! cn_addr x) as [sub|] eqn:Hlk.
    { pose proof (proj1 (Hcl sub) eq_refl). congruence. }
    exists p. split; [done|]. apply inv_same; try done. intros t. unfold subscribed_to, entered in *. by destruct (cn_phase x). }
  destruct (cn_phase x) as [|ts|ts| | | |] eqn:Hph;
    try (apply Hout; unfold entered; by rewrite Hph); [by destruct (Hni ts)|].
  destruct (clients p !! cn_addr x) as [[ts']|] eqn:Hlk.
    2: { enough (None = Some (MkSubscription ts)) by done. apply Hcl. unfold entered. by rewrite Hph. }
    assert (entered x = Some ts') as He by by apply (Hcl (MkSubscription ts')).
    assert (ts' = ts) as -> by (unfold entered in He; rewrite Hph in He; congruence).
    rewrite (inv_subscriptions_lock _ _ Hi).
    destruct (unsubscribe_spec (cn_addr x) ts (subscriptions p)) as (m' & Hm' & Hne & Hat); [by apply Hts|apply Hi|..].
    { intros t Ht. exists (cn_client x). rewrite (inv_subscriptions _ _ Hi). apply Exists_cons_hd.
      split_and!; [done|done|]. unfold subscribed_to. rewrite Hph. by apply bool_decide_pack. }
    cbn [sc_topics]. rewrite Hm'. eexists. split; [done|].
    split; cbn [clients subscriptions subscriptions_poisoned clients_poisoned negb]; try done.
    + by apply Forall_cons.
    + apply addrs_set_phase, Hi. done.
    + intros a sub. pose proof (inv_clients _ _ Hi a sub) as H5. rewrite Exists_cons in H5 |- *.
      rewrite lookup_delete_Some. cbn [set_phase cn_addr entered cn_phase].
      assert (a = cn_addr x → ¬ Exists (λ y, cn_addr y = a ∧ entered y = Some (sc_topics sub)) l)
        by (intros ->; eapply alone; [done|done|intros y [? ?%entered_live]; done]). naive_solver.
    + intros t a c. pose proof (inv_subscriptions _ _ Hi t a c) as H6. rewrite Exists_cons in H6 |- *.
      rewrite Hat. cbn [set_phase cn_addr cn_client]. rewrite (subscribed_phase _ x ts) in H6 by done.
      assert (¬ subscribed_to t (set_phase Collected x)) by by intros [].
      assert (a = cn_addr x → ¬ Exists (λ y, cn_addr y = a ∧ cn_client y = c ∧ subscribed_to t y) l)
        by (intros ->; eapply alone; [done|done|intros y (? & _ & ?%subscribed_live); done]).
      case_bool_decide; naive_solver.
Qed.

Lemma perm_insert x x' (k : nat) l : l !! k = Some x → l ≡ₚ x :: delete k l ∧ <[k := x']> l ≡ₚ x' :: delete k l.
Proof.
  intros Hk. rewrite delete_take_drop, insert_take_drop by by eapply lookup_lt_Some.
  rewrite <- (take_drop_middle l k x) at 1 by done. by rewrite !Permutation_middle.
Qed.

(** The connection the manager works on has not been signaled, nor collected; one that is
    entered in the first map only is in its hands. *)
Record manager_ok (s : Sys Addr Client) : Prop := {
  mo_current k : sy_manager s = Initializing k ∨ sy_manager s = Signaling k →
    ∃ x, sy_conns s !! k = Some x ∧ cn_signaled x = false ∧ collecting x = true;
  mo_signaling k x : sy_manager s = Signaling k → sy_conns s !! k = Some x → ∀ ts, cn_phase x ≠ Inserted ts;
  mo_inserted k x ts : sy_conns s !! k = Some x → cn_phase x = Inserted ts → cn_signaled x = false;
  mo_causes why : sy_manager s = ManagerPanicked why → why = NoPeerAddr;
}.

(** What a step does to the connection it is about, it does to no other. *)
Lemma lookup_update {l} {k : nat} {x} (j : nat) x' y :
  l !! k = Some x → <[k := x']> l !! j = Some y → j = k ∧ y = x' ∨ j ≠ k ∧ l !! j = Some y.
Proof.
  intros Hk. destruct (decide (j = k)) as [->|]; [|rewrite list_lookup_insert_ne by done; auto].
  rewrite list_lookup_insert_eq by by eapply lookup_lt_Some. intros [= <-]. auto.
Qed.

(** The manager goes on with connection [k], or is done with it. *)
Lemma manager_update (s : Sys Addr Client) k x x' m p q :
  sy_conns s !! k = Some x → manager_ok s →
  (∀ j, m = Initializing j ∨ m = Signaling j → j = k ∧ cn_signaled x' = false ∧ collecting x' = true) →
  (m = Signaling k → ∀ ts, cn_phase x' ≠ Inserted ts) →
  (∀ ts, cn_phase x' = Inserted ts → cn_signaled x' = false) →
  (∀ why, m = ManagerPanicked why → why = NoPeerAddr) →
  manager_ok (MkSys p m (<[k := x']> (sy_conns s)) q).
Proof.
  intros Hk [_ _ Hin _] Hm Hs Hp Hw. split; cbn [sy_manager sy_conns].
  - intros j [-> [? ?]]%Hm. exists x'. rewrite list_lookup_insert_eq by by eapply lookup_lt_Some. done.
  - intros j y -> Hj. destruct (Hm j) as [-> _]; [by right|].
    destruct (lookup_update _ _ _ Hk Hj) as [[_ ->]|[? _]]; [by apply Hs|done].
  - intros j y ts Hj Hph. destruct (lookup_update _ _ _ Hk Hj) as [[_ ->]|[_ ?]]; [by eapply Hp|by eapply Hin].
  - done.
Qed.

Definition orderly (s : Sys Addr Client) : Prop := inv (sy_pub s) (sy_conns s) ∧ manager_ok s.

Lemma orderly_accept (s : Sys Addr Client) a c q :
  orderly s → distinct_addrs (MkSys (sy_pub s) (Initializing (length (sy_conns s))) (sy_conns s ++ [MkConn a c Connecting false]) q) →
  orderly (MkSys (sy_pub s) (Initializing (length (sy_conns s))) (sy_conns s ++ [MkConn a c Connecting false]) q).
Proof.
  intros [Hi [_ _ Hin _]] Hd. unfold distinct_addrs in Hd. cbn [sy_conns] in Hd. rewrite <- Permutation_cons_append in Hd.
  split; cbn [sy_pub sy_conns]; [rewrite <- Permutation_cons_append; by apply inv_accept|].
  split; cbn [sy_manager sy_conns]; try done.
  - intros k [[= <-]|?]; [|done]. exists (MkConn a c Connecting false). by rewrite list_lookup_middle.
  - intros k x ts [?|[_ Hx]]%lookup_app_Some Hph; [by eapply Hin|]. by apply list_lookup_singleton_Some in Hx as [_ <-].
Qed.

Lemma orderly_preserved (s s' : Sys Addr Client) : orderly_step NoDup s s' → orderly s → orderly s'.
Proof.
  intros [Hst Hd] Ho. pose proof Ho as [Hi Hm]. pose proof Hm as [Mc Ms Mi Mw].
  destruct Hst as [a c Ha|Ha|k x Hk0 Hk Hph|k x ts ok p Hk0 Hk Hph Hts Hp|k x ts ok p Hk0 Hk Hph Hp|k x Hk0 Hk|k x ok p Hk Hc Hsg Hp|acc Ha].
  - by apply orderly_accept.
  - split; [done|]. split; cbn [sy_manager sy_conns]; [by intros k [?|?]|done|exact Mi|by intros why [= <-]].
  - destruct (Mc k (or_introl Hk0)) as (x0 & Hx0 & Hs0 & _). rewrite Hk in Hx0. injection Hx0 as <-. split; cbn [sy_pub sy_conns].
    + destruct (perm_insert x (set_phase NotSubscribed x) k _ Hk) as [Hl ->]. rewrite Hl in Hi.
      apply inv_same; unfold live, entered, subscribed_to; rewrite ?Hph; done.
    + eapply manager_update; try done. by intros j [?|[= <-]].
  - match goal with |- orderly (MkSys _ _ (<[k := ?x']> _) _) => destruct (perm_insert x x' k _ Hk) as [Hl Hl'] end.
    pose proof Hi as Hi0. rewrite Hl in Hi0. edestruct inv_insert_client as (p' & Hp' & Hi'); [done..|].
    rewrite Hp in Hp'. simplify_eq. split; cbn [sy_pub sy_conns]; [rewrite Hl'; by apply inv_signaled|].
    eapply manager_update; try done. by intros j [[= <-]|?].
  - match goal with |- orderly (MkSys _ _ (<[k := ?x']> _) _) => destruct (perm_insert x x' k _ Hk) as [Hl Hl'] end.
    pose proof Hi as Hi0. rewrite Hl in Hi0. edestruct inv_subscribe as (p' & Hp' & Hi'); [done..|].
    rewrite Hp in Hp'. simplify_eq. split; cbn [sy_pub sy_conns]; [rewrite Hl'; by apply inv_signaled|].
    eapply manager_update; try done. by intros j [?|[= <-]].
  - destruct (Mc k (or_intror Hk0)) as (x0 & Hx0 & _ & Hc0). rewrite Hk in Hx0. injection Hx0 as <-. rewrite Hc0.
    split; cbn [sy_pub sy_conns].
    + destruct (perm_insert x (set_signaled true x) k _ Hk) as [Hl ->]. rewrite Hl in Hi. by apply inv_signaled.
    + eapply manager_update; try done; [by intros j [?|?]|]. intros ts Hph. by destruct (Ms k x Hk0 Hk ts).
  - assert (Hni : ∀ ts, cn_phase x ≠ Inserted ts) by (intros ts Hph; specialize (Mi k x ts Hk Hph); congruence).
    match goal with |- orderly (MkSys _ _ (<[k := ?x']> _) _) => destruct (perm_insert x x' k _ Hk) as [Hl Hl'] end.
    pose proof Hi as Hi0. rewrite Hl in Hi0. edestruct inv_gc as (p' & Hp' & Hi'); [done..|].
    rewrite Hp in Hp'. simplify_eq. split; cbn [sy_pub sy_conns]; [by rewrite Hl'|].
    assert (Hne : ∀ j, sy_manager s = Initializing j ∨ sy_manager s = Signaling j → j ≠ k).
    { intros j (y & Hy & Hs & _)%Mc ->. congruence. }
    split; cbn [sy_manager sy_conns]; [| | |done].
    + intros j Hj. rewrite list_lookup_insert_ne; [by apply Mc|]. intros E. by apply (Hne j Hj).
    + intros j y Hj Hy. destruct (lookup_update _ _ _ Hk Hy) as [[-> _]|[_ ?]]; [by destruct (Hne k (or_intror Hj))|by eapply Ms].
    + intros j y ts Hy Hph. destruct (lookup_update _ _ _ Hk Hy) as [[_ ->]|[_ ?]]; [done|by eapply Mi].
  - by split; [|split].
Qed.

Lemma orderly_reach (s : Sys Addr Client) : rtc (orderly_step NoDup) sys_new s → orderly s.
Proof.
  intros Hs. eapply (rtc_preserves _ orderly); [apply orderly_preserved|exact Hs|]. split; cbn.
  - split; try done; cbn.
    + constructor.
    + intros a sub. rewrite lookup_empty, Exists_nil. done.
    + intros t a c. unfold sub_at. rewrite lookup_empty, Exists_nil. done.
  - split; cbn; try done. by intros k [?|?].
Qed.

Lemma inv_subscribers p l t :
  inv p l →
  map_to_list (default ∅ (subscriptions p !! t)) ≡ₚ
    (λ x, (cn_addr x, cn_client x)) <$> filter (subscribed_to t) l.
Proof.
  intros Hi. apply NoDup_Permutation.
  - apply NoDup_map_to_list.
  - apply (NoDup_fmap_1 fst). rewrite <- list_fmap_compose.
    pose proof (inv_addrs _ _ Hi) as Hnd. clear Hi. induction l as [|x l IH]; [constructor|].
    rewrite filter_cons in Hnd |- *. case_decide as Hl; case_decide as Hs; try by apply IH.
    + apply NoDup_cons in Hnd as [Hx Hnd]. apply NoDup_cons. split; [|by apply IH]. contradict Hx.
      apply list_elem_of_fmap in Hx as (y & Hy & [Hs' Hin]%list_elem_of_filter). simpl in Hy. rewrite Hy.
      apply list_elem_of_fmap_2, list_elem_of_filter. split; [by eapply subscribed_live|done].
    + apply IH. by apply NoDup_cons in Hnd as [_ ?].
    + by apply subscribed_live in Hs.
  - intros [a c]. rewrite elem_of_map_to_list, list_elem_of_fmap. pose proof (inv_subscriptions _ _ Hi t a c) as Hs.
    unfold sub_at in Hs. assert (∀ o : option (gmap Addr Client), default ∅ o !! a = o ≫= λ s, s !! a) as ->
      by (intros [|]; [done|apply lookup_empty]). rewrite Hs, Exists_exists. setoid_rewrite list_elem_of_filter. naive_solver.
Qed.
End system.

Section props.
Context {Addr Client : Type} `{!EqDecision Addr, !Countable Addr}.

(** C35: provided no subscriber names a topic twice and, at every moment, the connections
    that are still to be collected come from different addresses: whatever the
    interleaving of the tasks, neither the initialization nor the collection of a
    connection panics, and the manager panics only if the address of a new connection's
    peer is not to be had; and a publication calls [receive] once on each connection that
    has subscribed to the topic and has not been collected, and on no other, and does not
    panic. *)
Theorem publish_reaches_subscribers (s : Sys Addr Client) (t message : string) :
  rtc (orderly_step NoDup) sys_new s →
  Forall (λ x, cn_phase x ≠ InitPanicked ∧ cn_phase x ≠ GcPanicked) (sy_conns s) ∧
  (∀ why, sy_manager s = ManagerPanicked why → why = NoPeerAddr) ∧
  ∃ calls, publish t message (sy_pub s) = Some calls ∧
    calls ≡ₚ (λ x, (cn_client x, t, message)) <$> filter (subscribed_to t) (sy_conns s).
Proof.
  intros [Hi Hm]%orderly_reach. split_and!; [eapply Forall_impl; [apply Hi|]; unfold calm; naive_solver|apply Hm|].
  unfold publish. rewrite (inv_subscriptions_lock _ _ Hi). pose proof (inv_subscribers _ _ t Hi) as Hp.
  apply (fmap_Permutation (λ e : Addr * Client, (e.2, t, message))) in Hp. rewrite <- list_fmap_compose in Hp.
  destruct (subscriptions (sy_pub s) !! t); eexists; (split; [done|]); by rewrite <- Hp.
Qed.

(** *** Panics with the locks held *)

Lemma unsubscribe_missing (a : Addr) ts (m : gmap string (gmap Addr Client)) t :
  t ∈ ts → m !! t = None → (unsubscribe_topics a ts m).1 = false.
Proof.
  revert m. induction ts as [|t' ts IH]; intros m; [by intros ?%elem_of_nil|]. cbn [unsubscribe_topics].
  intros [->|Hin]%elem_of_cons Hm; [by rewrite Hm|]. destruct (m !! t') as [s|] eqn:Hs; [|done]. apply IH; [done|].
  case_bool_decide; [by rewrite lookup_delete_None; right|]. rewrite lookup_insert_ne; [done|]. intros ->. congruence.
Qed.

(** A topic named twice, of which the subscriber is the only one. *)
Lemma unsubscribe_twice (a : Addr) (c : Client) l1 l2 t m :
  m !! t = Some {[ a := c ]} → t ∈ l2 → (unsubscribe_topics a (l1 ++ t :: l2) m).1 = false.
Proof.
  intros Hm Hin. revert m Hm. induction l1 as [|t' l1 IH]; intros m Hm; cbn [app unsubscribe_topics].
  - rewrite Hm. rewrite bool_decide_true by apply delete_singleton_eq. apply (unsubscribe_missing _ _ _ t); [done|].
    apply lookup_delete_eq.
  - destruct (decide (t' = t)) as [->|Hne].
    + rewrite Hm. rewrite bool_decide_true by apply delete_singleton_eq. apply (unsubscribe_missing _ _ _ t).
      * apply elem_of_app. right. by left.
      * apply lookup_delete_eq.
    + destruct (m !! t') as [s|]; [|done]. apply IH. case_bool_decide; [by rewrite lookup_delete_ne|by rewrite lookup_insert_ne].
Qed.

(** A poisoned lock stays so. *)
Definition poisoned (p : Publisher Addr Client) : Prop := clients_poisoned p = true ∧ subscriptions_poisoned p = true.

Lemma poisoned_step ok (s s' : Sys Addr Client) : sys_step ok s s' → poisoned (sy_pub s) → poisoned (sy_pub s').
Proof.
  intros Hs [Hc Hb]. destruct Hs as [| | |k x ts o p _ _ _ _ Hp|k x ts o p _ _ _ Hp| |k x o p _ _ _ Hp|]; cbn [sy_pub]; try done.
  - unfold insert_client in Hp. rewrite Hc in Hp. by injection Hp as <- <-.
  - unfold subscribe_topics in Hp. rewrite Hb in Hp. by injection Hp as <- <-.
  - unfold subscriber_gc in Hp. rewrite Hc in Hp. by injection Hp as <- <-.
Qed.

(** C36: whatever else the server's maps hold: when a subscriber is collected that named a
    topic twice and is the only subscriber of that topic, the task that collects it finds
    the topic removed and panics with both locks held; from then on, whatever happens,
    every publication panics and every subscriber that answers makes the manager panic. *)
Theorem duplicate_topic_poisons (a : Addr) (c : Client) (t : string) l1 l2 (p : Publisher Addr Client) :
  clients_poisoned p = false → subscriptions_poisoned p = false →
  clients p !! a = Some (MkSubscription (l1 ++ t :: l2)) → t ∈ l2 → subscriptions p !! t = Some {[ a := c ]} →
  (subscriber_gc a p).1 = false ∧
  ∀ ok s s', sy_pub s = (subscriber_gc a p).2 → rtc (sys_step ok) s s' →
    (∀ t' message, publish t' message (sy_pub s') = None) ∧
    (∀ a' ts, (insert_client a' ts (sy_pub s')).1 = false).
Proof.
  intros Hc Hs Ha Hin Ht. pose proof (unsubscribe_twice a c l1 l2 t _ Ht Hin) as Hu.
  assert (Hg : (subscriber_gc a p).1 = false ∧ poisoned (subscriber_gc a p).2).
  { unfold subscriber_gc. rewrite Hc, Ha, Hs. cbn [sc_topics]. destruct (unsubscribe_topics _ _ _) as [o m]. simpl in Hu. by subst o. }
  destruct Hg as [Hg Hp]. split; [done|]. intros ok s s' E Hst. rewrite <- E in Hp.
  assert (Hp' : poisoned (sy_pub s')) by (eapply (rtc_preserves _ (λ s, poisoned (sy_pub s))); [apply poisoned_step|exact Hst|done]).
  destruct Hp' as [Hc' Hb']. unfold publish, insert_client. by rewrite Hc', Hb'.
Qed.

(** The address of a connection that was lost is used again before the lost one is
    collected: its task takes the topics of the new connection for its own, finds that
    their entries do not exist yet, and panics with both locks held. *)
Lemma reused_address_poisons (a : Addr) (c c' : Client) (t t' : string) :
  t ≠ t' →
  ∃ s : Sys Addr Client, rtc (sys_step NoDup) sys_new s ∧ poisoned (sy_pub s) ∧
    cn_phase <$> sy_conns s = [GcPanicked; Inserted [t']].
Proof.
  intros Hne. eexists. split; [|split].
  - eapply rtc_l; [by apply (sys_accept _ _ a c)|].
    eapply rtc_l; [by eapply (sys_topics _ _ 0 _ [t]); [..|apply NoDup_singleton|]|].
    eapply rtc_l; [by eapply (sys_subscribe _ _ 0 _ [t])|].
    eapply rtc_l; [by eapply (sys_signal _ _ 0)|].
    eapply rtc_l; [by apply (sys_accept _ _ a c')|].
    eapply rtc_l; [by eapply (sys_topics _ _ 1 _ [t']); [..|apply NoDup_singleton|]|].
    eapply rtc_l; [|apply rtc_refl].
    eapply (sys_collect _ _ 0); [done|done|done|]. unfold subscriber_gc. cbn. rewrite lookup_insert_eq. cbn.
    unfold subscribe_topic. rewrite lookup_insert_ne by done. rewrite lookup_empty. done.
  - done.
  - done.
Qed.
End props.

(** ** The run of [main] *)

Section run.
Context {Addr Client : Type} `{!EqDecision Addr, !Countable Addr}.

(** What [Subscriber::connect] leaves in the server: the manager has asked for the topics,
    entered them and given the signal. *)
Definition connect (a : Addr) (c : Client) (s : Sys Addr Client) (ts : list string) : Sys Addr Client :=
  MkSys (subscribe_topics a c ts (insert_client a ts (sy_pub s)).2).2 Accepting
    (sy_conns s ++ [MkConn a c (Subscribed ts) true]) (sy_publisher s).

(** Its steps, one after the other. *)
Definition connect_step (a : Addr) (c : Client) (s : Sys Addr Client) (ts : list string) (n : nat) : Sys Addr Client :=
  let conn ph sg := sy_conns s ++ [MkConn a c ph sg] in
  match n with
  | 0 => s
  | 1 => MkSys (sy_pub s) (Initializing (length (sy_conns s))) (conn Connecting false) (sy_publisher s)
  | 2 => MkSys (insert_client a ts (sy_pub s)).2 (Initializing (length (sy_conns s))) (conn (Inserted ts) false) (sy_publisher s)
  | 3 => MkSys (subscribe_topics a c ts (insert_client a ts (sy_pub s)).2).2 (Signaling (length (sy_conns s)))
           (conn (Subscribed ts) false) (sy_publisher s)
  | _ => connect a c s ts
  end.

Lemma insert_last {A} (l : list A) x x' : <[length l := x']> (l ++ [x]) = l ++ [x'].
Proof. by rewrite insert_app_r_alt, Nat.sub_diag by lia. Qed.

Lemma connect_distinct (a : Addr) (c : Client) (s : Sys Addr Client) ts n :
  distinct_addrs s → a ∉ (cn_addr <$> filter live (sy_conns s)) → distinct_addrs (connect_step a c s ts n).
Proof.
  intros Hd Ha. destruct n as [|[|[|[|n]]]]; [done|..]; unfold distinct_addrs, connect; cbn [connect_step connect sy_conns];
    rewrite filter_app, filter_cons_True, fmap_app by done; cbn; apply NoDup_app; split_and!;
    [done|set_solver|apply NoDup_singleton|done|set_solver|apply NoDup_singleton|done|set_solver|apply NoDup_singleton|done|set_solver|apply NoDup_singleton].
Qed.

Lemma connect_steps (a : Addr) (c : Client) (s : Sys Addr Client) (ts : list string) (ok : list string → Prop) :
  sy_manager s = Accepting → distinct_addrs s → a ∉ (cn_addr <$> filter live (sy_conns s)) → ok ts →
  clients_poisoned (sy_pub s) = false → subscriptions_poisoned (sy_pub s) = false →
  rtc (orderly_step ok) s (connect a c s ts).
Proof.
  intros Hm Hd Ha Hok Hc Hs. set (k := length (sy_conns s)).
  assert (Hlast : ∀ ph sg, (sy_conns s ++ [MkConn a c ph sg]) !! k = Some (MkConn a c ph sg)) by (intros; by apply list_lookup_middle).
  assert (Hi : insert_client a ts (sy_pub s) = (true, (insert_client a ts (sy_pub s)).2)) by (unfold insert_client; by rewrite Hc).
  assert (Hsub : subscribe_topics a c ts (insert_client a ts (sy_pub s)).2 =
    (true, (subscribe_topics a c ts (insert_client a ts (sy_pub s)).2).2)).
  { unfold subscribe_topics, insert_client. rewrite Hc. cbn. by rewrite Hs. }
  assert (Hstep : ∀ n, n < 4 → orderly_step ok (connect_step a c s ts n) (connect_step a c s ts (S n))).
  { intros n Hn. split; [|by apply connect_distinct]. destruct n as [|[|[|[|n]]]]; [..|lia].
    - by apply sys_accept.
    - pose proof (sys_topics ok (connect_step a c s ts 1) k _ ts true _ eq_refl (Hlast _ _) eq_refl Hok Hi) as Hst.
      cbn [connect_step sy_conns] in Hst. unfold k in Hst. by rewrite insert_last in Hst.
    - pose proof (sys_subscribe ok (connect_step a c s ts 2) k _ ts true _ eq_refl (Hlast _ _) eq_refl Hsub) as Hst.
      cbn [connect_step sy_conns] in Hst. unfold k in Hst. by rewrite insert_last in Hst.
    - pose proof (sys_signal ok (connect_step a c s ts 3) k _ eq_refl (Hlast _ _)) as Hst.
      cbn [connect_step sy_conns] in Hst. unfold k in Hst. by rewrite insert_last in Hst. }
  eapply rtc_l; [apply (Hstep 0); lia|]. eapply rtc_l; [apply (Hstep 1); lia|].
  eapply rtc_l; [apply (Hstep 2); lia|]. apply rtc_once, (Hstep 3). lia.
Qed.
End run.

(** The subscribers of [main] and its publications; the last one when the first
    subscriber has been dropped and collected. *)
Definition main_subscribed : Sys nat nat :=
  connect 1 1 (connect 0 0 sys_new ["calculus"; "cool shorts"]) ["cool shorts"; "history"].

Definition main_publications : list (option (list (nat * string * string))) :=
  let p := sy_pub main_subscribed in
  [publish "calculus" "sqrt(2)" p; publish "cool shorts" "hello to all" p; publish "history" "napoleon" p;
   publish "cool shorts" "hello to who?" (subscriber_gc 0 p).2].

Example main_publications_ok :
  main_publications =
    [Some [(0, "calculus", "sqrt(2)")];
     Some [(1, "cool shorts", "hello to all"); (0, "cool shorts", "hello to all")];
     Some [(1, "history", "napoleon")];
     Some [(1, "cool shorts", "hello to who?")]].
Proof. vm_compute. reflexivity. Qed.

Lemma publish_reaches_subscribers_witness :
  rtc (orderly_step NoDup) sys_new main_subscribed ∧
  ∃ calls, publish "cool shorts" "hello to all" (sy_pub main_subscribed) = Some calls ∧
    calls ≡ₚ (λ x, (cn_client x, "cool shorts", "hello to all")) <$>
      filter (subscribed_to "cool shorts") (sy_conns main_subscribed).
Proof.
  assert (Hr : rtc (orderly_step NoDup) sys_new main_subscribed).
  { transitivity (connect 0 0 (sys_new (Addr:=nat) (Client:=nat)) ["calculus"; "cool shorts"]);
      (apply connect_steps; [done|by apply (bool_decide_unpack _)|by apply (bool_decide_unpack _)|by apply (bool_decide_unpack _)|done|done]). }
  split; [exact Hr|].
  exact (proj2 (proj2 (publish_reaches_subscribers main_subscribed "cool shorts" "hello to all" Hr))).
Defined.

(** A subscriber that named its topic twice leaves, while another is connected. *)
Definition twice_subscribed : Sys nat nat := connect 1 1 (connect 0 0 sys_new ["news"; "news"]) ["weather"].
Definition twice_collected : Sys nat nat :=
  MkSys (subscriber_gc 0 (sy_pub twice_subscribed)).2 (sy_manager twice_subscribed) (sy_conns twice_subscribed) (sy_publisher twice_subscribed).

Lemma duplicate_topic_poisons_witness : publish "weather" "rain" (sy_pub twice_collected) = None.
Proof.
  refine (proj1 (proj2 (duplicate_topic_poisons 0 0 "news" [] ["news"] (sy_pub twice_subscribed) eq_refl eq_refl _ _ _)
    (λ _, True) twice_collected twice_collected eq_refl (rtc_refl _ _)) "weather" "rain").
  - vm_compute. reflexivity.
  - by left.
  - vm_compute. reflexivity.
Defined.
End PubSub.
