(* ===== verification/Registry.v ===== *)
(** * The service registry (tarpc/examples/registry.rs)

    Several services behind one listener: a client names the service it wants on a framed
    connection, and the server acknowledges and serves it, or refuses and waits for
    another name.  The framed connection, bincode and what a runner does with a service are
    parameters; [await] is sequencing. *)
From S2P Require Import Prelude Wire.

Module Registry.

(** ** The framed connection and bincode

    [Framed<S, LengthDelimitedCodec>]: frames are read in order until the stream ends; a
    frame whose sending succeeds is sent after the earlier ones. *)
Class Framed (W IoError : Type) : Type := {
  fr_next : W → option (Result string IoError) * W;
  fr_send : string → W → Result unit IoError * W;
  broken_pipe : IoError;
}.

Class FramedLaws (W IoError : Type) `{Framed W IoError} : Type := {
  fr_inbox : W → list (Result string IoError);
  fr_outbox : W → list string;
  law_next w : (fr_next w).1 = head (fr_inbox w) ∧
    fr_inbox (fr_next w).2 = tail (fr_inbox w) ∧ fr_outbox (fr_next w).2 = fr_outbox w;
  law_send b w : fr_inbox (fr_send b w).2 = fr_inbox w ∧
    ((fr_send b w).1 = Ok tt → fr_outbox (fr_send b w).2 = fr_outbox w ++ [b]);
}.

(** [ServiceNotFound]. *)
Record ServiceNotFound := MkServiceNotFound { service_name : string }.

(** [bincode::serde], at the type of the upgrade response. *)
Class Bincode (EncodeError DecodeError : Type) : Type := {
  bin_encode : Result unit ServiceNotFound → Result string EncodeError;
  bin_decode : string → Result (Result unit ServiceNotFound) DecodeError;
}.

Class BincodeLaws (EncodeError DecodeError : Type) `{Bincode EncodeError DecodeError} : Prop := {
  law_bincode r b : bin_encode r = Ok b → bin_decode b = Ok r;
}.

(** ** The list of services *)

Section registry.
Context {Serv : Type}.

(** [NilService] and [MultiService]. *)
Inductive ServiceList :=
| NilService
| MultiService (name : string) (service : Serv) (other_services : ServiceList).

(** [NilService] as a [ServiceList]. *)
Definition nil_append_service (name : string) (service : Serv) : ServiceList := MultiService name service NilService.
Definition nil_concat (registry : ServiceList) : ServiceList := registry.

Fixpoint append_service (self : ServiceList) (name : string) (service : Serv) : ServiceList :=
  match self with
  | MultiService n s o => MultiService n s (append_service o name service)
  | NilService => nil_append_service name service
  end.

Fixpoint concat (self registry : ServiceList) : ServiceList :=
  match self with
  | MultiService n s o => MultiService n s (concat o registry)
  | NilService => nil_concat registry
  end.

(** [for_each] with a closure on the state [X]. *)
Fixpoint for_each {X} (self : ServiceList) (f : string → X → X) (x : X) : X :=
  match self with
  | MultiService n _ o => for_each o f (f n x)
  | NilService => x
  end.

(** [MultiService::new] and [push_back]. *)
Definition multi_service_new (name : string) (service : Serv) : ServiceList := MultiService name service NilService.
Definition push_back (name : string) (service : Serv) (name2 : string) (service2 : Serv) : ServiceList :=
  MultiService name service (MultiService name2 service2 NilService).

(** [ServiceNames::collect] and [list_services]. *)
Definition collect (registry : ServiceList) : list string := for_each registry (λ n names, names ++ [n]) [].
Definition list_services (names : list string) : list string := names.

(** [Service], [ServiceTuple::register] (tuples of one service and more) and the two
    [with_services]. *)
Record Service := MkService { name : string; service : Serv }.
Definition service_new (name : string) (service : Serv) : Service := MkService name service.

Fixpoint register (s0 : Service) (ss : list Service) (registry : ServiceList) : ServiceList :=
  match ss with
  | [] => append_service registry (name s0) (service s0)
  | s1 :: ss => register s1 ss (append_service registry (name s0) (service s0))
  end.

Definition with_services (registry : ServiceList) (s0 : Service) (ss : list Service) : ServiceList := register s0 ss registry.
Definition registry_with_services (s0 : Service) (ss : list Service) : ServiceList := register s0 ss NilService.

(** The services in order, with their names. *)
Fixpoint entries (l : ServiceList) : list (string * Serv) :=
  match l with NilService => [] | MultiService n s o => (n, s) :: entries o end.

Lemma entries_append l n s : entries (append_service l n s) = entries l ++ [(n, s)].
Proof. induction l as [|n' s' l IH]; simpl; [done|by rewrite IH]. Qed.

Lemma entries_concat l r : entries (concat l r) = entries l ++ entries r.
Proof. induction l as [|n' s' l IH]; simpl; [done|by rewrite IH]. Qed.

Lemma entries_register s0 ss l :
  entries (register s0 ss l) = entries l ++ ((λ s, (name s, service s)) <$> s0 :: ss).
Proof.
  revert s0 l. induction ss as [|s1 ss IH]; intros s0 l; cbn [register]; [apply entries_append|].
  rewrite IH, entries_append, <- (assoc_L (++)). done.
Qed.

Lemma for_each_foldl {X} l (f : string → X → X) x : for_each l f x = foldl (λ x n, f n x) x (entries l).*1.
Proof. revert x. induction l as [|n s l IH]; intros x; [done|]. simpl. by rewrite IH. Qed.

Lemma collect_entries l : collect l = (entries l).*1.
Proof.
  unfold collect. rewrite for_each_foldl. enough (∀ ns acc, foldl (λ x n, x ++ [n]) acc ns = acc ++ ns) as H by apply H.
  induction ns as [|n ns IH]; intros acc; simpl; [by rewrite (right_id_L [] (++))|]. by rewrite IH, <- (assoc_L (++)).
Qed.

(** The first service registered under a name. *)
Definition find_service (l : ServiceList) (n : string) : option Serv :=
  snd <$> head (filter (λ e, n = e.1) (entries l)).

Lemma find_service_cons n s l n' :
  find_service (MultiService n s l) n' = if bool_decide (n' = n) then Some s else find_service l n'.
Proof. unfold find_service. cbn [entries]. rewrite filter_cons. cbn [fst]. by case_decide; case_bool_decide. Qed.

Lemma find_service_append l n s n' :
  find_service (append_service l n s) n' =
    match find_service l n' with Some s' => Some s' | None => if bool_decide (n' = n) then Some s else None end.
Proof.
  unfold find_service. rewrite entries_append, filter_app. destruct (filter _ (entries l)); [|done].
  rewrite filter_cons, filter_nil. case_decide; case_bool_decide; done.
Qed.

(** The registry is in the order of registration, and discovery lists the names in it. *)
Lemma with_services_names l s0 ss :
  list_services (collect (with_services l s0 ss)) = collect l ++ (name <$> s0 :: ss).
Proof.
  unfold list_services, with_services. rewrite !collect_entries, entries_register, fmap_app, <- list_fmap_compose. done.
Qed.
End registry.
Arguments ServiceList Serv : clear implicits.
Arguments Service Serv : clear implicits.

(** ** The handshake *)

Section handshake.
Context {W IoError EncodeError DecodeError R Serv : Type}.
Context `{!Framed W IoError, !Bincode EncodeError DecodeError}.

(** [Run::run]: what a runner does with the connection and a service. *)
Context (run : R → Serv → M W unit).
(** [ServiceDiscovery::serve] of the generated code. *)
Context (serve_discovery : list string → Serv).

Inductive HandshakeError :=
| Upgrade (service_not_found : ServiceNotFound) (runner : R)
| EncodeResponse (e : EncodeError)
| Io (e : IoError).

Definition serialize (r : Result unit ServiceNotFound) : Result string EncodeError := bin_encode r.

Definition send_response (r : Result unit ServiceNotFound) : M W (Result unit HandshakeError) :=
  match serialize r with
  | Err e => mret (Err (EncodeResponse e))
  | Ok resp => λ w, let '(r, w) := fr_send resp w in Done (result_map_err Io r, w)
  end.

Fixpoint upgrade (self : ServiceList Serv) (sn : string) (run_fn : R) : M W (Result unit HandshakeError) :=
  match self with
  | NilService =>
      let service_not_found := MkServiceNotFound sn in
      r ← send_response (Err service_not_found);
      match r with
      | Err e => mret (Err e)
      | Ok _ => mret (Err (Upgrade service_not_found run_fn))
      end
  | MultiService n s o =>
      if bool_decide (sn = n) then
        r ← send_response (Ok tt);
        match r with
        | Err e => mret (Err e)
        | Ok _ => _ ← run run_fn s; mret (Ok tt)
        end
      else upgrade o sn run_fn
  end.

(** [MultiService::negotiate]; [fuel] bounds the turns of its loop. *)
Fixpoint negotiate_loop (fuel : nat) (reg : ServiceList Serv) (runner : R) : M W (Result unit HandshakeError) :=
  match fuel with
  | 0 => no_fuel
  | S fuel => λ w,
      match fr_next w with
      | (Some (Err e), w) => Done (Err (Io e), w)
      | (None, w) => Done (Err (Io broken_pipe), w)
      | (Some (Ok sn), w) =>
          (r ← upgrade reg sn runner;
           match r with
           | Err (Upgrade _ r) => negotiate_loop fuel reg r
           | Err e => mret (Err e)
           | Ok _ => mret (Ok tt)
           end) w
      end
  end.

Definition negotiate (fuel : nat) (self : ServiceList Serv) (discovery : string) (runner : R) : M W (Result unit HandshakeError) :=
  negotiate_loop fuel (append_service self discovery (serve_discovery (collect self))) runner.

(** The function [negotiate], the client's side. *)
Inductive NegotiateError :=
| Disconnect
| DecodeResponse (e : DecodeError)
| NIo (e : IoError)
| NServiceNotFound (e : ServiceNotFound).

Definition client_negotiate (sn : string) : M W (Result unit NegotiateError) := λ w,
  let '(r, w) := fr_send sn w in
  match r with
  | Err e => Done (Err (NIo e), w)
  | Ok _ =>
      let '(r, w) := fr_next w in
      match r with
      | Some (Err e) => Done (Err (NIo e), w)
      | Some (Ok resp) =>
          match bin_decode resp with
          | Err e => Done (Err (DecodeResponse e), w)
          | Ok response => Done (result_map_err NServiceNotFound response, w)
          end
      | None => Done (Err (NIo broken_pipe), w)
      end
  end.
End handshake.

(** ** Properties *)

Section props.
Context {W IoError EncodeError DecodeError R Serv : Type}.
Context `{!Framed W IoError, !FramedLaws W IoError, !Bincode EncodeError DecodeError, !BincodeLaws EncodeError DecodeError}.
Context (run : R → Serv → M W unit) (serve_discovery : list string → Serv).
Implicit Types (w : W) (reg : ServiceList Serv).

Abbreviation error := (HandshakeError (IoError:=IoError) (EncodeError:=EncodeError) (R:=R)).

(** The response a name is due. *)
Definition answer reg (n : string) : Result unit ServiceNotFound :=
  match find_service reg n with Some _ => Ok tt | None => Err (MkServiceNotFound n) end.

(** [b] is sent in [w], which becomes [w']. *)
Definition sends w (b : string) w' : Prop := fr_outbox w' = fr_outbox w ++ [b] ∧ fr_inbox w' = fr_inbox w.

(** The connection accepts what is sent, and responses can be encoded. *)
Class Reliable : Prop := {
  rel_send b w : (fr_send b w).1 = Ok tt;
  rel_encode r : is_ok (bin_encode r) = true;
}.

Lemma send_response_sends `{!Reliable} r w :
  ∃ b w', send_response (R:=R) r w = Done (Ok tt, w') ∧ sends w b w' ∧ bin_decode b = Ok r.
Proof.
  unfold send_response, serialize. pose proof (rel_encode r) as He. destruct (bin_encode r) as [b|] eqn:Hb; [|done].
  destruct (law_send b w) as [Hi Ho]. specialize (Ho (rel_send b w)). pose proof (rel_send b w) as Hs.
  destruct (fr_send b w) as [x w'] eqn:E. simpl in *. subst x. exists b, w'. split_and!; [done|done|by apply law_bincode].
Qed.

(** [upgrade] answers, and runs the first service of that name. *)
Lemma upgrade_spec `{!Reliable} reg n rf w :
  ∃ b w', sends w b w' ∧ bin_decode b = Ok (answer reg n) ∧
    upgrade run reg n rf w =
      match find_service reg n with
      | Some s => (_ ← run rf s; mret (Ok tt)) w'
      | None => Done (Err (Upgrade (MkServiceNotFound n) rf) : Result unit error, w')
      end.
Proof.
  induction reg as [|n' s o IH].
  - destruct (send_response_sends (Err (MkServiceNotFound n)) w) as (b & w' & Hs & Hw & Hd). exists b, w'.
    split_and!; [done|done|]. cbn. unfold mbind, M_bind. by rewrite Hs.
  - unfold answer in *. rewrite find_service_cons. cbn [upgrade]. case_bool_decide as Hn; [|exact IH].
    destruct (send_response_sends (Ok tt) w) as (b & w' & Hs & Hw & Hd). exists b, w'.
    split_and!; [done|done|]. unfold mbind at 1, M_bind at 1. rewrite Hs. done.
Qed.

(** The names refused before one is served or the input ends, and the input left then. *)
Fixpoint refused (reg : ServiceList Serv) (inbox : list (Result string IoError)) : list string * list (Result string IoError) :=
  match inbox with
  | Ok n :: rest =>
      match find_service reg n with
      | Some _ => ([], inbox)
      | None => let '(ks, r) := refused reg rest in (n :: ks, r)
      end
  | _ => ([], inbox)
  end.

(** The frames sent between [w] and [w'] decode to [rs]. *)
Definition responded w (rs : list (Result unit ServiceNotFound)) w' : Prop :=
  ∃ bs, fr_outbox w' = fr_outbox w ++ bs ∧ Forall2 (λ b r, bin_decode b = Ok r) bs rs.

Lemma responded_cons w b w1 r rs w' :
  fr_outbox w1 = fr_outbox w ++ [b] → bin_decode b = Ok r → responded w1 rs w' → responded w (r :: rs) w'.
Proof.
  intros Hb Hd (bs & Ho & Hbs). exists (b :: bs). split; [by rewrite Ho, Hb, <- (assoc_L (++))|by constructor].
Qed.

(** What the loop comes to on the input [inbox], of which [rest] is left. *)
Definition negotiated reg (runner : R) w (ks : list string) (rest : list (Result string IoError))
    (e : Exec (Result unit error * W)) : Prop :=
  let nacks := (λ k, Err (MkServiceNotFound k)) <$> ks in
  match rest with
  | Ok n :: rest => ∃ s w', find_service reg n = Some s ∧ responded w (nacks ++ [Ok tt]) w' ∧ fr_inbox w' = rest ∧
      e = (_ ← run runner s; mret (Ok tt)) w'
  | Err er :: rest => ∃ w', responded w nacks w' ∧ fr_inbox w' = rest ∧ e = Done (Err (Io er), w')
  | [] => ∃ w', responded w nacks w' ∧ e = Done (Err (Io broken_pipe), w')
  end.

Lemma negotiate_loop_spec `{!Reliable} fuel reg runner w :
  length (refused reg (fr_inbox w)).1 < fuel →
  negotiated reg runner w (refused reg (fr_inbox w)).1 (refused reg (fr_inbox w)).2
    (negotiate_loop run fuel reg runner w).
Proof.
  revert w. induction fuel as [|fuel IH]; intros w Hf; [lia|]. cbn [negotiate_loop].
  destruct (law_next w) as (Hn & Hi & Ho). destruct (fr_next w) as [x w1] eqn:Ew. cbn [fst snd] in Hn, Hi, Ho. subst x.
  assert (Hnil : responded w [] w1) by (exists []; rewrite (right_id_L [] (++)); split; [done|constructor]).
  destruct (fr_inbox w) as [|[n|e] rest] eqn:Hin; cbn [head tail refused] in *; [by exists w1|..|by exists w1].
  destruct (upgrade_spec reg n runner w1) as (b & w2 & [Ho2 Hi2] & Hd & Hu). unfold mbind, M_bind. rewrite Hu.
  rewrite Ho in Ho2. rewrite Hi in Hi2. unfold answer in Hd. destruct (find_service reg n) as [s|] eqn:Hs.
  - exists s, w2. split_and!; [done| |done|]; [|by unfold mbind, M_bind; destruct (run runner s w2) as [[]| |]].
    exists [b]. split; [done|by constructor].
  - rewrite <- Hi2 in Hf |- *. specialize (IH w2). destruct (refused reg (fr_inbox w2)) as [ks r]. cbn [fst snd length] in *.
    assert (Hlt : length ks < fuel) by lia. specialize (IH Hlt). unfold negotiated in IH |- *. cbn [fmap list_fmap].
    destruct r as [|[n'|e] r].
    + destruct IH as (w' & Hr & ?). exists w'. split; [by eapply responded_cons|done].
    + destruct IH as (s' & w' & ? & Hr & ?). exists s', w'. split_and!; [done|by eapply responded_cons|naive_solver..].
    + destruct IH as (w' & Hr & ?). exists w'. split; [by eapply responded_cons|done].
Qed.

(** C40: on a connection that accepts what is sent, the server's negotiation refuses, in
    order, each name that is neither registered nor the discovery's and goes on waiting;
    it acknowledges the first other name and runs the first service registered under it
    (the discovery service, with the names registered, after all of them) on the frames
    that follow; and it fails with the stream's error, or a broken pipe, when none comes.
    A turn of the loop for each refused name and one more are enough. *)
Theorem negotiate_serves_first_known `{!Reliable} fuel (self : ServiceList Serv) (discovery : string) (runner : R) w :
  let reg := append_service self discovery (serve_discovery (entries self).*1) in
  length (refused reg (fr_inbox w)).1 < fuel →
  negotiated reg runner w (refused reg (fr_inbox w)).1 (refused reg (fr_inbox w)).2
    (negotiate run serve_discovery fuel self discovery runner w).
Proof. intros reg Hf. unfold negotiate. rewrite collect_entries. by apply negotiate_loop_spec. Qed.

(** Client and server agree on the outcome of a negotiation: whatever name the client
    sends, the server answers with one frame, and the client that receives it succeeds
    when the server runs the service and otherwise fails with the name it asked for. *)
Theorem negotiation_agrees `{!Reliable} reg (n : string) (rf : R) ws :
  ∃ b ws', sends ws b ws' ∧
    upgrade run reg n rf ws =
      match find_service reg n with
      | Some s => (_ ← run rf s; mret (Ok tt)) ws'
      | None => Done (Err (Upgrade (MkServiceNotFound n) rf) : Result unit error, ws')
      end ∧
    ∀ wc rest, fr_inbox wc = Ok b :: rest →
      ∃ wc', client_negotiate n wc = Done (result_map_err NServiceNotFound (answer reg n), wc') ∧
        fr_inbox wc' = rest ∧ fr_outbox wc' = fr_outbox wc ++ [n].
Proof.
  destruct (upgrade_spec reg n rf ws) as (b & ws' & Hs & Hd & Hu). exists b, ws'. split_and!; [done|done|].
  intros wc rest Hin. unfold client_negotiate. destruct (law_send n wc) as [Hi Ho]. specialize (Ho (rel_send n wc)).
  pose proof (rel_send n wc) as Hr. destruct (fr_send n wc) as [x w1]. cbn [fst snd] in *. subst x.
  destruct (law_next w1) as (Hn & Hi1 & Ho1). destruct (fr_next w1) as [y w2]. cbn [fst snd] in *.
  rewrite Hi, Hin in Hn, Hi1. cbn in Hn. subst y. rewrite Hd. exists w2. split_and!; [done|done|by rewrite Ho1].
Qed.
End props.

(** ** The services of [main] *)

(** [x + y] and [x - y] at [i32], which panic on overflow in a debug build. *)
Definition i32_checked (x : Z) : Exec Z :=
  if bool_decide (- 2 ^ 31 ≤ x < 2 ^ 31)%Z then Done x else Panicked Unexpected.

Definition hello (name : string) : string := "Hello, " +:+ name.
Definition goodbye (name : string) : string := "Goodbye, " +:+ name.
Definition add (x y : Z) : Exec Z := i32_checked (x + y).
Definition subtract (x y : Z) : Exec Z := i32_checked (x - y).

Inductive MainService :=
| HelloServer
| GoodbyeServer
| AddServer
| SubtractServer
| Discovery (names : list string).

Definition main_registry : ServiceList MainService :=
  let registry := registry_with_services (MkService "Hello" HelloServer) [MkService "Goodbye" GoodbyeServer] in
  with_services registry (MkService "Add" AddServer) [MkService "Subtract" SubtractServer].

(** ** Instances of the parameters: a connection that reads a script and records what is
    sent, and an encoding *)

#[export] Instance script : Framed (list (Result string unit) * list string) unit := {|
  fr_next w := (head w.1, (tail w.1, w.2));
  fr_send b w := (Ok tt, (w.1, w.2 ++ [b]));
  broken_pipe := tt;
|}.

#[export] Instance script_laws : FramedLaws (list (Result string unit) * list string) unit.
Proof. by refine {| fr_inbox := fst; fr_outbox := snd |}. Defined.

#[export] Instance script_bincode : Bincode Empty_set unit := {|
  bin_encode r := Ok match r with Ok _ => "" | Err e => "!" +:+ service_name e end;
  bin_decode b := match b with "" => Ok (Ok tt) | String _ n => Ok (Err (MkServiceNotFound n)) end;
|}.

#[export] Instance script_bincode_laws : BincodeLaws Empty_set unit.
Proof. constructor. by intros [[]|[n]] b [= <-]. Qed.

#[export] Instance script_reliable : Reliable (W:=list (Result string unit) * list string) (IoError:=unit)
  (EncodeError:=Empty_set) (DecodeError:=unit).
Proof. by constructor. Qed.

(** The run of [main] after the refused name: the service runs on what follows. *)
Definition main_world : list (Result string unit) * list string := ([Ok "Goodness me"; Ok "Hello"; Ok "request"], []).
Definition main_run (_ : unit) (_ : MainService) : M (list (Result string unit) * list string) unit := mret tt.

Example main_negotiates :
  list_services (collect main_registry) = ["Hello"; "Goodbye"; "Add"; "Subtract"] ∧
  negotiate main_run Discovery 2 main_registry "discovery" tt main_world =
    Done (Ok tt, ([Ok "request"], ["!Goodness me"; ""])) ∧
  client_negotiate "Goodness me" ([Ok "!Goodness me"], []) =
    Done (Err (NServiceNotFound (MkServiceNotFound "Goodness me")), ([], ["Goodness me"])).
Proof. split_and!; vm_compute; reflexivity. Qed.

Lemma negotiate_serves_first_known_witness :
  negotiated main_run (append_service main_registry "discovery" (Discovery ["Hello"; "Goodbye"; "Add"; "Subtract"]))
    tt main_world ["Goodness me"] [Ok "Hello"; Ok "request"]
    (negotiate main_run Discovery 2 main_registry "discovery" tt main_world).
Proof.
  refine (negotiate_serves_first_known main_run Discovery 2 main_registry "discovery" tt main_world _).
  by apply (bool_decide_unpack _).
Defined.

Lemma negotiation_agrees_witness :
  ∃ b ws', sends main_world b ws' ∧
    upgrade main_run main_registry "Goodness me" tt main_world =
      Done (Err (Upgrade (MkServiceNotFound "Goodness me") tt), ws') ∧
    ∀ wc rest, fr_inbox wc = Ok b :: rest →
      ∃ wc', client_negotiate "Goodness me" wc = Done (Err (NServiceNotFound (MkServiceNotFound "Goodness me")), wc') ∧
        fr_inbox wc' = rest ∧ fr_outbox wc' = fr_outbox wc ++ ["Goodness me"].
Proof. exact (negotiation_agrees main_run main_registry "Goodness me" tt main_world). Defined.
End Registry.
