(* ===== verification/Examples.v ===== *)
(** * Example programs (tarpc/examples, example-service)

    The services of the examples are put through the macro's model ([Codegen]) and the
    clients through the stubs', so that an example's calls run the code it is made of.
    Connections over sockets are taken to work: a client of a connection is a stub that
    has its request served at the other end ([Stubs.serve_stub]). *)
From S2P Require Import Prelude Interfaces RefModels Trace Wire ClientInFlight ClientDispatch Hooks Stubs Plugins Codegen Registry.

(** ** A service made of stubs: tarpc/examples/tracing.rs *)

Module Tracing.
Export Codegen.
Local Open Scope string_scope.

Definition no_cfg (_ : Attribute) : bool := true.
Definition doc (s : string) : Attribute := MkAttribute Outer false (Some "doc") s.
Definition items_of (sv : Service string) : list (Item string) :=
  match service true "()" (Ok derive_meta_default) (Ok sv) with Done (Ok items) => items | _ => [] end.

Definition add_trait : Service string :=
  MkService [] "pub" (MkIdent false "Add")
    [MkRpcMethod [doc "Add two ints together."] (MkIdent false "add")
       [MkPatType (plain (MkIdent false "x")) "i32"; MkPatType (plain (MkIdent false "y")) "i32"] (Some "i32")].
Definition double_trait : Service string :=
  MkService [] "pub" (MkIdent false "Double")
    [MkRpcMethod [doc "2 * x"] (MkIdent false "double") [MkPatType (plain (MkIdent false "x")) "i32"] (Some "Result<i32, String>")].

(** The values of [Double]'s methods. *)
Inductive DoubleValue := I32 (x : Z) | Outcome (r : Result Z string).

Section tracing.
(** [RpcError::to_string], and what [context::current] returns in a handler. *)
Context {Dyn : Type} (error_to_string : RpcError.t Dyn → string) (current : Context).

Abbreviation AddRequest := (Request Z).
Abbreviation AddResponse := (Response Z).

(** [AddServer]: [x + y] panics on overflow. *)
Definition AddServer : Implementation Z bool := λ _ _ args,
  match args with
  | [x; y] => lift_exec (Registry.add x y)
  | _ => panic
  end.

(** The hook: the state is [something_bad_happened]. *)
Definition gamma_ray : ServerError := server_error_new NotFound "Gamma Ray!".
Definition bad_hook : Hooks.BeforeRequest bool AddRequest := λ ctx _ something_bad_happened,
  Done ((if something_bad_happened then Err gamma_ray else Ok tt, ctx), xorb something_bad_happened true).

Definition add_server : Hooks.Serve bool AddRequest AddResponse :=
  Hooks.list_serving (Hooks.list_then Hooks.before bad_hook) (run_serve (Dyn:=Dyn) no_cfg (items_of add_trait) AddServer).

(** [make_stub], with the clients of its backends. *)
Definition should_retry {Resp} (resp : Result Resp (RpcError.t Dyn)) (attempts : Z) : bool :=
  match resp with Err _ => (attempts <? 3)%Z | Ok _ => false end.
Definition make_stub {W Req Resp} (backends : list (Stubs.Stub Resp Dyn W Req))
    : Stubs.Retry (Stubs.Cycle (Stubs.Stub Resp Dyn W Req) * W) Req Resp Dyn * Stubs.Cycle (Stubs.Stub Resp Dyn W Req) :=
  (Stubs.retry_new Stubs.round_robin_call should_retry, Stubs.round_robin_new backends).

(** The world of the double server: the stub's cycle and the add server's state. *)
Abbreviation World := (Stubs.Cycle (Stubs.Stub AddResponse Dyn bool AddRequest) * bool)%type.

(** [bound] limits the attempts. *)
Context (bound : nat).

(** [DoubleServer]. *)
Definition DoubleServer (add_client : Stubs.Retry World AddRequest AddResponse Dyn) : Implementation DoubleValue World := λ _ _ args,
  match args with
  | [I32 x] =>
      r ← run_client no_cfg (items_of add_trait) (Stubs.retry_call add_client bound) "add" current [x; x];
      mret (Outcome (result_map_err error_to_string r))
  | _ => panic
  end.

(** The backends of [main]. *)
Definition backend : Stubs.Stub AddResponse Dyn bool AddRequest := Stubs.serve_stub add_server.
Definition main_stub := make_stub [backend; backend].

(** [double_client.double(ctx, x)]. *)
Definition double (ctx : Context) (x : Z) : M World (Result DoubleValue (RpcError.t Dyn)) :=
  run_client no_cfg (items_of double_trait)
    (Stubs.serve_stub (run_serve (Dyn:=Dyn) no_cfg (items_of double_trait) (DoubleServer main_stub.1))) "double" ctx [I32 x].

(** [main]: five calls, one after another. *)
Fixpoint repeat_double (n : nat) (ctx : Context) : M World (list (Result DoubleValue (RpcError.t Dyn))) :=
  match n with
  | 0 => mret []
  | S n => r ← double ctx 1; rs ← repeat_double n ctx; mret (r :: rs)
  end.
Definition main (ctx : Context) : Exec (list (Result DoubleValue (RpcError.t Dyn)) * World) :=
  repeat_double 5 ctx (main_stub.2, false).

(** *** One attempt *)

Definition add_rpc : RpcMethod string :=
  MkRpcMethod [doc "Add two ints together."] (MkIdent false "add")
    [MkPatType (plain (MkIdent false "x")) "i32"; MkPatType (plain (MkIdent false "y")) "i32"] (Some "i32").
Definition double_rpc : RpcMethod string :=
  MkRpcMethod [doc "2 * x"] (MkIdent false "double") [MkPatType (plain (MkIdent false "x")) "i32"] (Some "Result<i32, String>").

Lemma add_items : service true "()" (Ok derive_meta_default) (Ok add_trait) = Done (Ok (items_of add_trait)).
Proof. vm_compute. reflexivity. Qed.
Lemma add_accepted : accepted no_cfg (items_of add_trait) = true.
Proof. vm_compute. reflexivity. Qed.
Lemma double_items : service true "()" (Ok derive_meta_default) (Ok double_trait) = Done (Ok (items_of double_trait)).
Proof. vm_compute. reflexivity. Qed.
Lemma double_accepted : accepted no_cfg (items_of double_trait) = true.
Proof. vm_compute. reflexivity. Qed.
Lemma add_in : add_rpc ∈ sv_rpcs add_trait.
Proof. by left. Qed.
Lemma double_in : double_rpc ∈ sv_rpcs double_trait.
Proof. by left. Qed.

Lemma add_server_spec ctx x y bad :
  add_server ctx (call_request add_rpc [x; y]) bad =
    if bad then Done (Err gamma_ray, false)
    else match Registry.add x y with
         | Done v => Done (Ok (MkResponse (camel add_rpc) v), true)
         | Panicked p => Panicked p
         | OutOfFuel => OutOfFuel
         end.
Proof.
  assert (E : add_server ctx (call_request add_rpc [x; y]) bad =
    if bad then Done (Err gamma_ray, false)
    else run_serve (Dyn:=Dyn) no_cfg (items_of add_trait) AddServer ctx (call_request add_rpc [x; y]) true) by by destruct bad.
  rewrite E. destruct bad; [done|].
  rewrite (run_serve_spec true "()" derive_meta_default add_trait no_cfg (items_of add_trait) add_items add_accepted add_rpc
    add_in eq_refl [x; y] eq_refl). simpl. unfold lift_exec. by destruct (Registry.add x y).
Qed.

(** A call of a backend through the cycle, wherever the counter is. *)
Definition cycle_of (n : nat) (c : Stubs.Cycle (Stubs.Stub AddResponse Dyn bool AddRequest)) : Prop :=
  Stubs.cycle_wf c ∧ Stubs.elements c = repeat backend n.
Definition advance (k : Z) (c : Stubs.Cycle (Stubs.Stub AddResponse Dyn bool AddRequest)) :=
  Stubs.MkCycle (Stubs.elements c) ((Stubs.next_index c + k) mod u64_modulus)%Z.

Lemma round_robin_backend n c bad ctx req :
  cycle_of n c →
  Stubs.round_robin_call ctx req (c, bad) =
    match backend ctx req bad with
    | Done (r, bad') => Done (r, (advance 1 c, bad'))
    | Panicked p => Panicked p
    | OutOfFuel => OutOfFuel
    end.
Proof.
  intros [Hw He]. destruct (Stubs.cycle_next_done c Hw) as (x & Hx & E). unfold Stubs.round_robin_call. rewrite E.
  rewrite He in Hx. apply list_elem_of_lookup_2, list_elem_of_In, repeat_spec in Hx as ->. done.
Qed.

Lemma advance_cycle_of n k c : cycle_of n c → (0 ≤ k)%Z → cycle_of n (advance k c).
Proof. intros [[Hne Hi] He] Hk. split; [|done]. split; [done|]. simpl. by apply Z.mod_pos_bound. Qed.

Lemma advance_advance k j c : advance j (advance k c) = advance (k + j) c.
Proof. unfold advance. simpl. rewrite Zplus_mod_idemp_l. do 2 f_equal. lia. Qed.

(** The add server refuses every second request; one more attempt is always enough. *)
Lemma add_succeeds n c bad x y v :
  cycle_of n c → Registry.add x y = Done v → (2 ≤ bound)%nat →
  Stubs.retry_call main_stub.1 bound current (call_request add_rpc [x; y]) (c, bad) =
    Done (Ok (MkResponse (camel add_rpc) v), (advance (if bad then 2 else 1) c, true)).
Proof.
  intros Hc Hv Hb.
  assert (Hlast : ∀ c' i, cycle_of n c' → Stubs.attempts should_retry Stubs.round_robin_call current (call_request add_rpc [x; y])
    1 i (c', false) (Ok (MkResponse (camel add_rpc) v)) (advance 1 c', true)).
  { intros c' i Hc'. apply Stubs.attempt_last; [|done]. rewrite (round_robin_backend n) by done.
    unfold backend, Stubs.serve_stub. cbv [mbind M_bind]. rewrite add_server_spec, Hv. done. }
  destruct bad.
  - apply (Stubs.retry_loop_attempts should_retry Stubs.round_robin_call current (call_request add_rpc [x; y]) 2%nat); [|lia|by vm_compute].
    eapply Stubs.attempt_again.
    + rewrite (round_robin_backend n) by done. unfold backend, Stubs.serve_stub. cbv [mbind M_bind].
      rewrite add_server_spec. reflexivity.
    + done.
    + replace (advance 2 c) with (advance 1 (advance 1 c)) by apply advance_advance. apply Hlast. by apply advance_cycle_of.
  - apply (Stubs.retry_loop_attempts should_retry Stubs.round_robin_call current (call_request add_rpc [x; y]) 1%nat); [by apply Hlast|lia|by vm_compute].
Qed.

Lemma add_client_succeeds n c bad x y v :
  cycle_of n c → Registry.add x y = Done v → (2 ≤ bound)%nat →
  run_client no_cfg (items_of add_trait) (Stubs.retry_call main_stub.1 bound) "add" current [x; y] (c, bad) =
    Done (Ok v, (advance (if bad then 2 else 1) c, true)).
Proof.
  intros Hc Hv Hb. change "add" with (name add_rpc).
  rewrite (run_client_spec true "()" derive_meta_default add_trait no_cfg (items_of add_trait) add_items add_accepted add_rpc
    add_in eq_refl [x; y] eq_refl).
  rewrite (add_succeeds n c bad x y v) by done. reflexivity.
Qed.

(** The example's services fit together.  The add server refuses every second request
    it gets, from whichever connection; yet every call of the double service returns
    twice its argument, if that is an [i32]: the retries on top of the round robin over
    any number of connections need at most two attempts, wherever the counter and the
    server stand. *)
Theorem double_always_succeeds n c bad ctx x :
  cycle_of n c → (- 2 ^ 31 ≤ x + x < 2 ^ 31)%Z → (2 ≤ bound)%nat →
  double ctx x (c, bad) = Done (Ok (Outcome (Ok (x + x)%Z)), (advance (if bad then 2 else 1) c, true)).
Proof.
  intros Hc Hx Hb. unfold double. change "double" with (name double_rpc).
  rewrite (run_client_spec true "()" derive_meta_default double_trait no_cfg (items_of double_trait) double_items double_accepted
    double_rpc double_in eq_refl [I32 x] eq_refl).
  unfold Stubs.serve_stub. cbv [mbind M_bind mret M_ret].
  rewrite (run_serve_spec true "()" derive_meta_default double_trait no_cfg (items_of double_trait) double_items double_accepted
    double_rpc double_in eq_refl [I32 x] eq_refl).
  unfold DoubleServer. cbv [mbind M_bind mret M_ret].
  rewrite (add_client_succeeds n c bad x x (x + x)%Z); [|done| |done].
  - reflexivity.
  - unfold Registry.add, Registry.i32_checked. by rewrite bool_decide_eq_true_2.
Qed.

(** Whatever its backends do, a stub of [make_stub] makes at most three attempts: it returns
    the first success, or the error of the third. *)
Theorem make_stub_gives_up {W Req Resp} (backends : list (Stubs.Stub Resp Dyn W Req)) ctx req w r w' fuel :
  Stubs.retry_call (make_stub backends).1 fuel ctx req w = Done (r, w') →
  ∃ k, Stubs.attempts should_retry Stubs.round_robin_call ctx req k 1 w r w' ∧ (k ≤ 3)%nat ∧ (is_ok r = true ∨ k = 3%nat).
Proof.
  intros (k & _ & Ha)%Stubs.retry_loop_sound. exists k. split; [done|].
  assert (Hk : ∀ k i (w : Stubs.Cycle (Stubs.Stub Resp Dyn W Req) * W) (r : Result Resp (RpcError.t Dyn)) w',
    Stubs.attempts should_retry Stubs.round_robin_call ctx req k i w r w' →
    (i ≤ 3)%Z → (Z.of_nat k + i ≤ 4)%Z ∧ (is_ok r = true ∨ (Z.of_nat k + i = 4)%Z)); [|destruct (Hk _ _ _ _ _ Ha) as [? [?|?]]; [lia|split; [lia|by left]|split; [lia|right; lia]]].
  clear. induction 1 as [i w r w' Hs Hr|k i w r w' r' w'' Hs Hr Ha IH]; intros Hi; destruct r as [v|e]; simpl in Hr; try done.
  - split; [lia|by left].
  - apply Z.ltb_ge in Hr. split; [lia|right; lia].
  - apply Z.ltb_lt in Hr. destruct IH as [Hk [?|?]]; [lia|split; [lia|by left]|split; [lia|right; lia]].
Qed.
End tracing.

Definition demo_string (_ : RpcError.t unit) : string := "error".
Definition demo_ctx : Context := MkContext 10 trace_context_default.

(** [main]: every call succeeds, in nine attempts altogether. *)
Example main_succeeds :
  match main demo_string demo_ctx 3 demo_ctx with
  | Done (rs, (c, _)) => rs = repeat (Ok (Outcome (Ok 2%Z))) 5 ∧ Stubs.next_index c = 9%Z
  | _ => False
  end.
Proof. vm_compute. split; reflexivity. Qed.

Lemma double_always_succeeds_witness :
  double demo_string demo_ctx 3 demo_ctx 21 (main_stub.2, true) = Done (Ok (Outcome (Ok 42%Z)), (advance 2 main_stub.2, true)).
Proof.
  refine (double_always_succeeds demo_string demo_ctx 3 2 main_stub.2 true demo_ctx 21 _ _ _).
  - split; [|reflexivity]. split; [discriminate|]. vm_compute. split; [discriminate|reflexivity].
  - vm_compute. split; [discriminate|reflexivity].
  - lia.
Defined.

End Tracing.

(** ** Compressed messages: tarpc/examples/compression.rs *)

Module Compression.
Local Open Scope string_scope.

Inductive CompressionAlgorithm := Deflate.

Inductive CompressedMessage (T : Type) :=
| Uncompressed (message : T)
| Compressed (algorithm : CompressionAlgorithm) (payload : list Z).
Arguments Uncompressed {T} _.
Arguments Compressed {T} _ _.

#[export] Instance algorithm_eq_dec : EqDecision CompressionAlgorithm.
Proof. solve_decision. Defined.

Definition algorithm_debug (a : CompressionAlgorithm) : string := match a with Deflate => "Deflate" end.

(** bincode and flate2.  [encode_to_vec] and [decode_from_slice] may fail;
    [DeflateEncoder] over a [Vec] fails only in [finish], [DeflateDecoder] in
    [read_to_end]. *)
Class Codec (T EncodeError DecodeError IoError : Type) : Type := {
  encode_to_vec : T → Result (list Z) EncodeError;
  decode_from_slice : list Z → Result (T * nat) DecodeError;
  deflate : list Z → Result (list Z) IoError;
  inflate : list Z → Result (list Z) IoError;
  (** [io::Error::other] *)
  other_encode : EncodeError → IoError;
  other_decode : DecodeError → IoError;
  (** [io::Error::new] *)
  io_error_new : ErrorKind → string → IoError;
}.

(** What was encoded decodes, what was deflated inflates. *)
Class CodecLaws (T EncodeError DecodeError IoError : Type) `{Codec T EncodeError DecodeError IoError} : Prop := {
  law_decode t b : encode_to_vec t = Ok b → ∃ n, decode_from_slice b = Ok (t, n);
  law_inflate b c : deflate b = Ok c → inflate c = Ok b;
}.

Section compression.
Context {T EncodeError DecodeError IoError : Type} `{!Codec T EncodeError DecodeError IoError}.

Definition serialize (t : T) : Result (list Z) IoError := result_map_err other_encode (encode_to_vec t).

Definition deserialize (message : list Z) : Result T IoError :=
  match decode_from_slice message with Ok (d, _) => Ok d | Err e => Err (other_decode e) end.

Definition compress (message : T) : Result (CompressedMessage T) IoError :=
  match serialize message with
  | Err e => Err e
  | Ok message =>
      match deflate message with
      | Err e => Err e
      | Ok compressed => Ok (Compressed Deflate compressed)
      end
  end.

Definition decompress (message : CompressedMessage T) : Result T IoError :=
  match message with
  | Compressed algorithm payload =>
      if negb (bool_decide (algorithm = Deflate))
      then Err (io_error_new InvalidData ("Compression algorithm " ++ algorithm_debug algorithm ++ " not supported"))
      else
        match inflate payload with
        | Err e => Err e
        | Ok payload => deserialize payload
        end
  | Uncompressed message => Ok message
  end.
End compression.

(** [add_compression], item by item: what the inner sink gets for what is sent
    ([with(compress)]: the first error stops), and what is received for what the inner
    stream yields ([and_then(decompress)]: errors are items). *)
Fixpoint with_compress {Out E1 E2 IoError} `{!Codec Out E1 E2 IoError} (items : list Out)
    : list (CompressedMessage Out) * Result unit IoError :=
  match items with
  | [] => ([], Ok tt)
  | x :: items =>
      match compress x with
      | Err e => ([], Err e)
      | Ok m => let '(ms, r) := with_compress items in (m :: ms, r)
      end
  end.
Definition and_then_decompress {In E1 E2 IoError} `{!Codec In E1 E2 IoError}
    (items : list (Result (CompressedMessage In) IoError)) : list (Result In IoError) :=
  map (λ r, match r with Ok m => decompress m | Err e => Err e end) items.

Section theorems.
Context {T E1 E2 IoError : Type} `{!Codec T E1 E2 IoError, !CodecLaws T E1 E2 IoError}.

Lemma decompress_compress (x : T) m : compress x = Ok m → decompress m = Ok x.
Proof.
  unfold compress, serialize. destruct (encode_to_vec x) as [b|e] eqn:He; simpl; [|done].
  destruct (deflate b) as [c|e] eqn:Hd; [|done]. intros [= <-]. simpl.
  rewrite (law_inflate _ _ Hd). unfold deserialize. by destruct (law_decode _ _ He) as [n ->].
Qed.

(** Compression is invisible: over a connection that delivers what it accepted, the
    other end receives exactly the messages sent, in order, up to the first that cannot be
    encoded or compressed; messages of a peer that does not compress pass unchanged, and
    read errors are passed on. *)
Theorem compression_transparent (items : list T) ms r :
  with_compress items = (ms, r) →
  and_then_decompress (map Ok ms) = map Ok (take (length ms) items) ∧
  (r = Ok tt → length ms = length items) ∧
  (∀ e, r = Err e → ∃ x, items !! length ms = Some x ∧ compress x = Err e) ∧
  and_then_decompress (map (λ x, Ok (Uncompressed x)) items) = map Ok items.
Proof.
  intros Hc. split; [|split; [|split]].
  - revert ms r Hc. induction items as [|x items IH]; simpl; intros ms r; [by intros [= <- <-]|].
    destruct (compress x) as [m|e] eqn:Hm; [|by intros [= <- <-]].
    destruct (with_compress items) as [ms' r'] eqn:E. intros [= <- <-]. simpl.
    rewrite (decompress_compress _ _ Hm). f_equal. by apply (IH ms' r').
  - revert ms r Hc. induction items as [|x items IH]; simpl; intros ms r; [by intros [= <- <-]|].
    destruct (compress x) as [m|e] eqn:Hm; [|by intros [= <- <-]].
    destruct (with_compress items) as [ms' r'] eqn:E. intros [= <- <-] Hr. simpl. f_equal. by apply (IH ms' r').
  - revert ms r Hc. induction items as [|x items IH]; simpl; intros ms r; [by intros [= <- <-]|].
    destruct (compress x) as [m|e] eqn:Hm; [|intros [= <- <-] e' [= <-]; by exists x].
    destruct (with_compress items) as [ms' r'] eqn:E. intros [= <- <-] e Hr. simpl. by apply (IH ms' r').
  - unfold and_then_decompress. by rewrite map_map.
Qed.
End theorems.

(** A codec: numbers below 256 are one byte, and deflating reverses. *)
#[local] Instance demo_codec : Codec Z unit unit unit := {|
  encode_to_vec x := if bool_decide (0 ≤ x < 256)%Z then Ok [x; 0%Z] else Err tt;
  decode_from_slice b := match b with x :: _ => Ok (x, 1%nat) | [] => Err tt end;
  deflate b := Ok (reverse b);
  inflate b := Ok (reverse b);
  other_encode e := e;
  other_decode e := e;
  io_error_new _ _ := tt;
|}.
#[local] Instance demo_codec_laws : CodecLaws Z unit unit unit.
Proof.
  split; simpl.
  - intros t b. case_bool_decide; [|done]. intros [= <-]. by exists 1%nat.
  - intros b c [= <-]. by rewrite reverse_involutive.
Qed.

Lemma compression_transparent_witness :
  and_then_decompress (map Ok [Compressed Deflate [0; 7]%Z; Compressed Deflate [0; 9]%Z]) = [Ok 7%Z; Ok 9%Z].
Proof.
  exact (proj1 (compression_transparent [7; 9; 300]%Z [Compressed Deflate [0; 7]%Z; Compressed Deflate [0; 9]%Z] (Err tt) eq_refl)).
Defined.
End Compression.

(** ** Greetings: readme.rs, compression.rs, example-service, and custom_transport.rs *)

Module Greetings.
Import Tracing.
Local Open Scope string_scope.

(** The trait [World], the same in three programs, and [PingService]. *)
Definition world_trait : Service string :=
  MkService [] "pub" (MkIdent false "World")
    [MkRpcMethod [] (MkIdent false "hello") [MkPatType (plain (MkIdent false "name")) "String"] (Some "String")].
Definition ping_trait : Service string :=
  MkService [] "pub" (MkIdent false "PingService") [MkRpcMethod [] (MkIdent false "ping") [] None].

(** [HelloServer] of readme.rs and of compression.rs. *)
Definition readme_hello : Implementation string unit := λ _ _ args,
  match args with [name] => mret ("Hello, " ++ name ++ "!") | _ => panic end.
Definition compression_hello : Implementation string unit := λ _ _ args,
  match args with [name] => mret ("Hey, " ++ name ++ "!") | _ => panic end.

(** [HelloServer] of example-service: the world is the time spent asleep, in milliseconds,
    and the random numbers to come, each between 1 and 10. *)
Definition service_hello (peer_addr : string) : Implementation string (Z * list Z) := λ _ _ args '(slept, rng),
  match args, rng with
  | [name], sleep_time :: rng =>
      Done ("Hello, " ++ name ++ "! You are connected from " ++ peer_addr, ((slept + sleep_time)%Z, rng))
  | _, _ => Panicked Unexpected
  end.

Definition ping : Implementation unit unit := λ _ _ args, match args with [] => mret tt | _ => panic end.

(** A call of a method of a generated client, served by an implementation. *)
Definition call {V W} (sv : Service string) (imp : Implementation V W) (method : string) (ctx : Context) (args : list V)
    : M W (Result V (RpcError.t unit)) :=
  run_client no_cfg (items_of sv) (Stubs.serve_stub (run_serve (Dyn:=unit) no_cfg (items_of sv) imp)) method ctx args.

(** The client of example-service sends two greetings and takes the answer that comes
    first ([first]); the other call is dropped. *)
Definition two_hellos (peer_addr name : string) (first : bool) (ctx : Context) : M (Z * list Z) (Result string (RpcError.t unit)) :=
  call world_trait (service_hello peer_addr) "hello" ctx [name ++ (if first then "1" else "2")].

(** The services of the registry example, with the methods of its servers. *)
Definition registry_trait (name method : string) (args : list string) (ty : string) : Service string :=
  MkService [] "pub" (MkIdent false name)
    [MkRpcMethod [] (MkIdent false method) (map (λ a, MkPatType (plain (MkIdent false a)) ty) args) (Some ty)].
Definition hello_trait : Service string := registry_trait "Hello" "hello" ["name"] "String".
Definition goodbye_trait : Service string := registry_trait "Goodbye" "goodbye" ["name"] "String".
Definition registry_add_trait : Service string := registry_trait "Add" "add" ["x"; "y"] "i32".
Definition subtract_trait : Service string := registry_trait "Subtract" "subtract" ["x"; "y"] "i32".
Definition discovery_trait : Service string :=
  MkService [] "pub" (MkIdent false "ServiceDiscovery") [MkRpcMethod [] (MkIdent false "list_services") [] (Some "Vec<String>")].

Definition greeter (greet : string → string) : Implementation string unit := λ _ _ args,
  match args with [name] => mret (greet name) | _ => panic end.
Definition operator (op : Z → Z → Exec Z) : Implementation Z unit := λ _ _ args,
  match args with [x; y] => lift_exec (op x y) | _ => panic end.

(** The services of the publish/subscribe example. *)
Definition subscriber_trait : Service string :=
  MkService [] "pub" (MkIdent false "Subscriber")
    [MkRpcMethod [] (MkIdent false "topics") [] (Some "Vec<String>");
     MkRpcMethod [] (MkIdent false "receive")
       [MkPatType (plain (MkIdent false "topic")) "String"; MkPatType (plain (MkIdent false "message")) "String"] None].
Definition publisher_trait : Service string :=
  MkService [] "pub" (MkIdent false "Publisher")
    [MkRpcMethod [] (MkIdent false "publish")
       [MkPatType (plain (MkIdent false "topic")) "String"; MkPatType (plain (MkIdent false "message")) "String"] None].

Example traits_accepted :
  forallb (λ sv, accepted no_cfg (items_of sv))
    [hello_trait; goodbye_trait; registry_add_trait; subtract_trait; discovery_trait; subscriber_trait; publisher_trait] = true.
Proof. vm_compute. reflexivity. Qed.
Example registry_serves :
  call hello_trait (greeter Registry.hello) "hello" demo_ctx ["Tim"] tt = Done (Ok "Hello, Tim", tt) ∧
  call goodbye_trait (greeter Registry.goodbye) "goodbye" demo_ctx ["Tim"] tt = Done (Ok "Goodbye, Tim", tt) ∧
  call registry_add_trait (operator Registry.add) "add" demo_ctx [1; 2]%Z tt = Done (Ok 3%Z, tt) ∧
  call subtract_trait (operator Registry.subtract) "subtract" demo_ctx [1; 2]%Z tt = Done (Ok (-1)%Z, tt).
Proof. split_and!; vm_compute; reflexivity. Qed.

Example readme_greets :
  call world_trait readme_hello "hello" demo_ctx ["Stim"] tt = Done (Ok "Hello, Stim!", tt).
Proof. vm_compute. reflexivity. Qed.
Example compression_greets :
  call world_trait compression_hello "hello" demo_ctx ["friend"] tt = Done (Ok "Hey, friend!", tt).
Proof. vm_compute. reflexivity. Qed.
Example ping_pings : call ping_trait ping "ping" demo_ctx [] tt = Done (Ok tt, tt).
Proof. vm_compute. reflexivity. Qed.
Example service_greets first :
  two_hellos "[::1]:5000" "Bob" first demo_ctx (0%Z, [4]%Z) =
    Done (Ok ("Hello, Bob" ++ (if first then "1" else "2") ++ "! You are connected from [::1]:5000"), (4%Z, [])).
Proof. destruct first; vm_compute; reflexivity. Qed.
End Greetings.
