(* ===== verification/SerdeTests.v ===== *)
(** * The serde transport's unit tests, replayed on the model

    The tests of tarpc/src/serde_transport.rs: the temporary paths, on a set of files; and
    the transport over the test's in-memory byte stream, with the length-delimited framing
    and the JSON strings that the tests use; and the echo over sockets, which are a pair
    of byte queues here. *)
From Stdlib Require Import Ascii.
From S2P Require Import Prelude Interfaces Trace Transport Peers SerdeTransport.

Module SerdeTests.
Import SerdeTransport.

(** ** Temporary paths *)

Section temp_path.
Definition temp_dir : string := "/tmp".
(** What the random number generator gives. *)
Context (random : Z).

Definition with_random : string → TempPath.TempPathBuf := TempPath.with_random temp_dir random.
Definition exists_ (p : string) (files : gset string) : bool := bool_decide (p ∈ files).
Definition create (p : string) (files : gset string) : gset string := {[p]} ∪ files.
Definition drop_path : TempPath.TempPathBuf → gset string → gset string := TempPath.drop (λ _, false).

(** [Path::file_name]: what follows the last separator. *)
Fixpoint after_sep (s acc : list ascii) : list ascii :=
  match s with
  | [] => acc
  | c :: s => if bool_decide (c = "/"%char) then after_sep s s else after_sep s acc
  end.
Definition file_name (p : string) : string :=
  let s := String.list_ascii_of_string p in String.string_of_list_ascii (after_sep s s).

Definition temp_path_buf_non_random : bool :=
  let sock := TempPath.new temp_dir "test" in
  bool_decide (TempPath.as_ref sock = TempPath.path_push temp_dir "test") && bool_decide (file_name (TempPath.as_ref sock) = "test").

Definition temp_path_buf_random : bool :=
  let sock := with_random "test" in
  let fname := file_name (TempPath.as_ref sock) in
  String.prefix temp_dir (TempPath.as_ref sock) && String.prefix "test_" fname && bool_decide (String.length fname = 21).

(** The tests on files: whether the path exists before and after the drop. *)
Definition temp_path_buf_non_existing (files : gset string) : bool * bool :=
  let sock := with_random "test" in
  let sock_path := TempPath.as_ref sock in
  (exists_ sock_path files, exists_ sock_path (drop_path sock files)).

Definition temp_path_buf_existing_file (files : gset string) : bool * bool :=
  let sock := with_random "test" in
  let sock_path := TempPath.as_ref sock in
  let files := create sock_path files in
  (exists_ sock_path files, exists_ sock_path (drop_path sock files)).

Definition temp_path_buf_preexisting_file (files : gset string) : bool * bool :=
  let pre_existing := TempPath.path_push temp_dir "test" in
  let files := create pre_existing files in
  let sock := TempPath.new temp_dir "test" in
  let sock_path := TempPath.as_ref sock in
  (exists_ sock_path files, exists_ sock_path (drop_path sock files)).

(** Binding a Unix socket creates its file. *)
Definition temp_path_buf_for_socket (files : gset string) : bool * bool :=
  let sock := with_random "test" in
  let sock_path := TempPath.as_ref sock in
  let files := create sock_path files in
  (exists_ sock_path files, exists_ sock_path (drop_path sock files)).

Lemma drop_exists sock files : exists_ (TempPath.as_ref sock) (drop_path sock files) = false.
Proof.
  unfold exists_, drop_path, TempPath.drop, TempPath.remove_file, TempPath.as_ref. apply bool_decide_false.
  case_bool_decide; simpl; set_solver.
Qed.

(** Whatever the random number and whatever files there are. *)
Theorem temp_path_tests_pass files :
  temp_path_buf_non_random = true ∧ temp_path_buf_existing_file files = (true, false) ∧
  temp_path_buf_preexisting_file files = (true, false) ∧ temp_path_buf_for_socket files = (true, false) ∧
  (TempPath.as_ref (with_random "test") ∉ files → temp_path_buf_non_existing files = (false, false)).
Proof.
  assert (Hc : ∀ p fs, exists_ p (create p fs) = true) by (intros p fs; unfold exists_, create; apply bool_decide_true; set_solver).
  split_and!; [by vm_compute|..].
  - unfold temp_path_buf_existing_file. by rewrite Hc, drop_exists.
  - unfold temp_path_buf_preexisting_file. f_equal; [apply Hc|apply drop_exists].
  - unfold temp_path_buf_for_socket. by rewrite Hc, drop_exists.
  - intros Hn. unfold temp_path_buf_non_existing. f_equal; [by apply bool_decide_false|apply drop_exists].
Qed.
End temp_path.

Example temp_path_random_passes : forallb temp_path_buf_random [0; 255; 1311768467463790320; 18446744073709551615]%Z = true.
Proof. by vm_compute. Qed.

(** ** The test's byte stream *)

(** [TestIo]: a [Cursor<Vec<u8>>], read and written at its position. *)
Record TestIo := MkTestIo { io_bytes : list ascii; io_pos : nat }.

Definition io_read (n : nat) (io : TestIo) : list ascii * TestIo :=
  let bytes := take n (drop (io_pos io) (io_bytes io)) in (bytes, MkTestIo (io_bytes io) (io_pos io + length bytes)).
Definition io_write (bytes : list ascii) (io : TestIo) : TestIo :=
  MkTestIo (take (io_pos io) (io_bytes io) ++ bytes ++ drop (io_pos io + length bytes) (io_bytes io)) (io_pos io + length bytes).

(** A frame has its length before it, in four bytes. *)
Definition byte (n : N) : ascii := ascii_of_N n.
Definition frame (payload : list ascii) : list ascii :=
  let n := N.of_nat (length payload) in
  [byte (n / 16777216); byte (n / 65536); byte (n / 256); byte n] ++ payload.
Definition frame_length (h : list ascii) : nat := N.to_nat (fold_left (λ n c, n * 256 + N_of_ascii c)%N h 0%N).

(** A JSON string of characters that need no escape. *)
Definition quote : ascii := "034"%char.
Definition plain (c : ascii) : bool := bool_decide (32 ≤ nat_of_ascii c < 127 ∧ c ≠ quote ∧ c ≠ "\"%char).
Definition json_encode (s : string) : Result (list ascii) string :=
  let cs := String.list_ascii_of_string s in
  if forallb plain cs then Ok ([quote] ++ cs ++ [quote]) else Err "unsupported".
Definition json_decode (b : list ascii) : Result string string :=
  match b with
  | q :: b =>
      let cs := removelast b in
      if bool_decide (q = quote ∧ last b = Some quote) && forallb plain cs then Ok (String.string_of_list_ascii cs) else Err "syntax"
  | [] => Err "syntax"
  end.

(** [Framed<TestIo, LengthDelimitedCodec>] with [SymmetricalJson]: the bytes to write wait
    for a flush. *)
Definition json_framed : SerdeFramed (TestIo * list ascii) TestIo unit string string string := {|
  sf_new io _ := (io, []);
  sf_get_ref := fst;
  sf_poll_next '(io, w) :=
    let '(h, io) := io_read 4 io in
    match h with
    | [] => (Ready None, (io, w))
    | _ =>
        let n := frame_length h in
        let '(b, io) := io_read n io in
        if bool_decide (length b = n) then (Ready (Some (json_decode b)), (io, w)) else (Ready (Some (Err "eof")), (io, w))
    end;
  sf_poll_ready s := (Ready (Ok tt), s);
  sf_start_send x '(io, w) := match json_encode x with Ok b => (Ok tt, (io, w ++ frame b)) | Err e => (Err e, (io, w)) end;
  sf_poll_flush '(io, w) := (Ready (Ok tt), (io_write w io, []));
  sf_poll_close '(io, w) := (Ready (Ok tt), (io_write w io, []));
|}.
#[local] Existing Instance json_framed.

Definition message : string := "Test one, check check.".
(** [b"\x00\x00\x00\x18\"Test one, check check.\""]. *)
Definition data : list ascii := [byte 0; byte 0; byte 0; byte 24; quote] ++ String.list_ascii_of_string message ++ [quote].

Definition test_stream : Poll (option (Result string (IoError string))) * Poll (option (Result string (IoError string))) :=
  let transport := from (F:=json_framed) (λ io, io) (MkTestIo data 0) tt in
  let '(r1, transport) := poll_next (F:=json_framed) transport in
  let '(r2, _) := poll_next (F:=json_framed) transport in
  (r1, r2).

Definition test_sink : Poll (Result unit (IoError string)) * Result unit (IoError string) * Poll (Result unit (IoError string)) * list ascii :=
  let transport := from (F:=json_framed) (λ io, io) (MkTestIo [] 0) tt in
  let '(r1, transport) := poll_ready (F:=json_framed) transport in
  let '(r2, transport) := start_send (F:=json_framed) message transport in
  let '(r3, transport) := poll_flush (F:=json_framed) transport in
  (r1, r2, r3, io_bytes (get_ref (F:=json_framed) transport)).

Example serde_tests_pass :
  test_stream = (Ready (Some (Ok message)), Ready None) ∧
  test_sink = (Ready (Ok tt), Ok tt, Ready (Ok tt), data).
Proof. split; vm_compute; reflexivity. Qed.

(** The test [close]. *)
Definition close : Poll (Result unit (Peers.ChannelError unit)) * Result unit (Peers.ChannelError unit) :=
  let '(tx, _) := Peers.bounded (FMpsc0:=Peers.queue_fmpsc) (SinkItem:=unit) (Item:=unit) 0 in
  let '(r, tx) := Peers.poll_close tx in
  (r, (Peers.start_send tt tx).1).
Example close_passes : close = (Ready (Ok tt), Err (Peers.Send_ tt)).
Proof. vm_compute. reflexivity. Qed.

(** ** The echo over sockets *)

(** One end of a connection: the bytes that have arrived, those written, and whether the
    other end has closed. *)
Record Socket := MkSocket { so_in : list ascii; so_out : list ascii; so_eof : bool }.
Definition fresh_socket : Socket := MkSocket [] [] false.

Definition test_sockets : Sockets string unit Socket (IoError string) := {|
  socket := Socket;
  listener := string;
  socket_addr := string;
  bind a := Ok a;
  listener_local_addr l := Ok l;
  poll_accept l := (Ready (Ok (fresh_socket, "client")), l);
  socket_peer_addr _ := Ok "peer";
  socket_local_addr _ := Ok "local";
  connecting := string;
  socket_connect a := a;
  connecting_poll a := (Ready (Ok fresh_socket), a);
  builder := tt;
  new_framed _ s := s;
  framed_get_ref s := s;
|}.

(** [Framed<TcpStream, LengthDelimitedCodec>] with [SymmetricalJson]. *)
Definition socket_framed : SerdeFramed (Socket * list ascii) Socket unit string string string := {|
  sf_new s _ := (s, []);
  sf_get_ref := fst;
  sf_poll_next '(s, w) :=
    let n := frame_length (take 4 (so_in s)) in
    let rest := drop 4 (so_in s) in
    if bool_decide (4 ≤ length (so_in s) ∧ n ≤ length rest) then
      (Ready (Some (json_decode (take n rest))), (MkSocket (drop n rest) (so_out s) (so_eof s), w))
    else if so_eof s then (if bool_decide (so_in s = []) then Ready None else Ready (Some (Err "eof")), (s, w)) else (Pending, (s, w));
  sf_poll_ready s := (Ready (Ok tt), s);
  sf_start_send x '(s, w) := match json_encode x with Ok b => (Ok tt, (s, w ++ frame b)) | Err e => (Err e, (s, w)) end;
  sf_poll_flush '(s, w) := (Ready (Ok tt), (MkSocket (so_in s) (so_out s ++ w) (so_eof s), []));
  sf_poll_close '(s, w) := (Ready (Ok tt), (MkSocket (so_in s) (so_out s ++ w) (so_eof s), []));
|}.

Section echo.
#[local] Existing Instance test_sockets.
#[local] Existing Instance socket_framed.

Abbreviation TestTransport := (SerdeTransport (Socket * list ascii)).

(** What one end wrote reaches the other; [closed] when the first is gone. *)
Definition deliver (closed : bool) (from to : TestTransport) : TestTransport * TestTransport :=
  let '(f, fw) := inner from in
  let '(t, tw) := inner to in
  (MkSerdeTransport (MkSocket (so_in f) [] (so_eof f), fw),
   MkSerdeTransport (MkSocket (so_in t ++ so_out f) (so_out t) (so_eof t || closed), tw)).

(** [SinkExt::send], on a transport that is always ready. *)
Definition send (x : string) (t : TestTransport) : Result unit (IoError string) * TestTransport :=
  let '(_, t) := poll_ready t in
  let '(r, t) := start_send x t in
  let '(_, t) := poll_flush t in
  (r, t).

(** The task that serves one connection: it echoes one message and ends. *)
Definition echo (t : TestTransport) : Exec TestTransport :=
  match poll_next t with
  | (Ready (Some (Ok message)), t) =>
      match send message t with
      | (Ok _, t) => Done t
      | (Err _, _) => Panicked Unexpected
      end
  | _ => Panicked Unexpected
  end.

(** The body of the four tests, given the listener and the future of the connection. *)
Definition echo_test (incoming : Result (SerdeTransport.Incoming (Codec:=unit)) (IoError string))
    (connect : string → Connect (Codec:=unit))
    : Exec (Poll (option (Result string (IoError string))) * Poll (option (Result string (IoError string)))) :=
  l ← expect_ok incoming;
  match incoming_poll_next l, connect_poll (connect (incoming_local_addr l)) with
  | (Ready (Some (Ok server)), _), (Ready (Ok client), _) =>
      let '(r, client) := send "test" client in
      _ ← expect_ok r;
      let '(client, server) := deliver false client server in
      server ← echo server;
      let '(_, client) := deliver true server client in
      let '(r1, client) := poll_next client in
      let '(r2, _) := poll_next client in
      Done (r1, r2)
  | _, _ => Panicked Unexpected
  end.

Definition codec (_ : unit) : unit := tt.
Definition tcp := echo_test (listen "0.0.0.0:0" codec) (λ a, connect a codec).
Definition tcp_on_existing_transport :=
  l ← expect_ok (bind "0.0.0.0:0");
  echo_test (listen_on l codec) (λ a, connect a codec).
(** Over Unix sockets the client connects to the path. *)
Definition uds (random : Z) :=
  let sock := with_random random "uds" in
  echo_test (unix_listen (TempPath.as_ref sock) codec) (λ _, unix_connect (TempPath.as_ref sock) codec).
Definition uds_on_existing_transport (random : Z) :=
  let sock := with_random random "uds" in
  l ← expect_ok (bind (TempPath.as_ref sock));
  echo_test (unix_listen_on l codec) (λ _, unix_connect (TempPath.as_ref sock) codec).

Lemma echo_passes (incoming : SerdeTransport.Incoming (Codec:=unit)) c :
  echo_test (Ok incoming) c = Done (Ready (Some (Ok "test")), Ready None).
Proof. destruct incoming. vm_compute. reflexivity. Qed.

Theorem echo_tests_pass random :
  tcp = Done (Ready (Some (Ok "test")), Ready None) ∧
  tcp_on_existing_transport = Done (Ready (Some (Ok "test")), Ready None) ∧
  uds random = Done (Ready (Some (Ok "test")), Ready None) ∧
  uds_on_existing_transport random = Done (Ready (Some (Ok "test")), Ready None).
Proof. split_and!; exact (echo_passes (MkIncoming _ _ _ _) _). Qed.
End echo.
End SerdeTests.
