(* ===== verification/ServerTests.v ===== *)
(** * The server's unit tests, replayed on the model

    The tests of tarpc/src/server.rs, server/in_flight_requests.rs and server/limits/*.rs as programs on the model, with the test double
    [FakeChannel] of server/testing.rs: each is evaluated and found to give what the test
    asserts.  Time is a number of nanoseconds; a test that pauses and advances the clock
    gives the later polls a later time. *)
From S2P Require Import Prelude Interfaces RefModels Trace Wire TimerTable Transport Cancellations ServerInFlight ServerChannel ServerSpec ServerRefine ServerRequests Limits ChannelsPerKey Hooks Peers.

Module ServerTests.
Export Limits.

Definition secs (n : Z) : Z := n * 1000000000.

(** [Result::unwrap] in a test. *)
Definition unwrap {S A E} (r : Result A E) : M S A := lift_exec (expect_ok r).

(** What a test observes. *)
Definition run {S A} (m : M S A) (s : S) : Exec A := x ← m s; Done x.1.

(** ** testing.rs: [FakeChannel] *)

Section fake.
Context {Span Req Resp Error : Type}.

(** The queues, the table and its abort states; the cancellation channel of the double is
    held and not used. *)
Record FakeChannel := MkFakeChannel {
  fk_stream : list (Result (TrackedRequest Span Req) Error);
  fk_sink : list (Response Resp);
  fk_config : Config;
  fk_in_flight_requests : SIF.InFlightRequests (Span:=Span);
  fk_aborts : gmap nat abort_inner;
  fk_canceled_requests : mpsc Z;
}.

Definition fake_default : FakeChannel :=
  MkFakeChannel [] [] config_default SIF.default ∅ Cancellations.cancellations.

Definition fake_poll_next : M FakeChannel (Poll (option (Result (TrackedRequest Span Req) Error))) := λ c,
  Done (Ready (head (fk_stream c)),
        MkFakeChannel (tail (fk_stream c)) (fk_sink c) (fk_config c) (fk_in_flight_requests c) (fk_aborts c)
          (fk_canceled_requests c)).

(** The sink of a [VecDeque] is always ready. *)
Definition fake_ready : M FakeChannel (Poll (Result unit Error)) := mret (Ready (Ok tt)).

Definition fake_start_send (response : Response Resp) : M FakeChannel (Result unit Error) := λ c,
  '(_, i) ← SIF.remove_request (fk_in_flight_requests c) (request_id response);
  Done (Ok tt, MkFakeChannel (fk_stream c) (fk_sink c ++ [response]) (fk_config c) i (fk_aborts c) (fk_canceled_requests c)).

(** The guards of the double's requests have a cancellation channel of their own. *)
#[export] Instance fake_channel : Channel Span Req Resp Error := {|
  channel := FakeChannel;
  ch_poll_next _ _ := fake_poll_next;
  ch_poll_ready := fake_ready;
  ch_start_send := fake_start_send;
  ch_poll_flush := fake_ready;
  ch_poll_close := fake_ready;
  ch_config := fk_config;
  ch_in_flight_requests c := SIF.len (fk_in_flight_requests c);
  ch_guard_drop _ c := c;
  ch_is_aborted h c := SIF.is_aborted (fk_aborts c) h;
|}.

Definition push_req (now : Z) (span_none : Span) (i : Z) (m : Req) (c : FakeChannel) : FakeChannel :=
  let abort_registration := fresh (dom (fk_aborts c)) in
  MkFakeChannel
    (fk_stream c ++
       [Ok (MkTrackedRequest (MkRequest (MkContext now trace_context_default) i m) abort_registration span_none
              (MkResponseGuard i false))])
    (fk_sink c) (fk_config c) (fk_in_flight_requests c) (<[abort_registration := abort_new]> (fk_aborts c))
    (fk_canceled_requests c).

Definition fake_start_request (now i d : Z) (sp : Span) : M FakeChannel (Result nat unit) := λ c,
  '(r, inf, ab) ← SIF.start_request (fk_in_flight_requests c) (fk_aborts c) now i d sp;
  Done (r, MkFakeChannel (fk_stream c) (fk_sink c) (fk_config c) inf ab (fk_canceled_requests c)).
End fake.
Arguments FakeChannel Span Req Resp Error : clear implicits.

(** [PollExt::is_done]. *)
Definition is_done {T} (p : Poll (option T)) : bool := match p with Ready None => true | _ => false end.

(** ** requests_per_channel.rs *)

Definition fake : Channel unit Z Z unit := fake_channel.
Definition throttler (max : nat) (c : FakeChannel unit Z Z unit) : MaxRequests fake := MkMaxRequests max c.

Definition throttler_in_flight_requests : Exec nat :=
  '(_, c) ← foldl (λ m i, '(_, c) ← m; (r ← fake_start_request 0 i (secs 1) tt; unwrap r) c)
              (Done (0, fake_default : FakeChannel unit Z Z unit)) [0; 1; 2; 3; 4]%Z;
  Done (ch_in_flight_requests (Channel:=max_requests fake) (throttler 0 c)).

Definition throttler_poll_next_done : Exec bool :=
  run (p ← ch_poll_next (Channel:=max_requests fake) 8 0; mret (is_done p)) (throttler 0 fake_default).

Definition throttler_poll_next_some : Exec (bool * option (Z * Z)) :=
  run (r ← ch_poll_ready (Channel:=max_requests fake);
       p ← ch_poll_next (Channel:=max_requests fake) 8 0;
       mret (negb (is_pending r),
             match p with Ready (Some (Ok r)) => Some (id (tr_request r), message (tr_request r)) | _ => None end))
    (throttler 1 (push_req 0 tt 0 1%Z fake_default)).

Definition throttler_poll_next_throttled : Exec (bool * list (Z * bool)) :=
  '(p, t) ← ch_poll_next (Channel:=max_requests fake) 8 0 (throttler 0 (push_req 0 tt 1 1%Z fake_default));
  Done (is_done p, (λ r, (request_id r, is_ok (response_message r))) <$> fk_sink (inner (C:=fake) t)).

Definition throttler_start_send : Exec (nat * list (Response Z)) :=
  '(_, t) ← (r ← on_inner (C:=fake) (fake_start_request 0 0 (secs 1) tt);
             _ ← unwrap r;
             r ← ch_start_send (Channel:=max_requests fake) (MkResponse 0 (Ok 1%Z));
             unwrap r) (throttler 0 fake_default);
  Done (ch_in_flight_requests (Channel:=fake) (inner (C:=fake) t), fk_sink (inner (C:=fake) t)).

(** The double [PendingSink]: its stream and its configuration are not implemented. *)
Definition pending_sink : Channel unit Z Z unit := {|
  channel := unit;
  ch_poll_next _ _ := panic;
  ch_poll_ready := mret Pending;
  ch_start_send _ := mret (Err tt);
  ch_poll_flush := mret Pending;
  ch_poll_close := mret Pending;
  ch_config _ := config_default;
  ch_in_flight_requests _ := 0;
  ch_guard_drop _ c := c;
  ch_is_aborted _ _ := false;
|}.

Definition throttler_poll_next_throttled_sink_not_ready : Exec bool :=
  run (p ← ch_poll_next (Channel:=max_requests pending_sink) 8 0; mret (is_pending p))
    (MkMaxRequests (C:=pending_sink) 0 tt).

Example requests_per_channel_tests :
  throttler_in_flight_requests = Done 5 ∧
  throttler_poll_next_done = Done true ∧
  throttler_poll_next_some = Done (true, Some (0, 1)%Z) ∧
  throttler_poll_next_throttled = Done (true, [(1%Z, false)]) ∧
  throttler_poll_next_throttled_sink_not_ready = Done true ∧
  throttler_start_send = Done (0, [MkResponse 0 (Ok 1%Z)]).
Proof. split_and!; vm_compute; reflexivity. Qed.

(** ** server/in_flight_requests.rs *)

Abbreviation Table := (SIF.InFlightRequests (Span:=unit) * gmap nat abort_inner)%type.
Definition table : Table := (SIF.default, ∅).

Definition table_start (now i d : Z) : M Table nat := λ t,
  '(r, inf, ab) ← SIF.start_request t.1 t.2 now i d tt;
  h ← expect_ok r; Done (h, (inf, ab)).
Definition table_len : M Table nat := λ t, Done (SIF.len t.1, t).
Definition table_poll_expired (now : Z) : M Table (Poll (option Z)) := λ t,
  let '(p, inf, ab) := SIF.poll_expired t.1 t.2 now in Done (p, (inf, ab)).
(** Polling an [Abortable] of a future that is never ready. *)
Definition table_aborted (h : nat) : M Table bool := λ t, Done (SIF.is_aborted t.2 h, t).
Definition table_no_deadlines : M Table bool := λ t, Done (dq_is_empty (SIF.deadlines t.1), t).

Definition start_request_increases_len : Exec (nat * nat) :=
  run (n ← table_len; _ ← table_start 0 0 0; m ← table_len; mret (n, m)) table.

Definition polling_expired_aborts : Exec (Poll (option Z) * bool * nat) :=
  run (h ← table_start 0 0 0; p ← table_poll_expired (secs 1000); a ← table_aborted h; n ← table_len;
       mret (p, a, n)) table.

Definition cancel_request_aborts : Exec (bool * bool * nat) :=
  run (h ← table_start 0 0 0;
       c ← (λ t : Table, '(b, inf, ab) ← SIF.cancel_request t.1 t.2 0; Done (b, (inf, ab)));
       a ← table_aborted h; n ← table_len; mret (c, a, n)) table.

Definition remove_request_doesnt_abort : Exec (list bool * nat) :=
  run (e0 ← table_no_deadlines;
       h ← table_start 0 0 (secs 10);
       p ← table_poll_expired 0;
       e1 ← table_no_deadlines;
       r ← (λ t : Table, '(o, inf) ← SIF.remove_request t.1 0; Done (bool_decide (o = Some tt), (inf, t.2)));
       e2 ← table_no_deadlines;
       q ← table_poll_expired 0;
       a ← table_aborted h; n ← table_len;
       mret ([e0; is_pending p; e1; r; e2; is_done q; a], n)) table.

Example in_flight_requests_tests :
  start_request_increases_len = Done (0, 1) ∧
  polling_expired_aborts = Done (Ready (Some 0%Z), true, 0) ∧
  cancel_request_aborts = Done (true, true, 0) ∧
  remove_request_doesnt_abort = Done ([true; true; false; true; true; true; false], 0).
Proof. split_and!; vm_compute; reflexivity. Qed.

(** ** server.rs: [BaseChannel] *)

Section base.
Context {E : Type} {T : Transport (Response unit) (ClientMessage unit) E}.

(** The generator, the spans and the tracing layer of the tests. *)
Definition test_rng (_ : unit) : Z * unit := (7%Z, tt).
Definition test_span (_ : Request unit) : unit := tt.
Definition test_active (_ : unit) (_ : OtelContext) : option otel_span_context := None.

Definition test_base : Channel unit unit unit (ChannelError.t E) := base_channel (T:=T) test_rng test_span test_active.

(** A request with [context::current()], whose deadline is in ten seconds. *)
Definition test_request (now i : Z) : Request unit := MkRequest (MkContext (now + secs 10) trace_context_default) i tt.
Definition fake_request (now : Z) : ClientMessage unit := ClientRequest (test_request now 0).

Definition base_start (now i : Z) : M (channel test_base) (TrackedRequest unit unit) :=
  r ← start_request (T:=T) test_rng test_span test_active now (test_request now i); unwrap r.
Definition base_poll (now : Z) : M (channel test_base) (Poll (option (Result (TrackedRequest unit unit) (ChannelError.t E)))) :=
  ch_poll_next (Channel:=test_base) 8 now.
Definition base_aborted (r : TrackedRequest unit unit) : M (channel test_base) bool := λ c,
  Done (ch_is_aborted (Channel:=test_base) (tr_abort_registration r) c, c).
Definition base_len : M (channel test_base) nat := λ c, Done (ch_in_flight_requests (Channel:=test_base) c, c).

(** The kind of a poll of the channel, for the assertions. *)
Definition is_request {X Y} (p : Poll (option (Result X Y))) : bool := match p with Ready (Some (Ok _)) => true | _ => false end.

(** The other end of the transport acts. *)
Definition on_peer (f : transport T → transport T) : M (channel test_base) unit := λ c,
  Done (tt, set_transport (T:=T) (f (bc_transport c)) c).
End base.

Section base_tests.
Abbreviation Mem := (MemChannel.unbounded_transport (Item:=ClientMessage unit) (SinkItem:=Response unit)).

Definition test_channel : channel (test_base (T:=Mem)) := new (T:=Mem) config_default (MemChannel.unbounded).1 tt.

(** [tx.send(m)] and [drop(tx)] of the test. *)
Definition peer_send (m : ClientMessage unit) (c : transport Mem) : transport Mem :=
  MemChannel.MkUnboundedChannel (mpsc_unbounded_send (MemChannel.rx c) m).2 (MemChannel.tx c).
Definition peer_drop (c : transport Mem) : transport Mem :=
  MemChannel.MkUnboundedChannel (mpsc_drop_sender (MemChannel.rx c)) (mpsc_close (MemChannel.tx c)).

Definition base_channel_start_send_duplicate_request_returns_error : Exec bool :=
  run (_ ← base_start 0 0;
       r ← start_request (T:=Mem) test_rng test_span test_active 0 (test_request 0 0); mret (is_ok r)) test_channel.

Definition base_channel_poll_next_aborts_multiple_requests : Exec (bool * bool * bool) :=
  run (req0 ← base_start 0 0; req1 ← base_start 0 1; p ← base_poll (secs 1000);
       a0 ← base_aborted req0; a1 ← base_aborted req1; mret (is_pending p, a0, a1)) test_channel.

Definition base_channel_poll_next_aborts_canceled_request : Exec (bool * bool) :=
  run (req ← base_start 0 0; _ ← on_peer (peer_send (ClientCancel trace_context_default 0)); p ← base_poll 0;
       a ← base_aborted req; mret (is_pending p, a)) test_channel.

Definition base_channel_with_closed_transport_and_in_flight_request_returns_pending : Exec bool :=
  run (_ ← base_start 0 0; _ ← on_peer peer_drop; p ← base_poll 0; mret (is_pending p)) test_channel.

Definition base_channel_with_closed_transport_and_no_in_flight_requests_returns_closed : Exec bool :=
  run (_ ← on_peer peer_drop; p ← base_poll 0; mret (is_done p)) test_channel.

Definition base_channel_poll_next_yields_request : Exec bool :=
  run (_ ← on_peer (peer_send (fake_request 0)); p ← base_poll 0; mret (is_request p)) test_channel.

Definition base_channel_poll_next_aborts_request_and_yields_request : Exec (bool * bool) :=
  run (req ← base_start 0 0; _ ← on_peer (peer_send (fake_request (secs 1000))); p ← base_poll (secs 1000);
       a ← base_aborted req; mret (is_request p, a)) test_channel.

Definition base_channel_start_send_removes_in_flight_request : Exec (nat * nat) :=
  run (_ ← base_start 0 0; n ← base_len;
       r ← ch_start_send (Channel:=test_base (T:=Mem)) (MkResponse 0 (Ok tt)); _ ← unwrap r;
       m ← base_len; mret (n, m)) test_channel.

Example base_channel_tests :
  base_channel_start_send_duplicate_request_returns_error = Done false ∧
  base_channel_poll_next_aborts_multiple_requests = Done (true, true, true) ∧
  base_channel_poll_next_aborts_canceled_request = Done (true, true) ∧
  base_channel_with_closed_transport_and_in_flight_request_returns_pending = Done true ∧
  base_channel_with_closed_transport_and_no_in_flight_requests_returns_closed = Done true ∧
  base_channel_poll_next_yields_request = Done true ∧
  base_channel_poll_next_aborts_request_and_yields_request = Done (true, true) ∧
  base_channel_start_send_removes_in_flight_request = Done (1, 0).
Proof. split_and!; vm_compute; reflexivity. Qed.

(** ** server.rs: [Requests] *)

Definition test_requests : Exec (Requests (test_base (T:=Mem))) := requests (C:=test_base (T:=Mem)) test_channel.

Definition requests_poll (now : Z) : M (Requests (test_base (T:=Mem))) (InFlightRequest unit unit) :=
  p ← poll_next_requests (C:=test_base (T:=Mem)) 8 now;
  match p with Ready (Some (Ok r)) => mret r | _ => panic end.

Definition in_flight_request_drop_cancels_request : Exec (bool * nat) :=
  q ← test_requests;
  run (_ ← on_channel (C:=test_base (T:=Mem)) (on_peer (peer_send (fake_request 0)));
       request ← requests_poll 0;
       _ ← drop_in_flight (C:=test_base (T:=Mem)) request;
       p ← on_channel (C:=test_base (T:=Mem)) (base_poll 0);
       n ← on_channel (C:=test_base (T:=Mem)) base_len; mret (is_pending p, n)) q.

Definition in_flight_requests_successful_execute_doesnt_cancel_request : Exec bool :=
  q ← test_requests;
  '(request, q) ← (_ ← on_channel (C:=test_base (T:=Mem)) (on_peer (peer_send (fake_request 0))); requests_poll 0) q;
  let '(_, q) := poll_handler (C:=test_base (T:=Mem)) (Ready (Ok tt)) (MkHandler request Serving None) q in
  run (on_channel (C:=test_base (T:=Mem)) (p ← on_canceled Cancellations.poll_recv; mret (is_pending p))) q.

Definition requests_pump_read : Exec (bool * nat) :=
  q ← test_requests;
  run (_ ← on_channel (C:=test_base (T:=Mem)) (on_peer (peer_send (fake_request 0)));
       p ← pump_read (C:=test_base (T:=Mem)) 8 0; n ← on_channel (C:=test_base (T:=Mem)) base_len; mret (is_request p, n)) q.
End base_tests.

#[local] Existing Instance Peers.queue_fmpsc.

Section bounded_tests.
Abbreviation Bounded := (Peers.bounded_transport (SendError:=unit) (Item:=ClientMessage unit) (SinkItem:=Response unit)).

(** [test_bounded_requests]: one is added to the capacity of the responses' buffer. *)
Definition test_bounded_requests (capacity : nat) : Exec (Requests (test_base (T:=Bounded))) :=
  requests (C:=test_base (T:=Bounded)) (new (T:=Bounded) (MkConfig (Z.of_nat capacity + 1)) (Peers.bounded capacity).1 tt : channel (test_base (T:=Bounded))).

(** A response written to the transport, which is then full. *)
Definition response_written : M (Requests (test_base (T:=Bounded))) unit :=
  _ ← on_channel (C:=test_base (T:=Bounded)) (base_start 0 0);
  r ← on_channel (C:=test_base (T:=Bounded)) (ch_start_send (Channel:=test_base (T:=Bounded)) (MkResponse 0 (Ok tt)));
  unwrap r.

(** A response waiting to be written. *)
Definition response_waiting : M (Requests (test_base (T:=Bounded))) unit :=
  r ← on_responses (C:=test_base (T:=Bounded)) (λ p, mpsc_poll_send p (MkResponse 1 (Ok tt)));
  match r with Ready (Ok _) => mret tt | _ => panic end.

Definition requests_poll_next_response_returns_pending_when_buffer_full : Exec bool :=
  q ← test_bounded_requests 0;
  run (_ ← response_written; _ ← response_waiting; _ ← on_channel (C:=test_base (T:=Bounded)) (base_start 0 1);
       p ← poll_next_response (C:=test_base (T:=Bounded)) 8; mret (is_pending p)) q.

Definition requests_pump_write_returns_pending_when_buffer_full : Exec (bool * bool) :=
  q ← test_bounded_requests 0;
  run (_ ← response_written; _ ← on_channel (C:=test_base (T:=Bounded)) (base_start 0 1); _ ← response_waiting;
       p ← pump_write (C:=test_base (T:=Bounded)) 8 true;
       o ← on_responses (C:=test_base (T:=Bounded)) mpsc_poll_recv;
       mret (is_pending p, match o with Ready (Some _) => true | _ => false end)) q.
End bounded_tests.

Example requests_tests :
  in_flight_request_drop_cancels_request = Done (true, 0) ∧
  in_flight_requests_successful_execute_doesnt_cancel_request = Done true ∧
  requests_pump_read = Done (true, 1) ∧
  requests_poll_next_response_returns_pending_when_buffer_full = Done true ∧
  requests_pump_write_returns_pending_when_buffer_full = Done (true, true).
Proof. split_and!; vm_compute; reflexivity. Qed.

(** ** server.rs: service functions and hooks; the world is empty or a clock *)

Definition test_context : Context := MkContext (secs 10) trace_context_default.

Definition test_serve : Exec (Result Z ServerError) :=
  run (Hooks.serve_fn_serve (Hooks.serve (λ _ i, mret (Ok i))) test_context 7%Z) tt.

(** The service asserts the deadline it sees. *)
Definition serve_before_mutates_context : Exec (Result Z ServerError) :=
  let serve := Hooks.serve_fn_serve
    (Hooks.serve (λ ctx i, if bool_decide (deadline ctx = secs 37) then mret (Ok i) else panic)) in
  let set_deadline : Hooks.BeforeRequest unit Z := λ ctx _, mret (Ok tt, MkContext (secs 37) (trace_context ctx)) in
  run (Hooks.request_hook_before serve set_deadline (MkContext (secs 83) trace_context_default) 7%Z) tt.

(** [PrintLatency], its [start] the world; what it logs is not modelled. *)
Definition serve_before_and_after (now : Z) : Exec (Result Z ServerError * Z) :=
  let serve := Hooks.serve_fn_serve (Hooks.serve (λ _ i, mret (Ok i))) in
  let before : Hooks.BeforeRequest Z Z := λ ctx _, (_ ← put now; mret (Ok tt, ctx)) in
  let after : Hooks.AfterRequest Z Z := λ ctx r, mret (r, ctx) in
  Hooks.request_hook_before_and_after serve (before, after) test_context 7%Z 0%Z.

Definition serve_before_error_aborts_request : Exec (Result Z ServerError) :=
  let serve := Hooks.serve_fn_serve (Hooks.serve (λ _ _, panic)) in
  let hook : Hooks.BeforeRequest unit Z := λ ctx _, mret (Err (server_error_new Other "oops"), ctx) in
  run (Hooks.request_hook_before serve hook test_context 7%Z) tt.

Example serve_tests :
  test_serve = Done (Ok 7%Z) ∧
  serve_before_mutates_context = Done (Ok 7%Z) ∧
  serve_before_and_after (secs 5) = Done (Ok 7%Z, secs 5) ∧
  serve_before_error_aborts_request = Done (Err (server_error_new Other "oops")).
Proof. split_and!; vm_compute; reflexivity. Qed.

(** ** channels_per_key.rs *)

(** A listener over a queue of channels whose sender is kept; a test channel is its key. *)
Definition queue_next (l : list string) : Poll (option string) * list string :=
  match l with [] => (Pending, []) | c :: l => (Ready (Some c), l) end.
Definition test_key (c : string) : option string := Some c.

Abbreviation Filter := (ChannelsPerKey.MaxChannelsPerKey (list string) string).
Definition filter_new (l : list string) : Filter := ChannelsPerKey.new l 2.
Definition key_count (s : Filter) : nat := size (ChannelsPerKey.mc_key_counts s).

(** The third result and the strong counts of the first tracker after each step. *)
Definition channel_filter_increment_channels_for_key : Exec (list nat * Result nat string) :=
  let '(r1, s) := ChannelsPerKey.increment_channels_for_key "key" (filter_new []) in
  tracker1 ← expect_ok r1;
  let n1 := ChannelsPerKey.strong_count tracker1 s in
  let '(r2, s) := ChannelsPerKey.increment_channels_for_key "key" s in
  tracker2 ← expect_ok r2;
  let n2 := ChannelsPerKey.strong_count tracker1 s in
  let '(r3, s) := ChannelsPerKey.increment_channels_for_key "key" s in
  let s := ChannelsPerKey.drop_channel tracker2 s in
  Done ([n1; n2; ChannelsPerKey.strong_count tracker1 s], r3).

Definition channel_filter_handle_new_channel : Exec (list nat * bool) :=
  '(r1, s) ← ChannelsPerKey.handle_new_channel test_key "key" (filter_new []);
  channel1 ← expect_ok r1;
  let n1 := ChannelsPerKey.strong_count (ChannelsPerKey.tc_tracker channel1) s in
  '(r2, s) ← ChannelsPerKey.handle_new_channel test_key "key" s;
  channel2 ← expect_ok r2;
  let n2 := ChannelsPerKey.strong_count (ChannelsPerKey.tc_tracker channel1) s in
  '(r3, s) ← ChannelsPerKey.handle_new_channel test_key "key" s;
  let s := ChannelsPerKey.drop_channel (ChannelsPerKey.tc_tracker channel2) s in
  Done ([n1; n2; ChannelsPerKey.strong_count (ChannelsPerKey.tc_tracker channel1) s], is_ok r3).

(** One poll of the listener that must yield a result. *)
Definition listen_once (s : Filter) : Exec (Result (ChannelsPerKey.TrackedChannel string) string * Filter) :=
  '(p, s) ← ChannelsPerKey.poll_listener queue_next test_key s;
  match p with
  | Ready (Some r) => Done (r, s)
  | _ => Panicked Unexpected
  end.

Definition channel_filter_poll_listener : Exec (list nat * option string) :=
  '(r1, s) ← listen_once (filter_new ["key"; "key"; "key"]);
  channel1 ← expect_ok r1;
  let t := ChannelsPerKey.tc_tracker channel1 in
  let n1 := ChannelsPerKey.strong_count t s in
  '(r2, s) ← listen_once s;
  _ ← expect_ok r2;
  let n2 := ChannelsPerKey.strong_count t s in
  '(r3, s) ← listen_once s;
  Done ([n1; n2; ChannelsPerKey.strong_count t s], match r3 with Err k => Some k | Ok _ => None end).

Definition channel_filter_poll_closed_channels : Exec (nat * Poll unit * nat) :=
  '(r, s) ← listen_once (filter_new ["key"]);
  channel ← expect_ok r;
  let n := key_count s in
  '(p, s) ← ChannelsPerKey.poll_closed_channels (ChannelsPerKey.drop_channel (ChannelsPerKey.tc_tracker channel) s);
  Done (n, p, key_count s).

Definition channel_filter_stream : Exec (nat * bool * nat) :=
  '(p, s) ← ChannelsPerKey.poll_next_loop queue_next test_key 8 (filter_new ["key"]);
  channel ← expect match p with Ready (Some c) => Some c | _ => None end;
  let n := key_count s in
  '(p, s) ← ChannelsPerKey.poll_next_loop queue_next test_key 8
              (ChannelsPerKey.drop_channel (ChannelsPerKey.tc_tracker channel) s);
  Done (n, is_pending p, key_count s).

(** The key of a tracker arrives when it is dropped. *)
Definition tracker_drop : Exec (Poll (option string)) :=
  let '(t, s) := ChannelsPerKey.new_tracker "1" (filter_new []) in
  Done (mpsc_poll_recv (ChannelsPerKey.mc_dropped_keys (ChannelsPerKey.drop_channel t s))).1.

Example channels_per_key_tests :
  tracker_drop = Done (Ready (Some "1")) ∧
  channel_filter_increment_channels_for_key = Done ([1; 2; 1], Err "key") ∧
  channel_filter_handle_new_channel = Done ([1; 2; 1], false) ∧
  channel_filter_poll_listener = Done ([1; 2; 2], Some "key") ∧
  channel_filter_poll_closed_channels = Done (1, Ready tt, 0) ∧
  channel_filter_stream = Done (1, true, 0).
Proof. split_and!; vm_compute; reflexivity. Qed.
End ServerTests.
