(* ===== verification/ClientTests.v ===== *)
(** * The client's unit tests, replayed on the model

    The tests of tarpc/src/client.rs as programs on the model, over the in-memory
    transport and over the transport that always fails: each is evaluated and found to
    give what the test asserts.  One test reserves a slot of the channel ahead of sending,
    which the client itself never does: it is replayed over a channel with such slots. *)
From S2P Require Import Prelude Interfaces RefModels Trace Wire Transport Cancellations ClientInFlight ClientDispatch ClientCalls.

Module ClientTests.
Export Calls.

(** ** The set-up and the helpers of the tests *)

Section helpers.
Context `{!Mpsc} {interp : unit → Type} {T : Transport (ClientMessage string) (Response string) (interp tt)}.

Abbreviation TestWorld := (World unit T).

(** [set_up] and [set_up_always_err]: the buffer of requests has one place. *)
Definition set_up_with (t : transport T) : Exec TestWorld :=
  pending ← mpsc_channel 1;
  Done (MkWorld (MkRequestDispatch t pending Cancellations.cancellations CIF.default config_default None) ∅).

(** [context::current()] at time zero. *)
Definition current : Context := MkContext 10000000000 trace_context_default.

(** [oneshot::channel()], at a location. *)
Definition channel_at (l : nat) : M TestWorld unit := on_oneshots (<[l := oneshot_channel]>).

Definition send_request (l : nat) (request_id : Z) (request : string) : M TestWorld ResponseGuard :=
  _ ← channel_at l;
  r ← on_pending (λ p, mpsc_poll_send p (MkDispatchRequest current tt request_id request l));
  match r with Ready (Ok _) => mret (MkResponseGuard l request_id true) | _ => panic end.

(** Dropping the guard, dropping the [Channel], and one poll of [ResponseGuard::response]. *)
Definition drop_guard (g : ResponseGuard) : M TestWorld unit := modify (guard_drop g).
Definition drop_handle : M TestWorld unit :=
  _ ← on_pending (λ p, (tt, mpsc_drop_sender p)); on_canceled (λ c, (tt, mpsc_drop_sender c)).
Definition response (g : ResponseGuard) : M TestWorld (Poll (Result string (RpcError.t (DynAny interp)))) :=
  λ w, Done (guard_response g w).

Definition no_in_flight : M TestWorld bool := λ w, Done (CIF.is_empty (in_flight_requests (dispatch w)), w).

(** [PollTest::ready]. *)
Definition ready {A E} (p : Poll (option (Result A E))) : M TestWorld (option A) :=
  match p with
  | Ready (Some (Ok t)) => mret (Some t)
  | Ready None => mret None
  | Ready (Some (Err _)) | Pending => panic
  end.

Definition observe {A} (m : M TestWorld A) (w : TestWorld) : Exec A := x ← m w; Done x.1.
End helpers.

(** ** Over the in-memory transport *)

Section memory.
Definition mem_interp (_ : unit) : Type := MemChannel.ChannelError.
Definition Mem : Transport (ClientMessage string) (Response string) (mem_interp tt) := MemChannel.unbounded_transport.

Definition set_up : Exec (World unit Mem) := set_up_with (T:=Mem) (MemChannel.unbounded).1.

(** [server_channel.send(r)]. *)
Definition send_response (r : Response string) : M (World unit Mem) unit :=
  modify (λ w : World unit Mem,
    let c : MemChannel.UnboundedChannel (Response string) (ClientMessage string) := rd_transport (dispatch w) in
    set_transport (T:=Mem) (MemChannel.MkUnboundedChannel (mpsc_unbounded_send (MemChannel.rx c) r).2 (MemChannel.tx c)) w).

Definition test_poll : M (World unit Mem) (Poll (Result unit (ChannelError.t MemChannel.ChannelError))) := poll (T:=Mem) 8 0.

Definition response_completes_request_future : Exec (bool * Poll (Result string (RpcError.t (DynAny mem_interp)))) :=
  w ← set_up;
  observe (_ ← channel_at 0;
           r ← on_in_flight (λ i st, CIF.insert_request i st 0 0 current tt 0);
           _ ← lift_exec (expect_ok r);
           _ ← send_response (MkResponse 0 (Ok "Resp"));
           p ← test_poll;
           x ← response (MkResponseGuard 0 0 true);
           mret (is_pending p, x)) w.

Definition dispatch_response_cancels_on_drop : Exec (Poll (option Z)) :=
  w ← set_up;
  observe (_ ← channel_at 0; _ ← drop_guard (MkResponseGuard 0 3 true); on_canceled Cancellations.poll_recv) w.

Definition dispatch_response_doesnt_cancel_after_complete : Exec (bool * Poll (option Z)) :=
  w ← set_up;
  observe (_ ← channel_at 0; _ ← on_oneshots (CIF.store_send 0 (Ok "well done"));
           x ← response (MkResponseGuard 0 3 true);
           _ ← drop_handle;
           c ← on_canceled Cancellations.poll_recv;
           mret (match x with Ready (Ok _) => true | _ => false end, c)) w.

Definition stage_request : Exec (option (Z * string)) :=
  w ← set_up;
  observe (_ ← send_request 0 0 "hi"; p ← poll_next_request (T:=Mem) 8; req ← ready p;
           mret ((λ r, (dr_request_id r, dr_request r)) <$> req)) w.

(** The guard is dropped at once; the dispatch ends, and a late response does no harm. *)
Definition stage_request_channel_dropped_doesnt_panic : Exec (Poll (Result unit (ChannelError.t MemChannel.ChannelError)) * bool) :=
  w ← set_up;
  observe (g ← send_request 0 0 "hi"; _ ← drop_guard g; _ ← drop_handle; p ← test_poll;
           _ ← send_response (MkResponse 0 (Ok "hello")); q ← test_poll; mret (p, negb (is_pending q))) w.

Definition stage_request_response_future_dropped_is_canceled_before_sending : Exec (option Z) :=
  w ← set_up;
  observe (g ← send_request 0 0 "hi"; _ ← drop_guard g; _ ← drop_handle;
           p ← poll_next_request (T:=Mem) 8; req ← ready p; mret (dr_request_id <$> req)) w.

Definition stage_request_response_future_dropped_is_canceled_after_sending : Exec (bool * bool * bool * bool) :=
  w ← set_up;
  observe (req ← send_request 0 0 "hi"; p ← pump_write (T:=Mem) 8 0; written ← ready p; e0 ← no_in_flight;
           _ ← drop_guard req; c ← poll_next_cancellation (T:=Mem) 8; e1 ← no_in_flight;
           mret (bool_decide (written = Some tt), e0, match c with Ready (Some (Ok _)) => true | _ => false end, e1)) w.

Definition stage_request_response_closed_skipped : Exec bool :=
  w ← set_up;
  observe (g ← send_request 0 0 "hi"; _ ← modify (guard_close g); p ← poll_next_request (T:=Mem) 8; mret (is_pending p)) w.

(** With the dispatch dropped its receivers are closed. *)
Definition test_shutdown : Exec (option (Stage (interp:=mem_interp) (Span:=unit) (Req:=string) (Resp:=string))) :=
  w ← set_up;
  '(_, w) ← on_pending (λ p, (tt, mpsc_close p)) w;
  let s := (call_start (λ n : Z, (n, n)) None current tt "hi" 7%Z (MkSystem w 0 1 [] 0)).1 in
  Done (c_stage <$> s_calls (on_call poll_call 0 s) !! 0).

Example memory_tests :
  response_completes_request_future = Done (true, Ready (Ok "Resp")) ∧
  dispatch_response_cancels_on_drop = Done (Ready (Some 3%Z)) ∧
  dispatch_response_doesnt_cancel_after_complete = Done (true, Ready None) ∧
  stage_request = Done (Some (0%Z, "hi")) ∧
  stage_request_channel_dropped_doesnt_panic = Done (Ready (Ok tt), true) ∧
  stage_request_response_future_dropped_is_canceled_before_sending = Done None ∧
  stage_request_response_future_dropped_is_canceled_after_sending = Done (true, false, true, true) ∧
  stage_request_response_closed_skipped = Done true ∧
  test_shutdown = Done (Some (Returned (Err RpcError.Shutdown))).
Proof. split_and!; vm_compute; reflexivity. Qed.
End memory.

(** ** Over the transport that always fails *)

Section failing.
Definition err_interp (_ : unit) : Type := AlwaysError.TransportError.
Definition Failing : Transport (ClientMessage string) (Response string) (err_interp tt) := AlwaysError.always_error.

Definition set_up_always_err (cause : AlwaysError.TransportError) : Exec (World unit Failing) := set_up_with (T:=Failing) cause.

Abbreviation Polled := (Poll (Result unit (ChannelError.t AlwaysError.TransportError))).
Definition err_poll : M (World unit Failing) Polled := poll (T:=Failing) 8 0.

Definition test_transport_error_write : Exec (bool * Poll (Result string (RpcError.t (DynAny err_interp)))) :=
  w ← set_up_always_err AlwaysError.Write_;
  observe (g ← send_request 0 0 "hi"; p ← err_poll; r ← response g; mret (is_pending p, r)) w.

Definition test_transport_error_read : Exec (bool * Polled * Poll (Result string (RpcError.t (DynAny err_interp)))) :=
  w ← set_up_always_err AlwaysError.Read_;
  observe (g ← send_request 0 0 "hi"; x ← pump_write (T:=Failing) 8 0; written ← ready x; p ← err_poll; r ← response g;
           mret (bool_decide (written = Some tt), p, r)) w.

(** The [Channel] is dropped at once. *)
Definition test_transport_error (cause : AlwaysError.TransportError) : Exec Polled :=
  w ← set_up_always_err cause; observe (_ ← drop_handle; err_poll) w.
Definition test_transport_error_ready : Exec Polled := test_transport_error AlwaysError.ReadyE.
Definition test_transport_error_flush : Exec Polled := test_transport_error AlwaysError.Flush_.
Definition test_transport_error_close : Exec Polled := test_transport_error AlwaysError.Close_.

Definition cause (e : AlwaysError.TransportError) : DynAny err_interp := existT tt e.

Example failing_tests :
  test_transport_error_write = Done (true, Ready (Err (RpcError.Send (cause AlwaysError.Write_)))) ∧
  test_transport_error_read =
    Done (true, Ready (Err (ChannelError.Read AlwaysError.Read_)),
          Ready (Err (RpcError.Channel (ChannelError.Read (cause AlwaysError.Read_))))) ∧
  test_transport_error_ready = Done (Ready (Err (ChannelError.Ready AlwaysError.ReadyE))) ∧
  test_transport_error_flush = Done (Ready (Err (ChannelError.Flush AlwaysError.Flush_))) ∧
  test_transport_error_close = Done (Ready (Err (ChannelError.Close AlwaysError.Close_))).
Proof. split_and!; vm_compute; reflexivity. Qed.
End failing.

(** ** A slot reserved ahead of sending *)

(** A bounded channel with the slots that were reserved: they count as taken, and a closed
    channel has not ended before they are used. *)
Record PermitMpsc (A : Type) := MkPermitMpsc { pm_channel : RefMpsc A; pm_permits : nat }.
Arguments MkPermitMpsc {A} _ _.
Arguments pm_channel {A} _.
Arguments pm_permits {A} _.

Definition pm_full {A} (c : PermitMpsc A) : bool :=
  match rm_capacity (pm_channel c) with
  | None => false
  | Some cap => bool_decide (cap ≤ Z.of_nat (length (mv_queue (rm_view (pm_channel c))) + pm_permits c))%Z
  end.
Definition pm_on {A} (f : RefMpsc A → RefMpsc A) (c : PermitMpsc A) : PermitMpsc A := MkPermitMpsc (f (pm_channel c)) (pm_permits c).

(** [Sender::reserve] (one poll) and [Permit::send]. *)
Definition pm_reserve {A} (c : PermitMpsc A) : Poll (Result unit unit) * PermitMpsc A :=
  if mv_closed (rm_view (pm_channel c)) then (Ready (Err tt), c)
  else if pm_full c then (Pending, c) else (Ready (Ok tt), MkPermitMpsc (pm_channel c) (S (pm_permits c))).
Definition pm_send {A} (x : A) (c : PermitMpsc A) : PermitMpsc A :=
  MkPermitMpsc (rm_push (pm_channel c) x) (pred (pm_permits c)).

Definition permit_mpsc : Mpsc := {|
  mpsc := PermitMpsc;
  mpsc_channel A cap := c ← mpsc_channel cap; Done (MkPermitMpsc c 0);
  mpsc_unbounded_channel A := MkPermitMpsc mpsc_unbounded_channel 0;
  mpsc_poll_send A c x :=
    if mv_closed (rm_view (pm_channel c)) then (Ready (Err x), c)
    else if pm_full c then (Pending, c) else (Ready (Ok tt), pm_on (λ r, rm_push r x) c);
  mpsc_unbounded_send A c x := let '(r, c') := mpsc_unbounded_send (pm_channel c) x in (r, MkPermitMpsc c' (pm_permits c));
  mpsc_poll_recv A c :=
    if bool_decide (mv_queue (rm_view (pm_channel c)) = [] ∧ pm_permits c ≠ 0) then (Pending, c)
    else let '(r, c') := mpsc_poll_recv (pm_channel c) in (r, MkPermitMpsc c' (pm_permits c));
  mpsc_close A := pm_on mpsc_close;
  mpsc_clone_sender A := pm_on mpsc_clone_sender;
  mpsc_drop_sender A := pm_on mpsc_drop_sender;
  mpsc_is_closed A c := mpsc_is_closed (pm_channel c);
|}.

(** It keeps the laws of a channel, so everything proved of the client holds over it. *)
Program Definition permit_mpsc_laws : @MpscLaws permit_mpsc := {|
  mpsc_view A c := rm_view (pm_channel c);
|}.
Next Obligation.
  intros A cap Hcap. destruct (law_channel A cap Hcap) as (c & Hc & Hv). exists (MkPermitMpsc c 0). simpl in *. by rewrite Hc.
Qed.
Next Obligation. done. Qed.
Next Obligation. done. Qed.
Next Obligation.
  intros A c x r c'. simpl. destruct (mv_closed _) eqn:?; [|destruct (pm_full c)]; intros; simplify_eq/=; done.
Qed.
Next Obligation. intros A c x Hc. simpl in *. rewrite Hc. eauto. Qed.
Next Obligation. intros A c x Hc. simpl in *. rewrite Hc. eauto. Qed.
Next Obligation.
  intros A c r c'. simpl. case_bool_decide; [by intros; simplify_eq/=|].
  destruct (rm_poll_recv _) as [r1 c1] eqn:Hp. intros; simplify_eq/=. exact (law_poll_recv A (pm_channel c) r c1 Hp).
Qed.
Next Obligation. done. Qed.
Next Obligation. done. Qed.
Next Obligation. done. Qed.
Next Obligation. done. Qed.

Section permits.
#[local] Existing Instance permit_mpsc.

Abbreviation PermitWorld := (World (H1:=permit_mpsc) unit Failing).

(** [reserve_for_send]: the place now, the request later. *)
Definition reserve_for_send (l : nat) : M PermitWorld unit :=
  _ ← channel_at l;
  r ← on_pending (T:=Failing) (λ p : @mpsc permit_mpsc _, pm_reserve p);
  match r with Ready (Ok _) => mret tt | _ => panic end.
Definition permit (l : nat) (request_id : Z) (request : string) : M PermitWorld ResponseGuard :=
  _ ← on_pending (T:=Failing) (λ p : @mpsc permit_mpsc _, (tt, pm_send (MkDispatchRequest current tt request_id request l) p));
  mret (MkResponseGuard l request_id true).

(** While the slot is reserved the failed dispatch waits; the request sent in it is
    answered with the failure. *)
Definition test_permit_before_transport_error :
    Exec (bool * Poll (Result unit (ChannelError.t AlwaysError.TransportError)) * Poll (Result string (RpcError.t (DynAny err_interp)))) :=
  w ← set_up_with (T:=Failing) AlwaysError.Flush_;
  observe (_ ← reserve_for_send 0;
           p ← poll (T:=Failing) 8 0;
           resp ← permit 0 0 "hi";
           q ← poll (T:=Failing) 8 0;
           r ← response resp;
           mret (is_pending p, q, r)) w.

Example permit_test :
  test_permit_before_transport_error =
    Done (true, Ready (Err (ChannelError.Flush AlwaysError.Flush_)),
          Ready (Err (RpcError.Channel (ChannelError.Flush (cause AlwaysError.Flush_))))).
Proof. vm_compute. reflexivity. Qed.
End permits.
End ClientTests.
